(* ===== verification/_CoqProject ===== *)
-Q . S2P
Prelude.v
Bitfield.v
IntMath.v
AddrRanges.v
Clocked.v
MemCmd.v
Packet.v
PacketQueues.v
AbstractMem.v
Containers.v
EventQueue.v
EventQueueSpec.v
FlitPacker.v
Latency.v
SimpleMem.v
Bridge.v
XBarLayer.v
UcieLink.v
UcieSystem.v
UcieRuns.v
UcieInv.v
UcieSend.v
UcieProbe.v
UcieSteps.v
UcieProgress.v
UcieStall.v
UcieLoss.v
UcieTheorems.v
UcieAccess.v
Rtl.v
PhyScramble.v
PhyLanes.v
PhyDetect.v
PhyDatapath.v
PhyFaults.v
PhySideband.v
PhySidebandLink.v
PhySerdes.v
PhyTraining.v
PhyLtssm.v
PhyLinkUp.v
PhyLinkFaults.v
PhyHandshake.v
PhyCal.v
PhyControl.v
PhyTop.v
PhyTopFaults.v
