(* ===== verification/Prelude.v ===== *)
(** * A UCIe chiplet link: a verification library

    The repository has two halves.  src/gem5 is the gem5 simulator with a UCIe
    (Universal Chiplet Interconnect Express) link added to its memory system,
    src/gem5/src/mem/ucie/ucie_link.cc and .hh; src/Logical PHY/RTL is a
    SystemVerilog implementation of the link's Logical PHY.  This library
    translates the link model with the gem5 code it stands on, and the whole
    RTL, into executable definitions and proves what they do.

    ** The simulated link

    A UcieLink object sits on each chiplet.  A requestor hands memory packets
    (TLPs) to the near link, which packs them into 256-byte flits, sends each
    flit when it has a credit and keeps it until it is acknowledged; the far
    link checks the flit, answers with an ACK or a NAK and passes the TLPs to
    the memory.  A NAK or a retry timer makes the sender replay.
    - FlitPacker.v: FlitPacker and the unpacker, as byte counts and TLP lists.
    - Latency.v: the delay and error-rate formulas in IEEE binary64.
    - UcieLink.v: one definition per method of UcieLink, UcieRxPort and
      UcieTxPort, over a world with both links, the flit store and the pending
      events.  Calls of a peer are arguments, since they can re-enter.
    - UcieSystem.v: two links tied back to back, a requestor and a memory.
    - UcieRuns.v, UcieInv.v, UcieSend.v, UcieProbe.v, UcieSteps.v: the exact
      effect of each handler, the invariant, and that every step keeps it.
    - UcieProgress.v, UcieStall.v, UcieLoss.v: the rank that the error-free link
      decreases, the stalled states, and what a duplicate sequence number and a
      NAK cost.
    - UcieTheorems.v: the guarantees.  Sequence numbers are send ticks, so much
      depends on whether two flits are transmitted in one tick; a run in which none
      are is spaced ([spaced], [reachable_spaced]).  In spaced runs, with any
      errors, and in every run without errors: delivery in order and at most once,
      absence of aborts, bounds on credits, ownership of flits.  Without errors,
      termination; in spaced runs without errors, losslessness.  The flit sent
      second in a tick is lost, a NAK leaks credits, a sender without credits
      never sends again; and runs on which recovery loses a TLP or, when not
      spaced, uses a freed flit.
    - UcieAccess.v: atomic and functional accesses, which the link only forwards,
      and the formulas of UcieStats; a functional read misses a write that the
      link holds.

    ** The gem5 code under the link

    - EventQueue.v, EventQueueSpec.v (sim/eventq.hh, eventq.cc): the two-level
      list of bins as linked records, and its refinement to a sorted list.
    - PacketQueues.v (mem/packet_queue.hh, .cc): deferred packets; conservation and
      ordering for any peer, and no aborts for one that queues at most one packet in
      a call, and none in the call in which it refuses one.
    - MemCmd.v, Packet.v (mem/packet.hh, packet.cc, request.hh): commands,
      packets, functional accesses.
    - AbstractMem.v (mem/abstract_mem.hh, .cc): contents and the exclusive monitor.
    - SimpleMem.v (mem/simple_mem.hh, .cc): a memory with latency and bandwidth on
      top of it; each request accepted is answered once, and every response leaves.
    - Bridge.v (mem/bridge.hh, .cc): the bounded queues of a bridge between a
      requestor and a memory; nothing is lost, the space reserved for responses
      is exact, and with willing peers everything leaves.
    - XBarLayer.v (BaseXBar::Layer of mem/xbar.hh, .cc): the arbitration before one
      port of a crossbar, through which the links reach the memories; first come,
      first served, and nobody starves.
    - AddrRanges.v (base/addr_range.hh): interleaved ranges; membership,
      merging, exclusion, and the two bit-removal round trips.
    - Containers.v (base/circular_queue.hh, sat_counter.hh, chunk_generator.hh),
      Clocked.v (sim/clocked_object.hh), Bitfield.v (base/bitfield.hh, .cc),
      IntMath.v (base/intmath.hh).
    Machine integers are [Z] with their wrap-around written out.  Code that can
    stop the simulator returns in [res]; handlers run in the state monad [M].

    ** The Logical PHY

    A synchronous module is a [circuit] (Rtl.v): reset registers, an output
    function and a step per clock; [run] and [trace] iterate it over inputs.
    Each module of the RTL has a Rocq module with its registers as a record.
    - PhyScramble.v: LFSR, scrambler, descrambler, seeds.
    - PhyLanes.v: byte-to-lane mapping, framing, repair, width degradation.
    - PhyDetect.v: lane identification and reversal.
    - PhyDatapath.v: the transmit and receive pipelines and the mainband of
      ucie_lphy_top.sv; two dies are a six-cycle delay line.
    - PhyFaults.v: what happens to broken lanes.
    - PhySideband.v, PhySidebandLink.v: packets, parity, credits, sequencing;
      two controllers joined by their words, in both directions at once.
    - PhySerdes.v: the serial sideband, with any local clock of the receiver.
    - PhyTraining.v, PhyLtssm.v: the state machines of link training and the
      orchestrator; class [Timed] states what their timeouts promise and
      PhyLinkUp.v bounds training against that class alone.
    - PhyLinkFaults.v, PhyHandshake.v: two dies exchanging messages; exits from
      ACTIVE, the LINKINIT handshake, and the ways they hang.
    - PhyCal.v: the calibration sweep.
    - PhyControl.v: adapter interface, link state machine and calibration wired
      as in ucie_lphy_top.sv; the PHY trains or reports an error in bounded time.
    - PhyTop.v: ucie_lphy_top.sv as a whole, control, mainband and sideband
      controller, and two of them in lock-step joined by their pins and messages:
      from reset on a delay line.
    - PhyTopFaults.v: the same pair joined by its pins during training too, which
      fails calibration and never becomes active.

    ** Bounds and fuel

    Loops that are not structural carry fuel, and the theorems about them show
    that the fuel given suffices: the drain loops of UcieLink.v get the length
    of their queue, the assembly loop the staged byte count, the
    event queue's walks the size of the store, bit scans the word width.
    serviceEvents, which need not end, is cut off by its fuel.  Timeouts, lane
    counts and sweep lengths of the RTL are parameters, with the
    conditions under which a bound holds as hypotheses.

    ** Assumptions

    The requestor and the memory beside the link, the peers of a packet queue, of
    the bridge, of a crossbar layer and of the simple memory, its random numbers
    and the callbacks of events are arguments.  What a theorem asks of them is a
    named record or predicate of its file, and the comment of the theorem says so:
    - [sane] and [polite] (PacketQueues.v): packets are queued with an address and
      at ticks to come; one at most in a call, and none in one that refuses.
    - [civil] and [obliging] (Bridge.v): no request is one that a cache answers and
      the memory answers within a call at most the request it takes; peers accept.
    - [serves] and [polite] (SimpleMem.v): requests that the memory can serve, and
      none in the call in which a response is rejected.
    RTL signals are two-valued and a run starts at reset.  The sideband's analog
    front end takes a word in every cycle (PhySidebandLink.v).  The serial
    receiver's local clock has three edges in any 64 cycles of the transmitter
    (PhySerdes.v).  Messages between two link state machines take one cycle, and
    the dies share a clock (PhyLinkFaults.v, PhyHandshake.v, PhyTop.v).  The dies of
    PhyTop.v and PhyTopFaults.v run in lock-step: they leave reset together and have
    the same control inputs, whatever these are; and for the delay line the pins
    seen before ACTIVE frame no data, since what the receiver takes for a frame
    advances its descramblers.

    ** Not modelled

    - Address decoding, routing and snooping in the crossbars.
    - Statistics other than those of UcieStats and of the abstract memory.
    - The back doors of the memories and of the bridge, and port look-up in them.
    - Printing, tracing, serialisation, locking between simulation threads.
    - The gated clock waveforms of the PHY and its analog pins; the connection
      between sideband controller and link state machine, which
      ucie_lphy_top.sv leaves to its ports.
    - Testbenches, Python configurations, scripts and documents.
    - The rest of gem5 (processors, instruction sets, caches, Ruby, DRAM,
      devices, GPU, SystemC, Python): upstream code that the link meets only
      through the timing protocol, as an arbitrary requestor or memory. *)

From Stdlib Require Export ZArith Lia.
From stdpp Require Export base gmap sorting numbers option list.

#[global] Open Scope Z_scope.
#[global] Set Default Goal Selector "!".

(** ** Outcomes and the simulator monad

    gem5 code either returns or stops the simulation: [assert], [panic] and
    [fatal] never return.  A handler is a state transformer whose result is
    [Ok] or one of these stops. *)

Inductive abort :=
  | AssertFailed     (* assert(...) *)
  | Panicked         (* panic(...) *)
  | FatalError       (* fatal(...) *)
  | UndefinedBehavior. (* an operation C++ leaves undefined, e.g. use after free *)

#[export] Instance abort_eq_dec : EqDecision abort.
Proof. solve_decision. Defined.

Inductive res (A : Type) :=
  | Ok (a : A)
  | Abort (e : abort).
Arguments Ok {A} a.
Arguments Abort {A} e.

#[export] Instance res_ret : MRet res := λ A a, Ok a.
#[export] Instance res_bind : MBind res := λ A B f r,
  match r with Ok a => f a | Abort e => Abort e end.
#[export] Instance res_fmap : FMap res := λ A B f r,
  match r with Ok a => Ok (f a) | Abort e => Abort e end.

(** Handlers over a state [S]. *)
Definition M (S A : Type) : Type := S → res (A * S).

#[export] Instance M_ret S : MRet (M S) := λ A a s, Ok (a, s).
#[export] Instance M_bind S : MBind (M S) := λ A B f m s,
  match m s with Ok (a, s') => f a s' | Abort e => Abort e end.

Definition get_state {S} : M S S := λ s, Ok (s, s).
Definition gets {S A} (f : S → A) : M S A := λ s, Ok (f s, s).
Definition modify {S} (f : S → S) : M S unit := λ s, Ok (tt, f s).
Definition abort_with {S A} (e : abort) : M S A := λ _, Abort e.
Definition assert_that {S} (b : bool) : M S unit :=
  if b then mret tt else abort_with AssertFailed.
Definition when_ {S} (b : bool) (m : M S unit) : M S unit :=
  if b then m else mret tt.
Definition lift_res {S A} (r : res A) : M S A := λ s,
  match r with Ok a => Ok (a, s) | Abort e => Abort e end.
Definition of_option {S A} (e : abort) (o : option A) : M S A :=
  match o with Some a => mret a | None => abort_with e end.

Lemma res_bind_ok {A B} (r : res A) (f : A → res B) b :
  (r ≫= f) = Ok b ↔ ∃ a, r = Ok a ∧ f a = Ok b.
Proof. destruct r as [a|e]; split; [by exists a|by intros (? & [= <-] & ?)|done|by intros (? & ? & _)]. Qed.

Section MonadLemmas.
Context {S : Type}.

Lemma M_bind_ok {A B} (m : M S A) (f : A → M S B) s b s' :
  (m ≫= f) s = Ok (b, s') ↔ ∃ a s1, m s = Ok (a, s1) ∧ f a s1 = Ok (b, s').
Proof.
  unfold mbind, M_bind. destruct (m s) as [[a s1]|e]; split.
  - intros H; eauto.
  - by intros (a' & s1' & [= <- <-] & H).
  - done.
  - by intros (a' & s1' & ? & ?).
Qed.

Lemma bind_run {A B} (m : M S A) (f : A → M S B) s a s' :
  m s = Ok (a, s') → (m ≫= f) s = f a s'.
Proof. intros H. unfold mbind, M_bind. by rewrite H. Qed.

Lemma M_bind_assoc {A B C} (m : M S A) (f : A → M S B) (g : B → M S C) s :
  (m ≫= λ a, f a ≫= g) s = ((m ≫= f) ≫= g) s.
Proof. unfold mbind, M_bind. by destruct (m s) as [[a s1]|]. Qed.

Lemma assert_that_ok b (s s' : S) u :
  assert_that b s = Ok (u, s') ↔ b = true ∧ s' = s ∧ u = tt.
Proof.
  destruct b, u; split; cbn.
  - by intros [= ->].
  - by intros (_ & -> & _).
  - done.
  - by intros [? _].
Qed.

Lemma of_option_ok {A} e (o : option A) (s s' : S) a :
  of_option e o s = Ok (a, s') ↔ o = Some a ∧ s' = s.
Proof.
  destruct o; split; cbn.
  - by intros [= -> ->].
  - by intros [[= ->] ->].
  - done.
  - by intros [? _].
Qed.
End MonadLemmas.

(** ** Record update

    [x <| f := v |>] and [x <| f ::= g |>], for every record with an [Eta]
    instance that rebuilds a value from its fields. *)

Class Eta (R : Type) := eta_expand : R → R.
Class Setter {R T : Type} (proj : R → T) := set_field : (T → T) → R → R.
Global Arguments set_field {R T} proj {_} f x.

Ltac derive_setter :=
  lazymatch goal with
  | |- @Setter ?R ?T ?p =>
      let h := eval hnf in (@eta_expand R _) in
      lazymatch eval pattern p in h with
      | ?s _ => exact (λ f : T → T, s (λ r, f (p r)))
      end
  end.
#[export] Hint Extern 1 (Setter _) => derive_setter : typeclass_instances.

Declare Scope record_scope.
Delimit Scope record_scope with record.
Reserved Notation "x <| p := v |>"
  (at level 1, left associativity, p at level 0, v at level 100).
Reserved Notation "x <| p ::= v |>"
  (at level 1, left associativity, p at level 0, v at level 100).
Notation "x <| p := v |>" := (set_field p (λ _, v) x) : record_scope.
Notation "x <| p ::= f |>" := (set_field p f x) : record_scope.
#[global] Open Scope record_scope.

(** ** Machine integers

    Unsigned C++ integers are [Z] values kept in [0, 2^w). *)

Definition u8 (x : Z) : Z := x mod 2 ^ 8.
Definition u32 (x : Z) : Z := x mod 2 ^ 32.
Definition u64 (x : Z) : Z := x mod 2 ^ 64.

Definition is_u32 (x : Z) : Prop := 0 ≤ x < 2 ^ 32.
Definition is_u64 (x : Z) : Prop := 0 ≤ x < 2 ^ 64.

Lemma u32_range x : is_u32 (u32 x).
Proof. apply Z.mod_pos_bound; lia. Qed.
Lemma u64_range x : is_u64 (u64 x).
Proof. apply Z.mod_pos_bound; lia. Qed.
Lemma u32_id x : is_u32 x → u32 x = x.
Proof. apply Z.mod_small. Qed.
Lemma u64_id x : is_u64 x → u64 x = x.
Proof. apply Z.mod_small. Qed.

Lemma land_bound x m : 0 ≤ m → 0 ≤ Z.land x m ≤ m.
Proof.
  intros Hm. split; [apply Z.land_nonneg; lia|].
  assert (m - Z.land x m = Z.ldiff m (Z.land x m)) as H.
  { apply Z.sub_nocarry_ldiff. apply Z.bits_inj'. intros i _.
    rewrite Z.ldiff_spec, Z.land_spec, Z.bits_0. by destruct (Z.testbit x i), (Z.testbit m i). }
  assert (0 ≤ Z.ldiff m (Z.land x m)) by (apply Z.ldiff_nonneg; lia). lia.
Qed.

Create HintDb gem5.
#[export] Hint Resolve u32_range u64_range : gem5.

(** Ticks are [uint64_t] picoseconds. *)
Abbreviation Tick := Z (only parsing).

(** ** Tactics *)

(** Split a successful monadic run into the runs of its parts. *)
Ltac inv_ok :=
  repeat match goal with
  | H : Ok _ = Ok _ |- _ => injection H as H; subst
  | H : Abort _ = Ok _ |- _ => discriminate H
  | H : Ok _ = Abort _ |- _ => discriminate H
  | H : mret _ _ = Ok _ |- _ => cbv [mret M_ret] in H
  | H : mret _ = Ok _ |- _ => cbv [mret res_ret] in H
  | H : abort_with _ _ = Ok _ |- _ => discriminate H
  | H : (_ ≫= _) _ = Ok (_, _) |- _ =>
      apply M_bind_ok in H as (? & ? & ? & H)
  | H : assert_that _ _ = Ok (_, _) |- _ =>
      apply assert_that_ok in H as (? & ? & ?); subst
  | H : of_option _ _ _ = Ok (_, _) |- _ =>
      apply of_option_ok in H as (? & ?); subst
  | H : gets _ _ = Ok (_, _) |- _ => cbv [gets] in H
  | H : get_state _ = Ok (_, _) |- _ => cbv [get_state] in H
  | H : modify _ _ = Ok (_, _) |- _ => cbv [modify] in H
  end.

(** Linear arithmetic with division and remainder by constants. *)
Ltac lia_div := Z.to_euclidean_division_equations; lia.

(** Turn boolean comparisons into propositions. *)
Ltac bool_to_prop :=
  repeat match goal with
  | H : context [Z.leb ?a ?b] |- _ => destruct (Z.leb_spec a b)
  | H : context [Z.ltb ?a ?b] |- _ => destruct (Z.ltb_spec a b)
  | H : context [Z.eqb ?a ?b] |- _ => destruct (Z.eqb_spec a b)
  | |- context [Z.leb ?a ?b] => destruct (Z.leb_spec a b)
  | |- context [Z.ltb ?a ?b] => destruct (Z.ltb_spec a b)
  | |- context [Z.eqb ?a ?b] => destruct (Z.eqb_spec a b)
  end.

(** ** Lists *)

Fixpoint sumZ (l : list Z) : Z :=
  match l with [] => 0 | x :: l => x + sumZ l end.

Lemma sumZ_app l k : sumZ (l ++ k) = sumZ l + sumZ k.
Proof. induction l as [|x l IH]; cbn; lia. Qed.

Lemma sumZ_nonneg l : Forall (λ x, 0 ≤ x) l → 0 ≤ sumZ l.
Proof. induction 1; cbn; lia. Qed.

Lemma list_filter_keeps {A} (P Q : A → Prop) `{∀ x, Decision (P x)} (l : list A) :
  Forall Q l → Forall Q (filter P l).
Proof.
  rewrite !Forall_forall. intros H' x Hx. apply list_elem_of_filter in Hx as [_ Hx]. auto.
Qed.

Lemma list_filter_none {A} (P : A → Prop) `{∀ x, Decision (P x)} (l : list A) :
  (∀ x, x ∈ l → ¬ P x) → filter P l = [].
Proof.
  induction l as [|x l IH]; intros Hl; [done|]. rewrite filter_cons.
  rewrite decide_False by (apply Hl, elem_of_cons; auto). apply IH. intros y Hy. apply Hl. set_solver.
Qed.

Lemma list_filter_id {A} (P : A → Prop) `{∀ x, Decision (P x)} (l : list A) :
  (∀ x, x ∈ l → P x) → filter P l = l.
Proof.
  induction l as [|x l IH]; intros Hl; [done|]. rewrite filter_cons.
  rewrite decide_True by (apply Hl, elem_of_cons; auto).
  f_equal. apply IH. intros y Hy. apply Hl, elem_of_cons. auto.
Qed.

Lemma Forall2_in {A B} (P Q : A → B → Prop) l k :
  Forall2 P l k → (∀ x y, x ∈ l → P x y → Q x y) → Forall2 Q l k.
Proof.
  induction 1 as [|x y l k Hxy Hlk IH]; intros HPQ; constructor.
  - apply HPQ; [by left|done].
  - apply IH. intros x' y' Hx'. apply HPQ. by right.
Qed.
