(* ===== verification/Bitfield.v ===== *)
(** * Bit manipulation (src/gem5/src/base/bitfield.hh, bitfield.cc)

    The helpers the memory system builds masks and addresses with, at the
    64-bit instance of their templates.  A shift by the width or more is
    undefined in C++ and aborts; bit positions are [unsigned], so [first + 1]
    wraps at 32 bits. *)

From S2P Require Import Prelude.
#[local] Open Scope Z_scope.

Definition not64 (x : Z) : Z := u64 (Z.lnot x).

(** [x >> n] and [x << n] on [uint64_t]. *)
Definition shr64 (x n : Z) : res Z :=
  if n <? 64 then Ok (Z.shiftr x n) else Abort UndefinedBehavior.
Definition shl64 (x n : Z) : res Z :=
  if n <? 64 then Ok (u64 (Z.shiftl x n)) else Abort UndefinedBehavior.

Definition mask (nbits : Z) : Z :=
  if 64 <=? nbits then 2 ^ 64 - 1 else u64 (Z.shiftl 1 nbits) - 1.

Definition bits (val first last : Z) : res Z :=
  if first <? last then Abort AssertFailed
  else
    let nbits := u32 (first - last + 1) in
    v ← shr64 val last;
    mret (Z.land v (mask nbits)).

Definition mbits (val first last : Z) : Z :=
  Z.land val (Z.land (mask (u32 (first + 1))) (not64 (mask last))).

Definition mask_range (first last : Z) : Z := mbits (2 ^ 64 - 1) first last.

(** [sext<N>(val)] and [sext(val, N)]. *)
Definition sext (N val : Z) : res Z :=
  sign_bit ← bits val (N - 1) (N - 1);
  mret (if negb (sign_bit =? 0) then Z.lor val (not64 (mask N)) else val).

Definition szext (N val : Z) : res Z :=
  sign_bit ← bits val (N - 1) (N - 1);
  mret (if negb (sign_bit =? 0) then Z.lor val (not64 (mask N))
        else Z.land val (mask N)).

Definition insertBits (val first last bit_val : Z) : res Z :=
  if first <? last then Abort AssertFailed
  else
    let bmask := mask_range first last in
    let val := Z.land val (not64 bmask) in
    b ← shl64 (u64 bit_val) last;
    mret (Z.lor val (Z.land b bmask)).

Definition replaceBits (val first last bit_val : Z) : res Z :=
  insertBits val first last bit_val.

(** The table, in the rows of the source. *)
Definition reverseBitsLookUpTable : list Z :=
  [0x00; 0x80; 0x40; 0xC0; 0x20; 0xA0; 0x60; 0xE0; 0x10; 0x90; 0x50; 0xD0;
   0x30; 0xB0; 0x70; 0xF0; 0x08; 0x88; 0x48; 0xC8; 0x28; 0xA8; 0x68; 0xE8;
   0x18; 0x98; 0x58; 0xD8; 0x38; 0xB8; 0x78; 0xF8; 0x04; 0x84; 0x44; 0xC4;
   0x24; 0xA4; 0x64; 0xE4; 0x14; 0x94; 0x54; 0xD4; 0x34; 0xB4; 0x74; 0xF4;
   0x0C; 0x8C; 0x4C; 0xCC; 0x2C; 0xAC; 0x6C; 0xEC; 0x1C; 0x9C; 0x5C; 0xDC;
   0x3C; 0xBC; 0x7C; 0xFC; 0x02; 0x82; 0x42; 0xC2; 0x22; 0xA2; 0x62; 0xE2;
   0x12; 0x92; 0x52; 0xD2; 0x32; 0xB2; 0x72; 0xF2; 0x0A; 0x8A; 0x4A; 0xCA;
   0x2A; 0xAA; 0x6A; 0xEA; 0x1A; 0x9A; 0x5A; 0xDA; 0x3A; 0xBA; 0x7A; 0xFA;
   0x06; 0x86; 0x46; 0xC6; 0x26; 0xA6; 0x66; 0xE6; 0x16; 0x96; 0x56; 0xD6;
   0x36; 0xB6; 0x76; 0xF6; 0x0E; 0x8E; 0x4E; 0xCE; 0x2E; 0xAE; 0x6E; 0xEE;
   0x1E; 0x9E; 0x5E; 0xDE; 0x3E; 0xBE; 0x7E; 0xFE; 0x01; 0x81; 0x41; 0xC1;
   0x21; 0xA1; 0x61; 0xE1; 0x11; 0x91; 0x51; 0xD1; 0x31; 0xB1; 0x71; 0xF1;
   0x09; 0x89; 0x49; 0xC9; 0x29; 0xA9; 0x69; 0xE9; 0x19; 0x99; 0x59; 0xD9;
   0x39; 0xB9; 0x79; 0xF9; 0x05; 0x85; 0x45; 0xC5; 0x25; 0xA5; 0x65; 0xE5;
   0x15; 0x95; 0x55; 0xD5; 0x35; 0xB5; 0x75; 0xF5; 0x0D; 0x8D; 0x4D; 0xCD;
   0x2D; 0xAD; 0x6D; 0xED; 0x1D; 0x9D; 0x5D; 0xDD; 0x3D; 0xBD; 0x7D; 0xFD;
   0x03; 0x83; 0x43; 0xC3; 0x23; 0xA3; 0x63; 0xE3; 0x13; 0x93; 0x53; 0xD3;
   0x33; 0xB3; 0x73; 0xF3; 0x0B; 0x8B; 0x4B; 0xCB; 0x2B; 0xAB; 0x6B; 0xEB;
   0x1B; 0x9B; 0x5B; 0xDB; 0x3B; 0xBB; 0x7B; 0xFB; 0x07; 0x87; 0x47; 0xC7;
   0x27; 0xA7; 0x67; 0xE7; 0x17; 0x97; 0x57; 0xD7; 0x37; 0xB7; 0x77; 0xF7;
   0x0F; 0x8F; 0x4F; 0xCF; 0x2F; 0xAF; 0x6F; 0xEF; 0x1F; 0x9F; 0x5F; 0xDF;
   0x3F; 0xBF; 0x7F; 0xFF].

Definition reverse_byte (b : Z) : Z :=
  default 0 (reverseBitsLookUpTable !! Z.to_nat b).

(** The loop of [reverseBits] over [n] bytes. *)
Fixpoint reverse_loop (n : nat) (val output : Z) : Z :=
  match n with
  | O => output
  | S n =>
      reverse_loop n (Z.shiftr val 8)
        (Z.lor (u64 (Z.shiftl output 8)) (reverse_byte (Z.land val (mask 8))))
  end.

Definition reverseBits (val : Z) (size : nat) : res Z :=
  if (size <=? 8)%nat then Ok (reverse_loop size val 0) else Abort AssertFailed.

(** One halving step of [findMsbSet]: [if (bits(val, first, last)) { msb += last;
    val >>= last; }]. *)
Definition msb_step (first last : Z) (s : Z * Z) : res (Z * Z) :=
  let '(msb, val) := s in
  b ← bits val first last;
  mret (if negb (b =? 0) then (msb + last, Z.shiftr val last) else (msb, val)).

Definition findMsbSet (val : Z) : res Z :=
  if val =? 0 then Ok 0
  else
    s ← msb_step 63 32 (0, val);
    s ← msb_step 31 16 s;
    s ← msb_step 15 8 s;
    s ← msb_step 7 4 s;
    s ← msb_step 3 2 s;
    '(msb, _) ← msb_step 1 1 s;
    mret msb.

(** One step of [findLsbSetFallback]: [if (!bits(val, n - 1, 0)) { lsb += n;
    val >>= n; }]. *)
Definition lsb_step (n : Z) (s : Z * Z) : res (Z * Z) :=
  let '(lsb, val) := s in
  b ← bits val (n - 1) 0;
  mret (if b =? 0 then (lsb + n, Z.shiftr val n) else (lsb, val)).

Definition findLsbSetFallback (val : Z) : res Z :=
  if val =? 0 then Ok 64
  else
    s ← lsb_step 32 (0, val);
    s ← lsb_step 16 s;
    s ← lsb_step 8 s;
    s ← lsb_step 4 s;
    s ← lsb_step 2 s;
    '(lsb, _) ← lsb_step 1 s;
    mret lsb.

(** [__builtin_ctzll]: the index of the lowest set bit of a nonzero value. *)
Fixpoint ctz_pos (p : positive) : Z :=
  match p with xO p => 1 + ctz_pos p | _ => 0 end.
Definition builtin_ctz (val : Z) : Z :=
  match val with Zpos p => ctz_pos p | _ => 0 end.

Definition findLsbSet (val : Z) : Z := if val =? 0 then 64 else builtin_ctz val.
Definition ctz32 (val : Z) : Z := if val =? 0 then 32 else builtin_ctz val.
Definition ctz64 (val : Z) : Z := if val =? 0 then 64 else builtin_ctz val.
Definition clz32 (val : Z) : Z := if val =? 0 then 32 else 31 - Z.log2 val.
Definition clz64 (val : Z) : Z := if val =? 0 then 64 else 63 - Z.log2 val.

(** [findLsbSet] on a bitset of any width: 64-bit windows until one is not
    empty.  The fuel is the number of windows. *)
Fixpoint lsb_window (fuel : nat) (bs i : Z) : Z :=
  let q := Z.land bs (mask 64) in
  match fuel with
  | O => i + findLsbSet q
  | S fuel =>
      if q =? 0 then lsb_window fuel (Z.shiftr bs 64) (i + 64) else i + findLsbSet q
  end.
Definition findLsbSet_bitset (N : nat) (bs : Z) : Z :=
  if (N <=? 64)%nat then findLsbSet bs
  else if bs =? 0 then Z.of_nat N
  else lsb_window (N / 64) bs 0.

(** The portable branch of [popCount]. *)
Definition popCount (val : Z) : Z :=
  let m1 := 0x5555555555555555 in
  let m2 := 0x3333333333333333 in
  let m4 := 0x0f0f0f0f0f0f0f0f in
  let sum := 0x0101010101010101 in
  let val := u64 (val - Z.land (Z.shiftr val 1) m1) in
  let val := u64 (Z.land val m2 + Z.land (Z.shiftr val 2) m2) in
  let val := Z.land (u64 (val + Z.shiftr val 4)) m4 in
  Z.shiftr (u64 (val * sum)) 56.

Definition smear (k val : Z) : Z := Z.lor val (Z.shiftr val k).
Definition alignToPowerOfTwo (val : Z) : Z :=
  let val := u64 (val - 1) in
  let val := smear 1 val in
  let val := smear 2 val in
  let val := smear 4 val in
  let val := smear 8 val in
  let val := smear 16 val in
  let val := smear 32 val in
  u64 (val + 1).

(** Bit patterns: the characters of a [bitPatternMatcher], highest bit first. *)
Inductive pat := P0 | P1 | PX.

Definition dontCareMask1 (pos : Z) (c : pat) : Z :=
  match c with PX => 0 | _ => Z.shiftl 1 pos end.
Fixpoint dontCareMask (msb lsb : Z) (l : list pat) : Z :=
  match l with
  | [] => 0
  | c :: rest =>
      if msb <? lsb then 0
      else if msb =? lsb then dontCareMask1 msb c
      else Z.lor (dontCareMask1 msb c) (dontCareMask (msb - 1) lsb rest)
  end.
Definition bitMatch1 (pos : Z) (c : pat) : Z :=
  match c with P1 => Z.shiftl 1 pos | _ => 0 end.
Fixpoint bitMatch (msb lsb : Z) (l : list pat) : Z :=
  match l with
  | [] => 0
  | c :: rest =>
      if msb <? lsb then 0
      else if msb =? lsb then bitMatch1 msb c
      else Z.lor (bitMatch1 msb c) (bitMatch (msb - 1) lsb rest)
  end.
Definition bitPatternMatcher (msb lsb : Z) (l : list pat) (value : Z) : bool :=
  Z.land value (dontCareMask msb lsb l) =? bitMatch msb lsb l.

(** ** Masks and fields *)

Lemma mask_ones n : 0 ≤ n → mask n = Z.ones (Z.min n 64).
Proof.
  intros Hn. unfold mask, u64. bool_to_prop.
  - by rewrite Z.min_r by lia.
  - rewrite Z.min_l by lia. rewrite Z.ones_equiv, Z.shiftl_1_l, Z.mod_small; [lia|].
    split; [lia|]. apply Z.pow_lt_mono_r; lia.
Qed.

Lemma mask_testbit n i : 0 ≤ n → 0 ≤ i → Z.testbit (mask n) i = (i <? n) && (i <? 64).
Proof.
  intros Hn Hi. rewrite mask_ones, Z.testbit_ones_nonneg by lia. bool_to_prop; cbn; lia.
Qed.

Lemma u64_testbit x i : 0 ≤ i → Z.testbit (u64 x) i = (i <? 64) && Z.testbit x i.
Proof.
  intros Hi. unfold u64. bool_to_prop.
  - by rewrite Z.mod_pow2_bits_low by lia.
  - by rewrite Z.mod_pow2_bits_high by lia.
Qed.

Lemma not64_testbit x i : 0 ≤ i → Z.testbit (not64 x) i = (i <? 64) && negb (Z.testbit x i).
Proof. intros Hi. unfold not64. by rewrite u64_testbit, Z.lnot_spec. Qed.

Lemma mask_range_testbit f l i :
  0 ≤ l → 0 ≤ f < 64 → 0 ≤ i →
  Z.testbit (mask_range f l) i = (l <=? i) && (i <=? f) && (i <? 64).
Proof.
  intros Hl Hf Hi. unfold mask_range, mbits. rewrite u32_id by (unfold is_u32; lia). change (2 ^ 64 - 1) with (mask 64).
  rewrite !Z.land_spec, not64_testbit, !mask_testbit by lia.
  bool_to_prop; cbn; lia.
Qed.

Lemma u64_high x i : is_u64 x → 64 ≤ i → Z.testbit x i = false.
Proof.
  intros Hx Hi. rewrite <- (u64_id x Hx), u64_testbit by lia. bool_to_prop; [lia|done].
Qed.

Lemma bits_run val f l :
  0 ≤ l ≤ f → f < 64 → bits val f l = Ok (Z.land (Z.shiftr val l) (mask (f - l + 1))).
Proof.
  intros [? ?] ?. unfold bits, shr64. rewrite u32_id by (unfold is_u32; lia).
  bool_to_prop; try lia. done.
Qed.

Lemma bits_value val f l :
  0 ≤ l ≤ f → f < 64 → bits val f l = Ok ((val / 2 ^ l) mod 2 ^ (f - l + 1)).
Proof.
  intros ? ?. rewrite bits_run by lia. f_equal.
  rewrite mask_ones, Z.min_l, Z.land_ones, Z.shiftr_div_pow2 by lia. done.
Qed.

Lemma insertBits_testbit val f l b r i :
  0 ≤ l ≤ f → f < 64 → is_u64 val → insertBits val f l b = Ok r → 0 ≤ i →
  Z.testbit r i = if (l <=? i) && (i <=? f) then Z.testbit b (i - l) else Z.testbit val i.
Proof.
  intros Hl Hf Hv Hr Hi. unfold insertBits, shl64 in Hr.
  destruct (f <? l) eqn:?; [lia|]. destruct (l <? 64) eqn:?; [|lia].
  cbn in Hr. inv_ok.
  rewrite Z.lor_spec, !Z.land_spec, not64_testbit, mask_range_testbit, u64_testbit by lia.
  rewrite Z.shiftl_spec by lia.
  destruct (Z.le_gt_cases 64 i) as [H64|H64].
  - rewrite (u64_high val) by done. bool_to_prop; cbn; try done; lia.
  - bool_to_prop; cbn; try lia; rewrite ?u64_testbit by lia; bool_to_prop; try lia;
      by rewrite ?andb_false_r, ?andb_true_r, ?orb_false_r.
Qed.

Lemma u64_of_bits x : 0 ≤ x → (∀ i, 64 ≤ i → Z.testbit x i = false) → is_u64 x.
Proof.
  intros Hx Hh. assert (x = u64 x) as ->; [|apply u64_range].
  apply Z.bits_inj'. intros i Hi. rewrite u64_testbit by done.
  destruct (Z.ltb_spec i 64); [done|]. by apply Hh.
Qed.

Lemma insertBits_run val f l b : 0 ≤ l ≤ f → f < 64 → is_u64 val →
  ∃ r, insertBits val f l b = Ok r ∧ is_u64 r ∧
    ∀ i, 0 ≤ i →
      Z.testbit r i = if (l <=? i) && (i <=? f) then Z.testbit b (i - l) else Z.testbit val i.
Proof.
  intros Hl Hf Hv. destruct (insertBits val f l b) as [r|] eqn:E.
  2:{ exfalso. unfold insertBits, shl64 in E.
      destruct (f <? l) eqn:?; [lia|]. destruct (l <? 64) eqn:?; [done|lia]. }
  pose proof (insertBits_testbit val f l b r) as Ht. exists r. split; [done|]. split; [|eauto].
  apply u64_of_bits.
  - unfold insertBits, shl64 in E. destruct (f <? l); [done|]. destruct (l <? 64); [|done].
    injection E as <-. rewrite Z.lor_nonneg, !Z.land_nonneg. unfold is_u64 in Hv.
    pose proof (u64_range (Z.shiftl (u64 b) l)) as []. lia.
  - intros i Hi. rewrite Ht by (done || lia). rewrite (u64_high val) by done. bool_to_prop; (done || lia).
Qed.

(** Writing a bit field and reading it back gives the value,
    truncated to the width of the field. *)
Theorem bits_insertBits val f l b :
  0 ≤ l ≤ f → f < 64 → is_u64 val →
  (r ← insertBits val f l b; bits r f l) = Ok (b mod 2 ^ (f - l + 1)).
Proof.
  intros Hl Hf Hv. destruct (insertBits val f l b) as [r|] eqn:E.
  2:{ exfalso. unfold insertBits, shl64 in E.
      destruct (f <? l) eqn:?; [lia|]. destruct (l <? 64) eqn:?; [done|lia]. }
  cbn. rewrite bits_value by done. f_equal. apply Z.bits_inj'. intros i Hi.
  destruct (Z.lt_ge_cases i (f - l + 1)) as [Hlt|Hge].
  - rewrite !Z.mod_pow2_bits_low, Z.div_pow2_bits by lia.
    rewrite (insertBits_testbit _ _ _ _ _ _ Hl Hf Hv E) by lia.
    bool_to_prop; try lia. cbn. f_equal. lia.
  - by rewrite !Z.mod_pow2_bits_high by lia.
Qed.

Lemma bits_insertBits_witness :
  (r ← insertBits 0xff00 11 4 0xabc; bits r 11 4) = Ok (0xabc mod 2 ^ 8).
Proof. apply (bits_insertBits 0xff00 11 4 0xabc); unfold is_u64; lia. Defined.

(** ** Sign extension *)

Lemma bits_single val n : 0 ≤ n < 64 → bits val n n = Ok (Z.b2z (Z.testbit val n)).
Proof.
  intros Hn. rewrite bits_value, Z.testbit_spec' by lia.
  by replace (n - n + 1) with 1 by lia.
Qed.

Lemma lor_not64_mask N v :
  0 ≤ N ≤ 64 → 0 ≤ v < 2 ^ N → Z.lor v (not64 (mask N)) = u64 (v - 2 ^ N).
Proof.
  intros HN Hv. apply Z.bits_inj'. intros i Hi.
  rewrite Z.lor_spec, not64_testbit, mask_testbit, u64_testbit by lia.
  destruct (Z.lt_ge_cases i N) as [Hlt|Hge].
  - bool_to_prop; try lia. cbn. rewrite orb_false_r.
    rewrite <- (Z.mod_pow2_bits_low (v - 2 ^ N) N i) by lia.
    replace (v - 2 ^ N) with (v + -1 * 2 ^ N) by lia.
    rewrite Z.mod_add, Z.mod_pow2_bits_low by lia. done.
  - replace (Z.testbit v i) with false.
    2:{ symmetry. rewrite <- (Z.mod_small v (2 ^ N)) by lia.
        by rewrite Z.mod_pow2_bits_high by lia. }
    replace (Z.testbit (v - 2 ^ N) i) with true.
    2:{ symmetry. rewrite Z.testbit_true by lia.
        replace ((v - 2 ^ N) / 2 ^ i) with (-1); [done|].
        apply Z.div_unique with (r := v - 2 ^ N + 2 ^ i); [left|lia].
        assert (2 ^ N ≤ 2 ^ i) by (apply Z.pow_le_mono_r; lia). lia. }
    bool_to_prop; cbn; lia.
Qed.

(** Sign-extending an [N]-bit field gives the 64-bit
    two's-complement form of the field's signed value. *)
Theorem sext_signed N v :
  0 < N ≤ 64 → 0 ≤ v < 2 ^ N →
  sext N v = Ok (u64 (if v <? 2 ^ (N - 1) then v else v - 2 ^ N)).
Proof.
  intros HN Hv. unfold sext. rewrite bits_single by lia. cbn.
  assert (2 ^ N = 2 * 2 ^ (N - 1)) as Hp.
  { rewrite <- Z.pow_succ_r by lia. f_equal. lia. }
  assert (0 < 2 ^ (N - 1)) by (apply Z.pow_pos_nonneg; lia).
  assert (2 ^ N ≤ 2 ^ 64) by (apply Z.pow_le_mono_r; lia).
  assert (Z.testbit v (N - 1) = negb (v <? 2 ^ (N - 1))) as ->.
  { destruct (Z.ltb_spec v (2 ^ (N - 1))); cbn.
    - rewrite <- (Z.mod_small v (2 ^ (N - 1))) by lia.
      by rewrite Z.mod_pow2_bits_high by lia.
    - rewrite Z.testbit_true by lia.
      replace (v / 2 ^ (N - 1)) with 1; [done|].
      apply Z.div_unique with (r := v - 2 ^ (N - 1)); lia. }
  destruct (Z.ltb_spec v (2 ^ (N - 1))); cbn; unfold mret, res_ret; f_equal.
  - rewrite u64_id; [done|]. unfold is_u64. lia.
  - apply lor_not64_mask; lia.
Qed.

Lemma sext_signed_witness : sext 12 0xfff = Ok (u64 (-1)).
Proof. apply (sext_signed 12 0xfff); lia. Defined.

(** ** Bit reversal *)

Lemma reverse_byte_spec b i :
  0 ≤ b < 256 → 0 ≤ i < 8 → Z.testbit (reverse_byte b) i = Z.testbit b (7 - i).
Proof.
  intros Hb Hi.
  assert (forallb (λ b, forallb (λ i, Bool.eqb (Z.testbit (reverse_byte (Z.of_nat b)) (Z.of_nat i))
            (Z.testbit (Z.of_nat b) (7 - Z.of_nat i))) (seq 0 8)) (seq 0 256) = true) as H
    by (vm_compute; reflexivity).
  rewrite forallb_forall in H. specialize (H (Z.to_nat b)).
  rewrite forallb_forall in H. rewrite <- (Z2Nat.id b), <- (Z2Nat.id i) by lia.
  apply Bool.eqb_prop, H; apply in_seq; lia.
Qed.

Lemma reverse_byte_range b : 0 ≤ b < 256 → 0 ≤ reverse_byte b < 256.
Proof.
  intros Hb. unfold reverse_byte. destruct (reverseBitsLookUpTable !! Z.to_nat b) as [x|] eqn:E.
  2:{ cbn. lia. }
  assert (Forall (λ x, 0 ≤ x < 256) reverseBitsLookUpTable) as H
    by (apply (bool_decide_unpack _); vm_compute; exact I).
  rewrite Forall_lookup in H. cbn. eauto.
Qed.

Lemma reverse_byte_high b i : 0 ≤ b < 256 → 8 ≤ i → Z.testbit (reverse_byte b) i = false.
Proof.
  intros Hb Hi. pose proof (reverse_byte_range b Hb).
  rewrite <- (Z.mod_small (reverse_byte b) (2 ^ 8)) by lia.
  by rewrite Z.mod_pow2_bits_high by lia.
Qed.

Lemma reverse_loop_testbit n : ∀ val out k i,
  (n + k ≤ 8)%nat → 0 ≤ i → 
  (∀ j, 8 * Z.of_nat k ≤ j → Z.testbit out j = false) →
  Z.testbit (reverse_loop n val out) i =
    if i <? 8 * Z.of_nat n then Z.testbit val (8 * Z.of_nat n - 1 - i)
    else Z.testbit out (i - 8 * Z.of_nat n).
Proof.
  induction n as [|n IH]; intros val out k i Hk Hi Hout.
  { cbn [reverse_loop]. destruct (Z.ltb_spec i (8 * Z.of_nat 0)); [lia|].
    f_equal. lia. }
  cbn [reverse_loop].
  assert (0 ≤ Z.land val (mask 8) < 256) as Hb.
  { rewrite mask_ones, Z.land_ones by lia. apply Z.mod_pos_bound. lia. }
  rewrite (IH _ _ (S k)); [|lia|done|].
  2:{ intros j Hj. rewrite Z.lor_spec, u64_testbit, Z.shiftl_spec by lia.
      rewrite Hout, reverse_byte_high by (done || lia). by rewrite andb_false_r. }
  destruct (Z.ltb_spec i (8 * Z.of_nat n)) as [H1|H1].
  - destruct (Z.ltb_spec i (8 * Z.of_nat (S n))); [|lia].
    rewrite Z.shiftr_spec by lia. f_equal. lia.
  - rewrite Z.lor_spec, u64_testbit, Z.shiftl_spec by lia.
    destruct (Z.ltb_spec i (8 * Z.of_nat (S n))) as [H2|H2].
    + rewrite (Z.testbit_neg_r out) by lia. rewrite andb_false_r. cbn [orb].
      rewrite reverse_byte_spec, Z.land_spec, mask_testbit by lia.
      bool_to_prop; try lia. cbn. rewrite andb_true_r. f_equal. lia.
    + rewrite reverse_byte_high by lia. rewrite orb_false_r.
      destruct (Z.ltb_spec (i - 8 * Z.of_nat n) 64).
      * cbn. f_equal. lia.
      * cbn. symmetry. apply Hout. lia.
Qed.

(** [reverseBits] mirrors the low [size] bytes: bit [i] of the
    result is bit [8*size-1-i] of the argument, and nothing lies above. *)
Theorem reverseBits_spec val size r :
  reverseBits val size = Ok r →
  ∀ i, 0 ≤ i →
    Z.testbit r i = (i <? 8 * Z.of_nat size) && Z.testbit val (8 * Z.of_nat size - 1 - i).
Proof.
  unfold reverseBits. destruct (Nat.leb_spec size 8); [|done]. intros [= <-] i Hi.
  rewrite (reverse_loop_testbit _ _ _ 0) by (lia || (intros; apply Z.bits_0)).
  destruct (Z.ltb_spec i (8 * Z.of_nat size)); [done|]. by rewrite Z.bits_0.
Qed.

Lemma reverseBits_witness : ∃ r, reverseBits 0x1234 2 = Ok r ∧
  ∀ i, 0 ≤ i → Z.testbit r i = (i <? 16) && Z.testbit 0x1234 (15 - i).
Proof.
  exists 0x2c48. assert (reverseBits 0x1234 2 = Ok 0x2c48) as H by (vm_compute; reflexivity).
  split; [exact H|]. apply (reverseBits_spec 0x1234 2 0x2c48 H).
Defined.

(** ** Searching for set bits *)

Lemma msb_step_spec n first last msb val :
  0 < last → first = 2 * last - 1 → first < 64 → 0 < val < 2 ^ (2 * last) →
  Z.log2 n = msb + Z.log2 val →
  ∃ msb' val', msb_step first last (msb, val) = Ok (msb', val') ∧
    0 < val' < 2 ^ last ∧ Z.log2 n = msb' + Z.log2 val'.
Proof.
  intros Hl -> Hf Hv Hn. unfold msb_step. rewrite bits_value by lia. cbn.
  replace (2 * last - 1 - last + 1) with last by lia.
  assert (2 ^ (2 * last) = 2 ^ last * 2 ^ last) as Hsq.
  { rewrite <- Z.pow_add_r by lia. f_equal. lia. }
  rewrite Hsq in Hv.
  assert (0 ≤ val / 2 ^ last < 2 ^ last) as Hd.
  { split; [apply Z.div_pos; lia|]. apply Z.div_lt_upper_bound; lia. }
  rewrite Z.mod_small by done.
  destruct (Z.eqb_spec (val / 2 ^ last) 0) as [H0|H0]; cbn; do 2 eexists;
    (split; [reflexivity|]).
  - split; [|done]. apply Z.div_small_iff in H0; lia.
  - rewrite Z.shiftr_div_pow2 by lia. split; [lia|].
    rewrite <- Z.shiftr_div_pow2, Z.log2_shiftr by lia.
    assert (2 ^ last ≤ val).
    { destruct (Z.le_gt_cases (2 ^ last) val); [done|].
      rewrite Z.div_small in H0 by lia. done. }
    assert (last ≤ Z.log2 val) by (apply Z.log2_le_pow2; lia).
    lia.
Qed.

(** [findMsbSet] of a nonzero word is its integer logarithm. *)
Theorem findMsbSet_log2 val : 0 < val < 2 ^ 64 → findMsbSet val = Ok (Z.log2 val).
Proof.
  intros Hv. unfold findMsbSet. destruct (Z.eqb_spec val 0); [lia|].
  edestruct (msb_step_spec val 63 32 0 val) as (m1 & v1 & -> & H1 & L1); try lia.
  cbn [mbind res_bind].
  edestruct (msb_step_spec val 31 16 m1 v1) as (m2 & v2 & -> & H2 & L2); try lia.
  cbn [mbind res_bind].
  edestruct (msb_step_spec val 15 8 m2 v2) as (m3 & v3 & -> & H3 & L3); try lia.
  cbn [mbind res_bind].
  edestruct (msb_step_spec val 7 4 m3 v3) as (m4 & v4 & -> & H4 & L4); try lia.
  cbn [mbind res_bind].
  edestruct (msb_step_spec val 3 2 m4 v4) as (m5 & v5 & -> & H5 & L5); try lia.
  cbn [mbind res_bind].
  edestruct (msb_step_spec val 1 1 m5 v5) as (m6 & v6 & -> & H6 & L6); try lia.
  cbn. f_equal. assert (v6 = 1) as -> by lia. cbn in L6. lia.
Qed.

Lemma findMsbSet_witness : findMsbSet 0x1234 = Ok 12.
Proof. apply (findMsbSet_log2 0x1234); lia. Defined.

(** The lowest set bit, as a specification. *)
Definition lowest (val k : Z) : Prop :=
  0 ≤ k ∧ Z.testbit val k = true ∧ ∀ i, 0 ≤ i < k → Z.testbit val i = false.

Lemma lowest_unique val k1 k2 : lowest val k1 → lowest val k2 → k1 = k2.
Proof.
  intros (? & T1 & L1) (? & T2 & L2).
  destruct (Z.lt_trichotomy k1 k2) as [?|[?|?]]; [|done|].
  - by rewrite L2 in T1 by lia.
  - by rewrite L1 in T2 by lia.
Qed.

Lemma lowest_shift val n k : 0 ≤ n →
  (∀ i, 0 ≤ i < n → Z.testbit val i = false) → lowest (Z.shiftr val n) k → lowest val (n + k).
Proof.
  intros Hn Hz (Hk & T & L). rewrite Z.shiftr_spec in T by lia. split; [lia|]. split.
  - by rewrite Z.add_comm.
  - intros i Hi. destruct (Z.lt_ge_cases i n); [auto with lia|].
    specialize (L (i - n)). rewrite Z.shiftr_spec in L by lia.
    replace i with (i - n + n) by lia. apply L. lia.
Qed.

Lemma builtin_ctz_lowest val : 0 < val → lowest val (builtin_ctz val).
Proof.
  destruct val as [|p|]; try lia. intros _. cbn. induction p as [p IH|p IH|].
  - split; [done|]. split; [done|]. intros i Hi; cbn in Hi; lia.
  - cbn [ctz_pos]. change (Zpos p~0) with (2 * Zpos p).
    apply lowest_shift; [lia| |].
    + intros i Hi. assert (i = 0) as -> by lia. by rewrite Z.testbit_even_0.
    + by rewrite Z.shiftr_div_pow2, Z.mul_comm, Z.div_mul by lia.
  - split; [done|]. split; [done|]. intros i Hi; cbn in Hi; lia.
Qed.

Lemma mod_pow2_zero_bits val n :
  0 ≤ n → val mod 2 ^ n = 0 → ∀ i, 0 ≤ i < n → Z.testbit val i = false.
Proof.
  intros Hn H i Hi. rewrite <- (Z.mod_pow2_bits_low val n i), H by lia. apply Z.bits_0.
Qed.

(** The low [w] bits of [val] are not all zero. *)
Definition low_nonzero (w val : Z) : Prop := val mod 2 ^ w ≠ 0.

Lemma lsb_step_spec orig n lsb val :
  0 < n ≤ 32 → 0 ≤ val → low_nonzero (2 * n) val →
  (∀ k, lowest val k → lowest orig (lsb + k)) →
  ∃ lsb' val', lsb_step n (lsb, val) = Ok (lsb', val') ∧ 0 ≤ val' ∧ low_nonzero n val' ∧
    (∀ k, lowest val' k → lowest orig (lsb' + k)).
Proof.
  intros Hn Hv Hnz Hk. unfold lsb_step. rewrite bits_value by lia. cbn.
  replace (n - 1 - 0 + 1) with n by lia. rewrite Z.div_1_r.
  destruct (Z.eqb_spec (val mod 2 ^ n) 0) as [H0|H0]; cbn; do 2 eexists;
    (split; [reflexivity|]).
  2: done.
  rewrite Z.shiftr_div_pow2 by lia. split; [apply Z.div_pos; lia|]. split.
  - intros H. apply Hnz. replace (2 * n) with (n + n) by lia.
    assert (0 < 2 ^ n) by (apply Z.pow_pos_nonneg; lia).
    rewrite Z.pow_add_r, Z.rem_mul_r, H0, H by lia. lia.
  - intros k Hlk. rewrite <- Z.add_assoc. apply Hk, lowest_shift; [lia| |].
    + apply mod_pow2_zero_bits; lia.
    + by rewrite Z.shiftr_div_pow2 by lia.
Qed.

(** The portable search for the lowest set bit agrees with the
    compiler's count-trailing-zeros on every word, zero included. *)
Theorem findLsbSetFallback_ctz val :
  is_u64 val → findLsbSetFallback val = Ok (findLsbSet val).
Proof.
  intros Hv. unfold findLsbSetFallback, findLsbSet. destruct (Z.eqb_spec val 0); [done|].
  unfold is_u64 in Hv.
  edestruct (lsb_step_spec val 32 0 val) as (m1 & v1 & -> & P1 & N1 & K1); try lia.
  { unfold low_nonzero. rewrite Z.mod_small by lia. done. }
  { by intros k. }
  cbn [mbind res_bind].
  edestruct (lsb_step_spec val 16 m1 v1) as (m2 & v2 & -> & P2 & N2 & K2); try done.
  cbn [mbind res_bind].
  edestruct (lsb_step_spec val 8 m2 v2) as (m3 & v3 & -> & P3 & N3 & K3); try done.
  cbn [mbind res_bind].
  edestruct (lsb_step_spec val 4 m3 v3) as (m4 & v4 & -> & P4 & N4 & K4); try done.
  cbn [mbind res_bind].
  edestruct (lsb_step_spec val 2 m4 v4) as (m5 & v5 & -> & P5 & N5 & K5); try done.
  cbn [mbind res_bind].
  edestruct (lsb_step_spec val 1 m5 v5) as (m6 & v6 & -> & P6 & N6 & K6); try done.
  cbn. f_equal. apply (lowest_unique val); [|apply builtin_ctz_lowest; lia].
  rewrite <- (Z.add_0_r m6). apply K6. split; [done|]. split; [|intros; lia].
  unfold low_nonzero in N6. rewrite Z.testbit_true by done. rewrite Z.div_1_r.
  assert (0 ≤ v6 mod 2 < 2) by (apply Z.mod_pos_bound; lia). change (2 ^ 1) with 2 in N6. lia.
Qed.

Lemma findLsbSetFallback_witness : findLsbSetFallback 0x1230 = Ok (findLsbSet 0x1230).
Proof. apply (findLsbSetFallback_ctz 0x1230); unfold is_u64; lia. Defined.

Lemma findLsbSet_low b :
  b mod 2 ^ 64 ≠ 0 → lowest b (findLsbSet (b mod 2 ^ 64)).
Proof.
  intros H0. unfold findLsbSet. destruct (Z.eqb_spec (b mod 2 ^ 64) 0); [done|].
  assert (0 < b mod 2 ^ 64) as Hm.
  { pose proof (Z.mod_pos_bound b (2 ^ 64)). lia. }
  destruct (builtin_ctz_lowest _ Hm) as (Hk & T & L). split; [done|].
  assert (builtin_ctz (b mod 2 ^ 64) < 64).
  { destruct (Z.lt_ge_cases (builtin_ctz (b mod 2 ^ 64)) 64); [done|].
    by rewrite Z.mod_pow2_bits_high in T by lia. }
  rewrite Z.mod_pow2_bits_low in T by lia. split; [done|].
  intros j Hj. specialize (L j Hj). by rewrite Z.mod_pow2_bits_low in L by lia.
Qed.

Lemma lsb_window_lowest fuel : ∀ b i,
  0 < b < 2 ^ (64 * Z.of_nat (S fuel)) → lowest b (lsb_window fuel b i - i).
Proof.
  induction fuel as [|fuel IH]; intros b i Hb; cbn [lsb_window];
    rewrite mask_ones, Z.land_ones by lia; change (Z.min 64 64) with 64.
  - replace (i + findLsbSet (b mod 2 ^ 64) - i) with (findLsbSet (b mod 2 ^ 64)) by lia.
    apply findLsbSet_low. rewrite Z.mod_small by lia. lia.
  - destruct (Z.eqb_spec (b mod 2 ^ 64) 0) as [H0|H0].
    + assert (b = 2 ^ 64 * (b / 2 ^ 64)) as Hb' by (apply Z.div_exact; lia).
      replace (lsb_window fuel (Z.shiftr b 64) (i + 64) - i)
        with (64 + (lsb_window fuel (Z.shiftr b 64) (i + 64) - (i + 64))) by lia.
      apply lowest_shift; [lia|apply mod_pow2_zero_bits; lia|].
      apply IH. rewrite Z.shiftr_div_pow2 by lia. split; [lia|].
      apply Z.div_lt_upper_bound; [lia|]. rewrite <- Z.pow_add_r by lia.
      replace (64 + 64 * Z.of_nat (S fuel)) with (64 * Z.of_nat (S (S fuel))) by lia. lia.
    + replace (i + findLsbSet (b mod 2 ^ 64) - i) with (findLsbSet (b mod 2 ^ 64)) by lia.
      by apply findLsbSet_low.
Qed.

(** The windowed search over a bitset finds its lowest set bit. *)
Theorem findLsbSet_bitset_lowest N bs :
  (64 < N)%nat → 0 < bs < 2 ^ Z.of_nat N → lowest bs (findLsbSet_bitset N bs).
Proof.
  intros HN Hbs. unfold findLsbSet_bitset.
  destruct (Nat.leb_spec N 64); [lia|]. destruct (Z.eqb_spec bs 0); [lia|].
  rewrite <- (Z.sub_0_r (lsb_window _ _ _)). apply lsb_window_lowest. split; [lia|].
  eapply Z.lt_le_trans; [apply Hbs|]. apply Z.pow_le_mono_r; [lia|].
  pose proof (Nat.div_mod_eq N 64). pose proof (Nat.mod_upper_bound N 64). lia.
Qed.

Lemma findLsbSet_bitset_witness : lowest (2 ^ 70 + 2 ^ 99) (findLsbSet_bitset 128 (2 ^ 70 + 2 ^ 99)).
Proof. apply (findLsbSet_bitset_lowest 128 (2 ^ 70 + 2 ^ 99)); lia. Defined.

(** ** Rounding up to a power of two *)

(** Below and at bit [n], the top [w] bits are set; nothing is above. *)
Definition smeared (n w val : Z) : Prop :=
  ∀ i, 0 ≤ i → (n < i → Z.testbit val i = false) ∧
               (n - w < i ≤ n → Z.testbit val i = true).

Lemma smear_step n w val : 0 ≤ w → smeared n w val → smeared n (w + w) (smear w val).
Proof.
  intros Hw H i Hi. unfold smear. rewrite Z.lor_spec, Z.shiftr_spec by lia.
  destruct (H i Hi) as [H1 H2]. destruct (H (i + w)) as [H3 H4]; [lia|]. split.
  - intros Hn. by rewrite H1, H3 by lia.
  - intros Hn. destruct (Z.lt_ge_cases (n - w) i).
    + by rewrite H2 by lia.
    + rewrite H4 by lia. apply orb_true_r.
Qed.

Lemma smeared_ones n val : 0 ≤ n < 64 → smeared n 64 val → 0 ≤ val → val = 2 ^ (n + 1) - 1.
Proof.
  intros Hn H Hv. rewrite Z.sub_1_r, <- Z.ones_equiv. apply Z.bits_inj'. intros i Hi.
  rewrite Z.testbit_ones_nonneg by lia. destruct (H i Hi) as [H1 H2].
  destruct (Z.ltb_spec i (n + 1)); [apply H2|apply H1]; lia.
Qed.

Lemma smear_nonneg k val : 0 ≤ val → 0 ≤ smear k val.
Proof. intros. unfold smear. apply Z.lor_nonneg. split; [done|]. by apply Z.shiftr_nonneg. Qed.

(** [alignToPowerOfTwo] is the least power of two that is at
    least its argument, for every argument up to 2^63. *)
Theorem alignToPowerOfTwo_spec val :
  0 < val ≤ 2 ^ 63 → alignToPowerOfTwo val = 2 ^ Z.log2_up val.
Proof.
  intros Hv. unfold alignToPowerOfTwo. rewrite (u64_id (val - 1)) by (unfold is_u64; lia).
  destruct (Z.eq_dec val 1) as [->|Hne]; [done|].
  rewrite Z.log2_up_eqn by lia. rewrite <- Z.sub_1_r. set (v := val - 1).
  assert (0 ≤ Z.log2 v < 63) as Hl.
  { split; [apply Z.log2_nonneg|]. apply Z.log2_lt_pow2; lia. }
  assert (smeared (Z.log2 v) 1 v) as H.
  { intros i Hi. split; intros.
    - apply Z.bits_above_log2; lia.
    - replace i with (Z.log2 v) by lia. apply Z.bit_log2. lia. }
  apply smear_step in H; [|lia]. change (1 + 1) with 2 in H.
  apply smear_step in H; [|lia]. change (2 + 2) with 4 in H.
  apply smear_step in H; [|lia]. change (4 + 4) with 8 in H.
  apply smear_step in H; [|lia]. change (8 + 8) with 16 in H.
  apply smear_step in H; [|lia]. change (16 + 16) with 32 in H.
  apply smear_step in H; [|lia]. change (32 + 32) with 64 in H.
  apply smeared_ones in H; [|lia|by repeat apply smear_nonneg; lia].
  rewrite H. rewrite u64_id.
  - replace (2 ^ (Z.log2 v + 1) - 1 + 1) with (2 ^ (Z.log2 v + 1)) by lia. f_equal.
  - unfold is_u64. assert (2 ^ (Z.log2 v + 1) ≤ 2 ^ 63) by (apply Z.pow_le_mono_r; lia).
    assert (0 < 2 ^ (Z.log2 v + 1)) by (apply Z.pow_pos_nonneg; lia). lia.
Qed.

Lemma alignToPowerOfTwo_witness : alignToPowerOfTwo 1000 = 1024.
Proof. apply (alignToPowerOfTwo_spec 1000); lia. Defined.

(** ** Bit patterns *)

Definition pat_ok (c : pat) (b : bool) : bool :=
  match c with P0 => negb b | P1 => b | PX => true end.

(** The pattern read off directly: one character per bit, downwards from [msb]. *)
Fixpoint matches (msb : Z) (l : list pat) (value : Z) : bool :=
  match l with
  | [] => true
  | c :: l => pat_ok c (Z.testbit value msb) && matches (msb - 1) l value
  end.

Lemma dontCareMask_high msb lsb l i :
  msb < i → 0 ≤ lsb → Z.testbit (dontCareMask msb lsb l) i = false.
Proof.
  intros Hi Hl. assert (∀ p c, 0 ≤ p < i → Z.testbit (dontCareMask1 p c) i = false) as H1.
  { intros p [] Hp; cbn; rewrite ?Z.bits_0; try done;
      rewrite Z.shiftl_1_l; apply Z.pow2_bits_false; lia. }
  revert msb Hi. induction l as [|c l IH]; intros msb Hi; cbn; [apply Z.bits_0|].
  destruct (Z.ltb_spec msb lsb); [apply Z.bits_0|].
  destruct (Z.eqb_spec msb lsb); [apply H1; lia|].
  rewrite Z.lor_spec, H1, IH by lia. done.
Qed.

Lemma bitMatch_high msb lsb l i :
  msb < i → 0 ≤ lsb → Z.testbit (bitMatch msb lsb l) i = false.
Proof.
  intros Hi Hl. assert (∀ p c, 0 ≤ p < i → Z.testbit (bitMatch1 p c) i = false) as H1.
  { intros p [] Hp; cbn; rewrite ?Z.bits_0; try done;
      rewrite Z.shiftl_1_l; apply Z.pow2_bits_false; lia. }
  revert msb Hi. induction l as [|c l IH]; intros msb Hi; cbn; [apply Z.bits_0|].
  destruct (Z.ltb_spec msb lsb); [apply Z.bits_0|].
  destruct (Z.eqb_spec msb lsb); [apply H1; lia|].
  rewrite Z.lor_spec, H1, IH by lia. done.
Qed.

Lemma pat_bit value p c : 0 ≤ p →
  Bool.eqb (Z.testbit (Z.land value (dontCareMask1 p c)) p) (Z.testbit (bitMatch1 p c) p) =
  pat_ok c (Z.testbit value p).
Proof.
  intros Hp. rewrite Z.land_spec. destruct c; cbn; rewrite ?Z.bits_0, ?Z.shiftl_1_l,
    ?Z.pow2_bits_true by lia; by destruct (Z.testbit value p).
Qed.

Lemma mask1_other p c i : 0 ≤ p → i ≠ p → Z.testbit (dontCareMask1 p c) i = false.
Proof.
  intros Hp Hi. destruct c; cbn; rewrite ?Z.bits_0; try done;
    rewrite Z.shiftl_1_l; apply Z.pow2_bits_false; lia.
Qed.

Lemma match1_other p c i : 0 ≤ p → i ≠ p → Z.testbit (bitMatch1 p c) i = false.
Proof.
  intros Hp Hi. destruct c; cbn; rewrite ?Z.bits_0; try done;
    rewrite Z.shiftl_1_l; apply Z.pow2_bits_false; lia.
Qed.

Lemma pat_eq value p c : 0 ≤ p →
  Z.land value (dontCareMask1 p c) = bitMatch1 p c ↔ pat_ok c (Z.testbit value p) = true.
Proof.
  intros Hp. rewrite <- pat_bit by done. split.
  - intros ->. apply Bool.eqb_reflx.
  - intros H%Bool.eqb_prop. apply Z.bits_inj'. intros i Hi.
    destruct (decide (i = p)) as [->|Hne]; [done|].
    by rewrite Z.land_spec, mask1_other, match1_other, andb_false_r by done.
Qed.

(** Two unions of a part at bit [p] and a part below it are equal when the
    parts are. *)
Lemma lor_split p x1 x2 y1 y2 : 0 ≤ p →
  (∀ i, i ≠ p → Z.testbit x1 i = false) → (∀ i, i ≠ p → Z.testbit y1 i = false) →
  (∀ i, p ≤ i → Z.testbit x2 i = false) → (∀ i, p ≤ i → Z.testbit y2 i = false) →
  Z.lor x1 x2 = Z.lor y1 y2 ↔ x1 = y1 ∧ x2 = y2.
Proof.
  intros Hp X1 Y1 X2 Y2. split; [|by intros [-> ->]]. intros H.
  assert (∀ i, Z.testbit (Z.lor x1 x2) i = Z.testbit (Z.lor y1 y2) i) as Hb by (by rewrite H).
  split; apply Z.bits_inj'; intros i Hi; specialize (Hb i); rewrite !Z.lor_spec in Hb;
    destruct (Z.lt_trichotomy i p) as [?|[->|?]].
  - by rewrite X1, Y1 by lia.
  - rewrite X2, Y2 in Hb by lia. by rewrite !orb_false_r in Hb.
  - by rewrite X1, Y1 by lia.
  - by rewrite X1, Y1 in Hb by lia.
  - by rewrite X2, Y2 by lia.
  - by rewrite X2, Y2 by lia.
Qed.

(** A compiled bit pattern accepts exactly the words whose
    bits, from [msb] downwards, agree with its characters. *)
Theorem bitPatternMatcher_spec l msb lsb value :
  0 ≤ lsb ≤ msb → msb - lsb + 1 = Z.of_nat (length l) →
  bitPatternMatcher msb lsb l value = matches msb l value.
Proof.
  intros Hl Hlen. apply eq_true_iff_eq. unfold bitPatternMatcher. rewrite Z.eqb_eq.
  revert msb Hl Hlen. induction l as [|c l IH]; intros msb Hl Hlen; cbn in Hlen; [lia|].
  cbn. destruct (Z.ltb_spec msb lsb); [lia|]. destruct (Z.eqb_spec msb lsb) as [->|Hne].
  - destruct l; [|cbn in Hlen; lia]. cbn. rewrite andb_true_r. apply pat_eq. lia.
  - rewrite Z.land_lor_distr_r, (lor_split msb), pat_eq, IH, andb_true_iff; try lia; [done| | | |].
    + intros i Hi. by rewrite Z.land_spec, mask1_other, andb_false_r by lia.
    + intros i Hi. by rewrite match1_other by lia.
    + intros i Hi. by rewrite Z.land_spec, dontCareMask_high, andb_false_r by lia.
    + intros i Hi. by rewrite bitMatch_high by lia.
Qed.

Lemma bitPatternMatcher_witness :
  bitPatternMatcher 3 0 [P1; PX; P0; P1] 0x9 = matches 3 [P1; PX; P0; P1] 0x9.
Proof. apply (bitPatternMatcher_spec [P1; PX; P0; P1] 3 0 0x9); [lia|reflexivity]. Defined.

(** ** Population count *)

Fixpoint count_pos (p : positive) : Z :=
  match p with xH => 1 | xO p => count_pos p | xI p => 1 + count_pos p end.
Definition bit_count (val : Z) : Z :=
  match val with Zpos p => count_pos p | _ => 0 end.

(** Words as byte lists, lowest byte first. *)
Fixpoint le (bs : list Z) : Z := match bs with [] => 0 | b :: bs => b + 256 * le bs end.
Definition byte (b : Z) : Prop := 0 ≤ b < 256.

Lemma le_nonneg bs : Forall byte bs → 0 ≤ le bs.
Proof. induction 1 as [|b bs [? ?]]; cbn; lia. Qed.

Lemma bytes_of val n : 0 ≤ val < 256 ^ Z.of_nat n →
  ∃ bs, length bs = n ∧ Forall byte bs ∧ val = le bs.
Proof.
  revert val. induction n as [|n IH]; intros val Hv.
  - exists []. cbn in *. repeat split; [done|lia].
  - destruct (IH (val / 256)) as (bs & Hl & Hb & He).
    { split; [apply Z.div_pos; lia|]. apply Z.div_lt_upper_bound; [lia|].
      rewrite Nat2Z.inj_succ, Z.pow_succ_r in Hv by lia. lia. }
    exists (val mod 256 :: bs). cbn. repeat split; [lia| |].
    + constructor; [apply Z.mod_pos_bound; lia|done].
    + rewrite <- He. pose proof (Z.div_mod val 256). lia.
Qed.

Lemma testbit_byte b h i : byte b → 0 ≤ i →
  Z.testbit (b + 256 * h) i = if i <? 8 then Z.testbit b i else Z.testbit h (i - 8).
Proof.
  intros Hb Hi. destruct (Z.ltb_spec i 8).
  - rewrite <- (Z.mod_pow2_bits_low _ 8) by lia. change (2 ^ 8) with 256.
    rewrite (Z.mul_comm 256), Z.mod_add by lia.
    rewrite Z.mod_small by (unfold byte in Hb; lia). done.
  - replace i with (i - 8 + 8) at 1 by lia. rewrite <- Z.div_pow2_bits by lia.
    change (2 ^ 8) with 256. rewrite (Z.mul_comm 256), Z.div_add by lia.
    rewrite Z.div_small by (unfold byte in Hb; lia). done.
Qed.

Lemma byte_high b i : byte b → 8 ≤ i → Z.testbit b i = false.
Proof.
  intros Hb Hi. rewrite <- (Z.mod_small b (2 ^ 8)) by (unfold byte in Hb; lia).
  by rewrite Z.mod_pow2_bits_high by lia.
Qed.

(** A shift followed by a mask that clears the bits shifted in works byte by
    byte. *)
Lemma land_shift_byte k b h m mh :
  0 ≤ k < 8 → byte b → 0 ≤ m < 2 ^ (8 - k) →
  Z.land (Z.shiftr (b + 256 * h) k) (m + 256 * mh) =
  Z.land (Z.shiftr b k) m + 256 * Z.land (Z.shiftr h k) mh.
Proof.
  intros Hk Hb Hm.
  assert (2 ^ (8 - k) ≤ 2 ^ 8) by (apply Z.pow_le_mono_r; lia).
  assert (byte m) as Hm' by (unfold byte; lia).
  assert (byte (Z.land (Z.shiftr b k) m)) as Hl.
  { pose proof (land_bound (Z.shiftr b k) m). unfold byte. lia. }
  apply Z.bits_inj'. intros i Hi. rewrite Z.land_spec, Z.shiftr_spec by done.
  rewrite !testbit_byte by (done || lia). destruct (Z.ltb_spec i 8).
  - rewrite Z.land_spec, Z.shiftr_spec by done. destruct (Z.ltb_spec (i + k) 8); [done|].
    replace (Z.testbit m i) with false; [by rewrite !andb_false_r|].
    symmetry. rewrite <- (Z.mod_small m (2 ^ (8 - k))) by done.
    by rewrite Z.mod_pow2_bits_high by lia.
  - destruct (Z.ltb_spec (i + k) 8); [lia|]. rewrite Z.land_spec, Z.shiftr_spec by lia.
    do 2 f_equal. lia.
Qed.

Definition s1 (b : Z) : Z := b - Z.land (Z.shiftr b 1) 0x55.
Definition s2 (b : Z) : Z := Z.land b 0x33 + Z.land (Z.shiftr b 2) 0x33.
Definition s3 (b : Z) : Z := Z.land (b + Z.shiftr b 4) 0x0f.

Lemma bytes_all (P : Z → bool) b :
  forallb (λ n, P (Z.of_nat n)) (seq 0 256) = true → byte b → P b = true.
Proof.
  intros H Hb. rewrite forallb_forall in H. rewrite <- (Z2Nat.id b) by (unfold byte in Hb; lia).
  apply H, in_seq. unfold byte in Hb. lia.
Qed.

Lemma s_facts b : byte b →
  byte (s1 b) ∧ byte (s2 (s1 b)) ∧ Z.land (s2 (s1 b)) 0x77 = s2 (s1 b) ∧
  s2 (s1 b) ≤ 0x44 ∧ s2 (s1 b) mod 16 ≤ 4 ∧
  s3 (s2 (s1 b)) = bit_count b ∧ 0 ≤ bit_count b ≤ 8.
Proof.
  intros Hb.
  pose proof (bytes_all (λ b, (0 <=? s1 b) && (s1 b <? 256) && (0 <=? s2 (s1 b)) &&
    (s2 (s1 b) <? 256) && (Z.land (s2 (s1 b)) 0x77 =? s2 (s1 b)) && (s2 (s1 b) <=? 0x44) &&
    (s2 (s1 b) mod 16 <=? 4) && (s3 (s2 (s1 b)) =? bit_count b) && (0 <=? bit_count b) &&
    (bit_count b <=? 8)) b) as H.
  lapply H; [|vm_compute; reflexivity]. clear H. intros H. specialize (H Hb).
  unfold byte. rewrite !andb_true_iff in H. lia.
Qed.

Lemma step1_le bs :
  Forall byte bs →
  le bs - Z.land (Z.shiftr (le bs) 1) (le (replicate (length bs) 0x55)) = le (map s1 bs).
Proof.
  induction 1 as [|b bs Hb Hbs IH]; [done|]. cbn [le length replicate map].
  rewrite land_shift_byte by (done || lia). unfold s1 at 1. lia.
Qed.

Lemma step2_le bs :
  Forall byte bs →
  let m := le (replicate (length bs) 0x33) in
  Z.land (le bs) m + Z.land (Z.shiftr (le bs) 2) m = le (map s2 bs).
Proof.
  induction 1 as [|b bs Hb Hbs IH]; [done|]. cbn [le length replicate map]. cbn in IH.
  rewrite land_shift_byte by (done || lia).
  pose proof (land_shift_byte 0 b (le bs) 0x33 (le (replicate (length bs) 0x33))) as H0.
  rewrite !Z.shiftr_0_r in H0. rewrite H0 by (done || lia). unfold s2 at 1. lia.
Qed.

(** Bytes whose two nibbles are each at most 4. *)
Definition nib (b : Z) : Prop := 0 ≤ b ≤ 0x44 ∧ b mod 16 ≤ 4.

Lemma shiftr4_byte b h : byte b →
  Z.shiftr (b + 256 * h) 4 = Z.shiftr b 4 + 16 * (h mod 16) + 256 * Z.shiftr h 4.
Proof.
  intros Hb. rewrite !Z.shiftr_div_pow2 by lia. change (2 ^ 4) with 16.
  replace (b + 256 * h) with (b + (16 * h) * 16) by lia. rewrite Z.div_add by lia.
  pose proof (Z.div_mod h 16). lia.
Qed.

Lemma step3_le bs :
  Forall nib bs →
  Z.land (le bs + Z.shiftr (le bs) 4) (le (replicate (length bs) 0x0f)) = le (map s3 bs).
Proof.
  induction 1 as [|b bs Hb Hbs IH]; [done|]. cbn [le length replicate map].
  assert (byte b) as Hb' by (unfold byte, nib in *; lia).
  rewrite shiftr4_byte by done. set (h := le bs) in *.
  assert (0 ≤ h mod 16 ≤ 4) as Hh.
  { subst h. destruct bs as [|b' bs]; [done|]. apply Forall_cons in Hbs as [[? ?] _].
    cbn [le]. replace (b' + 256 * le bs) with (b' + (16 * le bs) * 16) by lia.
    rewrite Z.mod_add by lia. pose proof (Z.mod_pos_bound b' 16). lia. }
  assert (0 ≤ Z.shiftr b 4 ≤ 4) as Hs.
  { destruct Hb. rewrite Z.shiftr_div_pow2 by lia. change (2 ^ 4) with 16. lia_div. }
  replace (b + 256 * h + (Z.shiftr b 4 + 16 * (h mod 16) + 256 * Z.shiftr h 4))
    with ((b + Z.shiftr b 4 + 16 * (h mod 16)) + 256 * (h + Z.shiftr h 4)) by lia.
  pose proof (land_shift_byte 0 (b + Z.shiftr b 4 + 16 * (h mod 16)) (h + Z.shiftr h 4)
                0x0f (le (replicate (length bs) 0x0f))) as H0.
  rewrite !Z.shiftr_0_r in H0. rewrite H0, IH; [|lia| |lia].
  2:{ unfold byte. destruct Hb. lia. }
  f_equal. unfold s3. change 0x0f with (Z.ones 4). rewrite !Z.land_ones by lia.
  change (2 ^ 4) with 16. rewrite (Z.mul_comm 16), Z.mod_add by lia. done.
Qed.

Lemma le_u64 bs : length bs = 8%nat → Forall byte bs → is_u64 (le bs).
Proof.
  intros Hl Hb. do 8 (destruct bs as [|? bs]; [done|]). destruct bs; [|done].
  repeat (apply Forall_cons in Hb as [[? ?] Hb]). unfold is_u64. cbn [le]. lia.
Qed.

Lemma nib_sum_u64 bs :
  length bs = 8%nat → Forall nib bs → is_u64 (le bs + Z.shiftr (le bs) 4).
Proof.
  intros Hl Hb. do 8 (destruct bs as [|? bs]; [done|]). destruct bs; [|done].
  repeat (apply Forall_cons in Hb as [[? _] Hb]).
  rewrite Z.shiftr_div_pow2 by lia. change (2 ^ 4) with 16.
  unfold is_u64. cbn [le]. lia_div.
Qed.

Lemma horizontal_sum bs :
  length bs = 8%nat → Forall (λ b, 0 ≤ b ≤ 8) bs →
  Z.shiftr (u64 (le bs * 0x0101010101010101)) 56 = sumZ bs.
Proof.
  intros Hlen Hbs. rewrite Z.shiftr_div_pow2 by lia. unfold u64.
  destruct bs as [|b0 [|b1 [|b2 [|b3 [|b4 [|b5 [|b6 [|b7 [|]]]]]]]]]; try done. clear Hlen.
  repeat (apply Forall_cons in Hbs as [? Hbs]).
  pose (S := sumZ [b0; b1; b2; b3; b4; b5; b6; b7]).
  pose (L := le [b0; b0 + b1; b0 + b1 + b2; b0 + b1 + b2 + b3; b0 + b1 + b2 + b3 + b4;
                 b0 + b1 + b2 + b3 + b4 + b5; b0 + b1 + b2 + b3 + b4 + b5 + b6]).
  pose (Hi := le [b1 + b2 + b3 + b4 + b5 + b6 + b7; b2 + b3 + b4 + b5 + b6 + b7;
                 b3 + b4 + b5 + b6 + b7; b4 + b5 + b6 + b7; b5 + b6 + b7; b6 + b7; b7]).
  assert (le [b0; b1; b2; b3; b4; b5; b6; b7] * 0x0101010101010101 =
          (L + S * 2 ^ 56) + Hi * 2 ^ 64) as -> by (subst S L Hi; cbn [le sumZ]; ring).
  assert (0 ≤ L < 2 ^ 56) by (subst L; cbn [le]; lia).
  assert (0 ≤ S < 2 ^ 8) by (subst S; cbn [sumZ]; lia).
  rewrite Z.mod_add, Z.mod_small, Z.div_add, Z.div_small by lia. done.
Qed.

Lemma bit_count_double h b : 0 ≤ h → 0 ≤ b < 2 → bit_count (b + 2 * h) = bit_count h + b.
Proof.
  intros Hh Hb. rewrite (Z.add_comm (bit_count h)).
  assert (b = 0 ∨ b = 1) as [->| ->] by lia; by destruct h as [|p|p].
Qed.

Lemma bit_count_split k : ∀ l h, 0 ≤ h → 0 ≤ l < 2 ^ Z.of_nat k →
  bit_count (l + 2 ^ Z.of_nat k * h) = bit_count l + bit_count h.
Proof.
  induction k as [|k IH]; intros l h Hh Hl.
  - assert (l = 0) as -> by (cbn in Hl; lia). change (2 ^ Z.of_nat 0) with 1.
    by rewrite Z.add_0_l, Z.mul_1_l.
  - rewrite Nat2Z.inj_succ, Z.pow_succ_r in * by lia.
    pose proof (Z.div_mod l 2). pose proof (Z.mod_pos_bound l 2).
    replace (l + 2 * 2 ^ Z.of_nat k * h)
      with (l mod 2 + 2 * (l / 2 + 2 ^ Z.of_nat k * h)) by lia.
    assert (0 ≤ l / 2 < 2 ^ Z.of_nat k) as Hq.
    { split; [apply Z.div_pos; lia|]. apply Z.div_lt_upper_bound; lia. }
    rewrite bit_count_double, IH by nia.
    replace (bit_count l) with (bit_count (l mod 2 + 2 * (l / 2))) by (f_equal; lia).
    rewrite bit_count_double by lia. lia.
Qed.

Lemma bit_count_le bs : Forall byte bs → bit_count (le bs) = sumZ (map bit_count bs).
Proof.
  induction 1 as [|b bs Hb Hbs IH]; [done|]. cbn. rewrite <- IH.
  apply (bit_count_split 8); [by apply le_nonneg|done].
Qed.

Lemma popCount_count val : is_u64 val → popCount val = bit_count val.
Proof.
  intros Hv. destruct (bytes_of val 8) as (bs & Hlen & Hbs & ->).
  { unfold is_u64 in Hv. done. }
  assert (Forall (λ b, byte (s1 b)) bs) as H1
    by (eapply Forall_impl; [exact Hbs|]; intros b ?%s_facts; tauto).
  assert (Forall nib (map s2 (map s1 bs))) as H2.
  { rewrite !Forall_fmap. eapply Forall_impl; [exact Hbs|].
    intros b (? & [? ?] & ? & ? & ?)%s_facts. split; cbn; lia. }
  assert (Forall byte (map s1 bs)) as H1' by (by apply Forall_fmap).
  unfold popCount.
  change 0x5555555555555555 with (le (replicate 8 0x55)).
  change 0x3333333333333333 with (le (replicate 8 0x33)).
  change 0x0f0f0f0f0f0f0f0f with (le (replicate 8 0x0f)).
  replace 8%nat with (length bs). rewrite step1_le by done.
  rewrite (u64_id (le (map s1 bs))) by (apply le_u64; [by rewrite length_map|done]).
  replace (length bs) with (length (map s1 bs)) by apply length_map.
  rewrite step2_le by done.
  rewrite (u64_id (le (map s2 _))).
  2:{ apply le_u64; [by rewrite !length_map|]. eapply Forall_impl; [exact H2|].
      unfold nib, byte. intros; lia. }
  replace (length (map s1 bs)) with (length (map s2 (map s1 bs))) by apply length_map.
  set (cs := map s2 (map s1 bs)) in *.
  rewrite (u64_id (le cs + _)).
  2:{ apply nib_sum_u64; [by subst cs; rewrite !length_map|done]. }
  rewrite step3_le by done. 
  rewrite horizontal_sum, bit_count_le; [|done|by subst cs; rewrite !length_map|].
  - subst cs. f_equal. rewrite !map_map. apply map_ext_Forall.
    eapply Forall_impl; [exact Hbs|]. intros b Hb%s_facts. tauto.
  - subst cs. rewrite !Forall_fmap. eapply Forall_impl; [exact Hbs|].
    intros b Hb%s_facts. cbn. lia.
Qed.

(** The arithmetic population count equals the number of set
    bits, for every 64-bit word. *)
Theorem popCount_spec val : is_u64 val → popCount val = bit_count val.
Proof. apply popCount_count. Qed.

Lemma popCount_witness : popCount 0xf0f1 = 9.
Proof. apply (popCount_spec 0xf0f1); unfold is_u64; lia. Defined.
