(* ===== verification/IntMath.v ===== *)
(** * Integer helpers (src/gem5/src/base/intmath.hh)

    The templates at their unsigned instances; [ts] is [sizeof(T)]. *)

From S2P Require Import Prelude Bitfield.
#[local] Open Scope Z_scope.

(** One line of [floorLog2]: [if (ts >= lim && (ux & m)) { y += s; ux >>= s; }]. *)
Definition flog_step (ts lim m s : Z) (st : Z * Z) : Z * Z :=
  let '(y, ux) := st in
  if (lim <=? ts) && negb (Z.land ux m =? 0) then (y + s, Z.shiftr ux s) else (y, ux).

Definition floorLog2 (ts x : Z) : res Z :=
  if 0 <? x then
    let st := flog_step ts 8 0xffffffff00000000 32 (0, x) in
    let st := flog_step ts 4 0x00000000ffff0000 16 st in
    let st := flog_step ts 2 0x000000000000ff00 8 st in
    let st := flog_step ts 0 0x00000000000000f0 4 st in
    let st := flog_step ts 0 0x000000000000000c 2 st in
    let '(y, ux) := st in
    Ok (if negb (Z.land ux 0x2 =? 0) then y + 1 else y)
  else Abort AssertFailed.

Definition ceilLog2 (ts n : Z) : res Z :=
  if 0 <? n then
    if n =? 1 then Ok 0
    else l ← floorLog2 ts (n - 1); mret (l + 1)
  else Abort AssertFailed.

Definition isPowerOf2 (n : Z) : bool :=
  negb (n =? 0) && (Z.land n (u64 (n - 1)) =? 0).

(** [(a + b - 1) / b] on [uint64_t]; a zero divisor is undefined. *)
Definition divCeil (a b : Z) : res Z :=
  if b =? 0 then Abort UndefinedBehavior else Ok (u64 (a + b - 1) / b).

(** [mulUnsigned] for types of at most 32 bits, [w] bits wide: (high, low). *)
Definition mulUnsigned32 (w val_a val_b : Z) : Z * Z :=
  let product := u64 (val_a * val_b) in
  ((Z.shiftr product w) mod 2 ^ w, product mod 2 ^ w).

Definition mulUnsignedManual (val_a val_b : Z) : Z * Z :=
  let low := u64 (val_a * val_b) in
  let A := u32 (Z.shiftr val_a 32) in
  let a := u32 val_a in
  let B := u32 (Z.shiftr val_b 32) in
  let b := u32 val_b in
  let ab := u64 (a * b) in
  let Ab := u64 (A * b) in
  let aB := u64 (a * B) in
  let AB := u64 (A * B) in
  let c1 := u32 (Z.shiftr ab 32) in
  let c2 := u64 (Z.shiftr c1 1 + Z.shiftr Ab 1 + Z.shiftr aB 1) in
  let c2 := u64 (c2 + Z.shiftr (Z.land c1 1 + Z.land Ab 1 + Z.land aB 1) 1) in
  let c2 := Z.shiftr c2 31 in
  (u64 (AB + c2), low).

(** The [__uint128_t] branch of [mulUnsigned]. *)
Definition mulUnsigned64 (val_a val_b : Z) : Z * Z :=
  let val := (val_a * val_b) mod 2 ^ 128 in
  (u64 (Z.shiftr val 64), u64 val).

(** Signed values are their two's-complement words; [neg] tells the sign. *)
Definition neg64 (x : Z) : bool := 2 ^ 63 <=? x.
Definition signed64 (x : Z) : Z := if neg64 x then x - 2 ^ 64 else x.

Definition mulSignedManual (val_a val_b : Z) : Z * Z :=
  let '(u_high, u_low) := mulUnsigned64 val_a val_b in
  let u_high := if neg64 val_a then u64 (u_high - val_b) else u_high in
  let u_high := if neg64 val_b then u64 (u_high - val_a) else u_high in
  (u_high, u_low).

(** The [__int128_t] branch of [mulSigned]. *)
Definition mulSigned64 (val_a val_b : Z) : Z * Z :=
  let val := signed64 val_a * signed64 val_b in
  (u64 (Z.shiftr val 64), u64 val).

Definition roundUp (val align : Z) : res Z :=
  if isPowerOf2 align then
    let mask := u64 (align - 1) in
    Ok (Z.land (u64 (val + mask)) (not64 mask))
  else Abort AssertFailed.

Definition roundDown (val align : Z) : res Z :=
  if isPowerOf2 align then
    let mask := u64 (align - 1) in
    Ok (Z.land val (not64 mask))
  else Abort AssertFailed.

Definition log2i (value : Z) : res Z :=
  if isPowerOf2 value && (0 <? value) then Ok (ctz32 value) else Abort AssertFailed.

(** ** Logarithms *)

Lemma land_high_bits ux s :
  0 < s → 0 ≤ ux < 2 ^ (2 * s) →
  Z.land ux (Z.shiftl (Z.ones s) s) = Z.shiftl (Z.shiftr ux s) s.
Proof.
  intros Hs Hu. apply Z.bits_inj'. intros i Hi.
  rewrite Z.land_spec, !Z.shiftl_spec by done. destruct (Z.lt_ge_cases i s).
  { rewrite !(Z.testbit_neg_r _ (i - s)) by lia. apply andb_false_r. }
  rewrite Z.shiftr_spec, Z.testbit_ones_nonneg by lia.
  replace (i - s + s) with i by lia. destruct (Z.ltb_spec (i - s) s).
  - apply andb_true_r.
  - rewrite <- (Z.mod_small ux (2 ^ (2 * s))) by done.
    by rewrite Z.mod_pow2_bits_high by lia.
Qed.

Lemma flog_step_spec n ts lim m s y ux :
  0 < s → m = Z.shiftl (Z.ones s) s → 0 < ux < 2 ^ (2 * s) →
  (ts < lim → ux < 2 ^ s) → Z.log2 n = y + Z.log2 ux →
  let '(y', ux') := flog_step ts lim m s (y, ux) in
  0 < ux' < 2 ^ s ∧ Z.log2 n = y' + Z.log2 ux' ∧ (ts < lim → ux' = ux).
Proof.
  intros Hs -> Hu Hlim Hn. unfold flog_step. rewrite land_high_bits by lia.
  assert (0 < 2 ^ s) by (apply Z.pow_pos_nonneg; lia).
  assert (Z.shiftr ux s = 0 ↔ ux < 2 ^ s) as Hz.
  { rewrite Z.shiftr_div_pow2, Z.div_small_iff by lia. lia. }
  destruct (decide (ux < 2 ^ s)) as [Hlt|Hge].
  - rewrite (proj2 Hz Hlt), Z.shiftl_0_l. cbn. rewrite andb_false_r. repeat split; lia.
  - assert (Z.shiftl (Z.shiftr ux s) s ≠ 0).
    { rewrite Z.shiftl_eq_0_iff by lia. tauto. }
    destruct (Z.eqb_spec (Z.shiftl (Z.shiftr ux s) s) 0); [done|].
    destruct (Z.leb_spec lim ts); [|lia]. cbn [negb andb].
    assert (s ≤ Z.log2 ux) by (apply Z.log2_le_pow2; lia).
    rewrite Z.log2_shiftr by lia. split; [|split; lia].
    rewrite Z.shiftr_div_pow2 by lia. split.
    + apply Z.div_str_pos. split; [apply Z.pow_pos_nonneg; lia|lia].
    + apply Z.div_lt_upper_bound; [apply Z.pow_pos_nonneg; lia|].
      rewrite <- Z.pow_add_r by lia. replace (s + s) with (2 * s) by lia. lia.
Qed.

Lemma floorLog2_log2 ts x :
  ts ∈ [1; 2; 4; 8] → 0 < x < 2 ^ (8 * ts) → floorLog2 ts x = Ok (Z.log2 x).
Proof.
  intros Hts Hx. assert (ts = 1 ∨ ts = 2 ∨ ts = 4 ∨ ts = 8) as Hts' by set_solver.
  unfold floorLog2. destruct (Z.ltb_spec 0 x); [|lia].
  assert (2 ^ (8 * ts) ≤ 2 ^ 64 ∧ (ts < 8 → 2 ^ (8 * ts) ≤ 2 ^ 32) ∧
          (ts < 4 → 2 ^ (8 * ts) ≤ 2 ^ 16) ∧ (ts < 2 → 2 ^ (8 * ts) ≤ 2 ^ 8)) as (B1 & B2 & B3 & B4).
  { repeat split; intros; apply Z.pow_le_mono_r; lia. }
  pose proof (flog_step_spec x ts 8 0xffffffff00000000 32 0 x) as S1.
  destruct (flog_step ts 8 _ 32 _) as [y1 u1].
  destruct S1 as (R1 & L1 & K1); try (lia || done).
  pose proof (flog_step_spec x ts 4 0x00000000ffff0000 16 y1 u1) as S2.
  destruct (flog_step ts 4 _ 16 _) as [y2 u2].
  destruct S2 as (R2 & L2 & K2); try (lia || done).
  pose proof (flog_step_spec x ts 2 0x000000000000ff00 8 y2 u2) as S3.
  destruct (flog_step ts 2 _ 8 _) as [y3 u3].
  destruct S3 as (R3 & L3 & K3); try (lia || done).
  pose proof (flog_step_spec x ts 0 0x00000000000000f0 4 y3 u3) as S4.
  destruct (flog_step ts 0 0xf0 4 _) as [y4 u4].
  destruct S4 as (R4 & L4 & _); try (lia || done).
  pose proof (flog_step_spec x ts 0 0x000000000000000c 2 y4 u4) as S5.
  destruct (flog_step ts 0 0xc 2 _) as [y5 u5].
  destruct S5 as (R5 & L5 & _); try (lia || done).
  f_equal. rewrite L5. clear -R5.
  assert (u5 = 1 ∨ u5 = 2 ∨ u5 = 3) as [->|[->| ->]] by lia; cbn -[Z.add]; [symmetry; apply Z.add_0_r|done|done].
Qed.

(** [floorLog2] of a positive value of a 1-, 2-, 4- or 8-byte
    type is its integer logarithm. *)
Theorem floorLog2_spec ts x :
  ts ∈ [1; 2; 4; 8] → 0 < x < 2 ^ (8 * ts) → floorLog2 ts x = Ok (Z.log2 x).
Proof. apply floorLog2_log2. Qed.

Lemma floorLog2_witness : floorLog2 4 1000 = Ok 9.
Proof. apply (floorLog2_spec 4 1000); [set_solver|lia]. Defined.

(** [ceilLog2] is the logarithm rounded up. *)
Lemma ceilLog2_spec ts n :
  ts ∈ [1; 2; 4; 8] → 0 < n < 2 ^ (8 * ts) → ceilLog2 ts n = Ok (Z.log2_up n).
Proof.
  intros Hts Hn. unfold ceilLog2. destruct (Z.ltb_spec 0 n); [|lia].
  destruct (Z.eqb_spec n 1) as [->|Hne]; [done|].
  rewrite floorLog2_log2 by (done || lia). cbn. f_equal.
  rewrite Z.log2_up_eqn by lia. rewrite Z.sub_1_r. lia.
Qed.

(** ** Powers of two and alignment *)

Lemma isPowerOf2_spec n :
  is_u64 n → isPowerOf2 n = true ↔ ∃ k, 0 ≤ k < 64 ∧ n = 2 ^ k.
Proof.
  unfold is_u64, isPowerOf2. intros Hn. destruct (Z.eqb_spec n 0) as [->|Hne].
  { cbn. split; [done|]. intros (k & Hk & H). pose proof (Z.pow_pos_nonneg 2 k). lia. }
  cbn. rewrite u64_id by (unfold is_u64; lia). rewrite Z.eqb_eq. split.
  - intros H. exists (Z.log2 n). split.
    { split; [apply Z.log2_nonneg|]. apply Z.log2_lt_pow2; lia. }
    destruct (Z.log2_spec n) as [Hl Hu]; [lia|].
    destruct (decide (n = 2 ^ Z.log2 n)) as [|Hd]; [done|exfalso].
    assert (n ≠ 1) by (by intros ->).
    assert (Z.testbit (Z.land n (n - 1)) (Z.log2 n) = true) as Hb.
    { rewrite Z.land_spec, Z.bit_log2 by lia.
      replace (Z.log2 n) with (Z.log2 (n - 1)).
      - by rewrite Z.bit_log2 by lia.
      - apply Z.log2_unique; [apply Z.log2_nonneg|]. lia. }
    by rewrite H, Z.bits_0 in Hb.
  - intros (k & Hk & ->). rewrite Z.sub_1_r, <- Z.ones_equiv, Z.land_ones by lia.
    apply Z.mod_same. pose proof (Z.pow_pos_nonneg 2 k). lia.
Qed.

Lemma land_not_mask v k :
  is_u64 v → 0 ≤ k < 64 → Z.land v (not64 (2 ^ k - 1)) = v - v mod 2 ^ k.
Proof.
  intros Hv Hk. rewrite Z.sub_1_r, <- Z.ones_equiv.
  transitivity (Z.ldiff v (Z.ones k)).
  - apply Z.bits_inj'. intros i Hi. rewrite Z.land_spec, Z.ldiff_spec, not64_testbit by done.
    destruct (Z.ltb_spec i 64); [done|]. by rewrite (u64_high v i).
  - rewrite Z.ldiff_ones_r, Z.shiftl_mul_pow2, Z.shiftr_div_pow2 by lia.
    pose proof (Z.div_mod v (2 ^ k)). pose proof (Z.pow_pos_nonneg 2 k). lia.
Qed.

Lemma mul_mod_self a b : b ≠ 0 → (b * a) mod b = 0.
Proof. intros. rewrite Z.mul_comm. by apply Z.mod_mul. Qed.

(** [roundDown] by a power of two gives the greatest multiple
    not above the value. *)
Theorem roundDown_spec v align r :
  is_u64 v → is_u64 align → roundDown v align = Ok r →
  r mod align = 0 ∧ r ≤ v < r + align.
Proof.
  unfold roundDown. intros Hv Ha. destruct (isPowerOf2 align) eqn:E; [|done]. intros [= <-].
  apply isPowerOf2_spec in E as (k & Hk & ->); [|done].
  assert (0 < 2 ^ k) by (apply Z.pow_pos_nonneg; lia).
  rewrite u64_id by (unfold is_u64 in *; lia). rewrite land_not_mask by done.
  pose proof (Z.div_mod v (2 ^ k)). pose proof (Z.mod_pos_bound v (2 ^ k)).
  replace (v - v mod 2 ^ k) with (2 ^ k * (v / 2 ^ k)) by lia.
  rewrite mul_mod_self by lia. lia.
Qed.

Lemma roundDown_witness : roundDown 1000 64 = Ok 960 ∧ 960 mod 64 = 0 ∧ 960 ≤ 1000 < 960 + 64.
Proof.
  split; [reflexivity|]. apply (roundDown_spec 1000 64 960); [unfold is_u64; lia..|reflexivity].
Defined.

(** [roundUp] by a power of two gives the least multiple not
    below the value, whenever that multiple fits in 64 bits. *)
Theorem roundUp_spec v align r :
  is_u64 v → is_u64 align → v + align ≤ 2 ^ 64 → roundUp v align = Ok r →
  r mod align = 0 ∧ v ≤ r < v + align.
Proof.
  unfold roundUp. intros Hv Ha Hfit. destruct (isPowerOf2 align) eqn:E; [|done]. intros [= <-].
  apply isPowerOf2_spec in E as (k & Hk & ->); [|done].
  assert (0 < 2 ^ k) by (apply Z.pow_pos_nonneg; lia).
  rewrite (u64_id (2 ^ k - 1)) by (unfold is_u64 in *; lia).
  rewrite (u64_id (v + _)) by (unfold is_u64 in *; lia).
  rewrite land_not_mask by (done || (unfold is_u64 in *; lia)).
  set (w := v + (2 ^ k - 1)).
  pose proof (Z.div_mod w (2 ^ k)). pose proof (Z.mod_pos_bound w (2 ^ k)).
  replace (w - w mod 2 ^ k) with (2 ^ k * (w / 2 ^ k)) by lia.
  rewrite mul_mod_self by lia. lia.
Qed.

Lemma roundUp_witness : roundUp 1000 64 = Ok 1024 ∧ 1024 mod 64 = 0 ∧ 1000 ≤ 1024 < 1000 + 64.
Proof.
  split; [reflexivity|]. apply (roundUp_spec 1000 64 1024); [unfold is_u64; lia..|lia|reflexivity].
Defined.

Lemma divCeil_spec a b r :
  0 ≤ a → 0 < b → a + b ≤ 2 ^ 64 → divCeil a b = Ok r → b * (r - 1) < a ≤ b * r.
Proof.
  unfold divCeil. intros Ha Hb Hf. destruct (Z.eqb_spec b 0); [lia|]. intros [= <-].
  rewrite u64_id by (unfold is_u64; lia).
  pose proof (Z.div_mod (a + b - 1) b). pose proof (Z.mod_pos_bound (a + b - 1) b). lia.
Qed.

Lemma log2i_spec value :
  0 < value < 2 ^ 31 → isPowerOf2 value = true → log2i value = Ok (Z.log2 value).
Proof.
  intros Hv Hp. unfold log2i. rewrite Hp. destruct (Z.ltb_spec 0 value); [|lia]. cbn.
  apply isPowerOf2_spec in Hp as (k & Hk & ->); [|unfold is_u64; lia].
  rewrite Z.log2_pow2 by lia. f_equal. unfold ctz32.
  destruct (Z.eqb_spec (2 ^ k) 0); [lia|].
  apply (lowest_unique (2 ^ k)); [apply builtin_ctz_lowest; lia|].
  split; [lia|]. split; [apply Z.pow2_bits_true; lia|].
  intros i Hi. apply Z.pow2_bits_false. lia.
Qed.

(** ** Wide multiplication *)

Lemma halves_sum x y z :
  0 ≤ x → 0 ≤ y → 0 ≤ z →
  Z.shiftr x 1 + Z.shiftr y 1 + Z.shiftr z 1 +
  Z.shiftr (Z.land x 1 + Z.land y 1 + Z.land z 1) 1 = (x + y + z) / 2.
Proof.
  intros Hx Hy Hz. change 1 with (Z.ones 1) at 4 5 6. rewrite !Z.land_ones by lia.
  rewrite !Z.shiftr_div_pow2 by lia. change (2 ^ 1) with 2. lia_div.
Qed.

Lemma halves_bound x y z :
  is_u32 x → 0 ≤ y ≤ (2 ^ 32 - 1) * (2 ^ 32 - 1) → 0 ≤ z ≤ (2 ^ 32 - 1) * (2 ^ 32 - 1) →
  is_u64 (Z.shiftr x 1 + Z.shiftr y 1 + Z.shiftr z 1) ∧ is_u64 ((x + y + z) / 2).
Proof.
  unfold is_u32, is_u64. intros Hx Hy Hz. rewrite !Z.shiftr_div_pow2 by lia.
  change (2 ^ 1) with 2. lia_div.
Qed.

Lemma mul_bound x y : is_u32 x → is_u32 y → 0 ≤ x * y ≤ (2 ^ 32 - 1) * (2 ^ 32 - 1).
Proof. unfold is_u32. nia. Qed.

Lemma mul_bound_u64 x y : is_u32 x → is_u32 y → is_u64 (x * y).
Proof. intros Hx Hy. pose proof (mul_bound x y Hx Hy). unfold is_u64. lia. Qed.

(** Schoolbook multiplication in base 2^32. *)
Lemma product_high A a B b :
  0 ≤ a → 0 ≤ b →
  ((A * 2 ^ 32 + a) * (B * 2 ^ 32 + b)) / 2 ^ 64 =
  A * B + ((a * b) / 2 ^ 32 + A * b + a * B) / 2 ^ 32.
Proof.
  intros Ha Hb. change (2 ^ 64) with (2 ^ 32 * 2 ^ 32).
  replace ((A * 2 ^ 32 + a) * (B * 2 ^ 32 + b))
    with (a * b + (A * b + a * B + A * B * 2 ^ 32) * 2 ^ 32) by ring.
  rewrite <- Z.div_div, Z.div_add by lia.
  replace (a * b / 2 ^ 32 + (A * b + a * B + A * B * 2 ^ 32))
    with (a * b / 2 ^ 32 + A * b + a * B + A * B * 2 ^ 32) by ring.
  rewrite Z.div_add by lia. ring.
Qed.

Lemma u64_split x : is_u64 x →
  is_u32 (u32 (Z.shiftr x 32)) ∧ is_u32 (u32 x) ∧ x = u32 (Z.shiftr x 32) * 2 ^ 32 + u32 x.
Proof.
  intros Hx. split; [apply u32_range|]. split; [apply u32_range|].
  unfold is_u64 in Hx. rewrite Z.shiftr_div_pow2 by lia. unfold u32.
  rewrite (Z.mod_small (x / 2 ^ 32)) by lia_div. lia_div.
Qed.

(** The hand-written 64x64 multiplication returns the same
    high and low words as the 128-bit product. *)
Theorem mulUnsignedManual_spec x y :
  is_u64 x → is_u64 y → mulUnsignedManual x y = mulUnsigned64 x y.
Proof.
  intros Hx Hy. unfold mulUnsignedManual, mulUnsigned64.
  destruct (u64_split x Hx) as (HA & Ha & Ex). destruct (u64_split y Hy) as (HB & Hb & Ey).
  set (A := u32 (Z.shiftr x 32)) in *. set (a := u32 x) in *.
  set (B := u32 (Z.shiftr y 32)) in *. set (b := u32 y) in *.
  rewrite !(u64_id (_ * _)) by (by apply mul_bound_u64).
  pose proof (mul_bound _ _ Ha Hb). pose proof (mul_bound _ _ HA Hb).
  pose proof (mul_bound _ _ Ha HB). pose proof (mul_bound _ _ HA HB).
  unfold is_u64 in Hx, Hy. assert (0 ≤ x * y < 2 ^ 128) as Hxy by nia.
  rewrite (Z.mod_small (x * y)) by done.
  assert (is_u32 (a * b / 2 ^ 32)) as Hc1 by (unfold is_u32; lia_div).
  rewrite (Z.shiftr_div_pow2 (a * b)), (u32_id (a * b / 2 ^ 32)) by (done || lia).
  destruct (halves_bound _ _ _ Hc1 H0 H1) as [Hb1 Hb2].
  rewrite (u64_id (Z.shiftr _ 1 + _ + _)) by done.
  rewrite halves_sum by (unfold is_u32 in Hc1; lia).
  rewrite (u64_id (_ / 2)) by done.
  rewrite !Z.shiftr_div_pow2 by lia. rewrite Z.div_div by lia.
  change (2 * 2 ^ 31) with (2 ^ 32). pose proof (product_high A a B b) as Hp.
  rewrite <- Ex, <- Ey in Hp. by rewrite Hp by (unfold is_u32 in *; lia).
Qed.

Lemma mulUnsignedManual_witness :
  mulUnsignedManual (2 ^ 63 + 5) (2 ^ 62 + 3) = mulUnsigned64 (2 ^ 63 + 5) (2 ^ 62 + 3).
Proof. apply (mulUnsignedManual_spec (2 ^ 63 + 5) (2 ^ 62 + 3)); unfold is_u64; lia. Defined.

(** The sign correction of the hand-written signed
    multiplication gives the words of the signed 128-bit product. *)
Theorem mulSignedManual_spec x y :
  is_u64 x → is_u64 y → mulSignedManual x y = mulSigned64 x y.
Proof.
  unfold is_u64. intros Hx Hy. unfold mulSignedManual, mulSigned64, mulUnsigned64, signed64, u64.
  assert (0 ≤ x * y < 2 ^ 128) as Hxy by nia.
  rewrite (Z.mod_small (x * y)) by done. rewrite !Z.shiftr_div_pow2 by lia.
  destruct (neg64 x), (neg64 y); f_equal.
  - replace ((x - 2 ^ 64) * (y - 2 ^ 64)) with (x * y + (2 ^ 64 - y - x) * 2 ^ 64) by ring.
    rewrite Z.div_add, (Zminus_mod_idemp_l (x * y / 2 ^ 64) y), Zminus_mod_idemp_l by lia.
    replace (x * y / 2 ^ 64 + (2 ^ 64 - y - x))
      with (x * y / 2 ^ 64 - y - x + 1 * 2 ^ 64) by ring.
    by rewrite Z.mod_add by lia.
  - replace ((x - 2 ^ 64) * (y - 2 ^ 64)) with (x * y + (2 ^ 64 - y - x) * 2 ^ 64) by ring.
    by rewrite Z.mod_add by lia.
  - replace ((x - 2 ^ 64) * y) with (x * y + (- y) * 2 ^ 64) by ring.
    by rewrite Z.div_add, Zminus_mod_idemp_l by lia.
  - replace ((x - 2 ^ 64) * y) with (x * y + (- y) * 2 ^ 64) by ring.
    by rewrite Z.mod_add by lia.
  - replace (x * (y - 2 ^ 64)) with (x * y + (- x) * 2 ^ 64) by ring.
    by rewrite Z.div_add, Zminus_mod_idemp_l by lia.
  - replace (x * (y - 2 ^ 64)) with (x * y + (- x) * 2 ^ 64) by ring.
    by rewrite Z.mod_add by lia.
Qed.

Lemma mulSignedManual_witness :
  mulSignedManual (2 ^ 64 - 5) (2 ^ 62 + 3) = mulSigned64 (2 ^ 64 - 5) (2 ^ 62 + 3).
Proof. apply (mulSignedManual_spec (2 ^ 64 - 5) (2 ^ 62 + 3)); unfold is_u64; lia. Defined.
