(* ===== verification/AddrRanges.v ===== *)
(** * Address ranges (src/gem5/src/base/addr_range.hh)

    Plain and interleaved address ranges: membership, intersection, subset and
    exclusion tests, merging of the stripes of an interleaved range, and the
    translation between addresses and the dense addresses of one stripe.
    [Addr] is [uint64_t]; where the source computes in [int], so does the model. *)

From S2P Require Import Prelude Bitfield.
#[local] Open Scope Z_scope.

Definition MaxAddr : Z := 2 ^ 64 - 1.

(** Conversion to [int], and [x << i] on an [int]. *)
Definition s32 (x : Z) : Z :=
  let y := x mod 2 ^ 32 in if y <? 2 ^ 31 then y else y - 2 ^ 32.
Definition shl_int (x i : Z) : res Z :=
  if i <? 32 then Ok (s32 (Z.shiftl x i)) else Abort UndefinedBehavior.

Module AddrRange.

Record t := mk {
  _start : Z;
  _end : Z;
  masks : list Z;
  intlvMatch : Z;    (* uint8_t *)
}.

#[export] Instance t_eq_dec : EqDecision t.
Proof. solve_decision. Defined.

(** The default and the two-address constructors. *)
Definition empty : t := mk 1 0 [] 0.
Definition plain (start end_ : Z) : t := mk start end_ [] 0.

Definition nmasks (r : t) : Z := Z.of_nat (length (masks r)).
Definition interleaved (r : t) : bool := 0 <? nmasks r.

(** The constructor from a vector of masks. *)
Definition with_masks (start end_ : Z) (ms : list Z) (match_ : Z) : res t :=
  if bool_decide (ms = []) then Ok (mk start end_ ms match_)
  else
    n ← shl64 1 (Z.of_nat (length ms));
    if n <=? match_ then Abort FatalError else Ok (mk start end_ ms match_).

(** The mask of iteration [i] of the legacy constructor. *)
Definition legacy_mask (intlv_high_bit xor_high_bit i : Z) : res Z :=
  mask ← shl64 1 (u8 (intlv_high_bit - i));
  if xor_high_bit =? 0 then mret mask
  else
    mask2 ← shl64 1 (u8 (xor_high_bit - i));
    mret (Z.lor mask mask2).

(** Its loop, [fuel] iterations from [i] on. *)
Fixpoint legacy_loop (fuel : nat) (hb xb n i : Z) (ms : list Z) : res (list Z) :=
  match fuel with
  | O => Ok ms
  | S fuel =>
      mask ← legacy_mask hb xb i;
      legacy_loop fuel hb xb n (i + 1) (<[Z.to_nat (n - i - 1) := mask]> ms)
  end.

Definition legacy (start end_ intlv_high_bit xor_high_bit intlv_bits match_ : Z) : res t :=
  _ ← (if intlv_bits =? 0 then Ok tt
       else n ← shl64 1 intlv_bits; if n <=? match_ then Abort FatalError else Ok tt);
  _ ← (if negb (intlv_bits =? 0) && negb (xor_high_bit =? 0) then
         if xor_high_bit =? intlv_high_bit then Abort FatalError
         else if intlv_high_bit <? xor_high_bit then
           if xor_high_bit - intlv_high_bit <? intlv_bits then Abort FatalError else Ok tt
         else
           if intlv_high_bit - xor_high_bit <? intlv_bits then Abort FatalError else Ok tt
       else Ok tt);
  ms ← legacy_loop (Z.to_nat intlv_bits) intlv_high_bit xor_high_bit intlv_bits 0
         (replicate (Z.to_nat intlv_bits) 0);
  mret (mk start end_ ms match_).

Definition size (r : t) : res Z := shr64 (u64 (_end r - _start r)) (nmasks r).

(** [combined_mask] is an [int]. *)
Definition combined_mask (ms : list Z) : Z := foldl (λ c m, s32 (Z.lor c m)) 0 ms.
Definition granularity (r : t) : res Z :=
  if interleaved r then shl64 1 (ctz64 (u64 (combined_mask (masks r)))) else size r.

Definition stripes (r : t) : res Z := n ← shl64 1 (nmasks r); mret (u32 n).
Definition valid (r : t) : bool := _start r <=? _end r.

Definition mergesWith (this r : t) : bool :=
  (_start r =? _start this) && (_end r =? _end this) && bool_decide (masks r = masks this).

(** The selector of an address: the parity of the bits each mask keeps. *)
Fixpoint sel_loop (a : Z) (ms : list Z) (i sel : Z) : res Z :=
  match ms with
  | [] => Ok sel
  | m :: ms =>
      let masked := Z.land a m in
      b ← shl_int (popCount masked mod 2) i;
      sel_loop a ms (i + 1) (Z.lor sel b)
  end.

Definition contains (r : t) (a : Z) : res bool :=
  let in_range := (_start r <=? a) && (a <? _end r) in
  if in_range then
    sel ← sel_loop a (masks r) 0 0;
    mret (sel =? intlvMatch r)
  else mret false.

Definition intersects (this r : t) : res bool :=
  if (_end r <=? _start this) || (_end this <=? _start r) then Ok false
  else if negb (interleaved this) && negb (interleaved r) then Ok true
  else
    n ← size r;
    if n =? 1 then contains this (_start r)
    else if mergesWith this r then Ok (intlvMatch this =? intlvMatch r)
    else Abort Panicked.

Definition isSubset (this r : t) : res bool :=
  if interleaved this then Abort Panicked
  else if interleaved r then
    c ← contains r (_start this);
    if (c : bool) then
      n ← size this;
      g ← granularity r;
      if n <=? g then
        if _start this =? u64 (_end this - 1) then Ok true
        else contains r (u64 (_end this - 1))
      else Ok false
    else Ok false
  else if _end this <=? _start this then
    Ok ((_start r <=? _start this) && (_end r =? 0))
  else if _end r <=? _start r then Ok (_start r <=? _start this)
  else Ok ((_start r <=? _start this) && (_end this <=? _end r)).

(** [masks_lsb], sorted. *)
Definition masks_lsb (r : t) : list Z := merge_sort Z.le (ctz64 <$> masks r).

Fixpoint remove_loop (ls : list Z) (i a : Z) : res Z :=
  match ls with
  | [] => Ok a
  | intlv_bit :: ls =>
      a ← (if 0 <? intlv_bit
           then insertBits (Z.shiftr a 1) (u32 (intlv_bit - i - 1)) 0 a
           else Ok (Z.shiftr a 1));
      remove_loop ls (i + 1) a
  end.

Definition removeIntlvBits (r : t) (a : Z) : res Z :=
  if negb (interleaved r) then Ok a else remove_loop (masks_lsb r) 0 a.

Fixpoint add_loop (ls : list Z) (a : Z) : res Z :=
  match ls with
  | [] => Ok a
  | intlv_bit :: ls =>
      a ← (if 0 <? intlv_bit
           then insertBits (u64 (Z.shiftl a 1)) (intlv_bit - 1) 0 a
           else Ok (u64 (Z.shiftl a 1)));
      add_loop ls a
  end.

(** Bit [i] of the [uint8_t] match value, computed in [int]. *)
Definition match_bit (match_ i : Z) : res Z :=
  if i <? 32 then bits match_ i i else Abort UndefinedBehavior.

Fixpoint select_loop (match_ : Z) (ms : list Z) (i a : Z) : res Z :=
  match ms with
  | [] => Ok a
  | m :: ms =>
      let lsb := ctz64 m in
      intlv_bit ← match_bit match_ i;
      one ← shl_int 1 lsb;
      let masked := Z.land (Z.land a m) (u64 (Z.lnot one)) in
      a ← insertBits a lsb lsb (Z.lxor intlv_bit (popCount masked));
      select_loop match_ ms (i + 1) a
  end.

Definition addIntlvBits (r : t) (a : Z) : res Z :=
  if negb (interleaved r) then Ok a
  else
    a ← add_loop (masks_lsb r) a;
    select_loop (intlvMatch r) (masks r) 0 a.

Definition getOffset (r : t) (a : Z) : res Z :=
  let in_range := (_start r <=? a) && (a <? _end r) in
  if negb in_range then Ok MaxAddr
  else if interleaved r then
    x ← removeIntlvBits r a;
    y ← removeIntlvBits r (_start r);
    mret (u64 (x - y))
  else Ok (u64 (a - _start r)).

(** [operator<], [operator==], [operator!=] and [operator&]. *)
Definition lt (this r : t) : bool :=
  if negb (_start this =? _start r) then _start this <? _start r
  else if interleaved this && interleaved r then intlvMatch this <? intlvMatch r
  else interleaved this.

Definition eqb (this r : t) : bool :=
  if negb (_start this =? _start r) then false
  else if negb (_end this =? _end r) then false
  else if negb (bool_decide (masks this = masks r)) then false
  else if negb (intlvMatch this =? intlvMatch r) then false
  else true.
Definition neqb (this r : t) : bool := negb (eqb this r).

Definition inter (this r : t) : res t :=
  if interleaved this || interleaved r then Abort Panicked
  else
    let start := Z.max (_start this) (_start r) in
    let end_ := Z.min (_end this) (_end r) in
    mret (if end_ <=? start then plain 0 0 else plain start end_).

(** [std::list::sort]: a stable sort by [operator<]. *)
Definition not_after (x y : t) : Prop := lt y x = false.
#[export] Instance not_after_dec x y : Decision (not_after x y).
Proof. unfold not_after. apply _. Defined.
Definition sort_ranges (l : list t) : list t := merge_sort not_after l.

Fixpoint exclude_loop (this : t) (es : list t) (next_start : Z) (ranges : list t)
    : res (list t) :=
  match es with
  | [] => mret (if next_start <? _end this then ranges ++ [plain next_start (_end this)]
                else ranges)
  | e :: es =>
      if interleaved e then Abort AssertFailed
      else
        i ← intersects this e;
        if negb i then exclude_loop this es next_start ranges
        else if _start e <=? next_start then
          if _end e <? _end this then
            exclude_loop this es (if next_start <? _end e then _end e else next_start) ranges
          else mret ranges
        else
          let ranges := ranges ++ [plain next_start (_start e)] in
          if _end e <? _end this then exclude_loop this es (_end e) ranges
          else mret ranges
  end.

Definition exclude (this : t) (exclude_ranges : list t) : res (list t) :=
  if interleaved this then Abort AssertFailed
  else exclude_loop this (sort_ranges exclude_ranges) (_start this) [].
Definition exclude1 (this excluded_range : t) : res (list t) := exclude this [excluded_range].

(** The free functions on lists of ranges. *)
Fixpoint exclude_each (base to_exclude : list t) (ret : list t) : res (list t) :=
  match base with
  | [] => Ok ret
  | range :: base =>
      l ← exclude range to_exclude;
      exclude_each base to_exclude (ret ++ l)
  end.
Definition exclude_list (base to_exclude : list t) : res (list t) :=
  exclude_each base (sort_ranges to_exclude) [].

Definition RangeEx (start end_ : Z) : t := plain start end_.
Definition RangeIn (start end_ : Z) : t := plain start (u64 (end_ + 1)).
Definition RangeSize (start sz : Z) : t := plain start (u64 (start + sz)).

(** The merging constructor: the loop over the ranges, then the whole. *)
Fixpoint merge_loop (this : t) (rs : list t) (match_ : Z) : res unit :=
  match rs with
  | [] => Ok tt
  | r :: rs =>
      if negb (mergesWith this r) then Abort FatalError
      else if negb (intlvMatch r =? match_) then Abort FatalError
      else merge_loop this rs (u8 (match_ + 1))
  end.

Definition merge (ranges : list t) : res t :=
  let this := default empty (head ranges) in
  if (1 <? length ranges)%nat then
    n ← shl64 1 (nmasks this);
    if negb (Z.of_nat (length ranges) =? n) then Abort FatalError
    else
      _ ← merge_loop this ranges 0;
      mret (mk (_start this) (_end this) [] 0)
  else mret this.

(** ** Well-formed ranges and their members *)

Record wf (r : t) : Prop := {
  wf_start : is_u64 (_start r);
  wf_end : is_u64 (_end r);
  wf_masks : Forall (λ m, 0 < m < 2 ^ 64) (masks r);
  wf_few : nmasks r ≤ 8;
  wf_match : 0 ≤ intlvMatch r < 2 ^ nmasks r;
}.

(** Parity of the bits [m] keeps of [a], and the selector as a number. *)
Definition parity (a m : Z) : Z := bit_count (Z.land a m) mod 2.
Fixpoint selector (a : Z) (ms : list Z) : Z :=
  match ms with [] => 0 | m :: ms => parity a m + 2 * selector a ms end.

Definition member (r : t) (a : Z) : Prop :=
  _start r ≤ a < _end r ∧ selector a (masks r) = intlvMatch r.

#[export] Instance member_dec r a : Decision (member r a).
Proof. unfold member. apply _. Defined.

Lemma parity_range a m : 0 ≤ parity a m < 2.
Proof. by apply Z.mod_pos_bound. Qed.

Lemma selector_range a ms : 0 ≤ selector a ms < 2 ^ Z.of_nat (length ms).
Proof.
  induction ms as [|m ms IH]; [done|]. cbn [selector length].
  rewrite Nat2Z.inj_succ, Z.pow_succ_r by lia. pose proof (parity_range a m). lia.
Qed.

Lemma land_u64 a m : is_u64 a → is_u64 (Z.land m a).
Proof. unfold is_u64. intros. pose proof (land_bound m a). lia. Qed.

Lemma s32_small x : 0 ≤ x < 2 ^ 31 → s32 x = x.
Proof. intros. unfold s32. rewrite Z.mod_small by lia. bool_to_prop; lia. Qed.

Lemma lor_disjoint x b i : 0 ≤ i → 0 ≤ x < 2 ^ i → Z.lor x (b * 2 ^ i) = x + b * 2 ^ i.
Proof.
  intros Hi Hx. symmetry. apply Z.add_nocarry_lor. apply Z.bits_inj'. intros j Hj.
  rewrite Z.land_spec, Z.bits_0. destruct (Z.lt_ge_cases j i).
  - by rewrite (Z.mul_pow2_bits_low b), andb_false_r by lia.
  - by rewrite <- (Z.mod_small x (2 ^ i)), Z.mod_pow2_bits_high by lia.
Qed.

Lemma sel_loop_run a : is_u64 a → ∀ ms i sel,
  0 ≤ i → i + Z.of_nat (length ms) ≤ 31 → 0 ≤ sel < 2 ^ i →
  sel_loop a ms i sel = Ok (sel + 2 ^ i * selector a ms).
Proof.
  intros Ha ms. induction ms as [|m ms IH]; intros i sel Hi Hn Hs; cbn [sel_loop selector].
  { f_equal. lia. }
  cbn [length] in Hn. pose proof (parity_range a m) as Hp.
  rewrite popCount_count by (rewrite Z.land_comm; by apply land_u64).
  change (bit_count _ mod 2) with (parity a m).
  assert (0 < 2 ^ i) by lia.
  assert (2 ^ (i + 1) ≤ 2 ^ 31) by (apply Z.pow_le_mono_r; lia).
  rewrite Z.pow_add_r in * by lia. change (2 ^ 1) with 2 in *.
  unfold shl_int. destruct (Z.ltb_spec i 32); [|lia]. cbn.
  rewrite Z.shiftl_mul_pow2, s32_small, lor_disjoint by nia.
  rewrite IH; [f_equal; rewrite Z.pow_add_r by lia; lia|lia..|].
  rewrite Z.pow_add_r by lia. nia.
Qed.

(** Membership as the source decides it. *)
Lemma contains_run r a : wf r → is_u64 a → contains r a = Ok (bool_decide (member r a)).
Proof.
  intros [] Ha. unfold contains, member, nmasks in *.
  destruct (Z.leb_spec (_start r) a), (Z.ltb_spec a (_end r)); cbn [andb].
  2-4: rewrite bool_decide_false by lia; done.
  rewrite sel_loop_run by (done || lia). cbn -[Z.mul]. rewrite Z.add_0_l, Z.mul_1_l.
  f_equal. destruct (Z.eqb_spec (selector a (masks r)) (intlvMatch r)).
  - by rewrite bool_decide_true.
  - by rewrite bool_decide_false by tauto.
Qed.

Lemma contains_true r a : wf r → is_u64 a → contains r a = Ok true ↔ member r a.
Proof.
  intros Hr Ha. rewrite contains_run by done. split.
  - by intros [= Hm%bool_decide_eq_true].
  - intros Hm. by rewrite bool_decide_true.
Qed.

Lemma plain_wf s e : is_u64 s → is_u64 e → wf (plain s e).
Proof. intros. by split. Qed.

Lemma member_u64 r a : wf r → member r a → is_u64 a.
Proof. intros [] [? _]. unfold is_u64 in *. lia. Qed.

(** ** Intersection and subset tests *)

Lemma nmasks_nonneg r : 0 ≤ nmasks r.
Proof. unfold nmasks. lia. Qed.

Lemma not_interleaved r : interleaved r = false → masks r = [].
Proof.
  unfold interleaved, nmasks. destruct (masks r) as [|m ms]; [done|].
  intros H%Z.ltb_ge. cbn [length] in H. lia.
Qed.

(** A plain range is its interval. *)
Lemma member_plain r a : wf r → interleaved r = false → member r a ↔ _start r ≤ a < _end r.
Proof.
  intros [] Hr%not_interleaved. unfold member, nmasks in *. rewrite Hr in *. cbn in *.
  split; [tauto|]. intros. split; [done|lia].
Qed.

(** Stripes of one interleaving differ in the match value only. *)
Lemma member_stripe r x a : mergesWith r x = true →
  member x a ↔ _start r ≤ a < _end r ∧ selector a (masks r) = intlvMatch x.
Proof.
  intros [[Hs%Z.eqb_eq He%Z.eqb_eq]%andb_true_iff Hm%bool_decide_eq_true]%andb_true_iff.
  unfold member. by rewrite Hs, He, Hm.
Qed.

Lemma member_merges r x a :
  mergesWith r x = true → member r a → member x a ↔ intlvMatch r = intlvMatch x.
Proof.
  intros Hm [Hi Hsel]. rewrite (member_stripe r x a Hm), Hsel. tauto.
Qed.

Lemma size_run r : wf r → size r = Ok (u64 (_end r - _start r) / 2 ^ nmasks r).
Proof.
  intros []. pose proof (nmasks_nonneg r). unfold size, shr64. bool_to_prop; [|lia].
  by rewrite Z.shiftr_div_pow2 by lia.
Qed.

(** On non-empty ranges the intersection test answers exactly
    whether they share an address, whenever it answers; the second range must not
    be a one-address stripe. *)
Theorem intersects_spec this r b :
  wf this → wf r → (∃ a, member this a) → (∃ a, member r a) →
  (interleaved r = true → size r ≠ Ok 1) →
  intersects this r = Ok b → b = true ↔ ∃ a, member this a ∧ member r a.
Proof.
  intros Ht Hr [x Hx] [y Hy] Hone. unfold intersects.
  destruct (_ || _) eqn:Hov.
  { intros [= <-]. split; [done|]. intros (a & [? _] & [? _]). bool_to_prop; (done || lia). }
  destruct (negb _ && negb _) eqn:Hni.
  { apply andb_true_iff in Hni as [?%negb_true_iff ?%negb_true_iff].
    intros [= <-]. split; [|done]. intros _. exists (Z.max (_start this) (_start r)).
    rewrite !member_plain in * by done. bool_to_prop; (done || lia). }
  rewrite size_run by done. cbn [mbind res_bind].
  destruct (Z.eqb_spec (u64 (_end r - _start r) / 2 ^ nmasks r) 1) as [H1|H1].
  - assert (interleaved r = false) as Hri.
    { destruct (interleaved r); [|done]. destruct Hone; [done|]. by rewrite size_run, H1. }
    rewrite contains_run by (done || apply Hr). intros [= <-]. rewrite bool_decide_eq_true.
    assert (_end r = _start r + 1) as He.
    { unfold nmasks in H1. rewrite (not_interleaved _ Hri) in H1. cbn in H1.
      rewrite Z.div_1_r in H1. unfold u64 in H1. rewrite member_plain in Hy by done.
      destruct Hr as [[] [] _ _ _]. rewrite Z.mod_small in H1 by lia. lia. }
    split.
    + intros Hm. exists (_start r). rewrite (member_plain r) by done. split; [done|lia].
    + intros (a & Ha & Hb). rewrite (member_plain r) in Hb by done. by replace (_start r) with a by lia.
  - destruct (mergesWith this r) eqn:Hmw; [|done]. intros [= <-]. rewrite Z.eqb_eq. split.
    + intros Heq. exists x. by rewrite (member_merges _ _ _ Hmw).
    + intros (a & Ha & Ha'). by apply (member_merges _ _ _ Hmw Ha).
Qed.

(** A stripe of a 64-byte interleaving over two banks, and a plain range. *)
Definition bank (m : Z) : t := mk 0x1000 0x2000 [64] m.
Definition page : t := plain 0x1800 0x2800.

Lemma bank_wf m : 0 ≤ m < 2 → wf (bank m).
Proof. split; cbn; unfold is_u64; [lia..|by repeat constructor|done|done]. Qed.
Lemma page_wf : wf page.
Proof. apply plain_wf; unfold is_u64; lia. Qed.

Lemma intersects_witness : ¬ ∃ a, member (bank 0) a ∧ member (bank 1) a.
Proof.
  intros H. apply (intersects_spec (bank 0) (bank 1) false) in H.
  - discriminate H.
  - by apply bank_wf.
  - by apply bank_wf.
  - exists 0x1000. vm_compute. by repeat split.
  - exists 0x1040. vm_compute. by repeat split.
  - by vm_compute.
  - by vm_compute.
Defined.

Lemma s32_testbit x j : 0 ≤ j < 32 → Z.testbit (s32 x) j = Z.testbit x j.
Proof.
  intros Hj. rewrite <- (Z.mod_pow2_bits_low x 32 j) by lia. unfold s32.
  destruct (_ <? _); [done|]. rewrite <- (Z.mod_pow2_bits_low (_ - _) 32 j) by lia.
  rewrite Zminus_mod, Z.mod_same, Z.sub_0_r, !Z.mod_mod by lia. done.
Qed.

Lemma combined_mask_testbit ms j : 0 ≤ j < 32 → ∀ c,
  Z.testbit (foldl (λ c m, s32 (Z.lor c m)) c ms) j
  = Z.testbit c j || existsb (λ m, Z.testbit m j) ms.
Proof.
  intros Hj. induction ms as [|m ms IH]; intros c; cbn [foldl existsb].
  - by rewrite orb_false_r.
  - by rewrite IH, s32_testbit, Z.lor_spec, orb_assoc.
Qed.

Lemma s32_range x : - 2 ^ 31 ≤ s32 x < 2 ^ 31.
Proof. unfold s32. pose proof (Z.mod_pos_bound x (2 ^ 32)). bool_to_prop; lia. Qed.

Lemma combined_mask_range ms : - 2 ^ 31 ≤ combined_mask ms < 2 ^ 31.
Proof.
  unfold combined_mask. destruct ms as [|m ms] using rev_ind; [done|].
  rewrite foldl_snoc. apply s32_range.
Qed.

(** A non-zero [int] has a bit set among its 32. *)
Lemma int_lowest c k : - 2 ^ 31 ≤ c < 2 ^ 31 → c ≠ 0 → lowest (u64 c) k → k < 32.
Proof.
  intros Hc Hne (Hk & _ & Hlow). destruct (Z.lt_ge_cases k 32); [done|]. exfalso.
  assert (c mod 2 ^ 32 = 0).
  { apply Z.bits_inj'. intros i Hi. rewrite Z.bits_0. destruct (Z.lt_ge_cases i 32).
    - rewrite Z.mod_pow2_bits_low by lia. specialize (Hlow i).
      rewrite u64_testbit in Hlow by lia. bool_to_prop; [|lia]. apply Hlow. lia.
    - by rewrite Z.mod_pow2_bits_high by lia. }
  lia_div.
Qed.

(** No mask has a bit below the granularity. *)
Lemma granularity_run r g : interleaved r = true → granularity r = Ok g →
  ∃ k, g = 2 ^ k ∧ 0 ≤ k ∧ ∀ m j, m ∈ masks r → 0 ≤ j < k → Z.testbit m j = false.
Proof.
  intros Hi. unfold granularity. rewrite Hi. unfold shl64, ctz64.
  set (c := combined_mask (masks r)). destruct (Z.eqb_spec (u64 c) 0) as [|Hne]; [done|].
  pose proof (u64_range c) as Hc. unfold is_u64 in Hc.
  pose proof (builtin_ctz_lowest (u64 c) ltac:(lia)) as Hlow.
  set (k := builtin_ctz (u64 c)) in *. destruct (Z.ltb_spec k 64); [|done].
  assert (k < 32).
  { apply (int_lowest c); [apply combined_mask_range| |done]. intros H0. by rewrite H0 in Hne. }
  destruct Hlow as (Hk & _ & Hlow). intros [= <-]. exists k.
  rewrite Z.shiftl_1_l. unfold u64 at 1. rewrite Z.mod_small.
  2:{ split; [lia|]. apply Z.pow_lt_mono_r; lia. }
  split; [done|]. split; [done|]. intros m j Hm Hj. specialize (Hlow j Hj).
  rewrite u64_testbit in Hlow by lia. destruct (Z.ltb_spec j 64); [|lia].
  unfold c, combined_mask in Hlow. rewrite combined_mask_testbit, Z.bits_0 in Hlow by lia.
  destruct (Z.testbit m j) eqn:Hb; [|done]. rewrite <- Hlow. symmetry.
  apply existsb_exists. exists m. by rewrite <- list_elem_of_In.
Qed.

Lemma land_div k a b m : 0 ≤ k → (∀ j, 0 ≤ j < k → Z.testbit m j = false) →
  a / 2 ^ k = b / 2 ^ k → Z.land a m = Z.land b m.
Proof.
  intros Hk Hm Hab. apply Z.bits_inj'. intros j Hj. rewrite !Z.land_spec.
  destruct (Z.lt_ge_cases j k); [by rewrite Hm, !andb_false_r|].
  replace j with (j - k + k) by lia. by rewrite <- !Z.div_pow2_bits, Hab by lia.
Qed.

(** The selector only looks at the granule of an address. *)
Lemma selector_granule k a b ms : 0 ≤ k →
  (∀ m j, m ∈ ms → 0 ≤ j < k → Z.testbit m j = false) →
  a / 2 ^ k = b / 2 ^ k → selector a ms = selector b ms.
Proof.
  intros Hk Hms Hab. induction ms as [|m ms IH]; [done|]. cbn [selector]. f_equal.
  - unfold parity. rewrite (land_div k a b m); [done|done| |done].
    intros j. apply Hms. left.
  - f_equal. apply IH. intros m' j Hm'. apply Hms. by right.
Qed.

Lemma granule_between k s a e : 0 ≤ k → s ≤ a < e → e - s ≤ 2 ^ k →
  a / 2 ^ k = s / 2 ^ k ∨ a / 2 ^ k = (e - 1) / 2 ^ k.
Proof.
  intros Hk Ha He. assert (0 < 2 ^ k) by lia.
  assert (s / 2 ^ k ≤ a / 2 ^ k) by (apply Z.div_le_mono; lia).
  assert (a / 2 ^ k ≤ (e - 1) / 2 ^ k) by (apply Z.div_le_mono; lia).
  assert ((e - 1) / 2 ^ k ≤ (s + 1 * 2 ^ k) / 2 ^ k) as H' by (apply Z.div_le_mono; lia).
  rewrite Z.div_add in H' by lia. lia.
Qed.

(** A plain range no longer than a granule, with both ends in the stripe. *)
Lemma subset_interleaved this r k :
  wf this → wf r → interleaved this = false → 0 ≤ k →
  (∀ m j, m ∈ masks r → 0 ≤ j < k → Z.testbit m j = false) →
  _end this - _start this ≤ 2 ^ k →
  member r (_start this) → member r (_end this - 1) → ∀ a, member this a → member r a.
Proof.
  intros Ht Hr Hti Hk Hms Hsz [Hs Hss] [He Hse] a Ha. rewrite member_plain in Ha by done.
  split; [lia|]. destruct (granule_between k (_start this) a (_end this)) as [Hg|Hg]; try done.
  - by rewrite (selector_granule k a (_start this)).
  - by rewrite (selector_granule k a (_end this - 1)).
Qed.

Lemma isSubset_interleaved this r :
  wf this → wf r → interleaved this = false → interleaved r = true →
  isSubset this r = Ok true → ∀ a, member this a → member r a.
Proof.
  intros Ht Hr Hti Hri. unfold isSubset. rewrite Hti, Hri.
  rewrite (contains_run r (_start this)) by (done || apply Ht). cbn [mbind res_bind].
  case_bool_decide as Hs; [|done]. rewrite size_run by done. cbn [mbind res_bind].
  destruct (granularity r) as [g|] eqn:Hg; [|done]. cbn [mbind res_bind].
  destruct (granularity_run r g Hri Hg) as (k & -> & Hk & Hms).
  unfold nmasks. rewrite (not_interleaved _ Hti). cbn [length Z.of_nat].
  rewrite Z.pow_0_r, Z.div_1_r. intros Hb a Ha.
  pose proof Ha as Hin. rewrite (member_plain this) in Hin by done.
  pose proof Ht as [[] [] _ _ _].
  rewrite !(u64_id (_ - _)) in Hb by (unfold is_u64; lia).
  destruct (Z.leb_spec (_end this - _start this) (2 ^ k)); [|done].
  destruct (Z.eqb_spec (_start this) (_end this - 1)).
  { by replace a with (_start this) by lia. }
  rewrite contains_run in Hb by (done || unfold is_u64; lia). injection Hb as Hb%bool_decide_eq_true.
  by eapply (subset_interleaved this r k).
Qed.

(** The subset test is sound: when it answers yes, every address
    of this range is in the other, non-wrapping one, also when the other one is
    interleaved and the range straddles two granules.  On plain ranges it is
    complete. *)
Theorem isSubset_spec this r b :
  wf this → wf r → _start r < _end r → isSubset this r = Ok b →
  (b = true → ∀ a, member this a → member r a) ∧
  (interleaved r = false → _start this < _end this →
   (∀ a, member this a → member r a) → b = true).
Proof.
  intros Ht Hr Hlt. destruct (interleaved this) eqn:Hti; [unfold isSubset; by rewrite Hti|].
  destruct (interleaved r) eqn:Hri.
  { intros Hb. split; [|done]. intros ->. by apply isSubset_interleaved. }
  unfold isSubset. rewrite Hti, Hri. intros Hb. split.
  - intros -> a. rewrite !member_plain by done. bool_to_prop; cbn in Hb; (done || lia).
  - intros _ H1 Hsub. pose proof (Hsub (_start this)) as Hlo.
    pose proof (Hsub (_end this - 1)) as Hhi.
    rewrite !member_plain in Hlo, Hhi by done. bool_to_prop; cbn in Hb; (congruence || lia).
Qed.

Lemma isSubset_witness : member (bank 1) 0x1050.
Proof.
  apply (isSubset_spec (plain 0x1040 0x1080) (bank 1) true); [..|by split].
  - apply plain_wf; unfold is_u64; lia.
  - by apply bank_wf.
  - done.
  - by vm_compute.
  - reflexivity.
Defined.

(** Intersection of plain ranges. *)
Lemma inter_spec this r x a :
  wf this → wf r → inter this r = Ok x → member x a ↔ member this a ∧ member r a.
Proof.
  intros Ht Hr. unfold inter. destruct (_ || _) eqn:Hi; [done|].
  apply orb_false_iff in Hi as [? ?]. intros [= <-].
  rewrite (member_plain this), (member_plain r) by done. unfold member. bool_to_prop; cbn; lia.
Qed.

(** ** Exclusion *)

Definition is_plain (e : t) : Prop := interleaved e = false ∧ _start e ≤ _end e.
Definition by_start (x y : t) : Prop := _start x ≤ _start y.
Definition apart (x y : t) : Prop := _end x ≤ _start y.
Definition covered (l : list t) (a : Z) : Prop := ∃ x, x ∈ l ∧ _start x ≤ a < _end x.

#[export] Instance not_after_total : Total not_after.
Proof.
  intros x y. unfold not_after, lt. rewrite (Z.eqb_sym (_start y)).
  destruct (Z.eqb_spec (_start x) (_start y)); cbn [negb].
  - destruct (interleaved x), (interleaved y); cbn; auto. rewrite !Z.ltb_ge. lia.
  - rewrite !Z.ltb_ge. lia.
Qed.

Lemma sort_ranges_sorted l : Forall is_plain l →
  Forall is_plain (sort_ranges l) ∧ StronglySorted by_start (sort_ranges l).
Proof.
  intros Hl. assert (Forall is_plain (sort_ranges l)) as Hl'.
  { by rewrite (merge_sort_Permutation not_after l : sort_ranges l ≡ₚ l). }
  split; [done|]. apply Sorted_StronglySorted; [intros ??? ??; unfold by_start in *; lia|].
  pose proof (Sorted_merge_sort not_after l) as Hs. fold (sort_ranges l) in Hs.
  induction Hs as [|x k Hk IH Hx]; [constructor|]. inversion Hl' as [|?? [Hxi _] Hk']; subst.
  constructor; [by apply IH|]. destruct Hx as [|y k Hxy]; constructor.
  inversion Hk' as [|?? [Hyi _]]; subst. unfold not_after, lt in Hxy. unfold by_start.
  rewrite Hxi, Hyi in Hxy. cbn in Hxy. bool_to_prop; cbn in *; lia.
Qed.

Lemma intersects_plain this e : interleaved this = false → interleaved e = false →
  intersects this e = Ok ((_start this <? _end e) && (_start e <? _end this)).
Proof.
  intros H1 H2. unfold intersects. rewrite H1, H2. cbn. bool_to_prop; (done || lia).
Qed.

(** What remains of [[n, hi)] without the ranges of [es]. *)
Definition remains (n hi : Z) (es l : list t) : Prop :=
  (∀ a, covered l a ↔ n ≤ a < hi ∧ ¬ covered es a) ∧
  Forall (λ x, interleaved x = false ∧ n ≤ _start x < _end x ∧ _end x ≤ hi) l ∧
  StronglySorted apart l.

Lemma covered_cons x l a : covered (x :: l) a ↔ _start x ≤ a < _end x ∨ covered l a.
Proof.
  unfold covered. split.
  - intros (y & [->|Hy]%elem_of_cons & ?); eauto.
  - intros [?|(y & ? & ?)]; eexists; (split; [|done]); [left|by right].
Qed.
Lemma covered_nil a : covered [] a ↔ False.
Proof. split; [by intros (? & ?%elem_of_nil & _)|done]. Qed.

Lemma remains_nil n hi es : (∀ a, n ≤ a < hi → covered es a) → remains n hi es [].
Proof.
  intros H. split; [|by repeat constructor]. intros a. rewrite covered_nil. naive_solver.
Qed.

(** A range that hides nothing of [[n, hi)]. *)
Lemma remains_skip n hi e es l : (∀ a, n ≤ a < hi → ¬ _start e ≤ a < _end e) →
  remains n hi es l → remains n hi (e :: es) l.
Proof.
  intros He [Hc Hl]. split; [|done]. intros a. rewrite Hc, covered_cons. specialize (He a). tauto.
Qed.

(** A range that hides the addresses from [n] to [n']. *)
Lemma remains_from n n' hi e es l : n ≤ n' →
  (∀ a, n ≤ a < hi → _start e ≤ a < _end e ↔ a < n') →
  remains n' hi es l → remains n hi (e :: es) l.
Proof.
  intros Hn He (Hc & Hl & Hs). split; [|split; [|done]].
  - intros a. rewrite Hc, covered_cons. specialize (He a). split.
    + intros [? ?]. specialize (He ltac:(lia)). split; [lia|]. intros [?%He|?]; [lia|done].
    + intros [Ha ?]. specialize (He Ha). split; [|tauto].
      destruct (Z.lt_ge_cases a n'); [tauto|lia].
  - eapply Forall_impl; [exact Hl|]. intros x (? & ? & ?). split; [done|lia].
Qed.

(** A gap before the first range. *)
Lemma remains_gap n hi e es l :
  n < _start e ≤ hi → Forall (by_start e) es →
  remains (_start e) hi (e :: es) l → remains n hi (e :: es) (plain n (_start e) :: l).
Proof.
  intros Hn Hes (Hc & Hl & Hs). split; [|split].
  - intros a. rewrite covered_cons, Hc. cbn. split.
    + intros [?|[? ?]]; [|split; [lia|done]]. split; [lia|]. rewrite covered_cons.
      intros [?|(x & Hx & ?)]; [lia|]. rewrite Forall_forall in Hes.
      specialize (Hes x Hx). unfold by_start in Hes. lia.
    + intros [? ?]. destruct (Z.lt_ge_cases a (_start e)); [left; lia|right; split; [lia|done]].
  - constructor; [cbn; split; [done|lia]|].
    eapply Forall_impl; [exact Hl|]. intros x (? & ? & ?). split; [done|lia].
  - constructor; [done|]. eapply Forall_impl; [exact Hl|]. intros x (? & ? & ?). unfold apart. cbn. lia.
Qed.

Lemma remains_last n hi : n < hi → remains n hi [] [plain n hi].
Proof.
  intros Hn. split; [|split].
  - intros a. rewrite covered_cons, !covered_nil. cbn. tauto.
  - constructor; [cbn; split; [done|lia]|done].
  - by repeat constructor.
Qed.

Lemma exclude_loop_run this : interleaved this = false → ∀ es n ranges,
  Forall is_plain es → StronglySorted by_start es → _start this ≤ n ≤ _end this →
  ∃ l, exclude_loop this es n ranges = Ok (ranges ++ l) ∧ remains n (_end this) es l.
Proof.
  intros Hti es. induction es as [|e es IH]; intros n ranges Hes Hs Hn; cbn [exclude_loop].
  { destruct (Z.ltb_spec n (_end this)).
    - eexists. split; [done|]. by apply remains_last.
    - exists []. rewrite app_nil_r. split; [done|]. apply remains_nil. lia. }
  inversion Hes as [|?? [He Hv] Hes']; inversion Hs as [|?? Hs' Hmin]; subst.
  rewrite He, (intersects_plain _ _ Hti He). cbn [mbind res_bind].
  destruct (Z.ltb_spec (_start this) (_end e)) as [H1|H1]; cbn [andb negb].
  2:{ destruct (IH n ranges) as (l & Hl & Hr); [done..|]. exists l. split; [done|].
      apply remains_skip; [lia|done]. }
  destruct (Z.ltb_spec (_start e) (_end this)) as [H2|H2]; cbn [negb].
  2:{ destruct (IH n ranges) as (l & Hl & Hr); [done..|]. exists l. split; [done|].
      apply remains_skip; [lia|done]. }
  destruct (Z.leb_spec (_start e) n) as [H3|H3], (Z.ltb_spec (_end e) (_end this)) as [H4|H4].
  - set (n' := if n <? _end e then _end e else n).
    assert (n' = Z.max n (_end e)) as Hn' by (subst n'; bool_to_prop; lia).
    destruct (IH n' ranges) as (l & Hl & Hr); [done..|lia|]. exists l. split; [done|].
    eapply (remains_from _ n'); [lia|lia|done].
  - exists []. rewrite app_nil_r. split; [done|]. apply remains_nil.
    intros a Ha. apply covered_cons. lia.
  - destruct (IH (_end e) (ranges ++ [plain n (_start e)])) as (l & Hl & Hr); [done..|lia|].
    exists (plain n (_start e) :: l). rewrite Hl, <- app_assoc. split; [done|].
    apply remains_gap; [lia|done|]. eapply (remains_from _ (_end e)); [lia|lia|done].
  - exists [plain n (_start e)]. split; [done|]. apply remains_gap; [lia|done|].
    apply remains_nil. intros a Ha. apply covered_cons. lia.
Qed.

Lemma covered_sorted l a : covered (sort_ranges l) a ↔ covered l a.
Proof.
  unfold covered. by setoid_rewrite (merge_sort_Permutation not_after l : sort_ranges l ≡ₚ l).
Qed.

(** Excluding plain ranges, in any order and overlapping or not,
    always succeeds, and returns non-empty, pairwise disjoint ranges in ascending
    order that cover exactly the addresses of this range in none of the excluded
    ones. *)
Theorem exclude_spec this es :
  is_plain this → Forall is_plain es →
  ∃ l, exclude this es = Ok l ∧
    (∀ a, covered l a ↔ _start this ≤ a < _end this ∧ ¬ covered es a) ∧
    Forall (λ x, interleaved x = false ∧ _start x < _end x) l ∧ StronglySorted apart l.
Proof.
  intros [Hti Hv] Hes. unfold exclude. rewrite Hti.
  destruct (sort_ranges_sorted es Hes) as [Hp Hs].
  destruct (exclude_loop_run this Hti _ (_start this) [] Hp Hs) as (l & Hl & Hc & Hf & Ha); [lia|].
  exists l. split; [done|]. split; [|split; [|done]].
  - intros a. by rewrite Hc, covered_sorted.
  - eapply Forall_impl; [exact Hf|]. intros x (? & ? & ?). split; [done|lia].
Qed.

Lemma exclude_witness :
  ∃ l, exclude (plain 0 100) [plain 60 80; plain 10 20; plain 15 30] = Ok l ∧
    (covered l 30 ↔ 0 ≤ 30 < 100 ∧ ¬ covered [plain 60 80; plain 10 20; plain 15 30] 30).
Proof.
  destruct (exclude_spec (plain 0 100) [plain 60 80; plain 10 20; plain 15 30]) as (l & Hl & Hc & _).
  - by split.
  - by repeat constructor.
  - exists l. split; [exact Hl|apply Hc].
Defined.

(** ** Merging *)

Lemma merge_loop_run this rs : ∀ k,
  merge_loop this rs k = Ok tt → 0 ≤ k → k + Z.of_nat (length rs) ≤ 256 →
  ∀ i x, rs !! i = Some x → mergesWith this x = true ∧ intlvMatch x = k + Z.of_nat i.
Proof.
  induction rs as [|r rs IH]; intros k Hl Hk Hn i x Hx; [done|]. cbn [merge_loop] in Hl.
  destruct (mergesWith this r) eqn:Hm; [|done].
  destruct (Z.eqb_spec (intlvMatch r) k) as [Heq|]; [|done]. cbn [negb length] in *.
  destruct i as [|i]; [injection Hx as <-; split; [done|lia]|]. cbn in Hx.
  assert (0 < Z.of_nat (length rs)) by (destruct rs; [done|cbn [length]; lia]).
  unfold u8 in Hl. rewrite Z.mod_small in Hl by lia.
  destruct (IH _ Hl ltac:(lia) ltac:(lia) i x Hx) as [? Hix]. split; [done|lia].
Qed.

Lemma merge_run r0 rs r : wf r0 → (0 < length rs)%nat → merge (r0 :: rs) = Ok r →
  r = mk (_start r0) (_end r0) [] 0 ∧
  Z.of_nat (length (r0 :: rs)) = 2 ^ nmasks r0 ∧
  (∀ i x, (r0 :: rs) !! i = Some x → mergesWith r0 x = true ∧ intlvMatch x = Z.of_nat i).
Proof.
  intros Hw Hlen. unfold merge. cbn [head default from_option id].
  destruct (Nat.ltb_spec 1 (length (r0 :: rs))); [|cbn in *; lia].
  pose proof (nmasks_nonneg r0). pose proof (wf_few _ Hw). unfold shl64.
  assert (2 ^ nmasks r0 ≤ 2 ^ 8) by (apply Z.pow_le_mono_r; lia).
  destruct (Z.ltb_spec (nmasks r0) 64); [|lia]. cbn [mbind res_bind].
  rewrite Z.shiftl_1_l, u64_id by (unfold is_u64; lia).
  destruct (Z.eqb_spec (Z.of_nat (length (r0 :: rs))) (2 ^ nmasks r0)) as [Hn|]; [|done].
  cbn [negb]. destruct (merge_loop r0 (r0 :: rs) 0) as [[]|] eqn:Hl; [|done]. intros [= <-].
  split; [done|]. split; [done|]. apply (merge_loop_run _ _ 0 Hl); lia.
Qed.

(** Merging succeeds only on all stripes of one interleaving in
    the order of their match values, and the merged range contains exactly the
    addresses some stripe contains. *)
Theorem merge_spec rs r a :
  Forall wf rs → (1 < length rs)%nat → merge rs = Ok r → is_u64 a →
  contains r a = Ok true ↔ ∃ x, x ∈ rs ∧ contains x a = Ok true.
Proof.
  intros Hw Hlen Hm Ha. destruct rs as [|r0 rs]; [cbn in Hlen; lia|].
  inversion Hw as [|?? Hw0 _]; subst.
  destruct (merge_run r0 rs r Hw0 ltac:(cbn in Hlen; lia) Hm) as (-> & Hn & Hi).
  fold (plain (_start r0) (_end r0)).
  rewrite contains_true by (done || apply plain_wf; apply Hw0).
  rewrite member_plain by (done || apply plain_wf; apply Hw0). cbn [_start _end plain].
  rewrite Forall_forall in Hw. split.
  - intros Hin. pose proof (selector_range a (masks r0)) as Hsel.
    fold (nmasks r0) in Hsel. rewrite <- Hn in Hsel.
    destruct (lookup_lt_is_Some_2 (r0 :: rs) (Z.to_nat (selector a (masks r0)))) as [x Hx]; [lia|].
    assert (x ∈ r0 :: rs) as Hel by (by eapply list_elem_of_lookup_2).
    exists x. split; [done|]. rewrite contains_true by auto. destruct (Hi _ _ Hx) as [Hmw Hix].
    rewrite (member_stripe r0 x a Hmw). split; [done|lia].
  - intros (x & Hel & Hc). rewrite contains_true in Hc by auto.
    apply list_elem_of_lookup in Hel as [i Hx]. destruct (Hi _ _ Hx) as [Hmw _].
    rewrite (member_stripe r0 x a Hmw) in Hc. tauto.
Qed.

Lemma merge_witness :
  contains (plain 0x1000 0x2000) 0x1040 = Ok true ↔
  ∃ x, x ∈ [bank 0; bank 1] ∧ contains x 0x1040 = Ok true.
Proof.
  apply (merge_spec [bank 0; bank 1]).
  - repeat constructor; by apply bank_wf.
  - cbn. lia.
  - by vm_compute.
  - unfold is_u64. lia.
Defined.

(** ** Counting bits *)

Lemma bit_count_split_Z k l h : 0 ≤ k → 0 ≤ h → 0 ≤ l < 2 ^ k →
  bit_count (l + 2 ^ k * h) = bit_count l + bit_count h.
Proof. intros. rewrite <- (Z2Nat.id k) in * by done. by apply bit_count_split. Qed.

Lemma land_pow2 x k : 0 ≤ k → Z.land x (2 ^ k) = Z.b2z (Z.testbit x k) * 2 ^ k.
Proof.
  intros Hk. apply Z.bits_inj'. intros i Hi. rewrite Z.land_spec, Z.pow2_bits_eqb by done.
  rewrite Z.mul_pow2_bits by done. destruct (Z.eqb_spec k i) as [->|].
  - rewrite Z.sub_diag, andb_true_r. by destruct (Z.testbit x i).
  - rewrite andb_false_r. destruct (Z.lt_ge_cases i k); [by rewrite Z.testbit_neg_r by lia|].
    destruct (Z.testbit x k); cbn [Z.b2z]; [|by rewrite Z.bits_0].
    change 1 with (2 ^ 0). rewrite Z.pow2_bits_eqb by lia. symmetry. apply Z.eqb_neq. lia.
Qed.

Lemma ldiff_pow2 x k : 0 ≤ k → Z.ldiff x (2 ^ k) = x - Z.b2z (Z.testbit x k) * 2 ^ k.
Proof.
  intros Hk. rewrite <- land_pow2 by done. rewrite Z.sub_nocarry_ldiff.
  - apply Z.bits_inj'. intros i _. rewrite !Z.ldiff_spec, Z.land_spec.
    by destruct (Z.testbit x i), (Z.testbit (2 ^ k) i).
  - apply Z.bits_inj'. intros i _. rewrite Z.ldiff_spec, Z.land_spec, Z.bits_0.
    by destruct (Z.testbit x i), (Z.testbit (2 ^ k) i).
Qed.

(** Clearing a bit takes it off the count. *)
Lemma bit_count_clear x k : 0 ≤ x → 0 ≤ k →
  bit_count x = bit_count (Z.ldiff x (2 ^ k)) + Z.b2z (Z.testbit x k).
Proof.
  intros Hx Hk. assert (0 < 2 ^ k) by lia. rewrite ldiff_pow2 by done.
  assert (x = x mod 2 ^ k + 2 ^ k * (Z.b2z (Z.testbit x k) + 2 * (x / 2 ^ k / 2))) as Hxe.
  { rewrite Z.testbit_spec' by done. rewrite (Z.div_mod x (2 ^ k)) at 1 by lia.
    rewrite (Z.div_mod (x / 2 ^ k) 2) at 1 by lia. lia. }
  assert (0 ≤ x mod 2 ^ k < 2 ^ k) by (apply Z.mod_pos_bound; lia).
  assert (0 ≤ x / 2 ^ k / 2) by (repeat apply Z.div_pos; lia).
  set (l := x mod 2 ^ k) in *. set (h := x / 2 ^ k / 2) in *. set (b := Z.b2z _) in *.
  assert (0 ≤ b < 2) by (subst b; destruct (Z.testbit x k); cbn; lia).
  replace (x - b * 2 ^ k) with (l + 2 ^ k * (0 + 2 * h)) by lia.
  rewrite Hxe, !bit_count_split_Z, !bit_count_double by lia. lia.
Qed.

(** ** Interleaving bits: removing and adding them

    [below ls q] counts the removed positions below [q]. *)
Fixpoint below (ls : list Z) (q : Z) : Z :=
  match ls with [] => 0 | l :: ls => (if l <? q then 1 else 0) + below ls q end.

Lemma below_none ls q : Forall (λ l, q ≤ l) ls → below ls q = 0.
Proof. induction 1; cbn; bool_to_prop; lia. Qed.

Lemma below_bound ls : ∀ k q, StronglySorted Z.lt ls → Forall (Z.lt k) ls → k < q →
  0 ≤ below ls q ≤ q - k - 1.
Proof.
  induction ls as [|l ls IH]; intros k q Hs Hk Hq; cbn; [lia|].
  inversion Hs as [|?? Hs' Hl]; inversion Hk; subst. destruct (Z.ltb_spec l q).
  - specialize (IH l q Hs' Hl). lia.
  - rewrite below_none; [lia|]. eapply Forall_impl; [exact Hl|]. cbn. lia.
Qed.

Lemma below_length ls q : below ls q ≤ Z.of_nat (length ls).
Proof. induction ls as [|l ls IH]; cbn [below length]; [lia|]. bool_to_prop; lia. Qed.

(** Every position of the dense address comes from a kept position. *)
Lemma below_surj ls : ∀ p, StronglySorted Z.lt ls →
  ∃ q, p ≤ q ∧ (q ∉ ls) ∧ q - below ls q = p.
Proof.
  induction ls as [|k ls IH]; intros p Hs; [exists p; cbn; split; [lia|]; split; [apply not_elem_of_nil|lia]|].
  inversion Hs as [|?? Hs' Hk]; subst. destruct (Z.lt_ge_cases p k).
  - exists p. assert (Forall (λ l, p < l) (k :: ls)) as Hall.
    { constructor; [done|]. eapply Forall_impl; [exact Hk|]. cbn. lia. }
    split; [lia|]. split.
    + intros Hin. rewrite Forall_forall in Hall. specialize (Hall p Hin). lia.
    + rewrite below_none; [lia|]. eapply Forall_impl; [exact Hall|]. cbn. lia.
  - destruct (IH (p + 1) Hs') as (q & Hq & Hin & Hb). exists q. split; [lia|]. split.
    + rewrite not_elem_of_cons. split; [lia|done].
    + cbn [below]. bool_to_prop; lia.
Qed.

Lemma shiftr1_u64 a : is_u64 a → is_u64 (Z.shiftr a 1).
Proof. unfold is_u64. intros. rewrite Z.shiftr_div_pow2 by lia. lia_div. Qed.

(** One removal, at position [k - i]. *)
Lemma remove_step a k i : is_u64 a → 0 ≤ i ≤ k → k < 64 →
  ∃ a', (if 0 <? k then insertBits (Z.shiftr a 1) (u32 (k - i - 1)) 0 a
         else Ok (Z.shiftr a 1)) = Ok a' ∧ is_u64 a' ∧
    ∀ j, 0 ≤ j → Z.testbit a' j = if j <? k - i then Z.testbit a j else Z.testbit a (j + 1).
Proof.
  intros Ha Hi Hk. pose proof (shiftr1_u64 a Ha) as Hsh.
  assert (∀ j, 0 ≤ j → Z.testbit (Z.shiftr a 1) j = Z.testbit a (j + 1)) as Hb
    by (intros; by rewrite Z.shiftr_spec).
  destruct (Z.eq_dec k i) as [->|Hne].
  - exists (Z.shiftr a 1). split; [|split; [done|]].
    + destruct (Z.ltb_spec 0 i); [|done]. rewrite Z.sub_diag. unfold insertBits, shl64.
      change (u32 (0 - 1)) with (2 ^ 32 - 1). cbn [mbind res_bind].
      change (mask_range (2 ^ 32 - 1) 0) with 0. change (2 ^ 32 - 1 <? 0) with false.
      change (0 <? 64) with true. cbn -[Z.land Z.lor not64]. rewrite Z.land_0_r, Z.lor_0_r.
      f_equal. change (not64 0) with (Z.ones 64). rewrite Z.land_ones by lia. by apply Z.mod_small.
    + intros j Hj. destruct (Z.ltb_spec j (i - i)); [lia|]. by apply Hb.
  - destruct (Z.ltb_spec 0 k); [|lia]. rewrite u32_id by (unfold is_u32; lia).
    destruct (insertBits_run (Z.shiftr a 1) (k - i - 1) 0 a) as (a' & Hr & Hu & Ht); [lia..|done|].
    exists a'. split; [done|]. split; [done|]. intros j Hj. rewrite Ht, Hb, Z.sub_0_r by done.
    bool_to_prop; cbn; (done || lia).
Qed.

Lemma remove_loop_run ls : ∀ i a, is_u64 a → 0 ≤ i →
  StronglySorted Z.lt ls → Forall (λ l, i ≤ l < 64) ls →
  ∃ a', remove_loop ls i a = Ok a' ∧ is_u64 a' ∧
    ∀ q, i ≤ q → q ∉ ls → Z.testbit a' (q - i - below ls q) = Z.testbit a (q - i).
Proof.
  induction ls as [|k ls IH]; intros i a Ha Hi Hs Hls; cbn [remove_loop].
  { exists a. split; [done|]. split; [done|]. intros q _ _. cbn. by rewrite Z.sub_0_r. }
  inversion Hs as [|?? Hs' Hk]; inversion Hls as [|?? Hki Hls']; subst.
  destruct (remove_step a k i) as (a1 & Hr & Hu & Ht); [done|lia..|]. rewrite Hr. cbn [mbind res_bind].
  assert (∀ l, l ∈ ls → k < l) as Hgt by (by apply Forall_forall).
  destruct (IH (i + 1) a1) as (a' & Hr' & Hu' & Ht'); [done|lia|done| |].
  { rewrite Forall_forall in *. intros l Hl. specialize (Hgt l Hl). specialize (Hls' l Hl). lia. }
  exists a'. split; [done|]. split; [done|]. intros q Hq [Hqk Hql]%not_elem_of_cons. cbn [below].
  destruct (Z.ltb_spec k q).
  - replace (q - i - (1 + below ls q)) with (q - (i + 1) - below ls q) by lia.
    rewrite Ht', Ht by (done || lia). destruct (Z.ltb_spec (q - (i + 1)) (k - i)); [lia|].
    f_equal. lia.
  - assert (below ls q = 0 ∧ below ls (q + 1) = 0) as [Hb Hb1].
    { split; apply below_none, Forall_forall; intros l Hl; specialize (Hgt l Hl); lia. }
    rewrite Hb. replace (q - i - (0 + 0)) with (q + 1 - (i + 1) - below ls (q + 1)) by lia.
    rewrite Ht'; [|lia|intros Hin; specialize (Hgt _ Hin); lia].
    replace (q + 1 - (i + 1)) with (q - i) by lia. rewrite Ht by lia. bool_to_prop; (done || lia).
Qed.

(** One insertion, at position [k]; the new bit itself is arbitrary. *)
Lemma add_step x k : is_u64 x → 0 ≤ k < 64 →
  ∃ x', (if 0 <? k then insertBits (u64 (Z.shiftl x 1)) (k - 1) 0 x
         else Ok (u64 (Z.shiftl x 1))) = Ok x' ∧ is_u64 x' ∧
    ∀ j, 0 ≤ j < 64 → j ≠ k →
      Z.testbit x' j = if j <? k then Z.testbit x j else Z.testbit x (j - 1).
Proof.
  intros Hx Hk. pose proof (u64_range (Z.shiftl x 1)) as Hsh.
  assert (∀ j, 0 ≤ j < 64 → Z.testbit (u64 (Z.shiftl x 1)) j = Z.testbit x (j - 1)) as Hb.
  { intros j Hj. rewrite u64_testbit, Z.shiftl_spec by lia. by destruct (Z.ltb_spec j 64); [|lia]. }
  destruct (Z.ltb_spec 0 k).
  - destruct (insertBits_run (u64 (Z.shiftl x 1)) (k - 1) 0 x) as (x' & Hr & Hu & Ht); [lia..|done|].
    exists x'. split; [done|]. split; [done|]. intros j Hj Hne.
    rewrite Ht, Hb, Z.sub_0_r by lia. bool_to_prop; cbn; (done || lia).
  - eexists. split; [done|]. split; [done|]. intros j Hj Hne. rewrite Hb by done.
    bool_to_prop; (done || lia).
Qed.

Lemma add_loop_run ls : ∀ x, is_u64 x → StronglySorted Z.lt ls → Forall (λ l, 0 ≤ l < 64) ls →
  ∃ y, add_loop ls x = Ok y ∧ is_u64 y ∧
    ∀ q, 0 ≤ q < 64 → q ∉ ls → Z.testbit y q = Z.testbit x (q - below ls q).
Proof.
  induction ls as [|k ls IH]; intros x Hx Hs Hls; cbn [add_loop].
  { exists x. split; [done|]. split; [done|]. intros q _ _. cbn. by rewrite Z.sub_0_r. }
  inversion Hs as [|?? Hs' Hk]; inversion Hls as [|?? Hki Hls']; subst.
  destruct (add_step x k) as (x1 & Hr & Hu & Ht); [done..|]. rewrite Hr. cbn [mbind res_bind].
  destruct (IH x1) as (y & Hr' & Hu' & Ht'); [done..|]. exists y. split; [done|]. split; [done|].
  intros q Hq [Hqk Hql]%not_elem_of_cons. cbn [below]. rewrite Ht' by done.
  destruct (Z.ltb_spec k q).
  - pose proof (below_bound ls k q Hs' Hk ltac:(lia)). rewrite Ht by lia.
    destruct (Z.ltb_spec (q - below ls q) k); [lia|]. f_equal. lia.
  - rewrite below_none, !Z.sub_0_r by (eapply Forall_impl; [exact Hk|]; cbn; lia).
    rewrite Ht by lia. bool_to_prop; (done || lia).
Qed.

(** ** The selector bits *)

Definition oddp (a m : Z) : bool := Z.odd (bit_count (Z.land a m)).

Lemma parity_oddp a m : parity a m = Z.b2z (oddp a m).
Proof. unfold parity, oddp. apply Zmod_odd. Qed.

Lemma oddp_split a m l : 0 ≤ m → 0 ≤ l → Z.testbit m l = true →
  oddp a m = xorb (oddp a (Z.ldiff m (2 ^ l))) (Z.testbit a l).
Proof.
  intros Hm Hl Hb. unfold oddp. rewrite (bit_count_clear (Z.land a m) l) by (rewrite ?Z.land_nonneg; lia).
  rewrite Z.odd_add, Z.land_spec, Hb, andb_true_r. f_equal; [|by destruct (Z.testbit a l)].
  do 2 f_equal. apply Z.bits_inj'. intros i Hi. rewrite !Z.ldiff_spec, !Z.land_spec, Z.ldiff_spec.
  by rewrite andb_assoc.
Qed.

(** Agreement outside some positions. *)
Definition agree_off (D : list Z) (x y : Z) : Prop :=
  ∀ q, 0 ≤ q → q ∉ D → Z.testbit x q = Z.testbit y q.

Lemma oddp_agree D x y m : agree_off D x y → (∀ d, d ∈ D → Z.testbit m d = false) →
  oddp x m = oddp y m.
Proof.
  intros Hxy HD. unfold oddp. do 2 f_equal. apply Z.bits_inj'. intros i Hi. rewrite !Z.land_spec.
  destruct (decide (i ∈ D)) as [Hin|Hin]; [by rewrite HD, !andb_false_r|by rewrite Hxy].
Qed.

(** The lowest bit of a mask is in no earlier mask, and is set by [int]
    arithmetic below bit 31. *)
Definition later_lsb (m m' : Z) : Prop := Z.testbit m (ctz64 m') = false.
Record striped (r : t) : Prop := {
  st_indep : StronglySorted later_lsb (masks r);
  st_int : Forall (λ m, ctz64 m < 31) (masks r);
}.

Lemma ctz64_bit m : 0 < m < 2 ^ 64 → 0 ≤ ctz64 m < 64 ∧ Z.testbit m (ctz64 m) = true.
Proof.
  intros Hm. unfold ctz64. destruct (Z.eqb_spec m 0); [lia|].
  destruct (builtin_ctz_lowest m) as (? & Hb & _); [lia|]. split; [|done]. split; [done|].
  destruct (Z.lt_ge_cases (builtin_ctz m) 64); [done|].
  by rewrite (u64_high m) in Hb by (done || unfold is_u64; lia).
Qed.

(** One step of the second loop of [addIntlvBits]. *)
Lemma select_step mt m i y : 0 < m < 2 ^ 64 → ctz64 m < 31 → 0 ≤ i < 32 → is_u64 y →
  ∃ y1, (intlv_bit ← match_bit mt i;
         one ← shl_int 1 (ctz64 m);
         insertBits y (ctz64 m) (ctz64 m)
           (Z.lxor intlv_bit (popCount (Z.land (Z.land y m) (u64 (Z.lnot one)))))) = Ok y1 ∧
    is_u64 y1 ∧ agree_off [ctz64 m] y1 y ∧ oddp y1 m = Z.testbit mt i.
Proof.
  intros Hm Hl Hi Hy. destruct (ctz64_bit m Hm) as [Hl0 Hb]. set (l := ctz64 m) in *.
  unfold match_bit, shl_int. destruct (Z.ltb_spec i 32), (Z.ltb_spec l 32); try lia.
  rewrite bits_single by lia. cbn [mbind res_bind]. rewrite Z.shiftl_1_l.
  assert (2 ^ l < 2 ^ 31) by (apply Z.pow_lt_mono_r; lia). rewrite s32_small by lia.
  assert (Z.land (Z.land y m) (u64 (Z.lnot (2 ^ l))) = Z.land y (Z.ldiff m (2 ^ l))) as ->.
  { apply Z.bits_inj'. intros j Hj. rewrite !Z.land_spec, Z.ldiff_spec, u64_testbit, Z.lnot_spec by done.
    destruct (Z.ltb_spec j 64); cbn; [by rewrite andb_assoc|].
    by rewrite (u64_high y), !andb_false_l by done. }
  rewrite popCount_count by (rewrite Z.land_comm; by apply land_u64).
  edestruct (insertBits_run y l l) as (y1 & Hr & Hu & Ht); [lia..|done|]. rewrite Hr.
  exists y1. split; [done|]. split; [done|].
  assert (agree_off [l] y1 y) as Hag.
  { intros q Hq Hql. rewrite list_elem_of_singleton in Hql. rewrite Ht by done. bool_to_prop; cbn; (done || lia). }
  split; [done|]. rewrite (oddp_split y1 m l), Ht by (done || lia).
  rewrite !Z.leb_refl, Z.sub_diag. cbn [andb]. rewrite Z.lxor_spec, Z.bit0_odd, Z.bit0_odd.
  rewrite (oddp_agree [l] y1 y); [|done|].
  - unfold oddp. destruct (Z.odd (bit_count _)), (Z.testbit mt i); done.
  - intros d ->%list_elem_of_singleton. rewrite Z.ldiff_spec, Z.pow2_bits_true, andb_false_r by lia. done.
Qed.

Lemma later_lsb_tail m ms : Forall (later_lsb m) ms →
  ∀ d, d ∈ ctz64 <$> ms → Z.testbit m d = false.
Proof. intros Hms d (m' & -> & Hm')%list_elem_of_fmap. by eapply Forall_forall in Hms. Qed.

(** The second loop gives every mask its parity and changes lowest bits only. *)
Lemma select_loop_run mt ms : ∀ i y,
  Forall (λ m, 0 < m < 2 ^ 64) ms → Forall (λ m, ctz64 m < 31) ms → StronglySorted later_lsb ms →
  0 ≤ i → i + Z.of_nat (length ms) ≤ 32 → is_u64 y →
  ∃ y', select_loop mt ms i y = Ok y' ∧ is_u64 y' ∧ agree_off (ctz64 <$> ms) y' y ∧
    ∀ k m, ms !! k = Some m → oddp y' m = Z.testbit mt (i + Z.of_nat k).
Proof.
  induction ms as [|m ms IH]; intros i y Hm Hl Hind Hi Hn Hy; [by exists y|].
  inversion Hm as [|?? Hm0 Hm']; inversion Hl as [|?? Hl0 Hl']; inversion Hind as [|?? Hind' Hlat]; subst.
  cbn [select_loop length] in *.
  destruct (select_step mt m i y Hm0 Hl0 ltac:(lia) Hy) as (y1 & Hr & Hu & Hag & Hodd).
  destruct (match_bit mt i); [|done]. destruct (shl_int 1 (ctz64 m)); [|done].
  cbn [mbind res_bind] in *. rewrite Hr.
  destruct (IH (i + 1) y1) as (y' & Hr' & Hu' & Hag' & Hodd'); [done..|lia|lia|done|].
  exists y'. split; [done|]. split; [done|]. split.
  - intros q Hq Hn'. rewrite fmap_cons, not_elem_of_cons in Hn'. destruct Hn' as [? ?].
    rewrite Hag' by done. apply Hag; [done|]. by apply not_elem_of_cons; split; [|apply not_elem_of_nil].
  - intros [|k] m' Hk; cbn in Hk.
    + injection Hk as <-. rewrite Z.add_0_r, <- Hodd. eapply oddp_agree; [exact Hag'|].
      by apply later_lsb_tail.
    + rewrite (Hodd' _ _ Hk). f_equal. lia.
Qed.

(** Parities and the other bits determine an address. *)
Lemma parities_determine ms : ∀ x y,
  Forall (λ m, 0 < m < 2 ^ 64) ms → StronglySorted later_lsb ms →
  agree_off (ctz64 <$> ms) x y → (∀ m, m ∈ ms → oddp x m = oddp y m) → 0 ≤ x → 0 ≤ y → x = y.
Proof.
  induction ms as [|m ms IH]; intros x y Hm Hind Hag Hodd Hx Hy.
  { apply Z.bits_inj'. intros q Hq. apply Hag; [done|]. apply not_elem_of_nil. }
  inversion Hm as [|?? Hm0 Hm']; inversion Hind as [|?? Hind' Hlat]; subst.
  apply IH; [done..| |intros m' ?; apply Hodd; by right|done|done].
  destruct (ctz64_bit m Hm0) as [Hl Hb]. intros q Hq Hn.
  destruct (Z.eq_dec q (ctz64 m)) as [->|Hne].
  2:{ apply Hag; [done|]. rewrite fmap_cons. by apply not_elem_of_cons. }
  specialize (Hodd m ltac:(left)). rewrite !(oddp_split _ m (ctz64 m)) in Hodd by (done || lia).
  rewrite (oddp_agree (ctz64 <$> m :: ms) x y) in Hodd; [|done|].
  - by apply xorb_move_l_r_1 in Hodd; rewrite <- xorb_assoc, xorb_nilpotent, xorb_false_l in Hodd.
  - rewrite fmap_cons. intros d [->|Hd]%elem_of_cons; rewrite Z.ldiff_spec.
    + by rewrite Z.pow2_bits_true, andb_false_r by lia.
    + by rewrite (later_lsb_tail m ms).
Qed.

Lemma selector_bit a ms : ∀ k m, ms !! k = Some m →
  Z.testbit (selector a ms) (Z.of_nat k) = oddp a m.
Proof.
  induction ms as [|m0 ms IH]; intros [|k] m Hk; try done; cbn in Hk; cbn [selector];
    rewrite parity_oddp.
  - injection Hk as ->. rewrite Z.bit0_odd, Z.odd_add_mul_2. by destruct (oddp a m).
  - rewrite Z.add_comm, Nat2Z.inj_succ, Z.testbit_succ_r by lia. by apply IH.
Qed.

Lemma selector_high a ms k : Z.of_nat (length ms) ≤ k → Z.testbit (selector a ms) k = false.
Proof.
  intros Hk. pose proof (selector_range a ms).
  rewrite <- (Z.mod_small (selector a ms) (2 ^ Z.of_nat (length ms))) by done.
  by apply Z.mod_pow2_bits_high; lia.
Qed.

(** Matching the selector is giving every mask its parity. *)
Lemma selector_matches r a : wf r → selector a (masks r) = intlvMatch r ↔
  ∀ k m, masks r !! k = Some m → oddp a m = Z.testbit (intlvMatch r) (Z.of_nat k).
Proof.
  intros []. split.
  - intros <- k m Hk. symmetry. by apply selector_bit.
  - intros Hodd. apply Z.bits_inj'. intros i Hi.
    destruct (masks r !! Z.to_nat i) as [m|] eqn:Hk.
    + rewrite <- (Z2Nat.id i), <- (Hodd _ _ Hk) by done. by apply selector_bit.
    + apply lookup_ge_None in Hk. unfold nmasks in *. rewrite selector_high by lia.
      rewrite <- (Z.mod_small (intlvMatch r) (2 ^ Z.of_nat (length (masks r)))) by done.
      symmetry. apply Z.mod_pow2_bits_high. lia.
Qed.

Lemma lsbs_nodup ms : Forall (λ m, 0 < m < 2 ^ 64) ms → StronglySorted later_lsb ms →
  NoDup (ctz64 <$> ms).
Proof.
  induction ms as [|m ms IH]; intros Hm Hs; [constructor|].
  inversion Hm as [|?? Hm0]; inversion Hs as [|?? Hs' Hl]; subst.
  rewrite fmap_cons. constructor; [|by apply IH]. intros Hin.
  destruct (ctz64_bit m Hm0) as [_ Hb]. by rewrite (later_lsb_tail m ms Hl) in Hb.
Qed.

Lemma strictly_sorted (l : list Z) : StronglySorted Z.le l → NoDup l → StronglySorted Z.lt l.
Proof.
  induction 1 as [|x l Hl IH Hx]; intros Hnd; [constructor|].
  inversion Hnd as [|?? Hni Hnd']; subst. constructor; [by apply IH|].
  rewrite Forall_forall in *. intros y Hy. specialize (Hx y Hy).
  destruct (Z.eq_dec x y) as [->|]; [done|lia].
Qed.

Lemma masks_lsb_perm r : masks_lsb r ≡ₚ ctz64 <$> masks r.
Proof. apply merge_sort_Permutation. Qed.

Lemma masks_lsb_sorted r : wf r → striped r →
  StronglySorted Z.lt (masks_lsb r) ∧ Forall (λ l, 0 ≤ l < 64) (masks_lsb r).
Proof.
  intros [] []. split.
  - apply strictly_sorted; [apply StronglySorted_merge_sort; apply _|].
    rewrite masks_lsb_perm. by apply lsbs_nodup.
  - rewrite masks_lsb_perm, Forall_fmap. eapply Forall_impl; [exact wf_masks0|].
    intros m Hm. cbn. by apply ctz64_bit.
Qed.

(** Both directions of the translation, bit by bit. *)
Lemma removeIntlvBits_run r a : wf r → striped r → is_u64 a →
  ∃ x, removeIntlvBits r a = Ok x ∧ is_u64 x ∧
    ∀ q, 0 ≤ q → q ∉ masks_lsb r → Z.testbit x (q - below (masks_lsb r) q) = Z.testbit a q.
Proof.
  intros Hw Hst Ha. destruct (masks_lsb_sorted r Hw Hst) as [Hs Hb]. unfold removeIntlvBits.
  destruct (interleaved r) eqn:Hi; cbn [negb].
  - destruct (remove_loop_run (masks_lsb r) 0 a Ha ltac:(lia) Hs Hb) as (x & Hr & Hu & Ht).
    exists x. split; [done|]. split; [done|]. intros q Hq Hn. specialize (Ht q Hq Hn).
    by rewrite Z.sub_0_r in Ht.
  - exists a. split; [done|]. split; [done|]. intros q Hq _. unfold masks_lsb.
    rewrite (not_interleaved r Hi). cbn. by rewrite Z.sub_0_r.
Qed.

Lemma addIntlvBits_run r x : wf r → striped r → is_u64 x →
  ∃ a, addIntlvBits r x = Ok a ∧ is_u64 a ∧ selector a (masks r) = intlvMatch r ∧
    ∀ q, 0 ≤ q < 64 → q ∉ masks_lsb r → Z.testbit a q = Z.testbit x (q - below (masks_lsb r) q).
Proof.
  intros Hw Hst Hx. destruct (masks_lsb_sorted r Hw Hst) as [Hs Hb].
  pose proof (λ a, selector_matches r a Hw) as Hsel. setoid_rewrite Hsel.
  unfold addIntlvBits. destruct (interleaved r) eqn:Hi; cbn [negb].
  - destruct (add_loop_run (masks_lsb r) x Hx Hs Hb) as (y & Hr & Hu & Ht). rewrite Hr. cbn [mbind res_bind].
    pose proof Hw as []. unfold nmasks in *. destruct Hst.
    destruct (select_loop_run (intlvMatch r) (masks r) 0 y) as (a & Hr' & Hu' & Hag & Hodd); [done..|lia|lia|done|].
    exists a. split; [done|]. split; [done|]. split; [done|].
    intros q Hq Hn. rewrite <- Ht by done. apply Hag; [lia|]. by rewrite <- masks_lsb_perm.
  - exists x. split; [done|]. split; [done|]. unfold masks_lsb. rewrite (not_interleaved r Hi).
    split; [done|]. intros q Hq _. cbn. by rewrite Z.sub_0_r.
Qed.

Lemma remove_add r a :
  wf r → striped r → member r a →
  (x ← removeIntlvBits r a; addIntlvBits r x) = Ok a.
Proof.
  intros Hw Hst Hm. pose proof (member_u64 r a Hw Hm) as Ha.
  destruct (removeIntlvBits_run r a Hw Hst Ha) as (x & -> & Hx & Hrem). cbn [mbind res_bind].
  destruct (addIntlvBits_run r x Hw Hst Hx) as (a' & -> & Ha' & Hsel & Hadd). f_equal.
  pose proof Hw as []. destruct Hst, Ha, Ha', Hm as [_ Hm].
  apply (parities_determine (masks r)); try done.
  - intros q Hq Hn. rewrite <- masks_lsb_perm in Hn. destruct (Z.lt_ge_cases q 64).
    + by rewrite Hadd, Hrem by (done || lia).
    + by rewrite !u64_high.
  - intros m [k Hk]%list_elem_of_lookup. rewrite (selector_matches r) in Hm, Hsel by done.
    by rewrite (Hm k m Hk), (Hsel k m Hk).
Qed.

(** Removing the interleaving bits of an address of the range and
    adding them back gives the address: the dense addresses of a stripe lose
    nothing. *)
Theorem remove_add_roundtrip r a :
  wf r → striped r → member r a →
  (x ← removeIntlvBits r a; addIntlvBits r x) = Ok a.
Proof. apply remove_add. Qed.

(** Every dense address has an address in the stripe: adding the
    interleaving bits selects this stripe, and removing them again gives the
    dense address back. *)
Theorem add_remove_roundtrip r x :
  wf r → striped r → 0 ≤ x < 2 ^ (64 - nmasks r) →
  ∃ a, addIntlvBits r x = Ok a ∧ selector a (masks r) = intlvMatch r ∧
    removeIntlvBits r a = Ok x.
Proof.
  intros Hw Hst Hx. pose proof (nmasks_nonneg r). pose proof (wf_few r Hw).
  assert (is_u64 x) as Hxu.
  { split; [lia|]. eapply Z.lt_le_trans; [apply Hx|]. apply Z.pow_le_mono_r; lia. }
  destruct (addIntlvBits_run r x Hw Hst Hxu) as (a & Hra & Ha & Hsel & Hadd).
  destruct (removeIntlvBits_run r a Hw Hst Ha) as (x' & Hrx & Hx' & Hrem).
  exists a. split; [done|]. split; [done|]. rewrite Hrx. f_equal.
  apply Z.bits_inj'. intros p Hp. destruct (masks_lsb_sorted r Hw Hst) as [Hs _].
  destruct (below_surj (masks_lsb r) p Hs) as (q & Hq & Hn & Hb). rewrite <- Hb at 1.
  rewrite Hrem by (done || lia). destruct (Z.lt_ge_cases q 64).
  - rewrite Hadd by (done || lia). by rewrite Hb.
  - rewrite u64_high by done. symmetry. pose proof (below_length (masks_lsb r) q) as Hlen.
    rewrite (Permutation_length (masks_lsb_perm r)), length_fmap in Hlen. fold (nmasks r) in Hlen.
    rewrite <- (Z.mod_small x (2 ^ (64 - nmasks r))) by done. apply Z.mod_pow2_bits_high. lia.
Qed.

(** Four banks: bit 6 xor bit 12 selects the low bit, bit 8 xor bit 13 the high one. *)
Definition hashed : t := mk 0x4000 0x8000 [2 ^ 6 + 2 ^ 12; 2 ^ 8 + 2 ^ 13] 2.

Lemma hashed_wf : wf hashed.
Proof. split; cbn; unfold is_u64; [lia..|by repeat constructor|done|done]. Qed.
Lemma hashed_striped : striped hashed.
Proof. split; vm_compute; by repeat constructor. Qed.

Lemma remove_add_witness :
  (x ← removeIntlvBits hashed 0x4100; addIntlvBits hashed x) = Ok 0x4100.
Proof. apply (remove_add_roundtrip hashed 0x4100 hashed_wf hashed_striped). by vm_compute. Defined.

Lemma add_remove_witness :
  ∃ a, addIntlvBits hashed 0x123 = Ok a ∧ selector a (masks hashed) = 2 ∧
    removeIntlvBits hashed a = Ok 0x123.
Proof. apply (add_remove_roundtrip hashed 0x123 hashed_wf hashed_striped). change (nmasks hashed) with 2. lia. Defined.

(** The flat offsets of a range are unique: two of its addresses
    with the same offset are the same address. *)
Theorem getOffset_unique r a b :
  wf r → striped r → member r a → member r b → getOffset r a = getOffset r b → a = b.
Proof.
  intros Hw Hst Ha Hb. unfold getOffset.
  pose proof Ha as [Hia _]. pose proof Hb as [Hib _].
  pose proof (member_u64 r a Hw Ha) as Hua. pose proof (member_u64 r b Hw Hb) as Hub.
  destruct (Z.leb_spec (_start r) a), (Z.ltb_spec a (_end r)); try lia.
  destruct (Z.leb_spec (_start r) b), (Z.ltb_spec b (_end r)); try lia. cbn [andb negb].
  pose proof (wf_start r Hw) as Hus. destruct (interleaved r).
  - destruct (removeIntlvBits_run r a Hw Hst Hua) as (x & Hx & [] & _).
    destruct (removeIntlvBits_run r b Hw Hst Hub) as (y & Hy & [] & _).
    destruct (removeIntlvBits_run r (_start r) Hw Hst Hus) as (z & Hz & [] & _).
    pose proof (remove_add r a Hw Hst Ha) as Hra. pose proof (remove_add r b Hw Hst Hb) as Hrb.
    rewrite Hx in *. rewrite Hy in *. rewrite Hz. cbn [mbind res_bind] in *. intros [= He].
    assert (x = y) as -> by (unfold u64 in He; lia_div). congruence.
  - unfold is_u64 in *. intros [= He]. rewrite !u64_id in He by (unfold is_u64; lia). lia.
Qed.

Lemma getOffset_witness : getOffset hashed 0x4100 ≠ getOffset hashed 0x4101.
Proof.
  intros H. apply (getOffset_unique hashed 0x4100 0x4101 hashed_wf hashed_striped) in H;
    [discriminate H|by vm_compute..].
Defined.

(** Interleaving at bit 31: [1 << lsb] is an [int]. *)
Definition coarse : t := mk 0 (2 ^ 40) [2 ^ 31 + 2 ^ 33] 0.

(** With the lowest interleaving bit at 31 the complement of
    [1 << lsb] does not extend to the upper half of the address, and the round
    trip moves an address of the range out of it. *)
Example bit31_roundtrip_fails :
  contains coarse (2 ^ 31 + 2 ^ 33) = Ok true ∧
  (x ← removeIntlvBits coarse (2 ^ 31 + 2 ^ 33); addIntlvBits coarse x) = Ok (2 ^ 33) ∧
  contains coarse (2 ^ 33) = Ok false.
Proof. by vm_compute. Qed.

(** ** The legacy constructor *)

(** The mask of iteration [i], as a number. *)
Definition mask_at (hb xb i : Z) : Z :=
  if xb =? 0 then 2 ^ (hb - i) else Z.lor (2 ^ (hb - i)) (2 ^ (xb - i)).

Lemma shl64_one k : 0 ≤ k < 64 → shl64 1 k = Ok (2 ^ k).
Proof.
  intros Hk. unfold shl64. destruct (Z.ltb_spec k 64); [|lia]. rewrite Z.shiftl_1_l, u64_id; [done|].
  split; [lia|]. apply Z.pow_lt_mono_r; lia.
Qed.

Lemma legacy_mask_run hb xb i : 0 ≤ i ≤ hb → hb < 64 → xb = 0 ∨ i ≤ xb < 64 →
  legacy_mask hb xb i = Ok (mask_at hb xb i).
Proof.
  intros Hi Hh Hx. unfold legacy_mask, mask_at, u8.
  rewrite (Z.mod_small (hb - i)), (shl64_one (hb - i)) by lia.
  cbn [mbind res_bind]. destruct (Z.eqb_spec xb 0); [done|].
  rewrite (Z.mod_small (xb - i)), (shl64_one (xb - i)) by lia. done.
Qed.

Lemma legacy_loop_run hb xb n fuel : ∀ i ms,
  0 ≤ i → i + Z.of_nat fuel = n → n - 1 ≤ hb < 64 → xb = 0 ∨ n - 1 ≤ xb < 64 →
  Z.of_nat (length ms) = n →
  ∃ ms', legacy_loop fuel hb xb n i ms = Ok ms' ∧ length ms' = length ms ∧
    ∀ j, (j < length ms)%nat →
      ms' !! j = if (j <? fuel)%nat then Some (mask_at hb xb (n - 1 - Z.of_nat j)) else ms !! j.
Proof.
  induction fuel as [|fuel IH]; intros i ms Hi Hn Hh Hx Hl; [by exists ms|]. cbn [legacy_loop].
  rewrite legacy_mask_run by lia. cbn [mbind res_bind].
  destruct (IH (i + 1) (<[Z.to_nat (n - i - 1) := mask_at hb xb i]> ms)) as (ms' & Hr & Hl' & Hj);
    rewrite ?length_insert in *; [lia..|].
  exists ms'. split; [done|]. split; [done|]. intros j Hlt. rewrite Hj by done.
  replace (Z.to_nat (n - i - 1)) with fuel by lia.
  destruct (Nat.ltb_spec j fuel), (Nat.ltb_spec j (S fuel)); try lia; [done| |].
  - replace j with fuel by lia. rewrite list_lookup_insert_eq by lia. do 2 f_equal. lia.
  - by rewrite list_lookup_insert_ne by lia.
Qed.

(** A field of [n] bits ending at bit [high]. *)
Definition field (a high n : Z) : Z := (a / 2 ^ (high - n + 1)) mod 2 ^ n.
Definition legacy_sel (a hb xb n : Z) : Z :=
  Z.lxor (field a hb n) (if xb =? 0 then 0 else field a xb n).

Lemma oddp_pow2 a k : 0 ≤ k → oddp a (2 ^ k) = Z.testbit a k.
Proof.
  intros Hk. rewrite (oddp_split a (2 ^ k) k) by (rewrite ?Z.pow2_bits_true; lia).
  rewrite ldiff_pow2, Z.pow2_bits_true by done. replace (2 ^ k - _) with 0 by (cbn; lia).
  unfold oddp. by rewrite Z.land_0_r, xorb_false_l.
Qed.

Lemma oddp_two a k l : 0 ≤ k → 0 ≤ l → k ≠ l →
  oddp a (Z.lor (2 ^ k) (2 ^ l)) = xorb (Z.testbit a k) (Z.testbit a l).
Proof.
  intros Hk Hl Hne. rewrite (oddp_split a _ l); [|rewrite Z.lor_nonneg; lia|done|].
  2:{ by rewrite Z.lor_spec, Z.pow2_bits_true, orb_true_r. }
  rewrite <- (oddp_pow2 a k) by done. do 2 f_equal. apply Z.bits_inj'. intros i Hi.
  rewrite Z.ldiff_spec, Z.lor_spec, !Z.pow2_bits_eqb by done. bool_to_prop; (done || lia).
Qed.

Lemma field_bit a high n j : 0 ≤ j < n → n - 1 ≤ high →
  Z.testbit (field a high n) j = Z.testbit a (high - (n - 1 - j)).
Proof.
  intros Hj Hh. unfold field. rewrite Z.mod_pow2_bits_low, Z.div_pow2_bits by lia. f_equal. lia.
Qed.

Lemma field_range a high n : 0 ≤ n → 0 ≤ field a high n < 2 ^ n.
Proof. intros. apply Z.mod_pos_bound. lia. Qed.

(** The checks the constructor passes, and the masks it builds. *)
Lemma legacy_run s e hb xb n m r :
  1 ≤ n ≤ 8 → n - 1 ≤ hb < 64 → xb = 0 ∨ n - 1 ≤ xb < 64 → legacy s e hb xb n m = Ok r →
  _start r = s ∧ _end r = e ∧ intlvMatch r = m ∧ m < 2 ^ n ∧ nmasks r = n ∧
  (xb = 0 ∨ n ≤ Z.abs (xb - hb)) ∧
  ∀ j, 0 ≤ j < n → masks r !! Z.to_nat j = Some (mask_at hb xb (n - 1 - j)).
Proof.
  intros Hn Hh Hx. unfold legacy. destruct (Z.eqb_spec n 0); [lia|]. rewrite shl64_one by lia.
  cbn [mbind res_bind negb andb]. destruct (Z.leb_spec (2 ^ n) m); [done|].
  intros Hl. assert (xb = 0 ∨ n ≤ Z.abs (xb - hb)) as Hap.
  { bool_to_prop; cbn [negb andb] in Hl; (done || lia). }
  destruct (if negb (xb =? 0) then _ else _) as [[]|]; [|done]. cbn [mbind res_bind] in Hl.
  destruct (legacy_loop_run hb xb n (Z.to_nat n) 0 (replicate (Z.to_nat n) 0)) as (ms & Hr & Hlen & Hj);
    rewrite ?length_replicate in *; [lia..|].
  rewrite Hr in Hl. injection Hl as <-. unfold nmasks. cbn.
  repeat (split; [done || lia|]). intros j Hjn. rewrite Hj by lia.
  destruct (Nat.ltb_spec (Z.to_nat j) (Z.to_nat n)); [|lia]. do 2 f_equal. lia.
Qed.

Lemma mask_at_range hb xb i : 0 ≤ i ≤ hb → hb < 64 → xb = 0 ∨ i ≤ xb < 64 →
  0 < mask_at hb xb i < 2 ^ 64.
Proof.
  intros Hi Hh Hx. unfold mask_at. assert (0 < 2 ^ (hb - i) < 2 ^ 64).
  { split; [lia|]. apply Z.pow_lt_mono_r; lia. }
  destruct (Z.eqb_spec xb 0); [done|]. assert (0 < 2 ^ (xb - i) < 2 ^ 64).
  { split; [lia|]. apply Z.pow_lt_mono_r; lia. }
  assert (is_u64 (Z.lor (2 ^ (hb - i)) (2 ^ (xb - i)))) as [].
  { apply u64_of_bits; [rewrite Z.lor_nonneg; lia|]. intros j Hj.
    rewrite Z.lor_spec, !u64_high by (done || unfold is_u64; lia). done. }
  split; [|done]. destruct (Z.eq_dec (Z.lor (2 ^ (hb - i)) (2 ^ (xb - i))) 0) as [Hz|]; [|lia].
  apply Z.lor_eq_0_l in Hz. lia.
Qed.

Lemma legacy_selector r a hb xb n : 1 ≤ n → n - 1 ≤ hb < 64 → xb = 0 ∨ n - 1 ≤ xb < 64 →
  nmasks r = n → (xb = 0 ∨ n ≤ Z.abs (xb - hb)) →
  (∀ j, 0 ≤ j < n → masks r !! Z.to_nat j = Some (mask_at hb xb (n - 1 - j))) →
  selector a (masks r) = legacy_sel a hb xb n.
Proof.
  intros Hn Hh Hx Hm Hap Hj. apply Z.bits_inj'. intros j Hj0. unfold legacy_sel. rewrite Z.lxor_spec.
  destruct (Z.lt_ge_cases j n).
  - rewrite <- (Z2Nat.id j) at 1 by done. rewrite (selector_bit _ _ _ _ (Hj j ltac:(lia))).
    rewrite field_bit by lia. unfold mask_at. destruct (Z.eqb_spec xb 0).
    + by rewrite oddp_pow2, Z.bits_0, xorb_false_r by lia.
    + by rewrite oddp_two, field_bit by lia.
  - rewrite selector_high by (unfold nmasks in Hm; lia).
    assert (∀ h, Z.testbit (field a h n) j = false) as Hf.
    { intros h. unfold field. by rewrite Z.mod_pow2_bits_high by lia. }
    rewrite Hf. destruct (xb =? 0); [by rewrite Z.bits_0|by rewrite Hf].
Qed.

(** A range built by the legacy constructor contains an address
    exactly when it is between the bounds and the [n]-bit field below
    [intlv_high_bit], xored with the one below [xor_high_bit], is the match value. *)
Theorem legacy_contains s e hb xb n m r a :
  is_u64 s → is_u64 e → is_u64 a → 0 ≤ m →
  1 ≤ n ≤ 8 → n - 1 ≤ hb < 64 → xb = 0 ∨ n - 1 ≤ xb < 64 →
  legacy s e hb xb n m = Ok r →
  contains r a = Ok true ↔ s ≤ a < e ∧ legacy_sel a hb xb n = m.
Proof.
  intros Hs He Ha Hm Hn Hh Hx Hl.
  destruct (legacy_run s e hb xb n m r Hn Hh Hx Hl) as (<- & <- & <- & Hmn & Hnm & Hap & Hj).
  rewrite contains_true; [|split|done]; try done; try lia.
  - unfold member. by rewrite (legacy_selector r a hb xb n) by (done || lia).
  - apply Forall_lookup. intros i x Hi. pose proof (lookup_lt_Some _ _ _ Hi) as Hlt.
    unfold nmasks in Hnm. specialize (Hj (Z.of_nat i)). rewrite Nat2Z.id, Hi in Hj.
    injection (Hj ltac:(lia)) as ->. apply mask_at_range; lia.
  - rewrite Hnm. lia.
Qed.

Lemma legacy_witness : ∃ r, legacy 0 0x10000 7 13 2 3 = Ok r ∧
  (contains r 0x3040 = Ok true ↔ 0 ≤ 0x3040 < 0x10000 ∧ legacy_sel 0x3040 7 13 2 = 3).
Proof.
  eexists. split; [by vm_compute|]. apply (legacy_contains 0 0x10000 7 13 2 3);
    [unfold is_u64; lia..|lia|lia|lia|by vm_compute].
Defined.
End AddrRange.
