(* ===== verification/Clocked.v ===== *)
(** * Clocked objects (src/gem5/src/sim/clocked_object.hh)

    The lazily updated (tick, cycle) pair every clocked object keeps.  Reading
    the clock changes it, so each operation returns the new state. *)

From S2P Require Import Prelude IntMath.
#[local] Open Scope Z_scope.

(** [clockPeriod] is the period of the object's clock domain. *)
Record Clocked := mkClocked {
  tick : Z;
  cycle : Z;
  clockPeriod : Z;
}.
#[export] Instance eta_Clocked : Eta Clocked := λ c,
  mkClocked (tick c) (cycle c) (clockPeriod c).

Definition Clocked_ctor (period : Z) : Clocked := mkClocked 0 0 period.

Definition update (curTick : Z) (c : Clocked) : res Clocked :=
  if curTick <=? tick c then Ok c
  else
    let c := c <| tick := u64 (tick c + clockPeriod c) |>
               <| cycle := u64 (cycle c + 1) |> in
    if curTick <=? tick c then Ok c
    else
      elapsedCycles ← divCeil (u64 (curTick - tick c)) (clockPeriod c);
      mret (c <| cycle := u64 (cycle c + elapsedCycles) |>
              <| tick := u64 (tick c + u64 (elapsedCycles * clockPeriod c)) |>).

Definition resetClock (curTick : Z) (c : Clocked) : res Clocked :=
  elapsedCycles ← divCeil curTick (clockPeriod c);
  mret (c <| cycle := elapsedCycles |>
          <| tick := u64 (elapsedCycles * clockPeriod c) |>).

Definition clockEdge (curTick cycles : Z) (c : Clocked) : res (Z * Clocked) :=
  c ← update curTick c;
  mret (u64 (tick c + u64 (clockPeriod c * cycles)), c).

Definition curCycle (curTick : Z) (c : Clocked) : res (Z * Clocked) :=
  c ← update curTick c;
  mret (cycle c, c).

Definition nextCycle (curTick : Z) (c : Clocked) : res (Z * Clocked) :=
  clockEdge curTick 1 c.

Definition ticksToCycles (t : Z) (c : Clocked) : res Z := divCeil t (clockPeriod c).
Definition cyclesToTicks (n : Z) (c : Clocked) : Z := u64 (clockPeriod c * n).

(** ** The clock invariant

    The pair denotes one edge, and that edge is less than one period ahead of
    the current tick. *)
Definition clock_ok (now : Z) (c : Clocked) : Prop :=
  0 < clockPeriod c ∧ 0 ≤ cycle c ∧ tick c = cycle c * clockPeriod c ∧
  tick c < now + clockPeriod c.

Lemma clock_later now now' c : clock_ok now c → now ≤ now' → clock_ok now' c.
Proof. intros (? & ? & ? & ?) ?. unfold clock_ok. lia. Qed.

(** The first edge at or after [now], as a cycle number. *)
Definition edge (now p : Z) : Z := (now + p - 1) / p.

Lemma edge_spec now p : 0 < p → p * (edge now p - 1) < now ≤ p * edge now p.
Proof.
  intros Hp. unfold edge. pose proof (Z.div_mod (now + p - 1) p).
  pose proof (Z.mod_pos_bound (now + p - 1) p). lia.
Qed.

Lemma edge_unique now p k : 0 < p → p * (k - 1) < now ≤ p * k → k = edge now p.
Proof. intros Hp Hk. pose proof (edge_spec now p Hp). nia. Qed.

Lemma update_ok now c :
  clock_ok now c → 0 ≤ now → now + 2 * clockPeriod c < 2 ^ 64 →
  update now c = Ok (mkClocked (edge now (clockPeriod c) * clockPeriod c)
                               (edge now (clockPeriod c)) (clockPeriod c)).
Proof.
  destruct c as [t k p]. intros (Hp & Hk & Ht & Hlt) Hn Hw. cbn in *. subst t.
  unfold update, set_field. cbn. destruct (Z.leb_spec now (k * p)) as [Hle|Hgt].
  { assert (k = edge now p) as <- by (apply edge_unique; nia). done. }
  assert (k < 2 ^ 64) by nia.
  assert ((k + 1) * p < 2 ^ 64) by lia.
  rewrite !u64_id by (unfold is_u64; nia).
  destruct (Z.leb_spec now (k * p + p)) as [Hle2|Hgt2].
  { assert (k + 1 = edge now p) as <- by (apply edge_unique; nia). unfold set_field; cbn. do 2 f_equal. lia. }
  rewrite (u64_id (now - _)) by (unfold is_u64; nia).
  destruct (divCeil (now - (k * p + p)) p) as [e|] eqn:He.
  2:{ unfold divCeil in He. destruct (Z.eqb_spec p 0); [lia|done]. }
  apply divCeil_spec in He; [|nia|lia|nia]. cbn.
  assert (k + 1 + e = edge now p) as Hee by (apply edge_unique; nia).
  pose proof (edge_spec now p Hp) as Hed. rewrite <- Hee in Hed.
  assert (0 ≤ e) by nia. assert (0 ≤ e * p) by nia. assert (0 ≤ k * p) by nia.
  assert (k * p + p + e * p < 2 ^ 64) by lia. assert (k + 1 + e ≤ (k + 1 + e) * p) by nia.
  rewrite <- Hee. rewrite (u64_id (e * p)), !u64_id by (unfold is_u64; lia). unfold mret, res_ret, set_field; cbn.
  do 2 f_equal. lia.
Qed.

(** Reading the clock: the edge, the period kept, the invariant later on. *)
Lemma clockEdge_run now cycles c :
  clock_ok now c → 0 ≤ now → 0 ≤ cycles →
  now + (cycles + 2) * clockPeriod c < 2 ^ 64 →
  ∃ c', clockEdge now cycles c =
          Ok ((edge now (clockPeriod c) + cycles) * clockPeriod c, c') ∧
        clockPeriod c' = clockPeriod c ∧
        ∀ now', now ≤ now' → clock_ok now' c'.
Proof.
  intros Hok Hn Hc Hw. pose proof Hok as (Hp & _).
  pose proof (edge_spec now (clockPeriod c) Hp).
  unfold clockEdge. rewrite update_ok by (done || nia). cbn. eexists. split.
  - unfold mret, res_ret. do 2 f_equal. set (k := edge now (clockPeriod c)) in *.
    assert (0 ≤ k) by nia. assert (0 ≤ clockPeriod c * cycles) by nia.
    rewrite (u64_id (_ * cycles)), u64_id; [lia|unfold is_u64; nia..].
  - split; [done|]. intros now' Hle. unfold clock_ok. cbn. nia.
Qed.

(** Reading the clock at [now] returns the edge [cycles]
    periods after the first edge at or after [now], and the clock stays
    consistent at every later tick. *)
Theorem clockEdge_spec now cycles c :
  clock_ok now c → 0 ≤ now → 0 ≤ cycles →
  now + (cycles + 2) * clockPeriod c < 2 ^ 64 →
  ∃ c', clockEdge now cycles c =
          Ok ((edge now (clockPeriod c) + cycles) * clockPeriod c, c') ∧
        clockPeriod c' = clockPeriod c ∧
        ∀ now', now ≤ now' → clock_ok now' c'.
Proof. exact (clockEdge_run now cycles c). Qed.

Lemma clockEdge_witness :
  ∃ c', clockEdge 1001 2 (mkClocked 500 1 500) = Ok (2500, c') ∧ clock_ok 1001 c'.
Proof.
  destruct (clockEdge_spec 1001 2 (mkClocked 500 1 500)) as (c' & H & _ & Hok);
    [split; cbn; lia|lia..|cbn; lia|].
  exists c'. split; [exact H|]. apply Hok. lia.
Defined.
