(* ===== verification/MemCmd.v ===== *)
(** * Memory commands (src/gem5/src/mem/packet.hh, packet.cc, base/flags.hh)

    The [MemCmd] enumeration, its attribute table and the predicates every
    component of the memory system asks of a packet.  The table is an array
    indexed by the enumeration's integer value, which skips two slots after
    [SwapResp]; the theorems below check that the array and the enumeration
    stay aligned and that requests and responses are classified coherently. *)

From stdpp Require Import strings.
From S2P Require Import Prelude.
#[local] Open Scope Z_scope.

Module Flags.
Definition isSet (flags mask : Z) : bool := negb (Z.land flags mask =? 0).
Definition allSet (flags mask : Z) : bool := Z.land flags mask =? mask.
Definition noneSet (flags mask : Z) : bool := Z.land flags mask =? 0.
Definition clear (flags mask : Z) : Z := Z.ldiff flags mask.
Definition set (flags mask : Z) : Z := Z.lor flags mask.
Definition set_if (flags mask : Z) (condition : bool) : Z :=
  if condition then set flags mask else clear flags mask.
Definition replace (old flags mask : Z) : Z :=
  Z.lor (Z.ldiff old mask) (Z.land flags mask).
End Flags.

Inductive Command :=
  | InvalidCmd | ReadReq | ReadResp | ReadRespWithInvalidate | WriteReq
  | WriteResp | WriteCompleteResp | WritebackDirty | WritebackClean
  | WriteClean | CleanEvict | SoftPFReq | SoftPFExReq | HardPFReq
  | SoftPFResp | HardPFResp | WriteLineReq | UpgradeReq | SCUpgradeReq
  | UpgradeResp | SCUpgradeFailReq | UpgradeFailResp | ReadExReq
  | ReadExResp | ReadCleanReq | ReadSharedReq | LoadLockedReq
  | StoreCondReq | StoreCondFailReq | StoreCondResp | LockedRMWReadReq
  | LockedRMWReadResp | LockedRMWWriteReq | LockedRMWWriteResp | SwapReq
  | SwapResp | MemFenceReq | MemSyncReq | MemSyncResp | MemFenceResp
  | CleanSharedReq | CleanSharedResp | CleanInvalidReq | CleanInvalidResp
  | InvalidDestError | BadAddressError | ReadError | WriteError
  | FunctionalReadError | FunctionalWriteError | PrintReq | FlushReq
  | InvalidateReq | InvalidateResp | HTMReq | HTMReqResp | HTMAbort
  | TlbiExtSync.

#[export] Instance Command_eq_dec : EqDecision Command.
Proof. solve_decision. Defined.

Inductive Attribute :=
  | IsRead | IsWrite | IsUpgrade | IsInvalidate | IsClean | NeedsWritable
  | IsRequest | IsResponse | NeedsResponse | IsEviction | IsSWPrefetch
  | IsHWPrefetch | IsLlsc | IsLockedRMW | HasData | IsError | IsPrint
  | IsFlush | FromCache.

(** The enumerator values: consecutive from 0, except
    [MemFenceReq = SwapResp + 3]. *)
Definition toInt (c : Command) : Z :=
  match c with
  | InvalidCmd => 0 | ReadReq => 1 | ReadResp => 2
  | ReadRespWithInvalidate => 3 | WriteReq => 4 | WriteResp => 5
  | WriteCompleteResp => 6 | WritebackDirty => 7 | WritebackClean => 8
  | WriteClean => 9 | CleanEvict => 10 | SoftPFReq => 11
  | SoftPFExReq => 12 | HardPFReq => 13 | SoftPFResp => 14
  | HardPFResp => 15 | WriteLineReq => 16 | UpgradeReq => 17
  | SCUpgradeReq => 18 | UpgradeResp => 19 | SCUpgradeFailReq => 20
  | UpgradeFailResp => 21 | ReadExReq => 22 | ReadExResp => 23
  | ReadCleanReq => 24 | ReadSharedReq => 25 | LoadLockedReq => 26
  | StoreCondReq => 27 | StoreCondFailReq => 28 | StoreCondResp => 29
  | LockedRMWReadReq => 30 | LockedRMWReadResp => 31 | LockedRMWWriteReq => 32
  | LockedRMWWriteResp => 33 | SwapReq => 34 | SwapResp => 35
  | MemFenceReq => 38 | MemSyncReq => 39 | MemSyncResp => 40
  | MemFenceResp => 41 | CleanSharedReq => 42 | CleanSharedResp => 43
  | CleanInvalidReq => 44 | CleanInvalidResp => 45 | InvalidDestError => 46
  | BadAddressError => 47 | ReadError => 48 | WriteError => 49
  | FunctionalReadError => 50 | FunctionalWriteError => 51 | PrintReq => 52
  | FlushReq => 53 | InvalidateReq => 54 | InvalidateResp => 55
  | HTMReq => 56 | HTMReqResp => 57 | HTMAbort => 58
  | TlbiExtSync => 59
  end.

Definition attrib_index (a : Attribute) : Z :=
  match a with
  | IsRead => 0 | IsWrite => 1 | IsUpgrade => 2 | IsInvalidate => 3
  | IsClean => 4 | NeedsWritable => 5 | IsRequest => 6 | IsResponse => 7
  | NeedsResponse => 8 | IsEviction => 9 | IsSWPrefetch => 10 | IsHWPrefetch => 11
  | IsLlsc => 12 | IsLockedRMW => 13 | HasData => 14 | IsError => 15
  | IsPrint => 16 | IsFlush => 17 | FromCache => 18
  end.

Definition buildAttributes (attrs : list Attribute) : Z :=
  foldl (λ ret attr, Z.lor ret (Z.shiftl 1 (attrib_index attr))) 0 attrs.

Record CommandInfo := mkCommandInfo {
  attributes : Z;
  response : Command;
  str : string;
}.

Definition info (attrs : list Attribute) (resp : Command) (s : string) :
    CommandInfo :=
  mkCommandInfo (buildAttributes attrs) resp s.

Definition commandInfo : list CommandInfo := [
  info [] InvalidCmd "InvalidCmd";
  info [IsRead; IsRequest; NeedsResponse] ReadResp "ReadReq";
  info [IsRead; IsResponse; HasData] InvalidCmd "ReadResp";
  info [IsRead; IsResponse; HasData; IsInvalidate]
       InvalidCmd "ReadRespWithInvalidate";
  info [IsWrite; NeedsWritable; IsRequest; NeedsResponse; HasData]
       WriteResp "WriteReq";
  info [IsWrite; IsResponse] InvalidCmd "WriteResp";
  info [IsWrite; IsResponse] InvalidCmd "WriteCompleteResp";
  info [IsWrite; IsRequest; IsEviction; HasData; FromCache]
       InvalidCmd "WritebackDirty";
  info [IsWrite; IsRequest; IsEviction; HasData; FromCache]
       InvalidCmd "WritebackClean";
  info [IsWrite; IsRequest; HasData; FromCache] InvalidCmd "WriteClean";
  info [IsRequest; IsEviction; FromCache] InvalidCmd "CleanEvict";
  info [IsRead; IsRequest; IsSWPrefetch; NeedsResponse]
       SoftPFResp "SoftPFReq";
  info [IsRead; NeedsWritable; IsInvalidate; IsRequest; IsSWPrefetch; NeedsResponse]
       SoftPFResp "SoftPFExReq";
  info [IsRead; IsRequest; IsHWPrefetch; NeedsResponse; FromCache]
       HardPFResp "HardPFReq";
  info [IsRead; IsResponse; IsSWPrefetch; HasData] InvalidCmd "SoftPFResp";
  info [IsRead; IsResponse; IsHWPrefetch; HasData] InvalidCmd "HardPFResp";
  info [IsWrite; NeedsWritable; IsRequest; NeedsResponse; HasData]
       WriteResp "WriteLineReq";
  info [IsInvalidate; NeedsWritable; IsUpgrade; IsRequest; NeedsResponse; FromCache]
       UpgradeResp "UpgradeReq";
  info [IsInvalidate; NeedsWritable; IsUpgrade; IsLlsc; IsRequest; NeedsResponse; FromCache]
       UpgradeResp "SCUpgradeReq";
  info [IsUpgrade; IsResponse] InvalidCmd "UpgradeResp";
  info [IsRead; NeedsWritable; IsInvalidate; IsLlsc; IsRequest; NeedsResponse; FromCache]
       UpgradeFailResp "SCUpgradeFailReq";
  info [IsRead; IsResponse; HasData] InvalidCmd "UpgradeFailResp";
  info [IsRead; NeedsWritable; IsInvalidate; IsRequest; NeedsResponse; FromCache]
       ReadExResp "ReadExReq";
  info [IsRead; IsResponse; HasData] InvalidCmd "ReadExResp";
  info [IsRead; IsRequest; NeedsResponse; FromCache] ReadResp "ReadCleanReq";
  info [IsRead; IsRequest; NeedsResponse; FromCache] ReadResp "ReadSharedReq";
  info [IsRead; IsLlsc; IsRequest; NeedsResponse] ReadResp "LoadLockedReq";
  info [IsWrite; NeedsWritable; IsLlsc; IsRequest; NeedsResponse; HasData]
       StoreCondResp "StoreCondReq";
  info [IsWrite; NeedsWritable; IsLlsc; IsRequest; NeedsResponse; HasData]
       StoreCondResp "StoreCondFailReq";
  info [IsWrite; IsLlsc; IsResponse] InvalidCmd "StoreCondResp";
  info [IsRead; IsLockedRMW; NeedsWritable; IsRequest; NeedsResponse]
       LockedRMWReadResp "LockedRMWReadReq";
  info [IsRead; IsLockedRMW; NeedsWritable; IsResponse; HasData]
       InvalidCmd "LockedRMWReadResp";
  info [IsWrite; IsLockedRMW; NeedsWritable; IsRequest; NeedsResponse; HasData]
       LockedRMWWriteResp "LockedRMWWriteReq";
  info [IsWrite; IsLockedRMW; NeedsWritable; IsResponse]
       InvalidCmd "LockedRMWWriteResp";
  info [IsRead; IsWrite; NeedsWritable; IsRequest; HasData; NeedsResponse]
       SwapResp "SwapReq";
  info [IsRead; IsWrite; IsResponse; HasData] InvalidCmd "SwapResp";
  info [] InvalidCmd "Deprecated_MessageReq";
  info [] InvalidCmd "Deprecated_MessageResp";
  info [IsRequest; NeedsResponse] MemFenceResp "MemFenceReq";
  info [IsRequest; NeedsResponse] MemSyncResp "MemSyncReq";
  info [IsResponse] InvalidCmd "MemSyncResp";
  info [IsResponse] InvalidCmd "MemFenceResp";
  info [IsRequest; IsClean; NeedsResponse; FromCache]
       CleanSharedResp "CleanSharedReq";
  info [IsResponse; IsClean] InvalidCmd "CleanSharedResp";
  info [IsRequest; IsInvalidate; IsClean; NeedsResponse; FromCache]
       CleanInvalidResp "CleanInvalidReq";
  info [IsResponse; IsInvalidate; IsClean] InvalidCmd "CleanInvalidResp";
  info [IsResponse; IsError] InvalidCmd "InvalidDestError";
  info [IsResponse; IsError] InvalidCmd "BadAddressError";
  info [IsRead; IsResponse; IsError] InvalidCmd "ReadError";
  info [IsWrite; IsResponse; IsError] InvalidCmd "WriteError";
  info [IsRead; IsResponse; IsError] InvalidCmd "FunctionalReadError";
  info [IsWrite; IsResponse; IsError] InvalidCmd "FunctionalWriteError";
  info [IsRequest; IsPrint] InvalidCmd "PrintReq";
  info [IsRequest; IsFlush; NeedsWritable] InvalidCmd "FlushReq";
  info [IsInvalidate; IsRequest; NeedsWritable; NeedsResponse; FromCache]
       InvalidateResp "InvalidateReq";
  info [IsInvalidate; IsResponse] InvalidCmd "InvalidateResp";
  info [IsRead; IsRequest; NeedsResponse] HTMReqResp "HTMReq";
  info [IsRead; IsResponse] InvalidCmd "HTMReqResp";
  info [IsRead; IsRequest] InvalidCmd "HTMAbort";
  info [IsRequest] InvalidCmd "TlbiExtSync"].

(** [commandInfo[cmd]]: indexing past the table is undefined; the enumeration
    never does, as the alignment theorem below shows. *)
Definition invalid_info : CommandInfo := info [] InvalidCmd "InvalidCmd".
Definition commandInfo_at (c : Command) : CommandInfo :=
  default invalid_info (commandInfo !! Z.to_nat (toInt c)).

Definition testCmdAttrib (c : Command) (a : Attribute) : bool :=
  Z.testbit (attributes (commandInfo_at c)) (attrib_index a).

Definition isRead (c : Command) : bool := testCmdAttrib c IsRead.
Definition isWrite (c : Command) : bool := testCmdAttrib c IsWrite.
Definition isUpgrade (c : Command) : bool := testCmdAttrib c IsUpgrade.
Definition isRequest (c : Command) : bool := testCmdAttrib c IsRequest.
Definition isResponse (c : Command) : bool := testCmdAttrib c IsResponse.
Definition needsWritable (c : Command) : bool := testCmdAttrib c NeedsWritable.
Definition needsResponse (c : Command) : bool := testCmdAttrib c NeedsResponse.
Definition isInvalidate (c : Command) : bool := testCmdAttrib c IsInvalidate.
Definition isEviction (c : Command) : bool := testCmdAttrib c IsEviction.
Definition isClean (c : Command) : bool := testCmdAttrib c IsClean.
Definition fromCache (c : Command) : bool := testCmdAttrib c FromCache.
Definition isWriteback (c : Command) : bool :=
  testCmdAttrib c IsEviction && testCmdAttrib c HasData.
Definition hasData (c : Command) : bool := testCmdAttrib c HasData.
Definition isLLSC (c : Command) : bool := testCmdAttrib c IsLlsc.
Definition isLockedRMW (c : Command) : bool := testCmdAttrib c IsLockedRMW.
Definition isSWPrefetch (c : Command) : bool := testCmdAttrib c IsSWPrefetch.
Definition isHWPrefetch (c : Command) : bool := testCmdAttrib c IsHWPrefetch.
Definition isPrefetch (c : Command) : bool :=
  testCmdAttrib c IsSWPrefetch || testCmdAttrib c IsHWPrefetch.
Definition isError (c : Command) : bool := testCmdAttrib c IsError.
Definition isPrint (c : Command) : bool := testCmdAttrib c IsPrint.
Definition isFlush (c : Command) : bool := testCmdAttrib c IsFlush.
Definition isDemand (c : Command) : bool :=
  bool_decide (c = ReadReq ∨ c = WriteReq ∨ c = WriteLineReq ∨ c = ReadExReq ∨
               c = ReadCleanReq ∨ c = ReadSharedReq).
Definition responseCommand (c : Command) : Command := response (commandInfo_at c).
Definition toString (c : Command) : string := str (commandInfo_at c).
Definition hasRespData (c : Command) : bool := hasData (responseCommand c).

(** ** Properties *)

(** The enumerator's own spelling, to compare with the table's string. *)
Definition command_name (c : Command) : string :=
  match c with
  | InvalidCmd => "InvalidCmd"
  | ReadReq => "ReadReq"
  | ReadResp => "ReadResp"
  | ReadRespWithInvalidate => "ReadRespWithInvalidate"
  | WriteReq => "WriteReq"
  | WriteResp => "WriteResp"
  | WriteCompleteResp => "WriteCompleteResp"
  | WritebackDirty => "WritebackDirty"
  | WritebackClean => "WritebackClean"
  | WriteClean => "WriteClean"
  | CleanEvict => "CleanEvict"
  | SoftPFReq => "SoftPFReq"
  | SoftPFExReq => "SoftPFExReq"
  | HardPFReq => "HardPFReq"
  | SoftPFResp => "SoftPFResp"
  | HardPFResp => "HardPFResp"
  | WriteLineReq => "WriteLineReq"
  | UpgradeReq => "UpgradeReq"
  | SCUpgradeReq => "SCUpgradeReq"
  | UpgradeResp => "UpgradeResp"
  | SCUpgradeFailReq => "SCUpgradeFailReq"
  | UpgradeFailResp => "UpgradeFailResp"
  | ReadExReq => "ReadExReq"
  | ReadExResp => "ReadExResp"
  | ReadCleanReq => "ReadCleanReq"
  | ReadSharedReq => "ReadSharedReq"
  | LoadLockedReq => "LoadLockedReq"
  | StoreCondReq => "StoreCondReq"
  | StoreCondFailReq => "StoreCondFailReq"
  | StoreCondResp => "StoreCondResp"
  | LockedRMWReadReq => "LockedRMWReadReq"
  | LockedRMWReadResp => "LockedRMWReadResp"
  | LockedRMWWriteReq => "LockedRMWWriteReq"
  | LockedRMWWriteResp => "LockedRMWWriteResp"
  | SwapReq => "SwapReq"
  | SwapResp => "SwapResp"
  | MemFenceReq => "MemFenceReq"
  | MemSyncReq => "MemSyncReq"
  | MemSyncResp => "MemSyncResp"
  | MemFenceResp => "MemFenceResp"
  | CleanSharedReq => "CleanSharedReq"
  | CleanSharedResp => "CleanSharedResp"
  | CleanInvalidReq => "CleanInvalidReq"
  | CleanInvalidResp => "CleanInvalidResp"
  | InvalidDestError => "InvalidDestError"
  | BadAddressError => "BadAddressError"
  | ReadError => "ReadError"
  | WriteError => "WriteError"
  | FunctionalReadError => "FunctionalReadError"
  | FunctionalWriteError => "FunctionalWriteError"
  | PrintReq => "PrintReq"
  | FlushReq => "FlushReq"
  | InvalidateReq => "InvalidateReq"
  | InvalidateResp => "InvalidateResp"
  | HTMReq => "HTMReq"
  | HTMReqResp => "HTMReqResp"
  | HTMAbort => "HTMAbort"
  | TlbiExtSync => "TlbiExtSync"
  end.

(** The attribute table and the enumeration are aligned:
    every command indexes an existing entry, and that entry is the one written
    for this command (its string is the command's own name). *)
Theorem commandInfo_aligned (c : Command) :
  ∃ i, commandInfo !! Z.to_nat (toInt c) = Some i ∧ str i = command_name c.
Proof. destruct c; vm_compute; eauto. Qed.

Lemma isSet_set f m : m ≠ 0 → Flags.isSet (Flags.set f m) m = true.
Proof.
  intros Hm. unfold Flags.isSet, Flags.set.
  rewrite Z.land_comm, Z.land_lor_distr_r, Z.land_diag, Z.lor_comm.
  destruct (Z.eqb_spec (Z.lor m (Z.land m f)) 0) as [H|]; [|done].
  by apply Z.lor_eq_0_iff in H as [? _].
Qed.

Lemma isSet_clear f m : Flags.isSet (Flags.clear f m) m = false.
Proof.
  unfold Flags.isSet, Flags.clear.
  replace (Z.land (Z.ldiff f m) m) with 0; [done|].
  symmetry. apply Z.bits_inj'. intros i _.
  rewrite Z.land_spec, Z.ldiff_spec, Z.bits_0. by destruct (Z.testbit f i), (Z.testbit m i).
Qed.

(** Every command but [InvalidCmd] is a request or a response, never both. *)
Lemma request_xor_response (c : Command) :
  xorb (isRequest c) (isResponse c) = negb (bool_decide (c = InvalidCmd)).
Proof. by destruct c; vm_compute. Qed.

(** A command needs a response exactly when the table names
    a response command for it; that command is a response, needs no further
    response itself. *)
Theorem response_coherent (c : Command) :
  (needsResponse c = true → isRequest c = true ∧
     isResponse (responseCommand c) = true ∧
     needsResponse (responseCommand c) = false) ∧
  (needsResponse c = false → responseCommand c = InvalidCmd).
Proof. destruct c; vm_compute; repeat split; intros; congruence. Qed.
