(* ===== verification/Packet.v ===== *)
(** * Packets and requests (src/gem5/src/mem/packet.hh, packet.cc, request.hh)

    The packet object that travels between ports: its command, flags, address,
    payload and the stack of sender states, with the operations that change it.
    Payloads are byte lists; a packet without a data buffer has neither data
    flag set.  Accesses outside a buffer are undefined behaviour in the source
    and abort here. *)

From S2P Require Import Prelude MemCmd.
#[local] Open Scope Z_scope.

(** ** Requests: the flag tests a packet makes *)

Module Request.
Definition INST_FETCH : Z := 0x100.
Definition UNCACHEABLE : Z := 0x400.
Definition LOCKED_RMW : Z := 0x100000.
Definition LLSC : Z := 0x200000.
Definition MEM_SWAP : Z := 0x400000.
Definition MEM_SWAP_COND : Z := 0x800000.
Definition PREFETCH : Z := 0x1000000.
Definition PF_EXCLUSIVE : Z := 0x2000000.
Definition SECURE : Z := 0x10000000.
Definition ATOMIC_RETURN_OP : Z := 0x40000000.
Definition ATOMIC_NO_RETURN_OP : Z := 0x80000000.
Definition INVALIDATE : Z := 0x100000000.
Definition CLEAN : Z := 0x200000000.
Definition HTM_START : Z := 0x10000000000.
Definition HTM_COMMIT : Z := 0x20000000000.
Definition HTM_CANCEL : Z := 0x40000000000.
Definition HTM_ABORT : Z := 0x80000000000.

Record t := mk {
  paddr : option Z;      (* hasPaddr() / getPaddr() *)
  rsize : option Z;      (* hasSize() / getSize() *)
  rflags : Z;
  byteEnable : list bool;
  requestorId : Z;
  contextId : option Z;  (* hasContextId() / contextId() *)
  extraData : option Z;  (* extraDataValid() / getExtraData() *)
}.
#[export] Instance eta_Request : Eta t := λ r,
  mk (paddr r) (rsize r) (rflags r) (byteEnable r) (requestorId r) (contextId r) (extraData r).

(** The constructor for physical requests. *)
Definition phys (addr size flags id : Z) : t :=
  mk (Some addr) (Some size) flags (replicate (Z.to_nat size) true) id None None.

Definition getPaddr (r : t) : res Z :=
  match paddr r with Some a => Ok a | None => Abort AssertFailed end.
Definition getContextId (r : t) : res Z :=
  match contextId r with Some c => Ok c | None => Abort AssertFailed end.
Definition getExtraData (r : t) : res Z :=
  match extraData r with Some x => Ok x | None => Abort AssertFailed end.
Definition setExtraData (x : Z) (r : t) : t := r <| extraData := Some x |>.
Definition isInstFetch (r : t) : bool := Flags.isSet (rflags r) INST_FETCH.
Definition isCondSwap (r : t) : bool := Flags.isSet (rflags r) MEM_SWAP_COND.

Definition isLLSC (r : t) : bool := Flags.isSet (rflags r) LLSC.
Definition isPrefetchEx (r : t) : bool := Flags.isSet (rflags r) PF_EXCLUSIVE.
Definition isPrefetch (r : t) : bool :=
  Flags.isSet (rflags r) (Z.lor PREFETCH PF_EXCLUSIVE).
Definition isLockedRMW (r : t) : bool := Flags.isSet (rflags r) LOCKED_RMW.
Definition isSwap (r : t) : bool :=
  Flags.isSet (rflags r) (Z.lor MEM_SWAP MEM_SWAP_COND).
Definition isSecure (r : t) : bool := Flags.isSet (rflags r) SECURE.
Definition isHTMAbort (r : t) : bool := Flags.isSet (rflags r) HTM_ABORT.
Definition isHTMCmd (r : t) : bool :=
  Flags.isSet (rflags r) HTM_START || Flags.isSet (rflags r) HTM_COMMIT ||
  Flags.isSet (rflags r) HTM_CANCEL || Flags.isSet (rflags r) HTM_ABORT.
Definition isAtomic (r : t) : bool :=
  Flags.isSet (rflags r) ATOMIC_RETURN_OP ||
  Flags.isSet (rflags r) ATOMIC_NO_RETURN_OP.
Definition isCacheClean (r : t) : bool := Flags.isSet (rflags r) CLEAN.
Definition isCacheInvalidate (r : t) : bool := Flags.isSet (rflags r) INVALIDATE.
Definition isMasked (r : t) : bool :=
  bool_decide (Exists (λ b, b = false) (byteEnable r)).
End Request.

(** ** Packets *)

Definition COPY_FLAGS : Z := 0xFF.
Definition RESPONDER_FLAGS : Z := 0x9.
Definition HAS_SHARERS : Z := 0x1.
Definition EXPRESS_SNOOP : Z := 0x2.
Definition RESPONDER_HAD_WRITABLE : Z := 0x4.
Definition CACHE_RESPONDING : Z := 0x8.
Definition WRITE_THROUGH : Z := 0x10.
Definition SATISFIED : Z := 0x20.
Definition FAILS_TRANSACTION : Z := 0x40.
Definition FROM_TRANSACTION : Z := 0x80.
Definition VALID_ADDR : Z := 0x100.
Definition VALID_SIZE : Z := 0x200.
Definition STATIC_DATA : Z := 0x1000.
Definition DYNAMIC_DATA : Z := 0x2000.
Definition SUPPRESS_FUNC_ERROR : Z := 0x8000.
Definition BLOCK_CACHED : Z := 0x10000.
Definition DATA_FLAGS : Z := Z.lor STATIC_DATA DYNAMIC_DATA.

(** Sender states are a class hierarchy; the UCIe link's own subclass carries
    the tick at which a TLP entered the link, every other subclass is opaque. *)
Inductive SenderState :=
  | UcieTimerState (entryTime : Z)
  | OtherSenderState (tag : Z).

Record Packet := mkPacket {
  flags : Z;
  cmd : Command;
  req : Request.t;
  data : list Z;
  addr : Z;
  secure : bool;
  size : Z;
  bytesValid : list bool;
  headerDelay : Z;
  snoopDelay : Z;
  payloadDelay : Z;
  senderState : list SenderState;   (* the predecessor chain, top first *)
}.
#[export] Instance eta_Packet : Eta Packet := λ p,
  mkPacket (flags p) (cmd p) (req p) (data p) (addr p) (secure p) (size p)
    (bytesValid p) (headerDelay p) (snoopDelay p) (payloadDelay p)
    (senderState p).

(** *** Construction *)

Definition Packet_ctor (r : Request.t) (c : Command) : res Packet :=
  let p := mkPacket 0 c r [] 0 false 0 [] 0 0 0 [] in
  let p := match Request.paddr r with
           | Some a => p <| addr := a |> <| flags ::= λ f, Flags.set f VALID_ADDR |>
                         <| secure := Request.isSecure r |>
           | None => p
           end in
  if Request.isHTMCmd r && negb (addr p =? 0) then Abort AssertFailed else
  let p := if Request.isHTMCmd r
           then p <| flags ::= λ f, Flags.set f VALID_ADDR |> else p in
  Ok match Request.rsize r with
     | Some s => p <| size := s |> <| flags ::= λ f, Flags.set f VALID_SIZE |>
     | None => p
     end.

(** The block-sized constructor: the address is rounded down to the block.
    [_blkSize] is an [int], so [~(_blkSize - 1)] sign-extends to 64 bits. *)
Definition Packet_ctor_blk (r : Request.t) (c : Command) (blkSize : Z) : Packet :=
  let p := mkPacket 0 c r [] 0 false 0 [] 0 0 0 [] in
  let p := match Request.paddr r with
           | Some a => p <| addr := Z.land a (u64 (Z.lnot (blkSize - 1))) |>
                         <| flags ::= λ f, Flags.set f VALID_ADDR |>
                         <| secure := Request.isSecure r |>
           | None => p
           end in
  p <| size := u32 blkSize |> <| flags ::= λ f, Flags.set f VALID_SIZE |>.

Definition makeReadCmd (r : Request.t) : Command :=
  if Request.isHTMCmd r then
    (if Request.isHTMAbort r then HTMAbort else HTMReq)
  else if Request.isLLSC r then LoadLockedReq
  else if Request.isPrefetchEx r then SoftPFExReq
  else if Request.isPrefetch r then SoftPFReq
  else if Request.isLockedRMW r then LockedRMWReadReq
  else ReadReq.

Definition makeWriteCmd (r : Request.t) : Command :=
  if Request.isLLSC r then StoreCondReq
  else if Request.isSwap r || Request.isAtomic r then SwapReq
  else if Request.isCacheInvalidate r then
    (if Request.isCacheClean r then CleanInvalidReq else InvalidateReq)
  else if Request.isCacheClean r then CleanSharedReq
  else if Request.isLockedRMW r then LockedRMWWriteReq
  else WriteReq.

Definition createRead (r : Request.t) : res Packet := Packet_ctor r (makeReadCmd r).
Definition createWrite (r : Request.t) : res Packet := Packet_ctor r (makeWriteCmd r).

(** *** Accessors *)

Definition require {A} (b : bool) (r : res A) : res A :=
  if b then r else Abort AssertFailed.

Definition getAddr (p : Packet) : res Z :=
  require (Flags.isSet (flags p) VALID_ADDR) (Ok (addr p)).
Definition setAddr (a : Z) (p : Packet) : res Packet :=
  require (Flags.isSet (flags p) VALID_ADDR) (Ok (p <| addr := a |>)).
Definition getSize (p : Packet) : res Z :=
  require (Flags.isSet (flags p) VALID_SIZE) (Ok (size p)).
Definition isMaskedWrite (p : Packet) : bool :=
  bool_decide (cmd p = WriteReq) && Request.isMasked (req p).

(** [Addr(blk_size - 1)] with an unsigned 32-bit [blk_size]. *)
Definition getOffset (p : Packet) (blk_size : Z) : res Z :=
  (λ a, Z.land a (u32 (blk_size - 1))) <$> getAddr p.
Definition getBlockAddr (p : Packet) (blk_size : Z) : res Z :=
  (λ a, Z.land a (u64 (Z.lnot (u32 (blk_size - 1))))) <$> getAddr p.

Definition isWholeLineWrite (p : Packet) (blk_size : Z) : res bool :=
  if bool_decide (cmd p = WriteReq ∨ cmd p = WriteLineReq) then
    off ← getOffset p blk_size;
    if off =? 0 then
      sz ← getSize p;
      mret ((sz =? blk_size) && negb (isMaskedWrite p))
    else mret false
  else mret false.

Definition matchBlockAddr (p : Packet) (a : Z) (is_secure : bool) (blk : Z) : res bool :=
  b ← getBlockAddr p blk;
  mret ((b =? a) && Bool.eqb (secure p) is_secure).
Definition matchAddr (p : Packet) (a : Z) (is_secure : bool) : res bool :=
  b ← getAddr p;
  mret ((b =? a) && Bool.eqb (secure p) is_secure).

Definition mustCheckAbove (p : Packet) : bool :=
  bool_decide (cmd p = HardPFReq) || isEviction (cmd p).
Definition isCleanEviction (p : Packet) : bool :=
  bool_decide (cmd p = CleanEvict ∨ cmd p = WritebackClean).

(** *** State changes *)

Definition pushSenderState (s : SenderState) (p : Packet) : Packet :=
  p <| senderState ::= cons s |>.
Definition popSenderState (p : Packet) : res (SenderState * Packet) :=
  match senderState p with
  | [] => Abort AssertFailed
  | s :: rest => Ok (s, p <| senderState := rest |>)
  end.

(** [findNextSenderState<T>]: the first state down the chain the cast accepts. *)
Fixpoint findNextSenderState {T} (cast : SenderState → option T)
    (chain : list SenderState) : option T :=
  match chain with
  | [] => None
  | s :: rest =>
      match cast s with Some t => Some t | None => findNextSenderState cast rest end
  end.

Definition setCacheResponding (p : Packet) : res Packet :=
  require (isRequest (cmd p) && negb (Flags.isSet (flags p) CACHE_RESPONDING))
    (Ok (p <| flags ::= λ f, Flags.set f CACHE_RESPONDING |>)).
Definition cacheResponding (p : Packet) : bool :=
  Flags.isSet (flags p) CACHE_RESPONDING.
Definition setHasSharers (p : Packet) : Packet :=
  p <| flags ::= λ f, Flags.set f HAS_SHARERS |>.
Definition setExpressSnoop (p : Packet) : Packet :=
  p <| flags ::= λ f, Flags.set f EXPRESS_SNOOP |>.
Definition isExpressSnoop (p : Packet) : bool := Flags.isSet (flags p) EXPRESS_SNOOP.
Definition setResponderHadWritable (p : Packet) : res Packet :=
  require (cacheResponding p && negb (Flags.isSet (flags p) RESPONDER_HAD_WRITABLE))
    (Ok (p <| flags ::= λ f, Flags.set f RESPONDER_HAD_WRITABLE |>)).
Definition copyResponderFlags (other p : Packet) : res Packet :=
  require (isRequest (cmd p) && (negb (cacheResponding other) || negb (cacheResponding p)))
    (Ok (p <| flags ::= λ f, Flags.set f (Z.land (flags other) RESPONDER_FLAGS) |>)).
Definition setWriteThrough (p : Packet) : res Packet :=
  require (isWrite (cmd p) &&
           (isEviction (cmd p) || bool_decide (cmd p = WriteClean)))
    (Ok (p <| flags ::= λ f, Flags.set f WRITE_THROUGH |>)).
Definition setSatisfied (p : Packet) : res Packet :=
  require (isClean (cmd p) && negb (Flags.isSet (flags p) SATISFIED))
    (Ok (p <| flags ::= λ f, Flags.set f SATISFIED |>)).

Definition makeResponse (p : Packet) : res Packet :=
  require (needsResponse (cmd p) && isRequest (cmd p))
    (Ok (p <| cmd ::= responseCommand |>
           <| flags ::= λ f, Flags.clear f EXPRESS_SNOOP |>)).
Definition setBadAddress (p : Packet) : res Packet :=
  require (isResponse (cmd p)) (Ok (p <| cmd := BadAddressError |>)).
Definition setBadCommand (p : Packet) : res Packet :=
  require (isResponse (cmd p))
    (Ok (p <| cmd := if isWrite (cmd p) then WriteError else ReadError |>)).
Definition copyError (other p : Packet) : res Packet :=
  require (isError (cmd other)) (Ok (p <| cmd := cmd other |>)).
Definition setFunctionalResponseStatus (success : bool) (p : Packet) : Packet :=
  if success then p
  else p <| cmd := if isWrite (cmd p) then FunctionalWriteError
                   else FunctionalReadError |>.
Definition convertScToWrite (p : Packet) : res Packet :=
  require (isLLSC (cmd p) && isWrite (cmd p)) (Ok (p <| cmd := WriteReq |>)).
Definition convertLlToRead (p : Packet) : res Packet :=
  require (isLLSC (cmd p) && isRead (cmd p)) (Ok (p <| cmd := ReadReq |>)).
Definition setSize (s : Z) (p : Packet) : res Packet :=
  require (negb (Flags.isSet (flags p) VALID_SIZE))
    (Ok (p <| size := s |> <| flags ::= λ f, Flags.set f VALID_SIZE |>)).

(** *** Payload *)

(** Fresh memory has unspecified contents; zeroes stand for them. *)
Definition allocate (p : Packet) : res Packet :=
  if hasData (cmd p) || hasRespData (cmd p) then
    require (Flags.noneSet (flags p) DATA_FLAGS)
      (sz ← getSize p;
       mret (p <| flags ::= λ f, Flags.set f DYNAMIC_DATA |>
               <| data := replicate (Z.to_nat sz) 0 |>))
  else mret p.
Definition deleteData (p : Packet) : Packet :=
  p <| flags ::= λ f, Flags.clear f DATA_FLAGS |> <| data := [] |>.

(** [memcpy(dst + d, src + s, n)]; a range outside either buffer is undefined. *)
Definition memcpy (dst : list Z) (d : nat) (src : list Z) (s n : nat) : res (list Z) :=
  if decide (d + n ≤ length dst ∧ s + n ≤ length src)%nat
  then Ok (take d dst ++ take n (drop s src) ++ drop (d + n) dst)
  else Abort UndefinedBehavior.

Definition has_buffer (p : Packet) : bool := Flags.isSet (flags p) DATA_FLAGS.

(** The masked copy loop of [writeData]. *)
Fixpoint masked_copy (en : list bool) (src dst : list Z) : list Z :=
  match en, src, dst with
  | e :: en, s :: src, d :: dst => (if e then s else d) :: masked_copy en src dst
  | _, _, _ => dst
  end.

Definition writeData (p : Packet) (dst : list Z) : res (list Z) :=
  sz ← getSize p;
  if negb (isMaskedWrite p) then
    require (has_buffer p) (memcpy dst 0 (data p) 0 (Z.to_nat sz))
  else
    require (Z.of_nat (length (Request.byteEnable (req p))) =? sz)
      (require (has_buffer p)
        (if decide (Z.to_nat sz ≤ length dst ∧ Z.to_nat sz ≤ length (data p))%nat
         then Ok (masked_copy (Request.byteEnable (req p)) (data p) dst)
         else Abort UndefinedBehavior)).

(** [trySatisfyFunctional(obj, addr, is_secure, size, _data)].  The result is
    the answer, the packet and the other buffer after the call. *)
Definition all_set (l : list bool) : bool := forallb id l.

Definition mark_valid (bv : list bool) (off n : nat) : list bool :=
  take off bv ++ replicate n true ++ drop (off + n) bv.

Definition satisfy_read (p : Packet) (func_offset val_offset overlap : Z)
    (dat : list Z) : res (bool * Packet * list Z) :=
  let fo := Z.to_nat func_offset in
  let n := Z.to_nat overlap in
  require (has_buffer p && negb (isMaskedWrite p))
    (data' ← memcpy (data p) fo dat (Z.to_nat val_offset) n;
     let bv := match bytesValid p with
               | [] => replicate (Z.to_nat (size p)) false
               | bv => bv
               end in
     if decide (length bv = Z.to_nat (size p)) then
       let before := all_set (take fo bv) in
       let bv' := mark_valid bv fo n in
       let after := all_set (drop (fo + n) bv') in
       mret (before && after, p <| data := data' |> <| bytesValid := bv' |>, dat)
     else Abort UndefinedBehavior).

Definition trySatisfyFunctional (p : Packet) (a : Z) (is_secure : bool) (sz : Z)
    (dat : option (list Z)) : res (bool * Packet * option (list Z)) :=
  func_start ← getAddr p;
  fsize ← getSize p;
  let func_end := u64 (func_start + fsize - 1) in
  let val_start := a in
  let val_end := u64 (val_start + sz - 1) in
  if negb (Bool.eqb is_secure (secure p)) || (val_end <? func_start) ||
     (func_end <? val_start)
  then mret (false, p, dat)
  else if isPrint (cmd p) then
    match dat with Some _ => Abort AssertFailed | None => mret (false, p, dat) end
  else match dat with
  | None => mret (false, p, dat)
  | Some d =>
      let val_offset := if val_start <? func_start then func_start - val_start else 0 in
      let func_offset := if func_start <? val_start then val_start - func_start else 0 in
      let overlap := u64 (Z.min val_end func_end + 1 - Z.max val_start func_start) in
      if isRead (cmd p) then
        '(b, p', d') ← satisfy_read p func_offset val_offset overlap d;
        mret (b, p', Some d')
      else if isWrite (cmd p) then
        require (has_buffer p)
          (d' ← memcpy d (Z.to_nat val_offset) (data p) (Z.to_nat func_offset)
                  (Z.to_nat overlap);
           mret (false, p, Some d'))
      else Abort Panicked
  end.

(** [trySatisfyFunctional(PacketPtr other)]. *)
Definition trySatisfyFunctional_pkt (p other : Packet) :
    res (bool * Packet * Packet) :=
  if isMaskedWrite other then mret (false, p, other)
  else
    oa ← getAddr other;
    os ← getSize other;
    dat ← (if hasData (cmd other) then
             require (has_buffer other && negb (isMaskedWrite other))
               (Ok (Some (data other)))
           else Ok None);
    '(b, p', dat') ← trySatisfyFunctional p oa (secure other) os dat;
    mret (b, p', match dat' with Some d => other <| data := d |> | None => other end).
(** ** Properties *)

(** What a functional read has found so far, by address. *)
Definition byte_at (p : Packet) (x : Z) : option Z :=
  data p !! Z.to_nat (x - addr p).
Definition valid_at (p : Packet) (x : Z) : bool :=
  default false (bytesValid p !! Z.to_nat (x - addr p)).

(** A readable packet: its address and size are set, its range does not wrap,
    and its buffer and byte-tracking vector have the packet's size. *)
Record readable (p : Packet) : Prop := {
  rd_addr : Flags.isSet (flags p) VALID_ADDR = true;
  rd_size : Flags.isSet (flags p) VALID_SIZE = true;
  rd_buf : has_buffer p = true;
  rd_cmd : isRead (cmd p) = true;
  rd_print : isPrint (cmd p) = false;
  rd_masked : isMaskedWrite p = false;
  rd_range : 0 ≤ addr p ∧ 0 < size p < 2 ^ 32 ∧ addr p + size p ≤ 2 ^ 64;
  rd_data : Z.of_nat (length (data p)) = size p;
  rd_valid : bytesValid p = [] ∨ Z.of_nat (length (bytesValid p)) = size p;
}.

Definition covers (p : Packet) (a : Z) (sec : bool) (sz : Z) (x : Z) : bool :=
  Bool.eqb sec (secure p) && (a <=? x) && (x <? a + sz).

Lemma all_set_spec (l : list bool) : all_set l = true ↔ ∀ i b, l !! i = Some b → b = true.
Proof.
  unfold all_set. rewrite forallb_forall. split.
  - intros H i b Hi. apply (H b). by apply list_elem_of_In, list_elem_of_lookup_2 with i.
  - intros H b Hb%list_elem_of_In. apply list_elem_of_lookup in Hb as [i Hi]. eauto.
Qed.

Lemma memcpy_lookup (dst : list Z) d (src : list Z) s n k :
  (d + n ≤ length dst)%nat → (s + n ≤ length src)%nat →
  (take d dst ++ take n (drop s src) ++ drop (d + n) dst) !! k =
  if decide (d ≤ k < d + n)%nat then src !! (s + (k - d))%nat else dst !! k.
Proof.
  intros Hd Hs. case_decide as Hk.
  - rewrite lookup_app_r; rewrite length_take, Nat.min_l by lia; [|lia].
    rewrite lookup_app_l by (rewrite length_take, length_drop; lia).
    rewrite lookup_take_lt by lia. apply lookup_drop.
  - destruct (decide (k < d)%nat).
    + rewrite lookup_app_l by (rewrite length_take; lia). by rewrite lookup_take_lt by lia.
    + rewrite lookup_app_r; rewrite length_take, Nat.min_l by lia; [|lia].
      rewrite lookup_app_r; rewrite length_take, length_drop; [|lia].
      rewrite lookup_drop. f_equal. lia.
Qed.

Lemma mark_valid_lookup (bv : list bool) off n k :
  (off + n ≤ length bv)%nat →
  mark_valid bv off n !! k =
  if decide (off ≤ k < off + n)%nat then Some true else bv !! k.
Proof.
  intros H. unfold mark_valid. case_decide as Hk.
  - rewrite lookup_app_r; rewrite length_take, Nat.min_l by lia; [|lia].
    rewrite lookup_app_l by (rewrite length_replicate; lia).
    apply lookup_replicate_2. lia.
  - destruct (decide (k < off)%nat).
    + rewrite lookup_app_l by (rewrite length_take; lia). by rewrite lookup_take_lt by lia.
    + rewrite lookup_app_r; rewrite length_take, Nat.min_l by lia; [|lia].
      rewrite lookup_app_r; rewrite length_replicate; [|lia].
      rewrite lookup_drop. f_equal. lia.
Qed.

(** The byte-tracking answer of [satisfy_read] is "every byte is now valid". *)
Lemma satisfy_read_all_valid bv off n :
  (off + n ≤ length bv)%nat →
  all_set (take off bv) && all_set (drop (off + n) (mark_valid bv off n)) =
  all_set (mark_valid bv off n).
Proof.
  intros H. apply eq_true_iff_eq. rewrite andb_true_iff, !all_set_spec. split.
  - intros [H1 H2] i b Hi. rewrite mark_valid_lookup in Hi by done.
    case_decide as Hd; [by simplify_eq|].
    destruct (decide (i < off)%nat).
    + apply (H1 i). by rewrite lookup_take_lt.
    + apply (H2 (i - (off + n))%nat). rewrite lookup_drop, mark_valid_lookup by done.
      replace (off + n + (i - (off + n)))%nat with i by lia.
      by rewrite decide_False by lia.
  - intros Hall. split; intros i b Hi.
    + apply lookup_take_Some in Hi as [Hi ?]. apply (Hall i).
      rewrite mark_valid_lookup by done. by rewrite decide_False by lia.
    + rewrite lookup_drop in Hi. eauto.
Qed.

Definition tracked (p : Packet) : list bool :=
  match bytesValid p with
  | [] => replicate (Z.to_nat (size p)) false
  | bv => bv
  end.

Lemma tracked_valid_at p x :
  readable p → valid_at p x = default false (tracked p !! Z.to_nat (x - addr p)).
Proof.
  intros _. unfold valid_at, tracked. destruct (bytesValid p); [|done]. cbn.
  destruct (replicate _ _ !! _) eqn:E; [|done].
  by apply lookup_replicate in E as [-> _].
Qed.

Lemma tracked_length p : readable p → length (tracked p) = Z.to_nat (size p).
Proof.
  intros H. unfold tracked. pose proof (rd_range p H).
  destruct (rd_valid p H) as [->|Hl]; [apply length_replicate|].
  destruct (bytesValid p) eqn:E; cbn in *; lia.
Qed.

(** No byte is covered when the two ranges, or their security spaces, are disjoint. *)
Lemma covers_none p a sec sz x :
  negb (Bool.eqb sec (secure p)) || (a + sz - 1 <? addr p) || (addr p + size p - 1 <? a) = true →
  addr p ≤ x < addr p + size p → covers p a sec sz x = false.
Proof.
  intros H Hx. unfold covers. destruct (Bool.eqb sec (secure p)); cbn in *; [|done].
  bool_to_prop; cbn in *; (done || lia).
Qed.

(** The read branch on an overlap that lies inside both buffers. *)
Lemma satisfy_read_run p fo vo ov d :
  readable p → 0 ≤ fo → 0 ≤ vo → 0 ≤ ov → fo + ov ≤ size p →
  vo + ov ≤ Z.of_nat (length d) →
  satisfy_read p fo vo ov d =
  let bv := mark_valid (tracked p) (Z.to_nat fo) (Z.to_nat ov) in
  Ok (all_set bv,
      p <| data := take (Z.to_nat fo) (data p) ++
                   take (Z.to_nat ov) (drop (Z.to_nat vo) d) ++
                   drop (Z.to_nat fo + Z.to_nat ov) (data p) |>
        <| bytesValid := bv |>, d).
Proof.
  intros Hp Hfo Hvo Hov Hf Hv. pose proof (rd_data p Hp). unfold satisfy_read.
  rewrite (rd_buf p Hp), (rd_masked p Hp). cbn [andb negb require].
  fold (tracked p). unfold memcpy. rewrite decide_True by lia. cbn [mbind res_bind].
  rewrite decide_True by (by apply tracked_length).
  by rewrite satisfy_read_all_valid by (rewrite tracked_length by done; lia).
Qed.

(** The byte-tracking vector is complete exactly when every address of the
    packet is found. *)
Lemma all_found p (bv : list bool) :
  Z.of_nat (length bv) = size p →
  all_set bv = true ↔
  ∀ x, addr p ≤ x < addr p + size p → valid_at (p <| bytesValid := bv |>) x = true.
Proof.
  intros Hl. rewrite all_set_spec. unfold valid_at; cbn. split.
  - intros Hall x Hx.
    destruct (bv !! _) as [b|] eqn:E; [by apply Hall in E|]. apply lookup_ge_None in E. lia.
  - intros Hall i b Hi. pose proof (lookup_lt_Some _ _ _ Hi).
    specialize (Hall (addr p + Z.of_nat i)).
    replace (Z.to_nat (addr p + Z.of_nat i - addr p)) with i in Hall by lia.
    rewrite Hi in Hall. apply Hall. lia.
Qed.

Lemma mark_valid_length (bv : list bool) off n :
  (off + n ≤ length bv)%nat → length (mark_valid bv off n) = length bv.
Proof.
  intros H. unfold mark_valid.
  rewrite !length_app, length_take, length_replicate, length_drop. lia.
Qed.

(** Offsets and length of an overlap, as the code computes them. *)
Lemma overlap_bounds a sz b n :
  0 < sz → 0 < n → b ≤ a + sz - 1 → a ≤ b + n - 1 →
  let fo := if b <? a then a - b else 0 in
  let vo := if a <? b then b - a else 0 in
  let ov := Z.min (a + sz - 1) (b + n - 1) + 1 - Z.max a b in
  0 ≤ fo ∧ 0 ≤ vo ∧ 0 < ov ∧ fo + ov ≤ n ∧ vo + ov ≤ sz ∧
  b + fo = Z.max a b ∧ a + vo = Z.max a b ∧ b + fo + ov = Z.min (a + sz) (b + n).
Proof. intros. subst fo vo ov. bool_to_prop; lia. Qed.

(** A functional read against another buffer never aborts; it
    takes exactly the overlapping bytes of that buffer, marks exactly them as
    found, leaves the buffer alone, and answers [true] exactly when the buffer
    overlaps and every byte of the read has now been found. *)
Theorem trySatisfyFunctional_read p a sec sz d :
  readable p → 0 ≤ a → 0 < sz → a + sz ≤ 2 ^ 64 → Z.of_nat (length d) = sz →
  ∃ b p', trySatisfyFunctional p a sec sz (Some d) = Ok (b, p', Some d) ∧
    (∀ x, addr p ≤ x < addr p + size p →
       byte_at p' x = (if covers p a sec sz x then d !! Z.to_nat (x - a) else byte_at p x) ∧
       valid_at p' x = valid_at p x || covers p a sec sz x) ∧
    (b = true ↔ (∃ x, addr p ≤ x < addr p + size p ∧ covers p a sec sz x = true) ∧
                (∀ x, addr p ≤ x < addr p + size p → valid_at p' x = true)).
Proof.
  intros Hp Ha Hsz Hend Hd. pose proof (rd_range p Hp) as (Hr0 & Hr1 & Hr2).
  pose proof (rd_data p Hp). pose proof (tracked_length p Hp) as Htl.
  unfold trySatisfyFunctional, getAddr, getSize.
  rewrite (rd_addr p Hp), (rd_size p Hp). cbn [require mbind res_bind].
  rewrite (rd_print p Hp), (rd_cmd p Hp).
  rewrite !(u64_id (_ + _ - 1)) by (unfold is_u64; lia).
  destruct (negb _ || _ || _) eqn:Eno.
  { exists false, p. split; [done|]. split.
    - intros x Hx. rewrite (covers_none p a sec sz x) by assumption. by rewrite orb_false_r.
    - split; [done|]. intros [(x & Hx & Hc) _]. rewrite (covers_none p a sec sz x) in Hc by assumption. done. }
  apply orb_false_iff in Eno as [Eno E3]. apply orb_false_iff in Eno as [E1 E2].
  apply negb_false_iff in E1. apply Z.ltb_ge in E2, E3.
  pose proof (overlap_bounds a sz (addr p) (size p) ltac:(lia) ltac:(lia) E2 E3) as Hoff.
  cbv zeta in Hoff. set (fo := if addr p <? a then _ else 0) in *.
  set (vo := if a <? addr p then _ else 0) in *.
  rewrite (u64_id (Z.min _ _ + 1 - _)) by (unfold is_u64; lia).
  set (ov := Z.min _ _ + 1 - _) in *.
  rewrite satisfy_read_run by (assumption || lia). cbv zeta. cbn [mbind res_bind].
  set (bv := mark_valid _ _ _).
  assert (∀ x, addr p ≤ x < addr p + size p →
    covers p a sec sz x = bool_decide (Z.to_nat fo ≤ Z.to_nat (x - addr p) <
                                       Z.to_nat fo + Z.to_nat ov)%nat) as Hcov.
  { intros x Hx. unfold covers. rewrite E1. cbn. case_bool_decide; bool_to_prop; cbn; lia. }
  eexists _, _. split; [done|]. split.
  - intros x Hx. rewrite Hcov by done. split.
    + unfold byte_at. cbn. rewrite memcpy_lookup by lia.
      case_decide; case_bool_decide; try done. f_equal. lia.
    + rewrite (tracked_valid_at p x Hp). unfold valid_at. cbn. unfold bv.
      rewrite mark_valid_lookup by lia. case_decide; case_bool_decide; try done.
      * by rewrite orb_true_r.
      * by rewrite orb_false_r.
  - rewrite (all_found p bv) by (unfold bv; rewrite mark_valid_length; lia).
    split; [|by intros [_ ?]]. intros Hall. split; [|done].
    exists (addr p + fo). split; [lia|]. rewrite Hcov by lia. apply bool_decide_eq_true. lia.
Qed.

(** Reading 4 bytes at 0x100 against a 2-byte buffer at 0x102: half the read. *)
Definition demo_read : Packet :=
  mkPacket (Z.lor VALID_ADDR (Z.lor VALID_SIZE STATIC_DATA)) ReadReq
    (Request.mk (Some 0x100) (Some 4) 0 [] 0 None None) [0; 0; 0; 0] 0x100 false 4 [] 0 0 0 [].

Lemma trySatisfyFunctional_read_witness :
  ∃ b p', trySatisfyFunctional demo_read 0x102 false 2 (Some [7; 8]) = Ok (b, p', Some [7; 8]) ∧
    byte_at p' 0x103 = Some 8 ∧ valid_at p' 0x103 = true ∧ valid_at p' 0x101 = false.
Proof.
  assert (readable demo_read) as Hr by (split; (left; reflexivity) || (cbn; lia) || reflexivity).
  destruct (trySatisfyFunctional_read demo_read 0x102 false 2 [7; 8] Hr) as (b & p' & H & Hx & _);
    [lia..|reflexivity|].
  exists b, p'. split; [exact H|].
  destruct (Hx 0x103) as [-> ->]; [cbn; lia|]. destruct (Hx 0x101) as [_ ->]; [cbn; lia|].
  repeat split.
Defined.
