(* ===== verification/PacketQueues.v ===== *)
(** * Packet queues (src/gem5/src/mem/packet_queue.cc, packet_queue.hh)

    The queue between a component and its port: packets wait for their tick, a
    send event transmits the first one, and a rejected packet waits for a retry.
    [curTick], the scheduled send event and the peer's state are explicit.  The
    peer of the port is an interface; it may schedule a new packet on the queue
    before it answers, as the source's comments describe. *)

From S2P Require Import Prelude MemCmd Packet.
#[local] Open Scope Z_scope.

Definition MaxTick : Z := 2 ^ 64 - 1.

(** [matchAddr] and [matchBlockAddr] against another packet. *)
Definition matchAddr_pkt (p other : Packet) : res bool :=
  a ← getAddr other; matchAddr p a (secure other).
Definition matchBlockAddr_pkt (p other : Packet) (blk_size : Z) : res bool :=
  a ← getBlockAddr other blk_size; matchBlockAddr p a (secure other) blk_size.

Inductive DrainState := Running | Draining | Drained | Resuming.
#[export] Instance DrainState_eq_dec : EqDecision DrainState.
Proof. solve_decision. Defined.

Module PacketQueue.

Record DeferredPacket := mkDeferred { tick : Tick; pkt : Packet }.

Record t := mk {
  transmitList : list DeferredPacket;
  sendEvent : option Tick;            (* its tick, when scheduled *)
  _disableSanityCheck : bool;
  forceOrder : bool;
  waitingOnRetry : bool;
  drainState : DrainState;
  drainDone : nat;                    (* calls of signalDrainDone *)
}.
#[export] Instance t_eta : Eta t := λ q,
  mk (transmitList q) (sendEvent q) (_disableSanityCheck q) (forceOrder q) (waitingOnRetry q)
    (drainState q) (drainDone q).

Definition ctor (force_order disable_sanity_check : bool) : t :=
  mk [] None disable_sanity_check force_order false Running 0.

Definition size (q : t) : nat := length (transmitList q).

(** The other side of the port: its answer, and the packets it schedules on this
    queue before it returns. *)
Class Peer (E : Type) := recvTiming : Tick → Packet → E → bool * list (Packet * Tick) * E.

Record World (E : Type) := mkWorld { queue : t; curTick : Tick; peer : E }.
Arguments mkWorld {E}. Arguments queue {E}. Arguments curTick {E}. Arguments peer {E}.
#[export] Instance World_eta E : Eta (World E) := λ w, mkWorld (queue w) (curTick w) (peer w).

Section Queue.
Context {E : Type} `{PeerE : Peer E}.
Abbreviation W := (World E).
Abbreviation H := (M W).

Definition upd (f : t → t) : H unit := modify (λ w, w <| queue ::= f |>).

Definition deferredPacketReady (w : W) : bool :=
  match transmitList (queue w) with [] => false | dp :: _ => tick dp <=? curTick w end.
Definition deferredPacketReadyTime (q : t) : Tick :=
  match transmitList q with [] => MaxTick | dp :: _ => tick dp end.

(** [em.schedule] and [em.reschedule] of the send event. *)
Definition schedule (when : Tick) : H unit :=
  w ← get_state;
  assert_that (curTick w <=? when);;
  assert_that (bool_decide (sendEvent (queue w) = None));;
  upd (λ q, q <| sendEvent := Some when |>).
Definition reschedule (when : Tick) : H unit :=
  w ← get_state;
  assert_that (curTick w <=? when);;
  upd (λ q, q <| sendEvent := Some when |>).

Definition schedSendEvent (when : Tick) : H unit :=
  w ← get_state;
  let q := queue w in
  if waitingOnRetry q then assert_that (bool_decide (sendEvent q = None))
  else if negb (when =? MaxTick) then
    let when := Z.max when (u64 (curTick w + 1)) in
    match sendEvent q with
    | None => schedule when
    | Some t => when_ (when <? t) (reschedule when)
    end
  else
    when_ (bool_decide (drainState q = Draining) && bool_decide (transmitList q = [])
           && bool_decide (sendEvent q = None))
      (upd (λ q, q <| drainState := Drained |> <| drainDone ::= S |>)).

(** The search from the end of the list, which is given in reverse; the result is
    whether a place after an existing packet was found, and the new list. *)
Fixpoint emplace (force : bool) (dp : DeferredPacket) (rl : list DeferredPacket)
    : res (bool * list DeferredPacket) :=
  match rl with
  | [] => Ok (false, [dp])
  | it :: rl =>
      m ← (if force then matchAddr_pkt (pkt it) (pkt dp) else Ok false);
      if m || (tick it <=? tick dp) then Ok (true, dp :: it :: rl)
      else '(found, l) ← emplace force dp rl; Ok (found, it :: l)
  end.

Definition schedSendTiming (p : Packet) (when : Tick) : H unit :=
  w ← get_state;
  let q := queue w in
  assert_that (curTick w <=? when);;
  assert_that (negb (isExpressSnoop p));;
  (if negb (_disableSanityCheck q) && (1024 <? size q)%nat then abort_with Panicked else mret tt);;
  '(found, l) ← lift_res (emplace (forceOrder q) (mkDeferred when p) (reverse (transmitList q)));
  upd (λ q, q <| transmitList := reverse l |>);;
  if (found : bool) then mret tt else schedSendEvent when.

(** What the peer schedules before it answers. *)
Fixpoint schedule_all (l : list (Packet * Tick)) : H unit :=
  match l with
  | [] => mret tt
  | (p, when) :: l => schedSendTiming p when;; schedule_all l
  end.

Definition sendTiming (p : Packet) : H bool :=
  w ← get_state;
  let '(ok, back, e) := recvTiming (curTick w) p (peer w) in
  modify (λ w, w <| peer := e |>);;
  schedule_all back;;
  mret ok.

Definition sendDeferredPacket : H unit :=
  w ← get_state;
  assert_that (negb (waitingOnRetry (queue w)));;
  assert_that (deferredPacketReady w);;
  dp ← of_option UndefinedBehavior (head (transmitList (queue w)));
  upd (λ q, q <| transmitList ::= tail |>);;
  ok ← sendTiming (pkt dp);
  upd (λ q, q <| waitingOnRetry := negb ok |>);;
  if (ok : bool) then
    w ← get_state;
    schedSendEvent (deferredPacketReadyTime (queue w))
  else upd (λ q, q <| transmitList ::= cons dp |>).

Definition processSendEvent : H unit :=
  w ← get_state;
  assert_that (negb (waitingOnRetry (queue w)));;
  sendDeferredPacket.

Definition retry : H unit :=
  w ← get_state;
  assert_that (waitingOnRetry (queue w));;
  upd (λ q, q <| waitingOnRetry := false |>);;
  sendDeferredPacket.

Definition drain (q : t) : DrainState :=
  if bool_decide (transmitList q = []) then Drained else Draining.

Fixpoint conflicts (p : Packet) (blk_size : Z) (l : list DeferredPacket) : res bool :=
  match l with
  | [] => Ok false
  | dp :: l =>
      m ← matchBlockAddr_pkt (pkt dp) p blk_size;
      if (m : bool) then Ok true else conflicts p blk_size l
  end.
Definition checkConflict (q : t) (p : Packet) (blk_size : Z) : res bool :=
  conflicts p blk_size (transmitList q).

(** The functional access may update the packets it passes. *)
Fixpoint satisfy (p : Packet) (l : list DeferredPacket) : res (bool * Packet * list DeferredPacket) :=
  match l with
  | [] => Ok (false, p, [])
  | dp :: l =>
      '(found, p, other) ← trySatisfyFunctional_pkt p (pkt dp);
      let dp := mkDeferred (tick dp) other in
      if (found : bool) then Ok (true, p, dp :: l)
      else '(found, p, l) ← satisfy p l; Ok (found, p, dp :: l)
  end.
Definition trySatisfyFunctional (q : t) (p : Packet) : res (bool * Packet * t) :=
  '(found, p, l) ← satisfy p (transmitList q);
  Ok (found, p, q <| transmitList := l |>).

(** ** Actions of the world around the queue *)

Inductive Action :=
  | Sched (p : Packet) (when : Tick)   (* the owner queues a packet *)
  | Fire                               (* the send event is serviced *)
  | Retry                              (* the peer retries *)
  | Advance (now : Tick).              (* time passes *)

Definition exec (a : Action) : H unit :=
  match a with
  | Sched p when => schedSendTiming p when
  | Fire =>
      w ← get_state;
      now ← of_option UndefinedBehavior (sendEvent (queue w));
      modify (λ w, w <| curTick := now |> <| queue ::= λ q, q <| sendEvent := None |> |>);;
      processSendEvent
  | Retry => retry
  | Advance now => modify (λ w, w <| curTick := now |>)
  end.

(** ** Packets that may be queued, and their addresses *)

Definition sendable (p : Packet) : Prop :=
  isExpressSnoop p = false ∧ getAddr p = Ok (addr p).
Definition key (p : Packet) : Z * bool := (addr p, secure p).

Lemma matchAddr_run x p : sendable x → sendable p →
  matchAddr_pkt x p = Ok (bool_decide (key x = key p)).
Proof.
  intros [_ Hx] [_ Hp]. unfold matchAddr_pkt, matchAddr. rewrite Hp. cbn [mbind res_bind].
  rewrite Hx. cbn. f_equal. unfold key. destruct (Z.eqb_spec (addr x) (addr p)) as [->|]; cbn.
  - destruct (secure x), (secure p); cbn; by case_bool_decide.
  - rewrite bool_decide_false; [done|congruence].
Qed.

(** [dp] may be inserted before [x]: [x] is later, and, when order is forced, for
    another address. *)
Definition after (force : bool) (dp x : DeferredPacket) : Prop :=
  tick dp < tick x ∧ (force = true → key (pkt x) ≠ key (pkt dp)).

Lemma emplace_run force dp rl : sendable (pkt dp) → Forall (λ x, sendable (pkt x)) rl →
  ∃ a b, rl = a ++ b ∧
    emplace force dp rl = Ok (negb (bool_decide (b = [])), a ++ dp :: b) ∧
    Forall (after force dp) a ∧ (force = false → ∀ y, head b = Some y → tick y ≤ tick dp).
Proof.
  intros Hdp. induction rl as [|x rl IH]; intros Hrl.
  { exists [], []. by repeat split. }
  inversion Hrl as [|?? Hx Hrl']; subst. cbn [emplace].
  assert ((if force then matchAddr_pkt (pkt x) (pkt dp) else Ok false)
          = Ok (force && bool_decide (key (pkt x) = key (pkt dp)))) as ->.
  { destruct force; [by apply matchAddr_run|done]. }
  cbn [mbind res_bind]. destruct (_ || _) eqn:Hc.
  - exists [], (x :: rl). split; [done|]. split; [done|]. split; [constructor|].
    intros -> y [= <-]. cbn in Hc. by apply Z.leb_le.
  - apply orb_false_iff in Hc as [Hk Ht%Z.leb_gt].
    destruct (IH Hrl') as (a & b & -> & -> & Ha & Hb). cbn [mbind res_bind].
    exists (x :: a), b. split; [done|]. split; [done|]. split; [|done].
    constructor; [|done]. split; [done|]. intros ->. by apply bool_decide_eq_false in Hk.
Qed.

(** ** One call of [schedSendTiming] *)

(** The tick of the send event once [when] is at the head of the list. *)
Definition wake (now when : Tick) (ev : option Tick) : Tick :=
  match ev with
  | None => Z.max when (now + 1)
  | Some t => Z.min t (Z.max when (now + 1))
  end.

Lemma schedSendEvent_run w when :
  0 ≤ curTick w → curTick w + 1 < MaxTick → 0 ≤ when < MaxTick → waitingOnRetry (queue w) = false →
  schedSendEvent when w
  = Ok (tt, w <| queue ::= λ q, q <| sendEvent := Some (wake (curTick w) when (sendEvent q)) |> |>).
Proof.
  intros Hn Hn1 Hw Hwait. unfold schedSendEvent, get_state, mbind, M_bind. rewrite Hwait.
  unfold MaxTick in *. destruct (Z.eqb_spec when (2 ^ 64 - 1)); [lia|]. cbn [negb].
  rewrite (u64_id (curTick w + 1)) by (unfold is_u64; lia). unfold wake.
  destruct w as [[tl ev dis fo wt ds dd] now e]. cbn in *. destruct ev as [t|].
  - unfold when_. destruct (Z.ltb_spec (Z.max when (now + 1)) t).
    + unfold reschedule, get_state, mbind, M_bind, assert_that. cbn.
      destruct (Z.leb_spec now (Z.max when (now + 1))); [|lia].
      unfold upd, modify, set_field. cbn. by rewrite Z.min_r by lia.
    + unfold set_field. cbn. by rewrite Z.min_l by lia.
  - unfold schedule, get_state, mbind, M_bind, assert_that. cbn.
    destruct (Z.leb_spec now (Z.max when (now + 1))); [|lia]. done.
Qed.

Record timed (w : W) : Prop := {
  tm_now : 0 ≤ curTick w ∧ curTick w + 1 < MaxTick;
  tm_list : Forall (λ x, sendable (pkt x)) (transmitList (queue w));
  tm_ticks : Forall (λ x, 0 ≤ tick x < MaxTick) (transmitList (queue w));
}.

(** While a retry is awaited the refused packet heads the list. *)
Definition held (w : W) : Prop := waitingOnRetry (queue w) = true →
  ∃ dp l, transmitList (queue w) = dp :: l ∧ tick dp ≤ curTick w.

Definition roomy (w : W) : Prop :=
  _disableSanityCheck (queue w) = true ∨ (size (queue w) ≤ 1024)%nat.

(** The queue after [dp] went in between [l1] and [l2]. *)
Definition inserted (now : Tick) (dp : DeferredPacket) (l1 l2 : list DeferredPacket) (q : t) : t :=
  let q' := q <| transmitList := l1 ++ dp :: l2 |> in
  if bool_decide (l1 = []) && negb (waitingOnRetry q)
  then q' <| sendEvent := Some (wake now (tick dp) (sendEvent q)) |> else q'.

Lemma schedSendTiming_run w p when :
  timed w → held w → roomy w → sendable p → curTick w ≤ when < MaxTick →
  ∃ l1 l2, let dp := mkDeferred when p in let force := forceOrder (queue w) in
    transmitList (queue w) = l1 ++ l2 ∧
    schedSendTiming p when w = Ok (tt, w <| queue := inserted (curTick w) dp l1 l2 (queue w) |>) ∧
    Forall (after force dp) l2 ∧
    (force = false → ∀ y, last l1 = Some y → tick y ≤ when).
Proof.
  intros [[Hn Hn1] Hl _] Hwt Hroom [Hex Ha] Hw.
  destruct (emplace_run (forceOrder (queue w)) (mkDeferred when p) (reverse (transmitList (queue w))))
    as (a & b & Hab & Hem & Haf & Hbf); [by split|by apply Forall_reverse|].
  exists (reverse b), (reverse a). cbn zeta. split.
  { by rewrite <- reverse_app, <- Hab, reverse_involutive. }
  split; [|split; [by apply Forall_reverse|intros Hf y Hy; apply Hbf; [done|]]].
  2:{ by rewrite last_reverse in Hy. }
  assert (negb (_disableSanityCheck (queue w)) && (1024 <? size (queue w))%nat = false) as Hsz.
  { destruct Hroom as [->|Hs]; [done|]. destruct (Nat.ltb_spec 1024 (size (queue w))); [lia|].
    by rewrite andb_false_r. }
  unfold schedSendTiming, get_state, assert_that, lift_res, upd, modify, mbind, M_bind.
  destruct (Z.leb_spec (curTick w) when); [|lia]. rewrite Hex, Hsz. cbn [negb mret M_ret]. rewrite Hem.
  rewrite reverse_app, reverse_cons, <- app_assoc. cbn [app]. unfold inserted.
  destruct b as [|y b].
  - rewrite bool_decide_true by done. cbn [negb]. rewrite reverse_nil, bool_decide_true by done. cbn [andb app].
    destruct (waitingOnRetry (queue w)) eqn:Hwq; cbn [negb].
    + destruct (Hwt Hwq) as (dp & l & Hdp & Htk). rewrite Hdp, app_nil_r in Hab.
      rewrite <- Hab, Forall_reverse in Haf. inversion Haf as [|?? [Hlt _] _]; subst. cbn in Hlt. lia.
    + rewrite schedSendEvent_run; [done|done..|lia|done].
  - rewrite bool_decide_false by done. cbn [negb]. rewrite bool_decide_false; [done|].
    rewrite reverse_cons. by destruct (reverse b).
Qed.

Lemma schedSendTiming_roomy w p when w' :
  schedSendTiming p when w = Ok (tt, w') → roomy w ∧ curTick w ≤ when.
Proof.
  unfold schedSendTiming, get_state, assert_that, mbind, M_bind, roomy.
  destruct (Z.leb_spec (curTick w) when) as [Hle|]; [|done].
  destruct (isExpressSnoop p); [done|]. cbn [negb mret M_ret].
  destruct (_disableSanityCheck (queue w)); cbn [negb andb]; [auto|].
  destruct (Nat.ltb_spec 1024 (size (queue w))); [done|auto].
Qed.

Lemma inserted_list now dp l1 l2 q : transmitList (inserted now dp l1 l2 q) = l1 ++ dp :: l2.
Proof. unfold inserted. by destruct (_ && _). Qed.
Lemma inserted_flags now dp l1 l2 q :
  let q' := inserted now dp l1 l2 q in
  forceOrder q' = forceOrder q ∧ waitingOnRetry q' = waitingOnRetry q ∧
  _disableSanityCheck q' = _disableSanityCheck q.
Proof. unfold inserted. by destruct (_ && _). Qed.
Lemma inserted_event now dp l1 l2 q :
  sendEvent (inserted now dp l1 l2 q) =
  if bool_decide (l1 = []) && negb (waitingOnRetry q)
  then Some (wake now (tick dp) (sendEvent q)) else sendEvent q.
Proof. unfold inserted. by destruct (_ && _). Qed.

(** ** The invariant

    [S] are the packets scheduled so far and [D] those the peer accepted, oldest
    first. *)

Abbreviation tl w := (transmitList (queue w)).
Definition tick_le (x y : DeferredPacket) : Prop := tick x ≤ tick y.

Record Mid (w : W) (S D : list Packet) : Prop := {
  md_timed : timed w;
  md_event : ∀ t, sendEvent (queue w) = Some t →
    curTick w ≤ t ∧ ∃ dp l, tl w = dp :: l ∧ tick dp ≤ t;
  md_sorted : forceOrder (queue w) = false → StronglySorted tick_le (tl w);
  md_perm : D ++ (pkt <$> tl w) ≡ₚ S;
  md_order : forceOrder (queue w) = true →
    ∀ k, filter (λ p, key p = k) (D ++ (pkt <$> tl w)) = filter (λ p, key p = k) S;
}.

Record Inv (w : W) (S D : list Packet) : Prop := {
  iv_mid : Mid w S D;
  iv_wait : held w;
  iv_left : waitingOnRetry (queue w) = true → ∀ t, sendEvent (queue w) = Some t →
    ∃ dp dp2 l, tl w = dp :: dp2 :: l ∧ tick dp2 ≤ t;
  iv_wake : tl w ≠ [] → waitingOnRetry (queue w) = true ∨ is_Some (sendEvent (queue w));
}.

Lemma sorted_insert l1 dp l2 :
  StronglySorted tick_le (l1 ++ l2) → Forall (after false dp) l2 →
  (∀ y, last l1 = Some y → tick y ≤ tick dp) → StronglySorted tick_le (l1 ++ dp :: l2).
Proof.
  intros Hs Haf Hlast. induction l1 as [|x l1 IH]; cbn in *.
  - constructor; [done|]. eapply Forall_impl; [exact Haf|]. intros y [? _]. unfold tick_le. lia.
  - inversion Hs as [|?? Hs' Hx]; subst. constructor.
    + apply IH; [done|]. intros y Hy. apply Hlast. by destruct l1.
    + rewrite Forall_app in Hx. destruct Hx as [Hx1 Hx2].
      apply Forall_app. split; [done|]. constructor; [|done]. unfold tick_le.
      destruct l1 as [|y l1]; [by apply Hlast|].
      destruct (last (y :: l1)) as [z|] eqn:Hz; [|by apply last_None in Hz].
      assert (tick z ≤ tick dp) by (apply Hlast; by rewrite last_cons_cons).
      apply last_Some_elem_of in Hz. rewrite Forall_forall in Hx1. specialize (Hx1 z Hz).
      unfold tick_le in Hx1. lia.
Qed.

Lemma filter_none {A} (P : A → Prop) `{∀ x, Decision (P x)} (l : list A) :
  Forall (λ x, ¬ P x) l → filter P l = [].
Proof. induction 1 as [|x l Hx Hl IH]; [done|]. by rewrite filter_cons, decide_False. Qed.

Lemma order_insert k D p (l1 l2 : list DeferredPacket) when S :
  Forall (after true (mkDeferred when p)) l2 →
  filter (λ p, key p = k) (D ++ (pkt <$> l1 ++ l2)) = filter (λ p, key p = k) S →
  filter (λ p, key p = k) (D ++ (pkt <$> l1 ++ mkDeferred when p :: l2))
  = filter (λ p, key p = k) (S ++ [p]).
Proof.
  intros Haf Hf. rewrite !fmap_app, fmap_cons, !filter_app, filter_cons in *. cbn [pkt].
  rewrite (filter_cons _ p []), filter_nil. rewrite app_assoc in Hf. destruct (decide (key p = k)) as [Hk|Hk].
  - assert (filter (λ p, key p = k) (pkt <$> l2) = []) as Hnil.
    { apply filter_none. rewrite Forall_fmap. eapply Forall_impl; [exact Haf|].
      intros x [_ Hx]. cbn in *. specialize (Hx eq_refl). congruence. }
    rewrite Hnil in *. rewrite app_nil_r in Hf. by rewrite app_assoc, Hf.
  - rewrite app_nil_r. by rewrite app_assoc.
Qed.

Lemma wake_bounds now when ev : (∀ t, ev = Some t → now ≤ t ∧ when ≤ t) →
  now ≤ wake now when ev ∧ when ≤ wake now when ev.
Proof. intros Hev. unfold wake. destruct ev as [t|]; [|lia]. destruct (Hev t eq_refl). lia. Qed.

Lemma sched_mid w S D p when :
  Mid w S D → held w → roomy w → sendable p → curTick w ≤ when < MaxTick →
  ∃ l1 l2, let dp := mkDeferred when p in
    tl w = l1 ++ l2 ∧ Forall (λ x, when < tick x) l2 ∧
    schedSendTiming p when w = Ok (tt, w <| queue := inserted (curTick w) dp l1 l2 (queue w) |>) ∧
    Mid (w <| queue := inserted (curTick w) dp l1 l2 (queue w) |>) (S ++ [p]) D.
Proof.
  intros [Ht Hev Hso Hpe Hor] Hwt Hroom Hp Hw.
  destruct (schedSendTiming_run w p when Ht Hwt Hroom Hp Hw) as (l1 & l2 & Hl & Hr & Haf & Hlast).
  cbn zeta in *. exists l1, l2. cbn zeta. split; [done|].
  assert (Forall (λ x, when < tick x) l2) as Hgt.
  { eapply Forall_impl; [exact Haf|]. by intros x [? _]. }
  split; [done|]. split; [done|].
  destruct (inserted_flags (curTick w) (mkDeferred when p) l1 l2 (queue w)) as (Hfo & Hwa & _).
  destruct Ht as [Hn Hls Htk]. unfold held in Hwt. rewrite Hl in *.
  split; cbn [queue curTick set_field]; rewrite ?inserted_list, ?inserted_event, ?Hfo, ?Hwa.
  - split; cbn [queue curTick set_field]; rewrite ?inserted_list, ?inserted_event, ?Hfo, ?Hwa; [done| |].
    + rewrite Forall_app in *. destruct Hls. split; [done|by constructor].
    + rewrite Forall_app in *. destruct Htk. split; [done|]. constructor; [cbn; lia|done].
  - intros t. case_bool_decide as Hl1; cbn [andb].
    + subst l1. cbn [app] in *. destruct (waitingOnRetry (queue w)) eqn:Hwq; cbn [negb].
      * destruct (Hwt eq_refl) as (dp & l & -> & ?). inversion Hgt; subst. lia.
      * intros [= <-]. destruct (wake_bounds (curTick w) when (sendEvent (queue w))) as [? ?]; [|eauto].
        intros t Het. destruct (Hev t Het) as (? & dp & l & Heq & ?). split; [done|].
        rewrite Heq in Hgt. inversion Hgt; subst. lia.
    + intros Het. destruct (Hev t Het) as (? & dp & l & Heq & ?). split; [done|].
      destruct l1 as [|x l1]; [done|]. injection Heq as -> _. cbn. eauto.
  - intros Hf. rewrite Hf in *. apply sorted_insert; [by apply Hso|done|by apply Hlast].
  - rewrite fmap_app, fmap_cons. cbn [pkt]. rewrite <- Hpe, fmap_app. solve_Permutation.
  - intros Hf k. rewrite Hf in *. apply order_insert; [done|by apply Hor].
Qed.

Lemma sched_inv w S D p when :
  Inv w S D → roomy w → sendable p → curTick w ≤ when < MaxTick →
  ∃ w', schedSendTiming p when w = Ok (tt, w') ∧ Inv w' (S ++ [p]) D ∧
    (waitingOnRetry (queue w') = true → waitingOnRetry (queue w) = true ∧
       sendEvent (queue w') = sendEvent (queue w)).
Proof.
  intros [Hm Hwt Hlf Hwk] Hroom Hp Hw.
  destruct (sched_mid w S D p when Hm Hwt Hroom Hp Hw) as (l1 & l2 & Hl & Hgt & Hr & Hm').
  cbn zeta in *. eexists. split; [exact Hr|].
  destruct (inserted_flags (curTick w) (mkDeferred when p) l1 l2 (queue w)) as (_ & Hwa & _).
  split.
  2:{ cbn [queue set_field]. rewrite Hwa, inserted_event. intros Hwq. by rewrite Hwq, andb_false_r. }
  split; [done| | |]; unfold held in *; cbn [queue curTick set_field];
    rewrite ?inserted_list, ?inserted_event, ?Hwa.
  - intros Hwq. destruct (Hwt Hwq) as (dp & l & Heq & Ht). rewrite Hl in Heq.
    destruct l1 as [|x l1].
    + cbn in Heq. subst l2. inversion Hgt; subst. lia.
    + injection Heq as -> _. cbn. eauto.
  - intros Hwq t. rewrite Hwq, andb_false_r. intros Het.
    destruct (Hlf Hwq t Het) as (dp & dp2 & l & Heq & Ht).
    destruct (Hwt Hwq) as (dp' & l' & Heq' & Ht'). rewrite Heq in Heq'. injection Heq' as <- _.
    rewrite Hl in Heq. destruct l1 as [|x [|y l1]]; cbn in Heq.
    + subst l2. inversion Hgt; subst. lia.
    + injection Heq as -> ->. inversion Hgt; subst. cbn. do 3 eexists. split; [done|]. cbn. lia.
    + injection Heq as -> -> _. cbn. eauto.
  - intros _. destruct (waitingOnRetry (queue w)) eqn:Hwq; [by left|]. right. cbn [negb].
    rewrite andb_true_r. case_bool_decide as Hl1; [by eexists|].
    destruct (Hwk ltac:(rewrite Hl; by destruct l1)) as [?|?]; done.
Qed.

(** A peer that queues packets with an address, from the present on. *)
Definition queueable (now : Tick) : Packet * Tick → Prop :=
  λ '(p, when), sendable p ∧ now ≤ when < MaxTick.
Definition sane : Prop := ∀ now p (e : E) ok back e',
  now + 1 < MaxTick → recvTiming now p e = (ok, back, e') → Forall (queueable now) back.

(** Such a peer that besides queues nothing when it refuses, and otherwise at most
    one packet. *)
Definition polite : Prop := ∀ now p (e : E) ok back e',
  now + 1 < MaxTick → recvTiming now p e = (ok, back, e') →
  Forall (queueable now) back ∧ (length back ≤ 1)%nat ∧ (ok = false → back = []).
Lemma polite_sane : polite → sane.
Proof. intros Hp now p e ok back e' Hn He. by destruct (Hp _ _ _ _ _ _ Hn He). Qed.

Lemma schedule_all_mid w w' S D back :
  Mid w S D → waitingOnRetry (queue w) = false → Forall (queueable (curTick w)) back →
  schedule_all back w = Ok (tt, w') →
  Mid w' (S ++ (fst <$> back)) D ∧ waitingOnRetry (queue w') = false ∧ curTick w' = curTick w ∧
  forceOrder (queue w') = forceOrder (queue w) ∧
  ∀ T, T ≤ curTick w → Forall (λ x, T ≤ tick x) (tl w) → Forall (λ x, T ≤ tick x) (tl w').
Proof.
  revert w S. induction back as [|[p when] back IH]; intros w S Hm Hwq Hb Hr; cbn [schedule_all] in Hr.
  { injection Hr as <-. by rewrite app_nil_r. }
  apply Forall_cons in Hb as [[Hp Hw] Hb].
  apply M_bind_ok in Hr as ([] & w1 & H1 & Hr).
  destruct (schedSendTiming_roomy _ _ _ _ H1) as [Hroom _].
  destruct (sched_mid w S D p when Hm ltac:(by unfold held; rewrite Hwq) Hroom Hp Hw)
    as (l1 & l2 & Hl & _ & Hr1 & Hm1). cbn zeta in *. rewrite H1 in Hr1. injection Hr1 as ->.
  destruct (inserted_flags (curTick w) (mkDeferred when p) l1 l2 (queue w)) as (Hfo & Hwa & _).
  destruct (IH _ _ Hm1 ltac:(cbn; by rewrite Hwa) Hb Hr) as (Hm' & Hw' & Hc & Hf & HT).
  cbn [fmap list_fmap fst]. rewrite cons_middle, app_assoc. split; [done|]. split; [done|]. split; [done|].
  split; [by rewrite Hf; cbn; rewrite Hfo|].
  intros T HTn HTl. apply HT; [done|]. cbn [queue set_field]. rewrite inserted_list. rewrite Hl in HTl.
  rewrite Forall_app in *. destruct HTl. split; [done|]. constructor; [cbn; lia|done].
Qed.

Lemma schedule_all_total w S D back :
  Mid w S D → waitingOnRetry (queue w) = false → roomy w → (length back ≤ 1)%nat →
  Forall (queueable (curTick w)) back → ∃ w', schedule_all back w = Ok (tt, w').
Proof.
  intros Hm Hwq Hroom Hlen Hb. destruct back as [|[p when] [|]]; cbn in Hlen; [by eexists| |lia].
  apply Forall_cons in Hb as [[Hp Hw] _].
  destruct (sched_mid w S D p when Hm ltac:(by unfold held; rewrite Hwq) Hroom Hp Hw)
    as (l1 & l2 & _ & _ & Hr & _). cbn zeta in *.
  eexists. cbn [schedule_all]. by rewrite (bind_run _ _ _ _ _ Hr).
Qed.

Lemma mid_ext w w' S D :
  tl w' = tl w → sendEvent (queue w') = sendEvent (queue w) →
  forceOrder (queue w') = forceOrder (queue w) →
  curTick w' = curTick w → Mid w S D → Mid w' S D.
Proof.
  intros Hl He Hf Hn [[] ? ? ? ?]. split; rewrite ?Hl, ?He, ?Hf, ?Hn; try done.
  split; rewrite ?Hl, ?He, ?Hf, ?Hn; done.
Qed.

(** The end of a successful transmission. *)
Lemma rearm_inv w S D :
  Mid w S D → waitingOnRetry (queue w) = false →
  ∃ w', schedSendEvent (deferredPacketReadyTime (queue w)) w = Ok (tt, w') ∧ Inv w' S D ∧
    waitingOnRetry (queue w') = false.
Proof.
  intros Hm Hwq. pose proof Hm as [[[Hn Hn1] Hls Htk] Hev Hso Hpe Hor].
  unfold deferredPacketReadyTime. destruct (tl w) as [|dp l] eqn:Hl.
  - assert (sendEvent (queue w) = None) as Hnone.
    { destruct (sendEvent (queue w)) as [t|] eqn:He; [|done].
      by destruct (Hev t eq_refl) as (_ & ? & ? & ? & _). }
    unfold schedSendEvent, get_state, mbind, M_bind. rewrite Hwq.
    change (MaxTick =? MaxTick) with true. cbn [negb]. unfold when_, upd, modify.
    destruct (_ && _); (eexists; split; [done|]; split; [|done]); split;
      first [eapply (mid_ext w); done | unfold held; cbn; rewrite ?Hl, ?Hwq; done].
  - inversion Htk as [|?? Hdp _]; subst. rewrite schedSendEvent_run by done.
    eexists. split; [done|]. split; [|done].
    destruct (wake_bounds (curTick w) (tick dp) (sendEvent (queue w))) as [Hw1 Hw2].
    { intros t Het. destruct (Hev t Het) as (? & ? & ? & [= <- _] & ?). done. }
    split; [split|..]; unfold held;
      cbn [queue curTick set_field sendEvent transmitList forceOrder waitingOnRetry];
      rewrite ?Hl, ?Hwq; try done.
    + split; cbn; rewrite ?Hl; done.
    + intros t [= <-]. eauto.
    + right. by eexists.
Qed.

(** ** One transmission *)

(** The packet at the head, the peer's answer and what it queues meanwhile. *)
Definition answer (w : W) : option (Packet * bool * list Packet) :=
  match tl w with
  | [] => None
  | dp :: _ => let '(ok, back, _) := recvTiming (curTick w) (pkt dp) (peer w) in
               Some (pkt dp, ok, fst <$> back)
  end.

(** The histories after the transmission. *)
Definition sched_after (w : W) (S : list Packet) : list Packet :=
  match answer w with Some (_, _, back) => S ++ back | None => S end.
Definition deliv_after (w : W) (D : list Packet) : list Packet :=
  match answer w with Some (p, true, _) => D ++ [p] | _ => D end.

Context (Hpeer : sane).

(** Up to the peer's answer. *)
Lemma sendDeferred_run w dp l ok back e :
  waitingOnRetry (queue w) = false → tl w = dp :: l → tick dp ≤ curTick w →
  recvTiming (curTick w) (pkt dp) (peer w) = (ok, back, e) →
  sendDeferredPacket w =
  (schedule_all back;; upd (λ q, q <| waitingOnRetry := negb ok |>);;
   if ok then w ← get_state; schedSendEvent (deferredPacketReadyTime (queue w))
   else upd (λ q, q <| transmitList ::= cons dp |>))
    (w <| queue ::= λ q, q <| transmitList := l |> |> <| peer := e |>).
Proof.
  intros Hwq Hl Hrdy Hans. destruct w as [[tr ev dis fo wt ds dd] now e0]. cbn in *. subst tr wt.
  unfold sendDeferredPacket, deferredPacketReady, get_state, upd, modify, assert_that,
    of_option, mbind, M_bind. cbn [negb head mret M_ret waitingOnRetry queue transmitList curTick].
  destruct (Z.leb_spec (tick dp) now); [|lia]. cbn [mret M_ret].
  unfold sendTiming, get_state, modify, mbind, M_bind. cbn [curTick peer queue set_field]. cbn.
  rewrite Hans. unfold set_field. cbn. by destruct (schedule_all back _) as [[[] w']|].
Qed.

(** The head packet is ready, and the send event, if it is still scheduled from
    before, not ahead of the packet after it. *)
Record due (w : W) (dp : DeferredPacket) (l : list DeferredPacket) : Prop := {
  du_wait : waitingOnRetry (queue w) = false;
  du_head : tl w = dp :: l;
  du_ready : tick dp ≤ curTick w;
  du_left : ∀ t, sendEvent (queue w) = Some t → ∃ dp2 l2, l = dp2 :: l2 ∧ tick dp2 ≤ t;
}.

(** The state while the peer looks at the head packet. *)
Lemma popped_mid w S D dp l e :
  Mid w S D → due w dp l →
  Mid (w <| queue ::= λ q, q <| transmitList := l |> |> <| peer := e |>) S (D ++ [pkt dp]).
Proof.
  intros [[Hn Hls Htk] Hev Hso Hpe Hor] [Hwq Hl Hrdy Hleft]. rewrite Hl in *.
  apply Forall_cons in Hls as [_ Hls]. apply Forall_cons in Htk as [_ Htk].
  split; [by split|..]; cbn [queue curTick set_field transmitList sendEvent forceOrder].
  - intros t Het. destruct (Hev t Het). split; [done|]. destruct (Hleft t Het) as (? & ? & ? & ?). eauto.
  - intros Hf. specialize (Hso Hf). by inversion Hso.
  - by rewrite <- app_assoc.
  - intros Hf k. rewrite <- app_assoc. by apply Hor.
Qed.

(** The state after a rejection, in which the packet is put back. *)
Lemma rejected_inv w S D dp :
  Mid w S (D ++ [pkt dp]) → sendable (pkt dp) → 0 ≤ tick dp ≤ curTick w →
  (forceOrder (queue w) = false → Forall (λ x, tick dp ≤ tick x) (tl w)) →
  Inv (w <| queue ::= λ q, q <| waitingOnRetry := true |> |>
         <| queue ::= λ q, q <| transmitList ::= cons dp |> |>) S D.
Proof.
  intros [[Hn Hls Htk] Hev Hso Hpe Hor] Hs Hrdy Hmin.
  split; [split; [split|..]|..]; unfold held;
    cbn [queue curTick set_field transmitList sendEvent forceOrder waitingOnRetry]; try done.
  - by constructor.
  - constructor; [lia|done].
  - intros t Het. destruct (Hev t Het). split; [done|]. do 2 eexists. split; [done|]. lia.
  - intros Hf. constructor; [by apply Hso|by apply Hmin].
  - by rewrite <- app_assoc in Hpe.
  - intros Hf k. rewrite <- (Hor Hf), <- app_assoc. done.
  - intros _. do 2 eexists. split; [done|]. lia.
  - intros _ t Het. destruct (Hev t Het) as (_ & dp2 & l2 & -> & ?). eauto.
  - by left.
Qed.

Lemma sorted_min w S D dp l : Mid w S D → tl w = dp :: l → forceOrder (queue w) = false →
  Forall (λ x, tick dp ≤ tick x) l.
Proof. intros Hm Hl Hf. pose proof (md_sorted _ _ _ Hm Hf) as Hs. rewrite Hl in Hs. by inversion Hs. Qed.

(** Nothing is left of the send event while a retry is awaited. *)
Definition calm (w : W) : Prop := waitingOnRetry (queue w) = true → sendEvent (queue w) = None.

Lemma queue_send_inv w w' S D dp l :
  Mid w S D → due w dp l → sendDeferredPacket w = Ok (tt, w') →
  Inv w' (sched_after w S) (deliv_after w D) ∧ (polite → sendEvent (queue w) = None → calm w').
Proof.
  intros Hm Hd Hrun. pose proof Hd as [Hwq Hl Hrdy _]. pose proof Hm as [[[_ Hn] _ _] _ _ _ _].
  unfold sched_after, deliv_after, answer. rewrite Hl.
  destruct (recvTiming (curTick w) (pkt dp) (peer w)) as [[ok back] e] eqn:Hans.
  rewrite (sendDeferred_run w dp l ok back e) in Hrun by done.
  apply M_bind_ok in Hrun as ([] & w2 & Hr2 & Hrun).
  destruct (schedule_all_mid _ w2 S (D ++ [pkt dp]) back (popped_mid w S D dp l e Hm Hd))
    as (Hm2 & Hw2 & Hc2 & Hf2 & Hmin); [done|by apply (Hpeer _ _ _ _ _ _ Hn Hans)|done|].
  destruct ok.
  - set (w3 := w2 <| queue ::= λ q, q <| waitingOnRetry := false |> |>).
    assert (Mid w3 (S ++ (fst <$> back)) (D ++ [pkt dp])) as Hm3 by by eapply (mid_ext w2).
    destruct (rearm_inv w3 _ _ Hm3 eq_refl) as (w4 & Hr4 & Hi4 & Hw4).
    assert (Ok (tt, w4) = Ok (tt, w')) as [= <-] by (rewrite <- Hr4; exact Hrun). split; [done|]. intros _ _ Hwt. congruence.
  - injection Hrun as <-. split.
    + pose proof (md_timed _ _ _ Hm) as [_ Hls Htk]. rewrite Hl in Hls, Htk.
      apply Forall_cons in Hls as [Hdp _]. apply Forall_cons in Htk as [Htk _].
      apply (rejected_inv w2); [done|done|rewrite Hc2; cbn; lia|].
      rewrite Hf2. intros Hf. apply Hmin; [done|]. by apply (sorted_min w S D).
    + intros Hpol Hnone _. destruct (Hpol _ _ _ _ _ _ Hn Hans) as (_ & _ & Hrej).
      rewrite (Hrej eq_refl) in Hr2. injection Hr2 as <-. done.
Qed.

Lemma queue_send_total w S D dp l :
  polite → Mid w S D → due w dp l → roomy w → ∃ w', sendDeferredPacket w = Ok (tt, w').
Proof.
  intros Hpol Hm Hd Hroom. pose proof Hd as [Hwq Hl Hrdy _]. pose proof Hm as [[[_ Hn] _ _] _ _ _ _].
  destruct (recvTiming (curTick w) (pkt dp) (peer w)) as [[ok back] e] eqn:Hans.
  destruct (Hpol _ _ _ _ _ _ Hn Hans) as (Hback & Hlen & _).
  rewrite (sendDeferred_run w dp l ok back e) by done.
  pose proof (popped_mid w S D dp l e Hm Hd) as Hm1.
  destruct (schedule_all_total _ S (D ++ [pkt dp]) back Hm1) as (w2 & Hr2); [done| |done..|].
  { unfold roomy, size in *. cbn in *. rewrite Hl in Hroom. destruct Hroom; [by left|right]. cbn in *. lia. }
  destruct (schedule_all_mid _ w2 S (D ++ [pkt dp]) back Hm1 Hwq Hback Hr2) as (Hm2 & Hw2 & _).
  rewrite (bind_run _ _ _ _ _ Hr2). destruct ok; [|by eexists].
  destruct (rearm_inv (w2 <| queue ::= λ q, q <| waitingOnRetry := false |> |>) _ _
              ltac:(by eapply (mid_ext w2)) eq_refl) as (w4 & Hr4 & _).
  by exists w4.
Qed.

(** ** Runs *)

Definition enabled (a : Action) (w : W) : Prop :=
  match a with
  | Sched p when => sendable p ∧ curTick w ≤ when < MaxTick
  | Fire => ∃ t, sendEvent (queue w) = Some t ∧ t + 1 < MaxTick
  | Retry => waitingOnRetry (queue w) = true
  | Advance now => curTick w ≤ now ∧ now + 1 < MaxTick ∧
      (∀ t, sendEvent (queue w) = Some t → now ≤ t)
  end.

(** The histories after an action. *)
Definition at_fire (w : W) : W :=
  match sendEvent (queue w) with Some t => w <| curTick := t |> | None => w end.
Definition history (a : Action) (w : W) (S D : list Packet) : list Packet * list Packet :=
  match a with
  | Sched p _ => (S ++ [p], D)
  | Fire => (sched_after (at_fire w) S, deliv_after (at_fire w) D)
  | Retry => (sched_after w S, deliv_after w D)
  | Advance _ => (S, D)
  end.

(** The states in which the event and the retry send. *)
Definition fired (t : Tick) (w : W) : W :=
  w <| curTick := t |> <| queue ::= λ q, q <| sendEvent := None |> |>.
Definition retried (w : W) : W := w <| queue ::= λ q, q <| waitingOnRetry := false |> |>.

Lemma exec_fire w t : sendEvent (queue w) = Some t →
  exec Fire w = if waitingOnRetry (queue w) then Abort AssertFailed else sendDeferredPacket (fired t w).
Proof.
  intros Het. unfold exec, processSendEvent, get_state, of_option, assert_that, modify, mbind, M_bind.
  rewrite Het. cbn [mret M_ret queue set_field waitingOnRetry]. by destruct (waitingOnRetry (queue w)).
Qed.
Lemma exec_retry w : waitingOnRetry (queue w) = true → exec Retry w = sendDeferredPacket (retried w).
Proof.
  intros Hwq. unfold exec, retry, get_state, assert_that, upd, modify, mbind, M_bind. by rewrite Hwq.
Qed.

Lemma fired_due w S D t :
  Inv w S D → sendEvent (queue w) = Some t → t + 1 < MaxTick → waitingOnRetry (queue w) = false →
  Mid (fired t w) S D ∧ ∃ dp l, due (fired t w) dp l.
Proof.
  intros [[[Hn Hls Htk] Hev Hso Hpe Hor] _ _ _] Het Ht Hwq.
  destruct (Hev t Het) as (Hle & dp & l & Hl & Hdp).
  split; [split; [split|..]; cbn; try done; lia|]. exists dp, l. by split.
Qed.
Lemma retried_due w S D :
  Inv w S D → waitingOnRetry (queue w) = true → Mid (retried w) S D ∧ ∃ dp l, due (retried w) dp l.
Proof.
  intros [Hm Hwt Hlf _] Hwq. split; [by eapply (mid_ext w)|].
  destruct (Hwt Hwq) as (dp & l & Hl & Hdp). exists dp, l. split; [done..|].
  intros t Het. destruct (Hlf Hwq t Het) as (? & dp2 & l2 & Heq & ?).
  rewrite Hl in Heq. injection Heq as <- ->. eauto.
Qed.

Lemma advance_inv w S D now : Inv w S D → enabled (Advance now) w →
  Inv (w <| curTick := now |>) S D.
Proof.
  intros [[[Hn Hls Htk] Hev' Hso Hpe Hor] Hwt Hlf Hwk] (Hle & Hmax & Hev).
  split; [split; [split|..]|..]; cbn; try done; [lia| |].
  - intros t Het. destruct (Hev' t Het) as (_ & ?). split; [by apply Hev|done].
  - intros Hwq. destruct (Hwt Hwq) as (dp & l & ? & ?). exists dp, l. split; [done|]. cbn. lia.
Qed.

Lemma exec_inv a w w' S D : Inv w S D → enabled a w → exec a w = Ok (tt, w') →
  Inv w' (history a w S D).1 (history a w S D).2 ∧ (polite → calm w → calm w').
Proof.
  intros Hi Hen Hex. destruct a as [p when| | |now]; cbn [enabled history fst snd] in *.
  - destruct Hen as (Hp & Hw). destruct (schedSendTiming_roomy _ _ _ _ Hex) as [Hroom _].
    destruct (sched_inv w S D p when Hi Hroom Hp Hw) as (w1 & Hr & Hi' & Hc).
    cbn [exec] in Hex. rewrite Hex in Hr. injection Hr as <-. split; [done|].
    intros _ Hca Hwq. destruct (Hc Hwq) as [? ->]. by apply Hca.
  - destruct Hen as (t & Het & Ht). rewrite (exec_fire w t Het) in Hex. unfold at_fire. rewrite Het.
    destruct (waitingOnRetry (queue w)) eqn:Hwq; [done|].
    destruct (fired_due w S D t Hi Het Ht Hwq) as (Hm & dp & l & Hd).
    destruct (queue_send_inv _ w' S D dp l Hm Hd Hex) as [Hi' Hc]. split; [exact Hi'|].
    intros Hpol _. by apply Hc.
  - rewrite (exec_retry w Hen) in Hex. destruct (retried_due w S D Hi Hen) as (Hm & dp & l & Hd).
    destruct (queue_send_inv _ w' S D dp l Hm Hd Hex) as [Hi' Hc]. split; [exact Hi'|].
    intros Hpol Hca. apply (Hc Hpol). by apply Hca.
  - injection Hex as <-. split; [by apply advance_inv|done].
Qed.

Inductive reachable : W → list Packet → list Packet → Prop :=
  | reach_init force disable e : reachable (mkWorld (ctor force disable) 0 e) [] []
  | reach_step w S D a w' :
      reachable w S D → enabled a w → exec a w = Ok (tt, w') →
      reachable w' (history a w S D).1 (history a w S D).2.

Lemma queue_reachable_inv w S D : reachable w S D → Inv w S D ∧ (polite → calm w).
Proof.
  induction 1 as [force dis e|w S D a w' Hr [IH IHc] Hen Hex].
  - split; [|done]. split; [split; [split|..]|..]; cbn; try done; constructor.
  - destruct (exec_inv a w w' S D IH Hen Hex) as [? Hc]. split; [done|]. auto.
Qed.

(** With a polite peer no assertion of the queue fires: every enabled action of a
    reachable state with room in the list completes. *)
Theorem queue_never_aborts w S D a :
  polite → reachable w S D → enabled a w → roomy w → ∃ w', exec a w = Ok (tt, w').
Proof.
  intros Hpol Hr Hen Hroom. destruct (queue_reachable_inv w S D Hr) as [Hi Hc].
  destruct a as [p when| | |now]; cbn [enabled] in *; [| | |by eexists].
  - destruct Hen as [Hp Hw]. destruct (sched_inv w S D p when Hi Hroom Hp Hw) as (w' & ? & _). eauto.
  - destruct Hen as (t & Het & Ht).
    assert (waitingOnRetry (queue w) = false) as Hwq.
    { destruct (waitingOnRetry (queue w)) eqn:Hwq; [|done]. by rewrite (Hc Hpol Hwq) in Het. }
    rewrite (exec_fire w t Het), Hwq. destruct (fired_due w S D t Hi Het Ht Hwq) as (Hm & dp & l & Hd).
    by apply (queue_send_total _ S D dp l).
  - rewrite (exec_retry w Hen). destruct (retried_due w S D Hi Hen) as (Hm & dp & l & Hd).
    by apply (queue_send_total _ S D dp l).
Qed.

(** C13.  No packet is lost, duplicated or forgotten, whatever the peer answers and
    however many packets it queues before it answers, refusals included: in every
    state that a run reaches, the packets accepted by the peer and those waiting are
    the packets scheduled, and while one waits either a retry is owed or the send
    event is scheduled, not before the first packet is ready.  The packets scheduled,
    by the owner and by the peer, have an address and a tick between the present and
    [MaxTick]. *)
Theorem queue_conserves w S D :
  reachable w S D →
  D ++ (pkt <$> tl w) ≡ₚ S ∧
  (∀ dp l, tl w = dp :: l →
     waitingOnRetry (queue w) = true ∨
     ∃ t, sendEvent (queue w) = Some t ∧ curTick w ≤ t ∧ tick dp ≤ t).
Proof.
  intros Hr. destruct (queue_reachable_inv w S D Hr) as [[[Ht Hev Hso Hpe Hor] Hwt _ Hwk] _]. split; [done|].
  intros dp l Hl. destruct (Hwk ltac:(by rewrite Hl)) as [?|[t Het]]; [by left|]. right. exists t.
  destruct (Hev t Het) as (? & ? & ? & Heq & ?). rewrite Hl in Heq. injection Heq as <- <-. done.
Qed.

(** Order: with [forceOrder] the packets for one address leave in
    the order in which they were scheduled, whatever their ticks; without it the
    waiting packets are sorted by tick. *)
Theorem queue_orders w S D :
  reachable w S D →
  if forceOrder (queue w)
  then ∀ k, filter (λ p, key p = k) (D ++ (pkt <$> tl w)) = filter (λ p, key p = k) S
  else StronglySorted tick_le (tl w).
Proof.
  intros Hr. destruct (queue_reachable_inv w S D Hr) as [[[Ht Hev Hso Hpe Hor] Hwt _ Hwk] _].
  destruct (forceOrder (queue w)); auto.
Qed.
End Queue.

(** ** Runs of two peers *)

#[local] Instance accepting : Peer unit := λ _ _ e, (true, [], e).
Lemma accepting_polite : polite.
Proof. intros now p e ok back e' _ [= <- <- <-]. split; [constructor|]. split; [cbn; lia|done]. Qed.

Definition read_at (a : Z) : Packet :=
  match Packet_ctor (Request.phys a 64 0 1) ReadReq with
  | Ok p => p | Abort _ => mkPacket 0 ReadReq (Request.phys 0 64 0 1) [] 0 false 0 [] 0 0 0 []
  end.

(** Two reads of one address, the second ready first. *)
Definition demo : World unit :=
  mkWorld (mk [mkDeferred 50 (read_at 64); mkDeferred 20 (read_at 64)] (Some 50) false true false Running 0)
    0 tt.

Lemma sched_enabled (w : World unit) a when :
  0 ≤ curTick w ≤ when → when < MaxTick →
  enabled (Sched (read_at a) when) w.
Proof. intros ? ?. split; [by split|]. lia. Qed.

Lemma demo_reachable : reachable demo [read_at 64; read_at 64] [].
Proof.
  eapply (reach_step (mkWorld (mk [mkDeferred 50 (read_at 64)] (Some 50) false true false Running 0) 0 tt)
            [read_at 64] [] (Sched (read_at 64) 20)).
  - eapply (reach_step (mkWorld (ctor true false) 0 tt) [] [] (Sched (read_at 64) 50)).
    + constructor.
    + apply sched_enabled; cbn; unfold MaxTick; lia.
    + by vm_compute.
  - apply sched_enabled; cbn; unfold MaxTick; lia.
  - by vm_compute.
Qed.

Lemma demo_fire : enabled Fire demo.
Proof. exists 50. by vm_compute. Qed.

Lemma queue_never_aborts_witness : ∃ w', exec Fire demo = Ok (tt, w').
Proof.
  apply (queue_never_aborts (polite_sane accepting_polite) demo _ [] Fire accepting_polite
           demo_reachable demo_fire).
  right. cbn. lia.
Defined.

Lemma queue_orders_witness :
  filter (λ p, key p = (64, false)) ([] ++ (pkt <$> transmitList (queue demo)))
  = filter (λ p, key p = (64, false)) [read_at 64; read_at 64].
Proof. apply (queue_orders (polite_sane accepting_polite) demo _ [] demo_reachable (64, false)). Defined.

(** A peer that queues two reads of its own each time, and refuses the first packet
    it sees. *)
#[local] Instance rude : Peer bool := λ now _ seen, (seen, [(read_at 128, now + 1); (read_at 192, now)], true).
Lemma rude_sane : sane.
Proof. intros now p e ok back e' Hn [= <- <- <-]. repeat constructor; cbn; try done; lia. Qed.

Definition run_all (l : list Action) (w : World bool) : res (unit * World bool) :=
  foldl (λ r a, match r with Ok (_, w) => exec a w | Abort e => Abort e end) (Ok (tt, w)) l.
Definition start : World bool := mkWorld (ctor false false) 0 false.

(** The packet refused is sent again by the retry; the reads queued meanwhile wait. *)
Definition pestered : World bool :=
  Eval vm_compute in
    match run_all [Sched (read_at 64) 5; Fire; Retry] start with Ok (_, w) => w | _ => start end.
Lemma pestered_reachable :
  reachable pestered [read_at 64; read_at 128; read_at 192; read_at 128; read_at 192] [read_at 64].
Proof.
  pose proof (reach_init false false false) as H.
  eapply (reach_step _ _ _ (Sched (read_at 64) 5)) in H; [|by split|by vm_compute].
  eapply (reach_step _ _ _ Fire) in H; [|by exists 5|by vm_compute].
  eapply (reach_step _ _ _ Retry) in H; [exact H|done|by vm_compute].
Qed.

Lemma queue_conserves_witness :
  [read_at 64] ++ (pkt <$> transmitList (queue pestered))
  ≡ₚ [read_at 64; read_at 128; read_at 192; read_at 128; read_at 192].
Proof. apply (queue_conserves rude_sane pestered _ _ pestered_reachable). Defined.

(** Politeness is what keeps the queue from aborting: the packets queued during the
    refusal leave the send event scheduled, and if it fires before the retry comes the
    assertion of [processSendEvent] fails. *)
Example refusal_with_queueing_aborts :
  run_all [Sched (read_at 64) 5; Fire; Fire] start = Abort AssertFailed.
Proof. by vm_compute. Qed.
End PacketQueue.
