(* ===== verification/AbstractMem.v ===== *)
(** * Abstract memories (src/gem5/src/mem/abstract_mem.cc, abstract_mem.hh)

    The contents of a memory and the load-locked reservations it tracks: reads,
    writes, swaps, store-conditionals and functional accesses.  The host memory
    behind [pmemAddr] is a byte list whose first byte is the start of the range;
    packet buffers never alias it.  Telling another context that it lost its
    reservation ([globalClearExclusive]) is recorded in a list. *)

From S2P Require Import Prelude Bitfield AddrRanges MemCmd Packet.
#[local] Open Scope Z_scope.

(** [Packet::getAddrRange] and [Packet::setData] from host memory. *)
Definition getAddrRange (p : Packet) : res AddrRange.t :=
  a ← getAddr p; sz ← getSize p; mret (AddrRange.RangeSize a sz).
Definition setData (p : Packet) (src : list Z) (off : nat) : res Packet :=
  require (has_buffer p && negb (isMaskedWrite p))
    (sz ← getSize p;
     d ← memcpy (data p) 0 src off (Z.to_nat sz);
     mret (p <| data := d |>)).

Definition InvalidContextID : Z := -1.

Module AbstractMemory.

Record LockedAddr := mkLocked { laddr : Z; contextId : Z }.

(** [LockedAddr::mask]: reservations cover 16 bytes. *)
Definition mask (paddr : Z) : Z := Z.land paddr (not64 0xf).

Definition LockedAddr_ctor (r : Request.t) : res LockedAddr :=
  a ← Request.getPaddr r; c ← Request.getContextId r; mret (mkLocked (mask a) c).
Definition matchesContext (l : LockedAddr) (r : Request.t) : res bool :=
  if contextId l =? InvalidContextID then Abort AssertFailed
  else c ← Request.getContextId r; mret (contextId l =? c).

(** Statistics, by requestor. *)
Record MemStats := mkStats {
  bytesRead : gmap Z Z; bytesInstRead : gmap Z Z; bytesWritten : gmap Z Z;
  numReads : gmap Z Z; numWrites : gmap Z Z; numOther : gmap Z Z;
}.
#[export] Instance eta_MemStats : Eta MemStats := λ s,
  mkStats (bytesRead s) (bytesInstRead s) (bytesWritten s) (numReads s) (numWrites s) (numOther s).
Definition bump (k n : Z) (m : gmap Z Z) : gmap Z Z := <[k := default 0 (m !! k) + n]> m.

Record t := mk {
  range : AddrRange.t;
  pmem : option (list Z);              (* pmemAddr *)
  writeable : bool;
  collectStats : bool;
  lockedAddrList : list LockedAddr;
  stats : MemStats;
  backdoorInvalidations : nat;         (* calls of backdoor.invalidate *)
  cleared : list Z;                    (* contexts told globalClearExclusive *)
}.
#[export] Instance eta_t : Eta t := λ m,
  mk (range m) (pmem m) (writeable m) (collectStats m) (lockedAddrList m) (stats m)
    (backdoorInvalidations m) (cleared m).

(** The offset of [toHostAddr] in the host memory. *)
Definition toHostAddr (m : t) (a : Z) : nat := Z.to_nat (u64 (a - AddrRange._start (range m))).

Definition addLockedAddr (a : LockedAddr) (m : t) : t :=
  m <| backdoorInvalidations ::= S |> <| lockedAddrList ::= λ l, l ++ [a] |>.

(** *** Load-locked *)

(** The search of [trackLoadLocked]: the list with the context's record moved to
    [paddr], if it has one. *)
Fixpoint relock (r : Request.t) (paddr : Z) (l : list LockedAddr) : res (option (list LockedAddr)) :=
  match l with
  | [] => Ok None
  | i :: l =>
      b ← matchesContext i r;
      if (b : bool) then Ok (Some (mkLocked paddr (contextId i) :: l))
      else o ← relock r paddr l; Ok (option_map (cons i) o)
  end.

Definition trackLoadLocked (p : Packet) (m : t) : res t :=
  a ← Request.getPaddr (req p);
  let paddr := mask a in
  o ← relock (req p) paddr (lockedAddrList m);
  match o with
  | Some l => Ok (m <| lockedAddrList := l |>)
  | None =>
      la ← LockedAddr_ctor (req p);
      Ok (m <| lockedAddrList ::= cons la |> <| backdoorInvalidations ::= S |>)
  end.

(** *** Stores *)

(** The search for the requesting context's reservation. *)
Fixpoint find_reservation (r : Request.t) (paddr : Z) (l : list LockedAddr) : res bool :=
  match l with
  | [] => Ok false
  | i :: l =>
      if laddr i =? paddr then
        b ← matchesContext i r;
        if (b : bool) then Ok true else find_reservation r paddr l
      else find_reservation r paddr l
  end.

(** The removal of all records for [paddr]: what is left, and the owners other
    than the requestor. *)
Fixpoint erase (r : Request.t) (paddr : Z) (l : list LockedAddr) : res (list LockedAddr * list Z) :=
  match l with
  | [] => Ok ([], [])
  | i :: l =>
      if laddr i =? paddr then
        if contextId i =? InvalidContextID then Abort AssertFailed
        else
          let requestor_cid := default InvalidContextID (Request.contextId r) in
          '(l, owners) ← erase r paddr l;
          Ok (l, if contextId i =? requestor_cid then owners else contextId i :: owners)
      else '(l, owners) ← erase r paddr l; Ok (i :: l, owners)
  end.

Definition set_extra (x : Z) (p : Packet) : Packet := p <| req ::= Request.setExtraData x |>.

Definition checkLockedAddrList (p : Packet) (m : t) : res (bool * Packet * t) :=
  a ← Request.getPaddr (req p);
  let paddr := mask a in
  '(allowStore, p) ←
    (if isLLSC (cmd p) then
       allowStore ← find_reservation (req p) paddr (lockedAddrList m);
       mret (allowStore, set_extra (if allowStore : bool then 1 else 0) p)
     else mret (true, p));
  if (allowStore : bool) then
    '(l, owners) ← erase (req p) paddr (lockedAddrList m);
    mret (true, p, m <| lockedAddrList := l |> <| cleared ::= λ c, c ++ owners |>)
  else mret (false, p, m).

Definition writeOK (p : Packet) (m : t) : res (bool * Packet * t) :=
  if negb (writeable m) then mret (false, p, m)
  else match lockedAddrList m with
  | [] => mret (negb (isLLSC (cmd p)), if isLLSC (cmd p) then set_extra 0 p else p, m)
  | _ => checkLockedAddrList p m
  end.

(** *** Accesses *)

(** [pkt->writeData(host_addr)]. *)
Definition store (p : Packet) (mem : list Z) (off : nat) : res (list Z) :=
  r ← writeData p (drop off mem);
  Ok (take off mem ++ r).

(** Little-endian bytes, as [memcmp] compares them. *)
Fixpoint le_bytes (n : nat) (v : Z) : list Z :=
  match n with O => [] | S n => v mod 256 :: le_bytes n (v / 256) end.

(** [memcmp(&v, host_addr, n) == 0]. *)
Definition host_equals (mem : list Z) (off n : nat) (v : Z) : res bool :=
  if decide (off + n ≤ length mem)%nat
  then Ok (bool_decide (take n (drop off mem) = le_bytes n v))
  else Abort UndefinedBehavior.

Section Access.
(** The effect of the request's atomic operation on the bytes it addresses. *)
Context (atomicOp : Packet → list Z → list Z).

Definition swap (p : Packet) (m : t) : res (Packet * t) :=
  a ← getAddr p; sz ← getSize p;
  let off := toHostAddr m a in let n := Z.to_nat sz in
  if Request.isAtomic (req p) then
    match pmem m with
    | Some mem =>
        p ← setData p mem off;
        mem ← memcpy mem off (atomicOp p (take n (drop off mem))) 0 n;
        mret (p, m <| pmem := Some mem |>)
    | None => mret (p, m)
    end
  else
    match pmem m with
    | None => Abort Panicked
    | Some mem =>
        overwrite_val ← writeData p (replicate n 0);
        p ← setData p mem off;
        overwrite_mem ←
          (if Request.isCondSwap (req p) then
             if sz =? 8 then x ← Request.getExtraData (req p); host_equals mem off 8 x
             else if sz =? 4 then x ← Request.getExtraData (req p); host_equals mem off 4 (u32 x)
             else Abort Panicked
           else Ok true);
        mem ← (if (overwrite_mem : bool) then memcpy mem off overwrite_val 0 n else Ok mem);
        if Request.isInstFetch (req p) then Abort AssertFailed
        else
          let id := Request.requestorId (req p) in
          mret (p, m <| pmem := Some mem |>
                     <| stats ::= λ s, if collectStats m then s <| numOther ::= bump id 1 |> else s |>)
    end.

Definition read (p : Packet) (m : t) : res (Packet * t) :=
  a ← getAddr p; sz ← getSize p;
  if isWrite (cmd p) then Abort AssertFailed
  else
    m ← (if isLLSC (cmd p) then
           if fromCache (cmd p) then Abort AssertFailed else trackLoadLocked p m
         else Ok m);
    p ← (match pmem m with Some mem => setData p mem (toHostAddr m a) | None => Ok p end);
    let id := Request.requestorId (req p) in
    mret (p, m <| stats ::= λ s,
      if collectStats m then
        let s := s <| numReads ::= bump id 1 |> <| bytesRead ::= bump id sz |> in
        if Request.isInstFetch (req p) then s <| bytesInstRead ::= bump id sz |> else s
      else s |>).

Definition write (p : Packet) (m : t) : res (Packet * t) :=
  a ← getAddr p; sz ← getSize p;
  '(ok, p, m) ← writeOK p m;
  if (ok : bool) then
    m ← (match pmem m with
         | Some mem => mem ← store p mem (toHostAddr m a); Ok (m <| pmem := Some mem |>)
         | None => Ok m
         end);
    if Request.isInstFetch (req p) then Abort AssertFailed
    else
      let id := Request.requestorId (req p) in
      mret (p, m <| stats ::= λ s,
        if collectStats m then s <| numWrites ::= bump id 1 |> <| bytesWritten ::= bump id sz |>
        else s |>)
  else mret (p, m).

Definition access (p : Packet) (m : t) : res (Packet * t) :=
  if cacheResponding p then mret (p, m)
  else if bool_decide (cmd p = CleanEvict) || bool_decide (cmd p = WritebackClean) then mret (p, m)
  else
    r ← getAddrRange p;
    b ← AddrRange.isSubset r (range m);
    if negb b then Abort AssertFailed
    else
      '(p, m) ←
        (if bool_decide (cmd p = SwapReq) then swap p m
         else if isRead (cmd p) then read p m
         else if isInvalidate (cmd p) || isClean (cmd p) then
           if isWrite (cmd p) then Abort AssertFailed else Ok (p, m)
         else if isWrite (cmd p) then write p m
         else Abort Panicked);
      p ← (if needsResponse (cmd p) then makeResponse p else Ok p);
      mret (p, m).

(** Print packets go to the host's output and leave the memory alone. *)
Definition functionalAccess (p : Packet) (m : t) : res (Packet * t) :=
  r ← getAddrRange p;
  b ← AddrRange.isSubset r (range m);
  if negb b then Abort AssertFailed
  else
    a ← getAddr p;
    if isRead (cmd p) then
      p ← (match pmem m with Some mem => setData p mem (toHostAddr m a) | None => Ok p end);
      p ← makeResponse p; mret (p, m)
    else if isWrite (cmd p) then
      m ← (match pmem m with
           | Some mem => mem ← store p mem (toHostAddr m a); Ok (m <| pmem := Some mem |>)
           | None => Ok m
           end);
      p ← makeResponse p; mret (p, m)
    else if isPrint (cmd p) then mret (p, m)
    else Abort Panicked.
End Access.

(** ** What an access leaves of the packet

    By these a requestor knows its packet again. *)

Definition ticket (p : Packet) : Z * bool * Z * list SenderState * Z :=
  (addr p, secure p, size p, senderState p, Request.requestorId (req p)).

#[local] Ltac same_packet :=
  repeat match goal with
  | H : (_ ≫= _) = Ok _ |- _ => apply res_bind_ok in H as (? & ? & H)
  | H : (let '(_, _) := ?x in _) = Ok _ |- _ => destruct x
  | H : (if ?b then _ else _) = Ok _ |- _ => destruct b eqn:?
  | H : (match ?o with Some _ => _ | None => _ end) = Ok _ |- _ => destruct o eqn:?
  | H : (match ?o with [] => _ | _ :: _ => _ end) = Ok _ |- _ => destruct o eqn:?
  | H : require ?b _ = Ok _ |- _ => unfold require in H
  | _ => progress inv_ok
  end.

Lemma setData_ticket p src off p' : setData p src off = Ok p' → ticket p' = ticket p ∧ cmd p' = cmd p.
Proof. unfold setData. intros H. by same_packet. Qed.
Lemma writeOK_ticket p m b p' m' : writeOK p m = Ok (b, p', m') → ticket p' = ticket p ∧ cmd p' = cmd p.
Proof.
  unfold writeOK, checkLockedAddrList. intros H. same_packet; simplify_eq; try done. by destruct (isLLSC (cmd p)).
Qed.
Lemma makeResponse_ticket p p' : makeResponse p = Ok p' → ticket p' = ticket p ∧ cmd p' = responseCommand (cmd p).
Proof. unfold makeResponse. intros H. by same_packet. Qed.

Lemma access_ticket op p m p' m' :
  access op p m = Ok (p', m') → cacheResponding p = false → needsResponse (cmd p) = true →
  ticket p' = ticket p ∧ cmd p' = responseCommand (cmd p).
Proof.
  unfold access. intros H Hc Hn. rewrite Hc in H.
  destruct (bool_decide (cmd p = CleanEvict) || bool_decide (cmd p = WritebackClean)) eqn:Hk.
  { apply orb_prop in Hk as [Hk%bool_decide_eq_true|Hk%bool_decide_eq_true]; by rewrite Hk in Hn. }
  apply res_bind_ok in H as (r & _ & H). apply res_bind_ok in H as (b & _ & H).
  destruct b; [|done]. cbn [negb] in H.
  apply res_bind_ok in H as ([p1 m1] & Hop & H). apply res_bind_ok in H as (p2 & Hm & H).
  injection H as <- <-.
  assert (ticket p1 = ticket p ∧ cmd p1 = cmd p) as [Ht Hcmd].
  { unfold swap, read, write in Hop. same_packet; simplify_eq; try done; eauto using setData_ticket, writeOK_ticket. }
  rewrite Hcmd, Hn in Hm. apply makeResponse_ticket in Hm as [-> ->]. by rewrite Ht, Hcmd.
Qed.

(** ** Reservations as a map from contexts to granules *)

Definition locks (l : list LockedAddr) : gmap Z Z :=
  list_to_map ((λ i, (contextId i, laddr i)) <$> l).
Definition monitor (m : t) : gmap Z Z := locks (lockedAddrList m).

(** Every context has at most one record. *)
Record wf_locks (l : list LockedAddr) : Prop := {
  wl_nodup : NoDup (contextId <$> l);
  wl_valid : Forall (λ i, contextId i ≠ InvalidContextID) l;
}.

Lemma locks_cons i l : locks (i :: l) = <[contextId i := laddr i]> (locks l).
Proof. done. Qed.

Lemma locks_lookup i l : wf_locks l → i ∈ l → locks l !! contextId i = Some (laddr i).
Proof.
  intros [Hnd _] Hi. apply elem_of_list_to_map_1; [by rewrite <- list_fmap_compose|].
  apply list_elem_of_fmap. eauto.
Qed.

Lemma locks_none c l : c ∉ contextId <$> l → locks l !! c = None.
Proof. intros Hc. apply not_elem_of_list_to_map_1. by rewrite <- list_fmap_compose. Qed.

Lemma wf_locks_cons i l :
  wf_locks (i :: l) → (contextId i ∉ contextId <$> l) ∧ contextId i ≠ InvalidContextID ∧ wf_locks l.
Proof. intros [Hnd Hv]. inversion Hnd; inversion Hv; subst. by split_and!. Qed.

Lemma matchesContext_run i r c : contextId i ≠ InvalidContextID → Request.contextId r = Some c →
  matchesContext i r = Ok (contextId i =? c).
Proof.
  intros Hi Hc. unfold matchesContext, Request.getContextId. rewrite Hc.
  by destruct (Z.eqb_spec (contextId i) InvalidContextID).
Qed.

Lemma relock_run r c g l : wf_locks l → Request.contextId r = Some c →
  match relock r g l with
  | Ok (Some l') => locks l' = <[c := g]> (locks l) ∧ contextId <$> l' = contextId <$> l
  | Ok None => c ∉ contextId <$> l
  | Abort _ => False
  end.
Proof.
  intros Hw Hc. induction l as [|i l IH]; cbn [relock]; [apply not_elem_of_nil|].
  apply wf_locks_cons in Hw as (Hni & Hv & Hw). rewrite (matchesContext_run i r c) by done.
  cbn [mbind res_bind]. destruct (Z.eqb_spec (contextId i) c) as [<-|Hne].
  - rewrite !locks_cons. cbn. by rewrite insert_insert_eq.
  - specialize (IH Hw). destruct (relock r g l) as [[l'|]|]; cbn [mbind res_bind option_map]; [| |done].
    + destruct IH as [IH1 IH2]. rewrite !locks_cons, !fmap_cons, IH1, IH2.
      by rewrite insert_insert_ne.
    + rewrite fmap_cons. by apply not_elem_of_cons.
Qed.

(** A load-locked gives its context a reservation on the granule
    of its address, in place of the one it had, and touches no other context's. *)
Theorem load_locked_reserves p m c a :
  wf_locks (lockedAddrList m) → c ≠ InvalidContextID →
  Request.contextId (req p) = Some c → Request.paddr (req p) = Some a →
  ∃ m', trackLoadLocked p m = Ok m' ∧ monitor m' = <[c := mask a]> (monitor m) ∧
    wf_locks (lockedAddrList m') ∧ pmem m' = pmem m.
Proof.
  intros Hw Hcv Hc Ha. unfold trackLoadLocked, Request.getPaddr. rewrite Ha. cbn [mbind res_bind].
  pose proof (relock_run (req p) c (mask a) (lockedAddrList m) Hw Hc) as Hr.
  destruct (relock _ _ _) as [[l'|]|]; [| |done]; cbn [mbind res_bind].
  - destruct Hr as [Hl Hctx]. eexists. split; [done|]. split; [done|]. split; [|done].
    destruct Hw as [Hnd Hv]. split; cbn; [by rewrite Hctx|].
    apply (Forall_fmap contextId (λ k, k ≠ InvalidContextID)). rewrite Hctx. by apply Forall_fmap.
  - unfold LockedAddr_ctor, Request.getPaddr, Request.getContextId. rewrite Ha, Hc. cbn [mbind res_bind].
    eexists. split; [done|]. split; [done|]. split; [|done]. destruct Hw as [Hnd Hv].
    by split; cbn; constructor.
Qed.

Lemma find_reservation_run r c g l : wf_locks l → Request.contextId r = Some c →
  find_reservation r g l = Ok (bool_decide (locks l !! c = Some g)).
Proof.
  intros Hw Hc. induction l as [|i l IH]; cbn [find_reservation]; [done|].
  apply wf_locks_cons in Hw as (Hni & Hv & Hw). rewrite locks_cons, (IH Hw).
  destruct (Z.eqb_spec (contextId i) c) as [<-|Hne].
  - rewrite lookup_insert_eq. rewrite (locks_none (contextId i) l) by done.
    destruct (Z.eqb_spec (laddr i) g) as [->|Hg].
    + rewrite (matchesContext_run i r (contextId i)) by done. cbn [mbind res_bind].
      by rewrite Z.eqb_refl, bool_decide_true.
    + rewrite !bool_decide_false; [done|congruence|done].
  - rewrite lookup_insert_ne by done. destruct (laddr i =? g); [|done].
    rewrite (matchesContext_run i r c) by done. cbn [mbind res_bind].
    by destruct (Z.eqb_spec (contextId i) c).
Qed.

Definition elsewhere (g : Z) (i : LockedAddr) : Prop := laddr i ≠ g.

Lemma erase_run r g l : wf_locks l →
  ∃ owners, erase r g l = Ok (filter (elsewhere g) l, owners) ∧
    ∀ o, o ∈ owners ↔ locks l !! o = Some g ∧ Request.contextId r ≠ Some o.
Proof.
  intros Hw. induction l as [|i l IH]; cbn [erase].
  { exists []. split; [done|]. intros o. rewrite elem_of_nil. by split; [|intros [? _]]. }
  apply wf_locks_cons in Hw as (Hni & Hv & Hw). destruct (IH Hw) as (owners & -> & Ho).
  rewrite locks_cons, filter_cons. unfold elsewhere at 1. destruct (Z.eqb_spec (laddr i) g) as [Hg|Hg].
  - destruct (Z.eqb_spec (contextId i) InvalidContextID); [done|]. cbn [mbind res_bind].
    rewrite decide_False by naive_solver. eexists. split; [done|]. intros o.
    assert (contextId i = default InvalidContextID (Request.contextId r) ↔
            Request.contextId r = Some (contextId i)) as Hd.
    { destruct (Request.contextId r); cbn; split; congruence. }
    destruct (Z.eqb_spec (contextId i) (default InvalidContextID (Request.contextId r))) as [He|He].
    all: rewrite ?elem_of_cons, Ho; destruct (Z.eq_dec o (contextId i)) as [->|Hne].
    all: rewrite ?lookup_insert_eq, ?lookup_insert_ne, ?locks_none by done; naive_solver.
  - cbn [mbind res_bind]. rewrite decide_True by done. exists owners. split; [done|]. intros o. rewrite Ho.
    destruct (Z.eq_dec o (contextId i)) as [->|Hne].
    + rewrite lookup_insert_eq, locks_none by done. naive_solver.
    + by rewrite lookup_insert_ne.
Qed.

Lemma locks_erase g l : wf_locks l →
  locks (filter (elsewhere g) l) = filter (λ kv, kv.2 ≠ g) (locks l) ∧
  wf_locks (filter (elsewhere g) l).
Proof.
  intros Hw. induction l as [|i l IH].
  { split; [|done]. change (locks []) with (∅ : gmap Z Z). by rewrite map_filter_empty. }
  apply wf_locks_cons in Hw as (Hni & Hv & Hw). destruct (IH Hw) as [IH1 [IH2 IH3]].
  rewrite locks_cons, filter_cons. destruct (decide (elsewhere g i)) as [Hg|Hg].
  - rewrite locks_cons, map_filter_insert_True, IH1 by done. split; [done|].
    split; [|by constructor]. rewrite fmap_cons. constructor; [|done].
    intros (j & Hj & Hin)%list_elem_of_fmap. apply list_elem_of_filter in Hin as [_ Hin].
    apply Hni. rewrite Hj. by apply list_elem_of_fmap_2.
  - assert (laddr i = g) as -> by (unfold elsewhere in Hg; lia).
    rewrite map_filter_insert_False by naive_solver. split; [|done].
    rewrite IH1. f_equal. symmetry. apply delete_id. by apply locks_none.
Qed.

Lemma check_run p m c a :
  wf_locks (lockedAddrList m) → Request.contextId (req p) = Some c → Request.paddr (req p) = Some a →
  let ok := negb (isLLSC (cmd p)) || bool_decide (monitor m !! c = Some (mask a)) in
  let p' := if isLLSC (cmd p) then set_extra (if ok then 1 else 0) p else p in
  ∃ owners,
    checkLockedAddrList p m
    = Ok (ok, p', if ok then m <| lockedAddrList ::= filter (elsewhere (mask a)) |>
                                <| cleared ::= λ l, l ++ owners |> else m) ∧
    ∀ o, o ∈ owners ↔ monitor m !! o = Some (mask a) ∧ o ≠ c.
Proof.
  intros Hw Hc Ha ok p'. unfold checkLockedAddrList, Request.getPaddr. rewrite Ha. cbn [mbind res_bind].
  assert (Request.contextId (req p') = Some c) as Hc'.
  { subst p'. by destruct (isLLSC (cmd p)). }
  destruct (erase_run (req p') (mask a) (lockedAddrList m) Hw) as (owners & He & Ho).
  exists owners. split.
  - assert ((if isLLSC (cmd p)
             then allowStore ← find_reservation (req p) (mask a) (lockedAddrList m);
                  mret (allowStore, set_extra (if allowStore : bool then 1 else 0) p)
             else mret (true, p)) = Ok (ok, p')) as ->.
    { subst ok p'. destruct (isLLSC (cmd p)); [|done].
      by rewrite (find_reservation_run (req p) c). }
    cbn [mbind res_bind]. destruct ok; [|done]. rewrite He. done.
  - intros o. rewrite Ho, Hc'. naive_solver.
Qed.

(** C35.  Reservations work as an exclusive monitor: an ordinary store
    succeeds and a store-conditional succeeds exactly when its context still has a
    reservation on the granule, and reports which; a store that succeeds removes
    every reservation on the granule and no other, and tells exactly the other
    contexts that lost theirs; one that fails changes nothing. *)
Theorem store_checks_reservation p m c a :
  wf_locks (lockedAddrList m) → writeable m = true →
  Request.contextId (req p) = Some c → Request.paddr (req p) = Some a →
  let ok := negb (isLLSC (cmd p)) || bool_decide (monitor m !! c = Some (mask a)) in
  ∃ p' m', writeOK p m = Ok (ok, p', m') ∧
    Request.extraData (req p') =
      (if isLLSC (cmd p) then Some (if ok then 1 else 0) else Request.extraData (req p)) ∧
    monitor m' = (if ok then filter (λ kv, kv.2 ≠ mask a) (monitor m) else monitor m) ∧
    wf_locks (lockedAddrList m') ∧ pmem m' = pmem m ∧
    ∃ owners, cleared m' = cleared m ++ owners ∧
      ∀ o, o ∈ owners ↔ ok = true ∧ monitor m !! o = Some (mask a) ∧ o ≠ c.
Proof.
  intros Hw Hwr Hc Ha ok. unfold writeOK. rewrite Hwr. cbn [negb].
  destruct (lockedAddrList m) as [|i l] eqn:Hl.
  - assert (monitor m = ∅) as Hmon by (unfold monitor; by rewrite Hl).
    assert (ok = negb (isLLSC (cmd p))) as -> by (subst ok; rewrite Hmon; by destruct (isLLSC (cmd p))).
    exists (if isLLSC (cmd p) then set_extra 0 p else p), m. rewrite Hl, Hmon, map_filter_empty.
    split; [done|]. split; [by destruct (isLLSC (cmd p))|]. split; [by destruct (isLLSC (cmd p))|].
    split; [done|]. split; [done|]. exists []. rewrite app_nil_r. split; [done|].
    intros o. rewrite elem_of_nil, lookup_empty. naive_solver.
  - rewrite <- Hl in *. destruct (check_run p m c a Hw Hc Ha) as (owners & Hr & Ho).
    fold ok in Hr. cbn zeta in Hr. destruct (locks_erase (mask a) (lockedAddrList m) Hw) as [Hmon Hwf].
    eexists _, _. split; [exact Hr|]. split; [by destruct (isLLSC (cmd p))|].
    destruct ok; cbn; [|split_and!; try done; exists []; rewrite app_nil_r; split; [done|];
                        intros o; rewrite elem_of_nil; naive_solver].
    split; [exact Hmon|]. split; [exact Hwf|]. split; [done|]. exists owners. split; [done|].
    intros o. rewrite Ho. naive_solver.
Qed.

(** ** Reading what was written *)

(** A memory with a plain range, backed by as many host bytes. *)
Record backed (m : t) (mem : list Z) : Prop := {
  bk_wf : AddrRange.wf (range m);
  bk_plain : AddrRange.interleaved (range m) = false;
  bk_order : AddrRange._start (range m) < AddrRange._end (range m);
  bk_mem : pmem m = Some mem;
  bk_len : Z.of_nat (length mem) = AddrRange._end (range m) - AddrRange._start (range m);
}.

(** A packet with a full buffer for [sz] bytes at [a], inside the range of [m]. *)
Record fits (m : t) (p : Packet) (a sz : Z) : Prop := {
  ft_addr : getAddr p = Ok a;
  ft_size : getSize p = Ok sz;
  ft_pos : 0 < sz;
  ft_range : AddrRange._start (range m) ≤ a ∧ a + sz ≤ AddrRange._end (range m);
  ft_buffer : has_buffer p = true;
  ft_unmasked : isMaskedWrite p = false;
  ft_data : Z.of_nat (length (data p)) = sz;
  ft_plain : cacheResponding p = false ∧ Request.isInstFetch (req p) = false;
}.

Definition offset (m : t) (a : Z) : nat := Z.to_nat (a - AddrRange._start (range m)).

(** A response that can be sent back. *)
Definition routed (p : Packet) : Prop := isExpressSnoop p = false ∧ getAddr p = Ok (addr p).
(** What plain accesses leave as it is. *)
Definition keeps (m m' : t) : Prop :=
  range m' = range m ∧ lockedAddrList m' = lockedAddrList m ∧ writeable m' = writeable m.

Lemma response_routed p a k :
  getAddr p = Ok a → routed (p <| cmd := k |> <| flags ::= λ f, Flags.clear f EXPRESS_SNOOP |>).
Proof.
  unfold routed, isExpressSnoop, getAddr, require, Flags.isSet, Flags.clear. cbn. intros Ha.
  destruct (Z.land (flags p) VALID_ADDR =? 0) eqn:Hv; [done|]. split.
  - by rewrite Z.land_ldiff.
  - assert (Z.land (Z.ldiff (flags p) EXPRESS_SNOOP) VALID_ADDR = Z.land (flags p) VALID_ADDR) as ->; [|by rewrite Hv].
    apply Z.bits_inj'. intros n _. rewrite !Z.land_spec, Z.ldiff_spec.
    assert (Z.testbit EXPRESS_SNOOP n && Z.testbit VALID_ADDR n = false) as Hn.
    { rewrite <- Z.land_spec. apply Z.bits_0. }
    by destruct (Z.testbit (flags p) n), (Z.testbit EXPRESS_SNOOP n), (Z.testbit VALID_ADDR n).
Qed.

Section ReadWrite.
Context (atomicOp : Packet → list Z → list Z) (m : t) (mem : list Z) (Hm : backed m mem).

Lemma fits_offset p a sz : fits m p a sz →
  toHostAddr m a = offset m a ∧ (offset m a + Z.to_nat sz ≤ length mem)%nat.
Proof.
  intros []. pose proof Hm as [[] _ _ _ Hlen]. unfold toHostAddr, offset, is_u64 in *.
  rewrite u64_id by (unfold is_u64; lia). split; [done|lia].
Qed.

Lemma fits_subset p a sz : fits m p a sz →
  (r ← getAddrRange p; AddrRange.isSubset r (range m)) = Ok true.
Proof.
  intros []. pose proof Hm as [[] Hpl Hord _ _]. unfold getAddrRange. rewrite ft_addr0, ft_size0.
  cbn [mbind res_bind]. unfold mret, res_ret. cbn [mbind res_bind]. unfold AddrRange.RangeSize, AddrRange.isSubset.
  change (AddrRange.interleaved (AddrRange.plain _ _)) with false. rewrite Hpl. cbn.
  unfold is_u64 in *. rewrite u64_id by (unfold is_u64; lia). bool_to_prop; cbn; (done || lia).
Qed.

Lemma setData_run p a sz : fits m p a sz →
  setData p mem (offset m a) = Ok (p <| data := take (Z.to_nat sz) (drop (offset m a) mem) |>).
Proof.
  intros Hf. destruct (fits_offset p a sz Hf) as [_ Ho]. destruct Hf. unfold setData, require, memcpy.
  rewrite ft_buffer0, ft_unmasked0, ft_size0. cbn [negb andb mbind res_bind].
  rewrite decide_True by lia. cbn [mbind res_bind]. rewrite take_0, (drop_ge (data p)) by lia. by rewrite app_nil_r.
Qed.

Lemma store_run p a sz : fits m p a sz →
  store p mem (offset m a)
  = Ok (take (offset m a) mem ++ data p ++ drop (offset m a + Z.to_nat sz) mem).
Proof.
  intros Hf. destruct (fits_offset p a sz Hf) as [_ Ho]. destruct Hf. unfold store, writeData, require, memcpy.
  rewrite ft_size0, ft_unmasked0, ft_buffer0. cbn [negb mbind res_bind].
  rewrite decide_True by (rewrite length_drop; lia). cbn [mbind res_bind].
  rewrite take_0, drop_0, drop_drop, (take_ge (data p)) by lia. done.
Qed.

Lemma access_write p a sz : fits m p a sz → cmd p = WriteReq → lockedAddrList m = [] → writeable m = true →
  ∃ p' m', access atomicOp p m = Ok (p', m') ∧ cmd p' = WriteResp ∧ routed p' ∧ keeps m m' ∧
    pmem m' = Some (take (offset m a) mem ++ data p ++ drop (offset m a + Z.to_nat sz) mem).
Proof.
  intros Hf Hcmd Hlock Hwr. pose proof (fits_subset p a sz Hf) as Hsub.
  destruct (fits_offset p a sz Hf) as [Hh _]. pose proof (store_run p a sz Hf) as Hst.
  pose proof Hf as []. destruct ft_plain0 as [Hcr Hif].
  unfold access. rewrite Hcr, Hcmd.
  change (bool_decide (WriteReq = CleanEvict) || bool_decide (WriteReq = WritebackClean)) with false.
  destruct (getAddrRange p) as [r|]; [|done]. cbn [mbind res_bind] in *. rewrite Hsub. cbn [negb mbind res_bind].
  change (bool_decide (WriteReq = SwapReq)) with false. change (isRead WriteReq) with false.
  change (isInvalidate WriteReq || isClean WriteReq) with false. change (isWrite WriteReq) with true.
  unfold write. rewrite ft_addr0, ft_size0. cbn [mbind res_bind].
  unfold writeOK. rewrite Hwr, Hlock, Hcmd. change (isLLSC WriteReq) with false. cbn [negb mret res_ret mbind res_bind].
  rewrite (bk_mem _ _ Hm), Hh, Hst. cbn [mbind res_bind]. rewrite Hif.
  unfold mret, res_ret. cbn [mbind res_bind]. rewrite Hcmd. change (needsResponse WriteReq) with true.
  unfold makeResponse, require. rewrite Hcmd. change (needsResponse WriteReq && isRequest WriteReq) with true.
  cbn [mbind res_bind]. eexists _, _. split; [done|]. split; [cbn; by rewrite Hcmd|].
  split; [by apply (response_routed p a)|]. by split.
Qed.

Lemma access_read p a sz : fits m p a sz → cmd p = ReadReq →
  ∃ p' m', access atomicOp p m = Ok (p', m') ∧ cmd p' = ReadResp ∧ routed p' ∧ keeps m m' ∧
    data p' = take (Z.to_nat sz) (drop (offset m a) mem) ∧ pmem m' = Some mem.
Proof.
  intros Hf Hcmd. pose proof (fits_subset p a sz Hf) as Hsub.
  destruct (fits_offset p a sz Hf) as [Hh _]. pose proof (setData_run p a sz Hf) as Hst.
  pose proof Hf as []. destruct ft_plain0 as [Hcr Hif].
  unfold access. rewrite Hcr, Hcmd.
  change (bool_decide (ReadReq = CleanEvict) || bool_decide (ReadReq = WritebackClean)) with false.
  destruct (getAddrRange p) as [r|]; [|done]. cbn [mbind res_bind] in *. rewrite Hsub. cbn [negb mbind res_bind].
  change (bool_decide (ReadReq = SwapReq)) with false. change (isRead ReadReq) with true.
  unfold read. rewrite ft_addr0, ft_size0, Hcmd. cbn [mbind res_bind].
  change (isWrite ReadReq) with false. change (isLLSC ReadReq) with false. cbn [mbind res_bind].
  rewrite (bk_mem _ _ Hm), Hh, Hst. unfold mret, res_ret. cbn [mbind res_bind].
  unfold makeResponse, require. cbn [cmd set_field]. rewrite Hcmd. 
  change (needsResponse ReadReq) with true. change (true && isRequest ReadReq) with true.
  cbn [mbind res_bind]. eexists _, _. split; [done|]. split; [cbn; by rewrite Hcmd|].
  split; [by apply (response_routed (p <| data := _ |>) a)|]. split; [done|]. split; [done|]. by apply Hm.
Qed.
End ReadWrite.

Lemma overlay_lookup (mem d : list Z) off k : (off + length d ≤ length mem)%nat →
  (take off mem ++ d ++ drop (off + length d) mem) !! k
  = if decide (off ≤ k < off + length d)%nat then d !! (k - off)%nat else mem !! k.
Proof.
  intros Hle. destruct (decide (k < off)%nat) as [Hlt|Hge].
  - rewrite lookup_app_l, lookup_take_lt by (rewrite ?length_take; lia). by rewrite decide_False by lia.
  - rewrite lookup_app_r by (rewrite length_take; lia). rewrite length_take, Nat.min_l by lia.
    case_decide.
    + by rewrite lookup_app_l by lia.
    + rewrite lookup_app_r, lookup_drop by lia. f_equal. lia.
Qed.

(** C34.  A read returns, byte by byte, what the last write put there
    and the old contents elsewhere, whatever the overlap of the two accesses. *)
Theorem read_after_write atomicOp m mem p1 a s1 p2 b s2 :
  backed m mem → lockedAddrList m = [] → writeable m = true →
  fits m p1 a s1 → cmd p1 = WriteReq → fits m p2 b s2 → cmd p2 = ReadReq →
  ∃ p1' m1 p2' m2, access atomicOp p1 m = Ok (p1', m1) ∧ access atomicOp p2 m1 = Ok (p2', m2) ∧
    ∀ i, 0 ≤ i < s2 →
      data p2' !! Z.to_nat i =
        if decide (a ≤ b + i < a + s1) then data p1 !! Z.to_nat (b + i - a)
        else mem !! offset m (b + i).
Proof.
  intros Hm Hlock Hwr Hf1 Hc1 Hf2 Hc2.
  destruct (access_write atomicOp m mem Hm p1 a s1 Hf1 Hc1 Hlock Hwr) as (p1' & m1 & Hw & _ & _ & [Hrg _] & Hpm).
  destruct (fits_offset m mem Hm p1 a s1 Hf1) as [_ Ho1]. destruct (fits_offset m mem Hm p2 b s2 Hf2) as [_ Ho2].
  pose proof (ft_data _ _ _ _ Hf1) as Hd1. pose proof (ft_range _ _ _ _ Hf1) as Hr1.
  pose proof (ft_range _ _ _ _ Hf2) as Hr2.
  replace (Z.to_nat s1) with (length (data p1)) in * by lia.
  set (mem1 := take (offset m a) mem ++ data p1 ++ drop (offset m a + length (data p1)) mem) in *.
  assert (length mem1 = length mem) as Hl1.
  { subst mem1. rewrite !length_app, length_take, length_drop. lia. }
  assert (backed m1 mem1) as Hm1 by (destruct Hm; split; rewrite ?Hrg, ?Hl1; done).
  assert (fits m1 p2 b s2) as Hf2' by (destruct Hf2; split; rewrite ?Hrg; done).
  destruct (access_read atomicOp m1 mem1 Hm1 p2 b s2 Hf2' Hc2) as (p2' & m2 & Hr & _ & _ & _ & Hd2 & _).
  exists p1', m1, p2', m2. split; [done|]. split; [done|]. intros i Hi.
  assert (offset m1 b = offset m b) as Hob by (unfold offset; by rewrite Hrg).
  rewrite Hd2, Hob, lookup_take_lt, lookup_drop by lia. subst mem1. rewrite overlay_lookup by lia.
  unfold offset in *. do 2 case_decide; try lia; f_equal; lia.
Qed.

(** ** Examples *)

Definition no_stats : MemStats := mkStats ∅ ∅ ∅ ∅ ∅ ∅.

(** 256 zero bytes at 0x1000, with context 7 holding a reservation on 0x1010. *)
Definition small (l : list LockedAddr) : t :=
  mk (AddrRange.plain 0x1000 0x1100) (Some (replicate 256 0)) true true l no_stats 0 [].

Definition request_at (a sz : Z) (c : option Z) : Request.t :=
  Request.mk (Some a) (Some sz) 0 [] 1 c None.
Definition packet_at (k : Command) (a : Z) (d : list Z) (c : option Z) : Packet :=
  mkPacket (Z.lor VALID_ADDR (Z.lor VALID_SIZE DYNAMIC_DATA)) k
    (request_at a (Z.of_nat (length d)) c) d a false (Z.of_nat (length d)) [] 0 0 0 [].

Lemma small_backed l : backed (small l) (replicate 256 0).
Proof. split; [apply AddrRange.plain_wf; unfold is_u64; cbn; lia|done..]. Qed.

Lemma packet_fits l k a d : 0x1000 ≤ a → d ≠ [] → a + Z.of_nat (length d) ≤ 0x1100 →
  fits (small l) (packet_at k a d None) a (Z.of_nat (length d)).
Proof.
  intros Ha Hd He. split; try done.
  - by destruct d; cbn [length]; [|lia].
  - unfold isMaskedWrite, Request.isMasked. cbn. by rewrite andb_false_r.
Qed.

Lemma read_after_write_witness :
  ∃ p1' m1 p2' m2,
    access (λ _ x, x) (packet_at WriteReq 0x1020 [1; 2; 3; 4] None) (small []) = Ok (p1', m1) ∧
    access (λ _ x, x) (packet_at ReadReq 0x1022 [0; 0; 0; 0] None) m1 = Ok (p2', m2) ∧
    ∀ i, 0 ≤ i < 4 →
      data p2' !! Z.to_nat i =
        if decide (0x1020 ≤ 0x1022 + i < 0x1020 + 4) then [1; 2; 3; 4] !! Z.to_nat (0x1022 + i - 0x1020)
        else replicate 256 0 !! offset (small []) (0x1022 + i).
Proof.
  apply (read_after_write (λ _ x, x) (small []) (replicate 256 0)
           (packet_at WriteReq 0x1020 [1; 2; 3; 4] None) 0x1020 4
           (packet_at ReadReq 0x1022 [0; 0; 0; 0] None) 0x1022 4).
  - apply small_backed.
  - done.
  - done.
  - apply packet_fits; [lia|done|cbn; lia].
  - done.
  - apply packet_fits; [lia|done|cbn; lia].
  - done.
Defined.

Lemma load_locked_witness :
  ∃ m', trackLoadLocked (packet_at LoadLockedReq 0x1010 [0] (Some 7)) (small []) = Ok m' ∧
    monitor m' = {[7 := 0x1010]} ∧ wf_locks (lockedAddrList m') ∧ pmem m' = Some (replicate 256 0).
Proof.
  apply (load_locked_reserves (packet_at LoadLockedReq 0x1010 [0] (Some 7)) (small []) 7 0x1010);
    [split; constructor|done..].
Defined.

(** Context 3 stores to the granule, then context 7's store-conditional fails. *)
Lemma store_witness :
  ∃ p' m', writeOK (packet_at WriteReq 0x1018 [5] (Some 3)) (small [mkLocked 0x1010 7]) = Ok (true, p', m') ∧
    monitor m' = filter (λ kv, kv.2 ≠ mask 0x1018) (monitor (small [mkLocked 0x1010 7])).
Proof.
  destruct (store_checks_reservation (packet_at WriteReq 0x1018 [5] (Some 3)) (small [mkLocked 0x1010 7]) 3 0x1018)
    as (p' & m' & Hw & _ & Hmon & _).
  - split; repeat constructor; set_solver.
  - done.
  - done.
  - done.
  - exists p', m'. split; [exact Hw|exact Hmon].
Defined.
End AbstractMemory.
