(* ===== verification/Containers.v ===== *)
(** * Small containers (src/gem5/src/base/circular_queue.hh, sat_counter.hh,
      chunk_generator.hh)

    Three classes the memory system shares: a ring buffer with monotone 64-bit
    indices, a saturating counter of a machine-width type, and the generator
    that cuts an address region into aligned chunks. *)

From S2P Require Import Prelude Bitfield IntMath.
#[local] Open Scope Z_scope.

Module CircularQueue.
Section CircularQueue.
Context {T : Type}.

Record t := mk {
  data : list T;        (* std::vector<T>, of _capacity elements *)
  _capacity : Z;
  _size : Z;
  _head : Z;
}.
#[export] Instance t_eta : Eta t := λ q, mk (data q) (_capacity q) (_size q) (_head q).

(** [data(size)] value-initializes the elements. *)
Definition ctor (dflt : T) (size : Z) : t := mk (replicate (Z.to_nat size) dflt) size 0 1.

Definition flush (q : t) : t := q <| _head := 1 |> <| _size := 0 |>.
Definition isValidIdx (q : t) (idx : Z) : bool :=
  (_head q <=? idx) && (idx <? u64 (_head q + _size q)).
Definition head (q : t) : Z := _head q.
Definition tail (q : t) : Z := u64 (_head q + _size q - 1).
Definition capacity (q : t) : Z := _capacity q.
Definition size (q : t) : Z := _size q.
Definition empty (q : t) : bool := _size q =? 0.
Definition full (q : t) : bool := _size q =? _capacity q.

(** The slot of an index; [index % 0] is undefined. *)
Definition slot (q : t) (index : Z) : res nat :=
  if index <? 0 then Abort AssertFailed
  else if _capacity q =? 0 then Abort UndefinedBehavior
  else Ok (Z.to_nat (index mod _capacity q)).

(** [operator[]] as an rvalue and as the target of an assignment. *)
Definition get (q : t) (index : Z) : res T :=
  i ← slot q index;
  match data q !! i with Some x => Ok x | None => Abort UndefinedBehavior end.
Definition set (q : t) (index : Z) (val : T) : res t :=
  i ← slot q index;
  Ok (q <| data := <[i := val]> (data q) |>).

Definition front (q : t) : res T := get q (head q).
Definition back (q : t) : res T := get q (tail q).

Definition pop_front (q : t) (num_elem : Z) : res t :=
  if num_elem <=? size q
  then Ok (q <| _head ::= λ h, u64 (h + num_elem) |> <| _size ::= λ s, u64 (s - num_elem) |>)
  else Abort AssertFailed.

Definition pop_back (q : t) : res t :=
  if empty q then Abort AssertFailed else Ok (q <| _size ::= λ s, u64 (s - 1) |>).

Definition advance_tail (q : t) : t :=
  if full q then q <| _head ::= λ h, u64 (h + 1) |> else q <| _size ::= λ s, u64 (s + 1) |>.

Definition push_back (q : t) (val : T) : res t :=
  let q := advance_tail q in set q (tail q) val.

Definition advance_tail_by (q : t) (len : Z) : t :=
  let remaining := u64 (_capacity q - _size q) in
  let '(q, len) :=
    if remaining <? len then
      let overflow := u64 (len - remaining) in
      (q <| _head ::= λ h, u64 (h + overflow) |>, u64 (len - overflow))
    else (q, len) in
  q <| _size ::= λ s, u64 (s + len) |>.

(** Iterators: an index into a queue ([_cq] is never null once obtained). *)
Record iterator := It { _idx : Z }.
Definition begin_ (q : t) : iterator := It (_head q).
Definition end_ (q : t) : iterator := It (u64 (tail q + 1)).
Definition getIterator (q : t) (idx : Z) : iterator := It idx.
Definition dereferenceable (q : t) (it : iterator) : bool := isValidIdx q (_idx it).
Definition deref (q : t) (it : iterator) : res T := get q (_idx it).
Definition it_eq (a b : iterator) : bool := _idx a =? _idx b.
Definition it_inc (it : iterator) : iterator := It (u64 (_idx it + 1)).
Definition it_dec (q : t) (it : iterator) : res iterator :=
  if head q <? _idx it then Ok (It (u64 (_idx it - 1))) else Abort AssertFailed.
Definition it_add (it : iterator) (n : Z) : iterator := It (u64 (_idx it + n)).
Definition it_sub (q : t) (it : iterator) (n : Z) : res iterator :=
  if u64 (head q + n) <=? _idx it then Ok (It (u64 (_idx it - n))) else Abort AssertFailed.
Definition it_lt (a b : iterator) : bool := _idx a <? _idx b.
Definition it_gt (a b : iterator) : bool := negb (negb (it_lt b a)).
Definition it_ge (a b : iterator) : bool := negb (it_lt a b).
Definition it_le (a b : iterator) : bool := negb (it_lt b a).

(** [for (auto it = q.begin(); it != q.end(); ++it) use( *it)]: the elements an
    iteration visits, [fuel] bounding the steps. *)
Fixpoint traverse (fuel : nat) (q : t) (it : iterator) : res (list T) :=
  if it_eq it (end_ q) then Ok []
  else match fuel with
  | O => Ok []
  | S fuel => x ← deref q it; l ← traverse fuel q (it_inc it); Ok (x :: l)
  end.

(** ** The queue as a bounded list *)

Record wf (q : t) : Prop := {
  wf_data : Z.of_nat (length (data q)) = _capacity q;
  wf_cap : 0 < _capacity q < 2 ^ 63;
  wf_size : 0 ≤ _size q ≤ _capacity q;
  wf_head : 1 ≤ _head q;
  wf_index : _head q + _size q < 2 ^ 64;
}.

(** [l] lists the elements from the head to the tail. *)
Definition represents (q : t) (l : list T) : Prop :=
  Z.of_nat (length l) = _size q ∧
  ∀ i x, l !! i = Some x →
    data q !! Z.to_nat ((_head q + Z.of_nat i) mod _capacity q) = Some x.

(** Operations, and what they do to a list bounded by [cap]. *)
Inductive op := PushBack (v : T) | PopFront (n : Z) | PopBack | Flush.

Definition exec (q : t) (o : op) : res t :=
  match o with
  | PushBack v => push_back q v
  | PopFront n => pop_front q n
  | PopBack => pop_back q
  | Flush => Ok (flush q)
  end.

Definition spec (cap : Z) (l : list T) (o : op) : res (list T) :=
  match o with
  | PushBack v => Ok ((if Z.of_nat (length l) =? cap then drop 1 l else l) ++ [v])
  | PopFront n => if n <=? Z.of_nat (length l) then Ok (drop (Z.to_nat n) l) else Abort AssertFailed
  | PopBack => if bool_decide (l = []) then Abort AssertFailed else Ok (take (length l - 1) l)
  | Flush => Ok []
  end.

Lemma slot_run q idx : wf q → 0 ≤ idx → slot q idx = Ok (Z.to_nat (idx mod _capacity q)).
Proof. intros [] Hi. unfold slot. bool_to_prop; (done || lia). Qed.

Lemma mod_apart c x y : 0 < c → x < y < x + c → x mod c ≠ y mod c.
Proof.
  intros Hc Hxy He. assert ((y - x) mod c = 0) as Hm by (by rewrite Zminus_mod, He, Z.sub_diag).
  rewrite Z.mod_small in Hm by lia. lia.
Qed.

Lemma slot_bound q idx : wf q → (Z.to_nat (idx mod _capacity q) < length (data q))%nat.
Proof. intros []. pose proof (Z.mod_pos_bound idx (_capacity q)). lia. Qed.

(** Writing the slot of the tail leaves the elements before it alone. *)
Lemma set_tail q l v : wf q → Z.of_nat (length l) + 1 = _size q →
  (∀ i x, l !! i = Some x →
     data q !! Z.to_nat ((_head q + Z.of_nat i) mod _capacity q) = Some x) →
  ∃ q', set q (tail q) v = Ok q' ∧ wf q' ∧ _capacity q' = _capacity q ∧
    _head q' = _head q ∧ _size q' = _size q ∧ represents q' (l ++ [v]).
Proof.
  intros Hw Hl Hr. pose proof Hw as []. unfold set, tail. rewrite u64_id by (unfold is_u64; lia).
  rewrite slot_run by (done || lia). eexists. split; [done|].
  split; [split; cbn; rewrite ?length_insert; lia|]. do 3 (split; [done|]).
  split; cbn; [rewrite length_app; cbn; lia|]. intros i x Hi.
  destruct (decide (i < length l)%nat) as [Hlt|Hge].
  - rewrite lookup_app_l in Hi by done. rewrite list_lookup_insert_ne; [by apply Hr|].
    intros He. pose proof (Z.mod_pos_bound (_head q + Z.of_nat i) (_capacity q)).
    pose proof (Z.mod_pos_bound (_head q + _size q - 1) (_capacity q)).
    apply Z2Nat.inj in He; [|lia..]. symmetry in He. revert He. apply mod_apart; lia.
  - rewrite lookup_app_r in Hi by lia. apply list_lookup_singleton_Some in Hi as [Hi <-].
    replace (_head q + Z.of_nat i) with (_head q + _size q - 1) by lia.
    apply list_lookup_insert_eq. by apply slot_bound.
Qed.

Lemma push_back_run q l v : wf q → represents q l → _head q + _size q + 1 < 2 ^ 64 →
  ∃ q', push_back q v = Ok q' ∧ wf q' ∧ _capacity q' = _capacity q ∧
    _head q' + _size q' = _head q + _size q + 1 ∧
    represents q' ((if Z.of_nat (length l) =? _capacity q then drop 1 l else l) ++ [v]).
Proof.
  intros Hw [Hl Hr] Hi. pose proof Hw as []. unfold push_back, advance_tail, full.
  rewrite Hl. destruct (Z.eqb_spec (_size q) (_capacity q)) as [Hf|Hf].
  - destruct (set_tail (q <| _head ::= λ h, u64 (h + 1) |>) (drop 1 l) v) as (q' & Hs & ? & ? & Hh & Hz & ?).
    + split; cbn; rewrite ?u64_id by (unfold is_u64; lia); lia.
    + rewrite length_drop. cbn. lia.
    + intros i x Hx. rewrite lookup_drop in Hx. apply Hr in Hx. cbn.
      rewrite u64_id by (unfold is_u64; lia). rewrite <- Hx. do 3 f_equal. lia.
    + exists q'. cbn in Hh, Hz. rewrite u64_id in Hh by (unfold is_u64; lia).
      do 3 (split; [done|]). split; [lia|done].
  - destruct (set_tail (q <| _size ::= λ s, u64 (s + 1) |>) l v) as (q' & Hs & ? & ? & Hh & Hz & ?).
    + split; cbn; rewrite ?u64_id by (unfold is_u64; lia); lia.
    + cbn. rewrite u64_id by (unfold is_u64; lia). lia.
    + exact Hr.
    + exists q'. cbn in Hh, Hz. rewrite u64_id in Hz by (unfold is_u64; lia).
      do 3 (split; [done|]). split; [lia|done].
Qed.

Lemma pop_front_run q l n : wf q → represents q l → 0 ≤ n ≤ _size q →
  ∃ q', pop_front q n = Ok q' ∧ wf q' ∧ _capacity q' = _capacity q ∧
    _head q' + _size q' = _head q + _size q ∧ represents q' (drop (Z.to_nat n) l).
Proof.
  intros Hw [Hl Hr] Hn. pose proof Hw as []. unfold pop_front, size.
  destruct (Z.leb_spec n (_size q)); [|lia]. eexists. split; [done|].
  split; [split; cbn; rewrite ?u64_id by (unfold is_u64; lia); lia|]. split; [done|].
  unfold represents. cbn. rewrite !u64_id by (unfold is_u64; lia).
  split; [lia|]. split; [rewrite length_drop; lia|]. intros i x Hx.
  rewrite lookup_drop in Hx. apply Hr in Hx. rewrite <- Hx. do 3 f_equal. lia.
Qed.

Lemma pop_back_run q l : wf q → represents q l → 0 < _size q →
  ∃ q', pop_back q = Ok q' ∧ wf q' ∧ _capacity q' = _capacity q ∧
    _head q' + _size q' ≤ _head q + _size q ∧ represents q' (take (length l - 1) l).
Proof.
  intros Hw [Hl Hr] Hn. pose proof Hw as []. unfold pop_back, empty.
  destruct (Z.eqb_spec (_size q) 0); [lia|]. eexists. split; [done|].
  split; [split; cbn; rewrite ?u64_id by (unfold is_u64; lia); lia|]. split; [done|].
  unfold represents. cbn. rewrite !u64_id by (unfold is_u64; lia).
  split; [lia|]. split; [rewrite length_take; lia|]. intros i x Hx.
  apply lookup_take_Some in Hx as [Hx _]. by apply Hr.
Qed.

Fixpoint exec_all (q : t) (ops : list op) : res t :=
  match ops with [] => Ok q | o :: ops => q ← exec q o; exec_all q ops end.
Fixpoint spec_all (cap : Z) (l : list T) (ops : list op) : res (list T) :=
  match ops with [] => Ok l | o :: ops => l ← spec cap l o; spec_all cap l ops end.

Definition op_ok (o : op) : Prop := match o with PopFront n => 0 ≤ n | _ => True end.

Lemma exec_refines q l o : wf q → represents q l → op_ok o → _head q + _size q + 1 < 2 ^ 64 →
  match spec (_capacity q) l o with
  | Ok l' => ∃ q', exec q o = Ok q' ∧ wf q' ∧ _capacity q' = _capacity q ∧
               _head q' + _size q' ≤ _head q + _size q + 1 ∧ represents q' l'
  | Abort e => exec q o = Abort e
  end.
Proof.
  intros Hw Hrep Ho Hi. pose proof Hrep as [Hl _]. destruct o as [v|n| |]; cbn [spec exec].
  - destruct (push_back_run q l v) as (q' & ? & ? & ? & ? & ?); [done..|].
    exists q'. do 3 (split; [done|]). split; [lia|done].
  - rewrite Hl. destruct (Z.leb_spec n (_size q)).
    + destruct (pop_front_run q l n) as (q' & ? & ? & ? & ? & ?); [done..|].
      exists q'. do 3 (split; [done|]). split; [lia|done].
    + unfold pop_front, size. bool_to_prop; (done || lia).
  - case_bool_decide as He.
    + subst. unfold pop_back, empty. cbn in Hl. by rewrite <- Hl.
    + destruct (pop_back_run q l) as (q' & ? & ? & ? & ? & ?); [done..| |].
      { destruct l; [done|]. cbn in Hl. lia. }
      exists q'. do 3 (split; [done|]). split; [lia|done].
  - pose proof Hw as []. eexists. split; [done|]. split; [by split; cbn; lia|]. split; [done|].
    split; [cbn; lia|]. split; [done|]. intros i x Hx. by rewrite lookup_nil in Hx.
Qed.

(** The ring buffer implements a list bounded by the capacity:
    over any sequence of operations, as long as the 64-bit indices do not
    overflow, it holds exactly the list's elements in order, a push on a full
    queue drops the oldest one, and it stops exactly where the list has no answer. *)
Theorem queue_refines q l ops :
  wf q → represents q l → Forall op_ok ops →
  _head q + _size q + Z.of_nat (length ops) < 2 ^ 64 →
  match spec_all (_capacity q) l ops with
  | Ok l' => ∃ q', exec_all q ops = Ok q' ∧ wf q' ∧ represents q' l'
  | Abort e => exec_all q ops = Abort e
  end.
Proof.
  revert q l. induction ops as [|o ops IH]; intros q l Hw Hr Hops Hi; cbn [spec_all exec_all].
  { by exists q. }
  inversion Hops as [|?? Ho Hops']; subst. cbn [length] in Hi.
  pose proof (exec_refines q l o Hw Hr Ho ltac:(lia)) as Hex.
  destruct (spec (_capacity q) l o) as [l'|e]; cbn [mbind res_bind].
  - destruct Hex as (q' & -> & Hw' & <- & Hi' & Hr'). apply IH; [done..|lia].
  - by rewrite Hex.
Qed.

(** An iteration from [begin()] to [end()] visits the elements in order. *)
Lemma traverse_run q l : wf q → represents q l → ∀ fuel k,
  (k ≤ length l)%nat → (length l - k ≤ fuel)%nat →
  traverse fuel q (It (_head q + Z.of_nat k)) = Ok (drop k l).
Proof.
  intros Hw [Hl Hr]. pose proof Hw as [].
  assert (end_ q = It (_head q + Z.of_nat (length l))) as He.
  { unfold end_, tail. rewrite !u64_id by (unfold is_u64; rewrite ?u64_id; unfold is_u64; lia).
    f_equal. lia. }
  induction fuel as [|fuel IH]; intros k Hk Hf; cbn [traverse]; rewrite He; unfold it_eq; cbn [_idx].
  all: destruct (Z.eqb_spec (_head q + Z.of_nat k) (_head q + Z.of_nat (length l)));
    [by rewrite drop_ge by lia|].
  { lia. }
  destruct (lookup_lt_is_Some_2 l k) as [x Hx]; [lia|].
  unfold deref, get. cbn [_idx]. rewrite slot_run by (done || lia). cbn [mbind res_bind].
  rewrite (Hr _ _ Hx). unfold it_inc. cbn [_idx]. rewrite u64_id by (unfold is_u64; lia).
  replace (_head q + Z.of_nat k + 1) with (_head q + Z.of_nat (S k)) by lia.
  rewrite IH by lia. by rewrite (drop_S l x k).
Qed.

Lemma ctor_wf x c : 0 < c < 2 ^ 63 → wf (ctor x c) ∧ represents (ctor x c) [].
Proof. intros Hc. split; [split; cbn; rewrite ?length_replicate; lia|]. split; [done|]. intros ? ? ?. done. Qed.
End CircularQueue.
Arguments t : clear implicits.
Arguments op : clear implicits.

Lemma queue_witness :
  ∃ q', exec_all (ctor 0 3) [PushBack 1; PushBack 2; PushBack 3; PushBack 4; PopFront 1] = Ok q' ∧
    wf q' ∧ represents q' [3; 4].
Proof.
  destruct (ctor_wf 0 3) as [Hw Hr]; [lia|].
  apply (queue_refines (ctor 0 3) [] [PushBack 1; PushBack 2; PushBack 3; PushBack 4; PopFront 1] Hw Hr).
  - repeat constructor; cbn; lia.
  - cbn. lia.
Defined.
End CircularQueue.

Module SatCounter.

(** [GenericSatCounter<T>], with [T] an unsigned type of [w] bits. *)
Record t := mk { initialVal : Z; maxVal : Z; counter : Z }.
#[export] Instance t_eta : Eta t := λ c, mk (initialVal c) (maxVal c) (counter c).

Definition trunc (w x : Z) : Z := x mod 2 ^ w.

Definition ctor (w bits initial_val : Z) : res t :=
  one ← shl64 1 bits;
  let maxVal := trunc w (u64 (one - 1)) in
  if w <? bits then Abort FatalError
  else if maxVal <? initial_val then Abort FatalError
  else Ok (mk initial_val maxVal initial_val).

Definition swap (this other : t) : t * t := (other, this).
(** The move constructor leaves a zero-bit counter behind. *)
Definition move (w : Z) (other : t) : res (t * t) :=
  temp ← ctor w 0 0;
  Ok (other, fst (swap other temp)).

Definition inc (w : Z) (c : t) : t :=
  if counter c <? maxVal c then c <| counter ::= λ x, trunc w (x + 1) |> else c.
Definition dec (w : Z) (c : t) : t :=
  if 0 <? counter c then c <| counter ::= λ x, trunc w (x - 1) |> else c.
(** The postfix operators also return the old counter. *)
Definition post_inc (w : Z) (c : t) : t * t := (c, inc w c).
Definition post_dec (w : Z) (c : t) : t * t := (c, dec w c).

(** Shifts are computed in [int] or [T], whichever is wider. *)
Definition shr (w : Z) (c : t) (shift : Z) : res t :=
  if shift <? 0 then Abort AssertFailed
  else if Z.max 32 w <=? shift then Abort UndefinedBehavior
  else Ok (c <| counter ::= λ x, Z.shiftr x shift |>).
Definition shl (w : Z) (c : t) (shift : Z) : res t :=
  if shift <? 0 then Abort AssertFailed
  else if Z.max 32 w <=? shift then Abort UndefinedBehavior
  else
    let c := c <| counter ::= λ x, trunc w (Z.shiftl x shift) |> in
    Ok (if maxVal c <? counter c then c <| counter := maxVal c |> else c).

(** [operator+=] and [operator-=] call each other on negative values. *)
Definition add_nonneg (w : Z) (c : t) (value : Z) : t :=
  if value <=? maxVal c - counter c then c <| counter ::= λ x, trunc w (x + value) |>
  else c <| counter := maxVal c |>.
Definition sub_nonneg (w : Z) (c : t) (value : Z) : t :=
  if value <? counter c then c <| counter ::= λ x, trunc w (x - value) |>
  else c <| counter := 0 |>.
(** [-value] on [long long]. *)
Definition negate (value : Z) : res Z :=
  if value =? - 2 ^ 63 then Abort UndefinedBehavior else Ok (- value).
Definition add (w : Z) (c : t) (value : Z) : res t :=
  if 0 <=? value then Ok (add_nonneg w c value)
  else v ← negate value; Ok (sub_nonneg w c v).
Definition sub (w : Z) (c : t) (value : Z) : res t :=
  if 0 <=? value then Ok (sub_nonneg w c value)
  else v ← negate value; Ok (add_nonneg w c v).

Definition reset (c : t) : t := c <| counter := initialVal c |>.
Definition isSaturated (c : t) : bool := counter c =? maxVal c.
Definition saturate (w : Z) (c : t) : Z * t :=
  (trunc w (maxVal c - counter c), c <| counter := maxVal c |>).

(** ** Every operation clamps *)

Record wf (w : Z) (c : t) : Prop := {
  wf_width : 8 ≤ w ≤ 64;
  wf_max : 0 ≤ maxVal c < 2 ^ w;
  wf_init : 0 ≤ initialVal c ≤ maxVal c;
  wf_counter : 0 ≤ counter c ≤ maxVal c;
}.

Inductive op := Inc | Dec | Add (v : Z) | Sub (v : Z) | Shr (s : Z) | Shl (s : Z) | Reset | Saturate.

Definition exec (w : Z) (c : t) (o : op) : res t :=
  match o with
  | Inc => Ok (inc w c) | Dec => Ok (dec w c)
  | Add v => add w c v | Sub v => sub w c v
  | Shr s => shr w c s | Shl s => shl w c s
  | Reset => Ok (reset c) | Saturate => Ok (snd (saturate w c))
  end.

(** The operation on unbounded integers. *)
Definition ideal (c : t) (o : op) : Z :=
  match o with
  | Inc => counter c + 1 | Dec => counter c - 1
  | Add v => counter c + v | Sub v => counter c - v
  | Shr s => counter c / 2 ^ s | Shl s => counter c * 2 ^ s
  | Reset => initialVal c | Saturate => maxVal c
  end.

Definition op_ok (w : Z) (c : t) (o : op) : Prop :=
  match o with
  | Add v | Sub v => - 2 ^ 63 < v < 2 ^ 63
  | Shr s => 0 ≤ s < 32
  | Shl s => 0 ≤ s < 32 ∧ counter c * 2 ^ s < 2 ^ w
  | _ => True
  end.

Lemma trunc_id w x : 0 ≤ x < 2 ^ w → trunc w x = x.
Proof. apply Z.mod_small. Qed.

(** [c'] is [c] with its value clamped from [y]. *)
Definition clamped (w : Z) (c c' : t) (y : Z) : Prop :=
  wf w c' ∧ maxVal c' = maxVal c ∧ counter c' = Z.max 0 (Z.min (maxVal c) y).

Lemma clamped_set w c f y : wf w c →
  f (counter c) = Z.max 0 (Z.min (maxVal c) y) → clamped w c (c <| counter ::= f |>) y.
Proof. intros [] Hf. split; [split; cbn; lia|]. by split. Qed.

Lemma clamped_same w c y : wf w c →
  counter c = Z.max 0 (Z.min (maxVal c) y) → clamped w c c y.
Proof. done. Qed.

Lemma add_nonneg_clamps w c v : wf w c → 0 ≤ v → clamped w c (add_nonneg w c v) (counter c + v).
Proof.
  intros Hw Hv. pose proof Hw as []. unfold add_nonneg.
  bool_to_prop; apply clamped_set; rewrite ?trunc_id; (done || lia).
Qed.

Lemma sub_nonneg_clamps w c v : wf w c → 0 ≤ v → clamped w c (sub_nonneg w c v) (counter c - v).
Proof.
  intros Hw Hv. pose proof Hw as []. unfold sub_nonneg.
  bool_to_prop; apply clamped_set; rewrite ?trunc_id; (done || lia).
Qed.

Lemma inc_clamps w c : wf w c → clamped w c (inc w c) (counter c + 1).
Proof.
  intros Hw. pose proof Hw as []. unfold inc.
  bool_to_prop; [apply clamped_set|apply clamped_same]; rewrite ?trunc_id; (done || lia).
Qed.

Lemma dec_clamps w c : wf w c → clamped w c (dec w c) (counter c - 1).
Proof.
  intros Hw. pose proof Hw as []. unfold dec.
  bool_to_prop; [apply clamped_set|apply clamped_same]; rewrite ?trunc_id; (done || lia).
Qed.

Lemma shl_clamps w c s : wf w c → 0 ≤ s < 32 → counter c * 2 ^ s < 2 ^ w →
  ∃ c', shl w c s = Ok c' ∧ clamped w c c' (counter c * 2 ^ s).
Proof.
  intros Hw Hs Hfit. pose proof Hw as []. unfold shl.
  destruct (Z.ltb_spec s 0), (Z.leb_spec (Z.max 32 w) s); try lia.
  eexists. split; [done|]. cbn. rewrite Z.shiftl_mul_pow2 by lia.
  assert (0 ≤ counter c * 2 ^ s) by nia. rewrite trunc_id by lia.
  destruct (Z.ltb_spec (maxVal c) (counter c * 2 ^ s)).
  - split; [by split; cbn; lia|]. split; [done|cbn; lia].
  - apply (clamped_set w c (λ x, trunc w (Z.shiftl x s))); [done|].
    rewrite Z.shiftl_mul_pow2, trunc_id; lia.
Qed.

Lemma shr_clamps w c s : wf w c → 0 ≤ s < 32 →
  ∃ c', shr w c s = Ok c' ∧ clamped w c c' (counter c / 2 ^ s).
Proof.
  intros Hw Hs. pose proof Hw as []. unfold shr.
  destruct (Z.ltb_spec s 0), (Z.leb_spec (Z.max 32 w) s); try lia.
  eexists. split; [done|]. apply clamped_set; [done|]. rewrite Z.shiftr_div_pow2 by lia.
  assert (0 ≤ counter c / 2 ^ s) by (apply Z.div_pos; lia).
  assert (counter c / 2 ^ s ≤ counter c) by (apply Z.div_le_upper_bound; nia). lia.
Qed.

(** Every operation of a saturating counter gives the ideal
    result clamped to [0 .. maxVal]; the left shift does so as long as it moves no
    bit out of the counter's type. *)
Theorem counter_clamps w c o :
  wf w c → op_ok w c o →
  ∃ c', exec w c o = Ok c' ∧ clamped w c c' (ideal c o).
Proof.
  intros Hw Ho. destruct o as [| |v|v|z|z| |]; cbn [exec ideal op_ok] in *.
  - eexists. split; [done|]. by apply inc_clamps.
  - eexists. split; [done|]. by apply dec_clamps.
  - unfold add, negate. destruct (Z.leb_spec 0 v), (Z.eqb_spec v (- 2 ^ 63)); try lia;
      (eexists; split; [done|]).
    + by apply add_nonneg_clamps.
    + rewrite <- (Z.opp_involutive v) at 2. apply sub_nonneg_clamps; [done|lia].
  - unfold sub, negate. destruct (Z.leb_spec 0 v), (Z.eqb_spec v (- 2 ^ 63)); try lia;
      (eexists; split; [done|]).
    + by apply sub_nonneg_clamps.
    + rewrite <- (Z.add_opp_r _ v). apply add_nonneg_clamps; [done|lia].
  - by apply shr_clamps.
  - destruct Ho. by apply shl_clamps.
  - pose proof Hw as []. eexists. split; [done|]. apply clamped_set; [done|lia].
  - pose proof Hw as []. eexists. split; [done|]. apply clamped_set; [done|lia].
Qed.

Lemma counter_witness : ∃ c', exec 8 (mk 0 3 2) (Add 7) = Ok c' ∧ clamped 8 (mk 0 3 2) c' 9.
Proof. apply (counter_clamps 8 (mk 0 3 2) (Add 7)); [split; cbn; lia|cbn; lia]. Defined.

(** A left shift that moves a bit out of the type does not
    saturate: the overflow test sees the truncated value. *)
Example shl_loses_saturation :
  (c ← ctor 8 8 0x81; shl 8 c 1) = Ok (mk 0x81 0xff 0x02).
Proof. reflexivity. Qed.
End SatCounter.

Module ChunkGenerator.

Record t := mk {
  curAddr : Z;
  nextAddr : Z;
  curSize : Z;
  nextSize : Z;
  sizeLeft : Z;
  startAddr : Z;
  chunkSize : Z;
}.
#[export] Instance t_eta : Eta t := λ g,
  mk (curAddr g) (nextAddr g) (curSize g) (nextSize g) (sizeLeft g) (startAddr g) (chunkSize g).

Definition ctor (_startAddr totalSize _chunkSize : Z) : res t :=
  if negb ((_chunkSize =? 0) || isPowerOf2 _chunkSize) then Abort AssertFailed
  else
    let curAddr := _startAddr in
    nextAddr ←
      (if _chunkSize =? 0 then Ok (u64 (_startAddr + totalSize))
       else
         nextAddr ← roundUp _startAddr _chunkSize;
         let nextAddr := if curAddr =? nextAddr then u64 (nextAddr + _chunkSize) else nextAddr in
         Ok (Z.min nextAddr (u64 (_startAddr + totalSize))));
    let curSize := u64 (nextAddr - curAddr) in
    let sizeLeft := u64 (totalSize - curSize) in
    Ok (mk curAddr nextAddr curSize (Z.min sizeLeft _chunkSize) sizeLeft _startAddr _chunkSize).

Definition addr (g : t) : Z := curAddr g.
Definition size (g : t) : Z := curSize g.
Definition complete (g : t) : Z := u64 (curAddr g - startAddr g).
Definition done (g : t) : bool := curSize g =? 0.
Definition last (g : t) : bool := sizeLeft g =? 0.

Definition setNext (g : t) (next : Z) : res t :=
  if next <? nextAddr g then Abort AssertFailed
  else
    let skipping := Z.min (u64 (next - nextAddr g)) (sizeLeft g) in
    let g := g <| sizeLeft ::= λ s, u64 (s - skipping) |>
               <| curSize ::= λ s, u64 (s + skipping) |> <| nextAddr := next |> in
    if chunkSize g =? 0 then Abort AssertFailed
    else
      up ← roundUp next (chunkSize g);
      let g := g <| nextSize := u64 (up - next) |> in
      Ok (if nextSize g =? 0 then g <| nextSize := Z.min (sizeLeft g) (chunkSize g) |> else g).

Definition next (g : t) : bool * t :=
  if last g then (false, g <| curSize := 0 |>)
  else
    let g := g <| curAddr := nextAddr g |> <| curSize := nextSize g |> in
    let g := g <| sizeLeft ::= λ s, u64 (s - curSize g) |>
               <| nextAddr ::= λ a, u64 (a + curSize g) |> in
    (true, g <| nextSize := Z.min (sizeLeft g) (chunkSize g) |>).

(** The chunks of [for (...; !gen.done(); gen.next())], within [fuel] of them. *)
Fixpoint chunks (fuel : nat) (g : t) : option (list (Z * Z)) :=
  if done g then Some []
  else match fuel with
  | O => None
  | S fuel => cons (addr g, size g) <$> chunks fuel (snd (next g))
  end.

(** [l] tiles the [n] bytes from [a] without crossing a multiple of [cs]. *)
Fixpoint tiles (cs a n : Z) (l : list (Z * Z)) : Prop :=
  match l with
  | [] => n = 0
  | (x, s) :: l => x = a ∧ 0 < s ≤ n ∧ a / cs = (a + s - 1) / cs ∧ tiles cs (a + s) (n - s) l
  end.

(** The state between two chunks of a region ending before [2^64]. *)
Record wf (cs : Z) (g : t) : Prop := {
  wf_cs : chunkSize g = cs;
  wf_cur : 0 ≤ curAddr g ∧ 0 < curSize g;
  wf_left : 0 ≤ sizeLeft g;
  wf_end : curAddr g + curSize g + sizeLeft g < 2 ^ 64;
  wf_next : nextAddr g = curAddr g + curSize g;
  wf_nextSize : nextSize g = Z.min (sizeLeft g) cs;
  wf_block : curAddr g / cs = (curAddr g + curSize g - 1) / cs;
  wf_aligned : 0 < sizeLeft g → nextAddr g mod cs = 0;
}.

Lemma next_run cs g : wf cs g → 0 < sizeLeft g → 0 < cs →
  let n := Z.min (sizeLeft g) cs in
  let a := curAddr g + curSize g in
  next g = (true, mk a (a + n) n (Z.min (sizeLeft g - n) cs) (sizeLeft g - n) (startAddr g) cs).
Proof.
  intros [] Hl Hcs n a. unfold next, last. destruct (Z.eqb_spec (sizeLeft g) 0); [lia|].
  destruct g as [ca na cz nz sl sa c]. cbn in *. subst c na nz.
  unfold set_field. cbn. rewrite !u64_id by (unfold is_u64; lia). reflexivity.
Qed.

Lemma blocks_left cs n : 0 < cs → 0 < n →
  0 ≤ (n - Z.min n cs + cs - 1) / cs < (n + cs - 1) / cs.
Proof.
  intros Hcs Hn. split; [apply Z.div_pos; lia|].
  replace (n + cs - 1) with ((n - 1) + 1 * cs) by lia. rewrite Z.div_add by lia.
  destruct (Z.le_ge_cases n cs).
  - rewrite Z.min_l, Z.sub_diag, (Z.div_small (0 + cs - 1)) by lia.
    pose proof (Z.div_pos (n - 1) cs). lia.
  - rewrite Z.min_r by lia. replace (n - cs + cs - 1) with (n - 1) by lia. lia.
Qed.

Lemma same_block cs a n : 0 < cs → a mod cs = 0 → 0 < n ≤ cs → a / cs = (a + n - 1) / cs.
Proof.
  intros Hcs Ha Hn. rewrite (Z.div_mod a cs) at 2 by lia. rewrite Ha.
  replace (cs * (a / cs) + 0 + n - 1) with ((n - 1) + a / cs * cs) by lia.
  rewrite Z.div_add, (Z.div_small (n - 1)) by lia. lia.
Qed.

Lemma next_wf cs g : 0 < cs → wf cs g → 0 < sizeLeft g → wf cs (snd (next g)).
Proof.
  intros Hcs Hw Hl. rewrite (next_run cs) by (exact Hw || lia). destruct Hw.
  specialize (wf_aligned0 Hl). rewrite wf_next0 in wf_aligned0.
  split; cbn; [reflexivity|lia|lia|lia|reflexivity|reflexivity| |].
  - apply same_block; lia.
  - intros Hl'. rewrite Z.min_r by lia. rewrite Z.add_mod, wf_aligned0, Z.mod_same by lia. apply Z.mod_0_l. lia.
Qed.

(** Chunks left, for the fuel. *)
Definition left (cs : Z) (g : t) : nat := S (Z.to_nat ((sizeLeft g + cs - 1) / cs)).

Lemma chunks_run cs fuel : 0 < cs → ∀ g, wf cs g → (left cs g ≤ fuel)%nat →
  ∃ l, chunks fuel g = Some l ∧ tiles cs (curAddr g) (curSize g + sizeLeft g) l.
Proof.
  intros Hcs. induction fuel as [|fuel IH]; intros g Hw Hf; [unfold left in Hf; lia|].
  pose proof Hw as []. cbn [chunks]. unfold done. destruct (Z.eqb_spec (curSize g) 0); [lia|].
  destruct (Z.eq_dec (sizeLeft g) 0) as [Hz|Hz].
  - unfold next, last. rewrite Hz. cbn [Z.eqb snd]. destruct fuel; cbn; eexists;
      (split; [reflexivity|]); unfold addr, size; cbn [tiles];
      (split; [reflexivity|]); (split; [lia|]); (split; [exact wf_block0|lia]).
  - pose proof (next_wf cs g Hcs Hw ltac:(lia)) as Hw'.
    destruct (IH (snd (next g)) Hw') as (l & Hl & Ht).
    { rewrite (next_run cs) by (exact Hw || lia). unfold left in *. cbn [snd sizeLeft].
      pose proof (blocks_left cs (sizeLeft g)). lia. }
    rewrite Hl. eexists. split; [reflexivity|]. cbn [tiles addr size].
    rewrite (next_run cs) in Ht by (exact Hw || lia). cbn in Ht. unfold addr, size.
    split; [reflexivity|]. split; [lia|]. split; [exact wf_block0|].
    replace (curSize g + sizeLeft g - curSize g) with
      (Z.min (sizeLeft g) cs + (sizeLeft g - Z.min (sizeLeft g) cs)) by lia. exact Ht.
Qed.

Lemma block_before cs up x : 0 < cs → up mod cs = 0 → up - cs ≤ x < up → x / cs = up / cs - 1.
Proof.
  intros Hcs Hup Hx. symmetry. apply (Z.div_unique_pos x cs _ (x - (up - cs))); [lia|].
  rewrite (Z.div_mod up cs) at 2 by lia. lia.
Qed.

Lemma ctor_run start total cs g :
  is_u64 start → is_u64 cs → 0 < total → start + total < 2 ^ 64 → start + cs < 2 ^ 64 → 0 < cs →
  ctor start total cs = Ok g →
  wf cs g ∧ curAddr g = start ∧ curSize g + sizeLeft g = total.
Proof.
  intros Hs Hc Ht He Hcf Hcs. unfold ctor. destruct (Z.eqb_spec cs 0); [lia|].
  destruct (isPowerOf2 cs) eqn:Hp; [|discriminate]. cbn [orb negb].
  destruct (roundUp start cs) as [up|] eqn:Hup; [|discriminate]. cbn [mbind res_bind].
  apply roundUp_spec in Hup as [Hal Hup]; [|assumption..|lia].
  unfold is_u64 in *. rewrite (u64_id (start + total)) by (unfold is_u64; lia).
  set (nx := if start =? up then u64 (up + cs) else up).
  assert (start < nx ≤ start + cs ∧ nx mod cs = 0) as [Hnx Hna].
  { subst nx. destruct (Z.eqb_spec start up) as [<-|]; [|lia].
    rewrite u64_id by (unfold is_u64; lia). split; [lia|].
    rewrite Z.add_mod, Hal, Z.mod_same by lia. apply Z.mod_0_l. lia. }
  intros [= <-]. cbn [curAddr curSize sizeLeft].
  rewrite (u64_id (Z.min nx (start + total) - start)) by (unfold is_u64; lia).
  rewrite u64_id by (unfold is_u64; lia).
  split; [|lia]. split; cbn [curAddr nextAddr curSize nextSize sizeLeft chunkSize]; try lia.
  - rewrite (block_before cs nx start) by lia. symmetry. apply block_before; lia.
  - intros Hl. rewrite Z.min_l by lia. exact Hna.
Qed.

Lemma ctor_empty start cs g :
  is_u64 start → is_u64 cs → start + cs < 2 ^ 64 → 0 < cs → ctor start 0 cs = Ok g → curSize g = 0.
Proof.
  intros Hs Hc Hcf Hcs. unfold ctor. destruct (Z.eqb_spec cs 0); [lia|].
  destruct (isPowerOf2 cs) eqn:Hp; [|discriminate]. cbn [orb negb].
  destruct (roundUp start cs) as [up|] eqn:Hup; [|discriminate]. cbn [mbind res_bind].
  apply roundUp_spec in Hup as [Hal Hup]; [|assumption..|lia]. unfold is_u64 in *.
  intros [= <-]. cbn [curSize]. rewrite Z.add_0_r, (u64_id start) by assumption.
  rewrite Z.min_r, Z.sub_diag; [reflexivity|].
  destruct (Z.eqb_spec start up); [rewrite u64_id by (unfold is_u64; lia)|]; lia.
Qed.

(** The chunk generator stops, and its chunks tile the region:
    contiguous from the start to the end, none empty and none crossing a multiple
    of the chunk size. *)
Theorem chunks_tile start total cs g :
  is_u64 start → is_u64 cs → 0 ≤ total → start + total < 2 ^ 64 → start + cs < 2 ^ 64 → 0 < cs →
  ctor start total cs = Ok g →
  ∃ l, chunks (Z.to_nat (total / cs) + 2) g = Some l ∧ tiles cs start total l.
Proof.
  intros Hs Hc Ht He Hcf Hcs Hg. destruct (Z.eq_dec total 0) as [->|Hne].
  - exists []. split; [|reflexivity]. apply ctor_empty in Hg; [|assumption..].
    rewrite Nat.add_comm. cbn. unfold done. by rewrite Hg.
  - destruct (ctor_run start total cs g) as (Hw & Ha & Hsum); [assumption|assumption|lia|assumption..|].
    destruct (chunks_run cs (Z.to_nat (total / cs) + 2) Hcs g Hw) as (l & Hl & Htl).
    + unfold left. pose proof Hw as [].
      assert ((sizeLeft g + cs - 1) / cs ≤ total / cs + 1); [|pose proof (Z.div_pos total cs); lia].
      replace (total / cs + 1) with ((total + 1 * cs) / cs) by (rewrite Z.div_add; lia).
      apply Z.div_le_mono; lia.
    + exists l. rewrite Ha, Hsum in Htl. split; assumption.
Qed.

Lemma chunks_witness : ∃ g l, ctor 0x1030 200 64 = Ok g ∧
  chunks (Z.to_nat (200 / 64) + 2) g = Some l ∧ tiles 64 0x1030 200 l.
Proof.
  destruct (ctor 0x1030 200 64) as [g|] eqn:Hg; [|discriminate Hg].
  destruct (chunks_tile 0x1030 200 64 g) as (l & Hl & Ht);
    [unfold is_u64; lia..|lia|lia|lia|lia|exact Hg|].
  exists g, l. split; [reflexivity|]. split; [exact Hl|exact Ht].
Defined.
End ChunkGenerator.
