(* ===== verification/EventQueue.v ===== *)
(** * The event queue (src/gem5/src/sim/eventq.hh, eventq.cc)

    The scheduler is a linked list of bins, a bin being a stack of events with
    one tick and one priority.  [nextBin] pointers are meaningful only on the
    top event of each bin; below the top they go stale.  Module [Ptr] models the
    intrusive pointers as they are, over a store of events indexed by identity;
    EventQueueSpec.v proves that it implements a sorted list. *)

From S2P Require Import Prelude MemCmd.
#[local] Open Scope Z_scope.

(** ** Keys *)

Abbreviation EvId := nat (only parsing).
Definition key : Type := Z * Z.   (* when, priority *)

Definition key_lt (l r : key) : bool :=
  (l.1 <? r.1) || ((l.1 =? r.1) && (l.2 <? r.2)).
Definition key_le (l r : key) : bool :=
  (l.1 <? r.1) || ((l.1 =? r.1) && (l.2 <=? r.2)).
Definition key_gt (l r : key) : bool :=
  (r.1 <? l.1) || ((l.1 =? r.1) && (r.2 <? l.2)).
Definition key_ge (l r : key) : bool :=
  (r.1 <? l.1) || ((l.1 =? r.1) && (r.2 <=? l.2)).
Definition key_eq (l r : key) : bool := (l.1 =? r.1) && (l.2 =? r.2).
Definition key_ne (l r : key) : bool := negb (l.1 =? r.1) || negb (l.2 =? r.2).

Ltac key_solve :=
  unfold key_lt, key_le, key_gt, key_ge, key_eq, key_ne in *;
  repeat match goal with k : key |- _ => destruct k end; cbn in *; lia.

Lemma key_eq_iff l r : key_eq l r = true ↔ l = r.
Proof.
  destruct l, r. unfold key_eq; cbn. rewrite andb_true_iff, !Z.eqb_eq.
  split; [intros [-> ->]; done | by intros [= -> ->]].
Qed.
Lemma key_lt_trans a b c : key_lt a b = true → key_lt b c = true → key_lt a c = true.
Proof. key_solve. Qed.
Lemma key_le_trans a b c : key_le a b = true → key_le b c = true → key_le a c = true.
Proof. key_solve. Qed.
Lemma key_le_lt_trans a b c : key_le a b = true → key_lt b c = true → key_lt a c = true.
Proof. key_solve. Qed.
Lemma key_lt_le_trans a b c : key_lt a b = true → key_le b c = true → key_lt a c = true.
Proof. key_solve. Qed.
Lemma key_not_lt a b : key_lt a b = false ↔ key_le b a = true.
Proof. split; key_solve. Qed.
Lemma key_not_le a b : key_le a b = false ↔ key_lt b a = true.
Proof. split; key_solve. Qed.
Lemma key_lt_le a b : key_lt a b = true → key_le a b = true.
Proof. key_solve. Qed.
Lemma key_le_antisym a b : key_le a b = true → key_le b a = true → a = b.
Proof. intros. apply key_eq_iff. key_solve. Qed.
Lemma key_lt_irrefl a : key_lt a a = false.
Proof. key_solve. Qed.
Lemma key_le_refl a : key_le a a = true.
Proof. key_solve. Qed.

(** Event priorities. *)
Definition Minimum_Pri : Z := -128.
Definition Default_Pri : Z := 0.
Definition Maximum_Pri : Z := 127.

(** Event flags. *)
Definition Squashed : Z := 0x1.
Definition Scheduled : Z := 0x2.
Definition Managed : Z := 0x4.
Definition IsExitEvent : Z := 0x10.
Definition IsMainQueue : Z := 0x20.
Definition Initialized : Z := 0x7a40.
Definition InitMask : Z := 0xffc0.

(** ** The pointer structure *)

Module Ptr.

Record Event := mkEvent {
  nextBin : option EvId;
  nextInBin : option EvId;
  when : Z;
  priority : Z;
  flags : Z;
}.
#[export] Instance eta_Event : Eta Event := λ e,
  mkEvent (nextBin e) (nextInBin e) (when e) (priority e) (flags e).

Definition ev_key (e : Event) : key := (when e, priority e).

(** The queue object, together with the memory its events live in. *)
Record EventQueue := mkEventQueue {
  mem : gmap EvId Event;
  head : option EvId;
  curTick : Z;
  async_queue : list EvId;
}.
#[export] Instance eta_EventQueue : Eta EventQueue := λ q,
  mkEventQueue (mem q) (head q) (curTick q) (async_queue q).

Abbreviation Q := (M EventQueue).

Definition deref (e : EvId) : Q Event :=
  ev ← gets (λ q, mem q !! e); of_option UndefinedBehavior ev.
Definition upd (e : EvId) (f : Event → Event) : Q unit :=
  ev ← deref e;
  modify (λ q, q <| mem ::= <[e := f ev]> |>).

Definition scheduled (ev : Event) : bool := Flags.isSet (flags ev) Scheduled.
Definition squashed (ev : Event) : bool := Flags.isSet (flags ev) Squashed.
Definition isExitEvent (ev : Event) : bool := Flags.isSet (flags ev) IsExitEvent.
Definition initialized (ev : Event) : bool :=
  Z.land (flags ev) InitMask =? Initialized.

(** [Event(Priority p, Flags f)]; [f] may only hold publicly writable flags. *)
Definition Event_ctor (p f : Z) : Event :=
  mkEvent None None 0 p (Z.lor Initialized f).

(** [Event::insertBefore]: link [event] in front of [curr], either as a new bin
    or on top of [curr]'s bin. *)
Definition insertBefore (event : EvId) (curr : option EvId) : Q EvId :=
  ev ← deref event;
  match curr with
  | None => upd event (λ e, e <| nextBin := None |> <| nextInBin := None |>);; mret event
  | Some c =>
      cv ← deref c;
      if key_lt (ev_key ev) (ev_key cv) then
        upd event (λ e, e <| nextBin := Some c |> <| nextInBin := None |>);; mret event
      else
        upd event (λ e, e <| nextBin := nextBin cv |> <| nextInBin := Some c |>);;
        mret event
  end.

(** The search loop of [insert] and [remove]: advance while [*curr < *event].
    The fuel bounds the number of bins. *)
Fixpoint find_bin (fuel : nat) (k : key) (prev : EvId) (curr : option EvId) :
    Q (EvId * option EvId) :=
  match curr with
  | None => mret (prev, None)
  | Some c =>
      match fuel with
      | O => abort_with UndefinedBehavior
      | S fuel =>
          cv ← deref c;
          if key_lt (ev_key cv) k then find_bin fuel k c (nextBin cv)
          else mret (prev, Some c)
      end
  end.

Definition fuel_of : Q nat := gets (λ q, size (mem q)).

Definition insert (event : EvId) : Q unit :=
  ev ← deref event;
  h ← gets head;
  match h with
  | None => e ← insertBefore event None; modify (λ q, q <| head := Some e |>)
  | Some hd =>
      hv ← deref hd;
      if key_le (ev_key ev) (ev_key hv) then
        e ← insertBefore event (Some hd); modify (λ q, q <| head := Some e |>)
      else
        fuel ← fuel_of;
        '(prev, curr) ← find_bin fuel (ev_key ev) hd (nextBin hv);
        e ← insertBefore event curr;
        upd prev (λ p, p <| nextBin := Some e |>)
  end.

(** The inner loop of [removeItem]: find [event] below [curr] in the bin. *)
Fixpoint find_item (fuel : nat) (event curr : EvId) (next : option EvId) :
    Q (EvId * EvId) :=
  match next with
  | None => abort_with Panicked
  | Some n =>
      if decide (event = n) then mret (curr, n)
      else match fuel with
           | O => abort_with UndefinedBehavior
           | S fuel => nv ← deref n; find_item fuel event n (nextInBin nv)
           end
  end.

Definition removeItem (event top : EvId) : Q (option EvId) :=
  tv ← deref top;
  if decide (event = top) then
    match nextInBin tv with
    | None => mret (nextBin tv)
    | Some n => upd n (λ e, e <| nextBin := nextBin tv |>);; mret (Some n)
    end
  else
    fuel ← fuel_of;
    '(curr, next) ← find_item fuel event top (nextInBin tv);
    nv ← deref next;
    upd curr (λ e, e <| nextInBin := nextInBin nv |>);;
    mret (Some top).

Definition remove (event : EvId) : Q unit :=
  h ← gets head;
  match h with
  | None => abort_with Panicked
  | Some hd =>
      hv ← deref hd;
      ev ← deref event;
      if key_eq (ev_key hv) (ev_key ev) then
        h' ← removeItem event hd; modify (λ q, q <| head := h' |>)
      else
        fuel ← fuel_of;
        '(prev, curr) ← find_bin fuel (ev_key ev) hd (nextBin hv);
        match curr with
        | None => abort_with Panicked
        | Some c =>
            cv ← deref c;
            if key_ne (ev_key cv) (ev_key ev) then abort_with Panicked
            else
              r ← removeItem event c;
              upd prev (λ p, p <| nextBin := r |>)
        end
  end.

(** [release]: a managed event that is no longer scheduled deletes itself. *)
Definition release (event : EvId) : Q unit :=
  ev ← deref event;
  when_ (Flags.isSet (flags ev) Managed && negb (scheduled ev))
    (modify (λ q, q <| mem ::= base.delete event |>)).

Definition asyncInsert (event : EvId) : Q unit :=
  modify (λ q, q <| async_queue ::= λ l, l ++ [event] |>).

(** [schedule(event, when, global)].  [remote] is
    [inParallelMode && (this != curEventQueue() || global)]. *)
Definition schedule (event : EvId) (t : Z) (remote : bool) : Q unit :=
  now ← gets curTick;
  assert_that (now <=? t);;
  ev ← deref event;
  assert_that (negb (scheduled ev));;
  assert_that (initialized ev);;
  upd event (λ e, e <| when := t |>);;
  (if remote then asyncInsert event else insert event);;
  upd event (λ e, e <| flags ::= λ f, Flags.set f Scheduled |>).

Definition deschedule (event : EvId) : Q unit :=
  ev ← deref event;
  assert_that (scheduled ev);;
  assert_that (initialized ev);;
  remove event;;
  upd event (λ e, e <| flags ::= λ f, Flags.clear (Flags.clear f Squashed) Scheduled |>);;
  release event.

Definition reschedule (event : EvId) (t : Z) (always : bool) : Q unit :=
  now ← gets curTick;
  assert_that (now <=? t);;
  ev ← deref event;
  assert_that (always || scheduled ev);;
  assert_that (initialized ev);;
  when_ (scheduled ev) (remove event);;
  upd event (λ e, e <| when := t |>);;
  insert event;;
  upd event (λ e, e <| flags ::= λ f, Flags.set (Flags.clear f Squashed) Scheduled |>).

Definition setCurTick (t : Z) : Q unit := modify (λ q, q <| curTick := t |>).

(** [serviceOne], with the event's own action as a parameter: the result is the
    event when it is an exit event. *)
Definition serviceOne (process : EvId → Q unit) : Q (option EvId) :=
  h ← gets head;
  match h with
  | None => abort_with UndefinedBehavior
  | Some event =>
      ev ← deref event;
      upd event (λ e, e <| flags ::= λ f, Flags.clear f Scheduled |>);;
      match nextInBin ev with
      | Some n =>
          upd n (λ e, e <| nextBin := nextBin ev |>);;
          modify (λ q, q <| head := Some n |>)
      | None => modify (λ q, q <| head := nextBin ev |>)
      end;;
      if negb (squashed ev) then
        setCurTick (when ev);;
        process event;;
        ev' ← deref event;
        if isExitEvent ev' then
          assert_that (negb (Flags.isSet (flags ev') Managed) ||
                       negb (Flags.isSet (flags ev') IsMainQueue));;
          mret (Some event)
        else release event;; mret None
      else
        upd event (λ e, e <| flags ::= λ f, Flags.clear f Squashed |>);;
        release event;; mret None
  end.

(** [serviceEvents(when)]: the loop services an unbounded number of events (an
    event may schedule others), so it is cut off by fuel. *)
Fixpoint serviceEvents (fuel : nat) (process : EvId → Q unit) (t : Z) : Q unit :=
  match fuel with
  | O => abort_with UndefinedBehavior
  | S fuel =>
      h ← gets head;
      match h with
      | None => setCurTick t
      | Some hd =>
          hv ← deref hd;
          if t <? when hv then setCurTick t
          else serviceOne process;; serviceEvents fuel process t
      end
  end.

Fixpoint handleAsync (l : list EvId) : Q unit :=
  match l with
  | [] => mret tt
  | e :: l => insert e;; modify (λ q, q <| async_queue := l |>);; handleAsync l
  end.
Definition handleAsyncInsertions : Q unit :=
  l ← gets async_queue; handleAsync l.

Definition checkpointReschedule (event : EvId) : Q unit :=
  ev ← deref event;
  when_ (scheduled ev) (insert event).

Definition replaceHead (s : option EvId) : Q (option EvId) :=
  h ← gets head; modify (λ q, q <| head := s |>);; mret h.

(** [debugVerify] walks the bins and, in each, the stack; [None] is the
    [return false] of the source. *)
Fixpoint verify_in_bin (fuel : nat) (p : option EvId) (time prio : Z) (seen : gset EvId) :
    Q (option (Z * Z * gset EvId)) :=
  match p with
  | None => mret (Some (time, prio, seen))
  | Some e =>
      match fuel with
      | O => abort_with UndefinedBehavior
      | S fuel =>
          ev ← deref e;
          if when ev <? time then mret None
          else if (when ev =? time) && (priority ev <? prio) then mret None
          else if decide (e ∈ seen) then mret None
          else verify_in_bin fuel (nextInBin ev) (when ev) (priority ev) ({[e]} ∪ seen)
      end
  end.

Fixpoint verify_bins (fuel fuel_in : nat) (p : option EvId) (time prio : Z)
    (seen : gset EvId) : Q bool :=
  match p with
  | None => mret true
  | Some e =>
      match fuel with
      | O => abort_with UndefinedBehavior
      | S fuel =>
          r ← verify_in_bin fuel_in (Some e) time prio seen;
          match r with
          | None => mret false
          | Some (time, prio, seen) =>
              ev ← deref e;
              verify_bins fuel fuel_in (nextBin ev) time prio seen
          end
      end
  end.

Definition debugVerify : Q bool :=
  fuel ← fuel_of;
  h ← gets head;
  verify_bins fuel fuel h 0 0 ∅.

End Ptr.
