(* ===== verification/EventQueueSpec.v ===== *)
(** * What the event queue promises

    Module [Abs] is the abstract queue: a list sorted by (tick, priority), last
    in first out among equal keys.  Module [Bins] relates it to the linked bins
    of EventQueue.v through a representation predicate and specifies every
    pointer routine; Module [Verify] does so for the queue's self-check; Module
    [Refine] proves that [schedule], [deschedule], [reschedule] and
    [serviceOne] implement the abstract operations. *)

From S2P Require Import Prelude MemCmd EventQueue.
#[local] Open Scope Z_scope.
(** ** The abstract queue *)

Module Abs.

Abbreviation queue := (list (key * EvId)).

(** In front of the first event that is not strictly earlier: among equal keys
    the last event scheduled runs first. *)
Fixpoint insert (k : key) (e : EvId) (q : queue) : queue :=
  match q with
  | [] => [(k, e)]
  | (k', e') :: q' =>
      if key_lt k' k then (k', e') :: insert k e q' else (k, e) :: (k', e') :: q'
  end.
Definition remove (e : EvId) (q : queue) : queue := filter (λ x, x.2 ≠ e) q.
Definition pop (q : queue) : option (key * EvId * queue) :=
  match q with [] => None | (k, e) :: q => Some (k, e, q) end.
Definition ids (q : queue) : list EvId := q.*2.
Definition sorted (q : queue) : Prop :=
  StronglySorted (λ a b, key_le a.1 b.1 = true) q.

Lemma insert_perm k e q : insert k e q ≡ₚ (k, e) :: q.
Proof.
  induction q as [|[k' e'] q IH]; [done|]. cbn.
  destruct (key_lt k' k); [|done]. rewrite IH. apply Permutation_swap.
Qed.

Lemma insert_ids k e q : ids (insert k e q) ≡ₚ e :: ids q.
Proof. unfold ids. by rewrite insert_perm. Qed.

Lemma insert_sorted k e q : sorted q → sorted (insert k e q).
Proof.
  unfold sorted. induction 1 as [|[k' e'] q Hs IH Hall]; cbn.
  - repeat constructor.
  - destruct (key_lt k' k) eqn:E.
    + constructor; [done|]. rewrite insert_perm. constructor; [|exact Hall].
      by apply key_lt_le.
    + apply key_not_lt in E. constructor; [by constructor|].
      constructor; [done|]. eapply Forall_impl; [exact Hall|]. intros x Hx.
      by eapply key_le_trans.
Qed.

Lemma remove_sorted e q : sorted q → sorted (remove e q).
Proof.
  unfold sorted, remove. induction 1 as [|x q Hs IH Hall]; [constructor|].
  rewrite filter_cons. case_decide; [|done]. constructor; [done|].
  by apply list_filter_keeps.
Qed.

(** Equal keys are last-in first-out: a new event precedes every queued event of
    the same key, and follows every queued event of an earlier key. *)
Lemma insert_lifo k e q :
  sorted q → ∃ q1 q2, insert k e q = q1 ++ (k, e) :: q2 ∧ q = q1 ++ q2 ∧
    Forall (λ x, key_lt x.1 k = true) q1 ∧ Forall (λ x, key_le k x.1 = true) q2.
Proof.
  unfold sorted. induction 1 as [|[k' e'] q Hs IH Hall]; cbn.
  - by exists [], [].
  - destruct (key_lt k' k) eqn:E.
    + destruct IH as (q1 & q2 & -> & -> & H1 & H2).
      exists ((k', e') :: q1), q2. repeat split; [|done]. by constructor.
    + apply key_not_lt in E. exists [], ((k', e') :: q). repeat split; [constructor|].
      constructor; [done|]. eapply Forall_impl; [exact Hall|]. intros x Hx.
      by eapply key_le_trans.
Qed.

End Abs.

(** ** Bins: the structure the pointers encode *)

Module Bins.
Import Ptr.

Abbreviation bins := (list (key * list EvId)).

Definition ids (bs : bins) : list EvId := concat (bs.*2).
Definition flatten (bs : bins) : Abs.queue :=
  concat ((λ b : key * list EvId, (λ e, (b.1, e)) <$> b.2) <$> bs).

Fixpoint insert (k : key) (e : EvId) (bs : bins) : bins :=
  match bs with
  | [] => [(k, [e])]
  | (k', es) :: bs' =>
      if key_lt k' k then (k', es) :: insert k e bs'
      else if key_lt k k' then (k, [e]) :: (k', es) :: bs'
      else (k', e :: es) :: bs'
  end.

Definition rm (e : EvId) (es : list EvId) : list EvId := filter (λ x, x ≠ e) es.
Definition put (k : key) (es : list EvId) (bs : bins) : bins :=
  match es with [] => bs | _ => (k, es) :: bs end.

Fixpoint remove (k : key) (e : EvId) (bs : bins) : bins :=
  match bs with
  | [] => []
  | (k', es) :: bs' =>
      if key_lt k' k then (k', es) :: remove k e bs' else put k' (rm e es) bs'
  end.

Inductive chain (h : gmap EvId Event) (k : key) : option EvId → list EvId → Prop :=
  | chain_nil : chain h k None []
  | chain_cons e ev l :
      h !! e = Some ev → ev_key ev = k → chain h k (nextInBin ev) l →
      chain h k (Some e) (e :: l).

Inductive rep (h : gmap EvId Event) : option EvId → bins → Prop :=
  | rep_nil : rep h None []
  | rep_cons e ev k l bs :
      h !! e = Some ev → ev_key ev = k → chain h k (nextInBin ev) l →
      rep h (nextBin ev) bs → rep h (Some e) ((k, e :: l) :: bs).

Definition sorted (bs : bins) : Prop :=
  StronglySorted (λ a b, key_lt a.1 b.1 = true) bs.

#[local] Hint Constructors chain rep : core.

(** *** Flattening *)

Lemma flatten_cons k es bs : flatten ((k, es) :: bs) = ((λ x, (k, x)) <$> es) ++ flatten bs.
Proof. done. Qed.

Lemma flatten_ids bs : Abs.ids (flatten bs) = ids bs.
Proof.
  unfold Abs.ids. induction bs as [|[k es] bs IH]; [done|].
  rewrite flatten_cons, fmap_app, IH. unfold ids. cbn. f_equal.
  rewrite <- list_fmap_compose. apply list_fmap_id.
Qed.

Lemma abs_insert_skip k e k' es (q : Abs.queue) :
  key_lt k' k = true →
  Abs.insert k e (((λ x, (k', x)) <$> es) ++ q) = ((λ x, (k', x)) <$> es) ++ Abs.insert k e q.
Proof. intros E. induction es as [|x es IH]; cbn; [done|]. by rewrite E, IH. Qed.

Lemma flatten_insert k e bs :
  sorted bs → Forall (λ b, b.2 ≠ []) bs →
  flatten (insert k e bs) = Abs.insert k e (flatten bs).
Proof.
  unfold sorted. induction 1 as [|[k' es] bs Hs IH Hall]; intros Hne; [done|].
  apply Forall_cons in Hne as [Hne1 Hne]. cbn [insert]. destruct (key_lt k' k) eqn:E1.
  - rewrite !flatten_cons, abs_insert_skip by done. by rewrite IH.
  - destruct es as [|x es]; [done|]. destruct (key_lt k k') eqn:E2.
    + rewrite !flatten_cons. cbn. by rewrite E1.
    + assert (k = k') as -> by (apply key_le_antisym; by apply key_not_lt).
      rewrite !flatten_cons. cbn. by rewrite E1.
Qed.

Lemma flatten_filter_fresh e bs :
  e ∉ ids bs → Abs.remove e (flatten bs) = flatten bs.
Proof.
  intros H. rewrite <- flatten_ids in H. unfold Abs.remove, Abs.ids in *.
  revert H. generalize (flatten bs) as q. clear.
  induction q as [|x q IH]; intros H; [done|].
  rewrite filter_cons. rewrite fmap_cons, not_elem_of_cons in H. destruct H as [H1 H2].
  rewrite decide_True by congruence. by rewrite IH.
Qed.

Lemma remove_pair k e es :
  Abs.remove e ((λ x, (k, x)) <$> es) = (λ x, (k, x)) <$> rm e es.
Proof.
  unfold Abs.remove, rm. induction es as [|x es IH]; [done|].
  rewrite fmap_cons, !filter_cons. cbn. repeat case_decide; try done. cbn. by rewrite IH.
Qed.

Lemma flatten_put k es bs : flatten (put k es bs) = ((λ x, (k, x)) <$> es) ++ flatten bs.
Proof. by destruct es. Qed.

Lemma flatten_remove k e bs :
  NoDup (ids bs) → (∃ es, (k, es) ∈ bs ∧ e ∈ es) → sorted bs →
  flatten (remove k e bs) = Abs.remove e (flatten bs).
Proof.
  intros Hnd Hin Hs. unfold sorted in Hs. induction Hs as [|[k' es] bs Hs IH Hall].
  - destruct Hin as (es & H & _). by apply not_elem_of_nil in H.
  - unfold ids in Hnd. cbn in Hnd. apply NoDup_app in Hnd as (Hnd1 & Hdis & Hnd2).
    fold (ids bs) in Hnd2, Hdis. cbn [remove]. rewrite flatten_cons.
    unfold Abs.remove. rewrite filter_app. fold (Abs.remove e ((λ x, (k', x)) <$> es)).
    fold (Abs.remove e (flatten bs)).
    destruct Hin as (es' & Hin & He). apply elem_of_cons in Hin as [[= -> ->]|Hin].
    + rewrite key_lt_irrefl, flatten_put, remove_pair.
      by rewrite flatten_filter_fresh by eauto.
    + rewrite Forall_forall in Hall. specialize (Hall _ Hin) as Hlt. cbn in Hlt.
      rewrite Hlt, flatten_cons, IH by eauto. f_equal.
      rewrite remove_pair. unfold rm. f_equal. symmetry. apply list_filter_id.
      intros x Hx ->. apply (Hdis e Hx). unfold ids.
      apply list_elem_of_In, in_concat. exists es'. rewrite <- !list_elem_of_In.
      split; [|done]. apply list_elem_of_fmap. by exists (k, es').
Qed.

(** *** Frames *)

Lemma ids_cons k es bs : ids ((k, es) :: bs) = es ++ ids bs.
Proof. done. Qed.

Lemma chain_frame h h' k p l :
  chain h k p l → (∀ e, e ∈ l → h' !! e = h !! e) → chain h' k p l.
Proof.
  induction 1 as [|e ev l He Hk Hc IH]; intros Heq; [done|].
  econstructor; [|done|].
  - rewrite Heq; [done|]. by left.
  - apply IH. intros x Hx. apply Heq. by right.
Qed.

Lemma rep_frame h h' p bs :
  rep h p bs → (∀ e, e ∈ ids bs → h' !! e = h !! e) → rep h' p bs.
Proof.
  induction 1 as [|e ev k l bs He Hk Hc Hr IH]; intros Heq; [done|].
  rewrite ids_cons in Heq. econstructor; [|done| |].
  - rewrite Heq; [done|]. set_solver.
  - eapply chain_frame; [done|]. intros x Hx. apply Heq. set_solver.
  - apply IH. intros x Hx. apply Heq. set_solver.
Qed.

Lemma chain_in h k p l e : chain h k p l → e ∈ l → ∃ ev, h !! e = Some ev ∧ ev_key ev = k.
Proof. induction 1; set_solver. Qed.

Lemma rep_in h p bs k es e :
  rep h p bs → (k, es) ∈ bs → e ∈ es → ∃ ev, h !! e = Some ev ∧ ev_key ev = k.
Proof.
  induction 1 as [|e' ev k' l bs He Hk Hc Hr IH]; intros Hin Hes.
  - by apply not_elem_of_nil in Hin.
  - apply elem_of_cons in Hin as [[= -> ->]|Hin]; [|eauto].
    apply elem_of_cons in Hes as [->|Hes]; [eauto|]. by eapply chain_in.
Qed.

Lemma rep_ids_in h p bs e : rep h p bs → e ∈ ids bs → is_Some (h !! e).
Proof.
  intros Hr He. unfold ids in He. apply list_elem_of_In, in_concat in He as (es & Hes & He).
  apply list_elem_of_In, list_elem_of_fmap in Hes as ([k es'] & -> & Hin).
  apply list_elem_of_In in He. destruct (rep_in h p bs k es' e Hr Hin He) as (ev & -> & _).
  by eexists.
Qed.

Lemma rep_nonempty h p bs : rep h p bs → Forall (λ b, b.2 ≠ []) bs.
Proof. induction 1; constructor; done. Qed.

Lemma rep_length h p bs : rep h p bs → NoDup (ids bs) → (length (ids bs) ≤ size h)%nat.
Proof.
  intros Hr Hnd. rewrite <- size_dom.
  rewrite <- (size_list_to_set (C := gset EvId)) by done.
  apply subseteq_size. intros e He. apply elem_of_list_to_set in He.
  apply elem_of_dom. by eapply rep_ids_in.
Qed.

Lemma rep_length_bins h p bs : rep h p bs → (length bs ≤ length (ids bs))%nat.
Proof.
  induction 1; [done|]. rewrite ids_cons, length_app. cbn. lia.
Qed.

(** The fields scheduling never touches. *)
Definition payload (e : Event) : Z * Z * Z := (when e, priority e, flags e).

(** *** Running the pointer code *)

Abbreviation Qst := mkEventQueue.

Lemma deref_run h hd t a e ev :
  h !! e = Some ev → deref e (Qst h hd t a) = Ok (ev, Qst h hd t a).
Proof. intros H. unfold deref, mbind, M_bind, gets. cbn. by rewrite H. Qed.

Lemma upd_run h hd t a e ev f :
  h !! e = Some ev → upd e f (Qst h hd t a) = Ok (tt, Qst (<[e := f ev]> h) hd t a).
Proof. intros H. unfold upd. by rewrite (bind_run _ _ _ _ _ (deref_run _ _ _ _ _ _ H)). Qed.

Ltac run := erewrite bind_run by (first [by apply deref_run | by apply upd_run | done]).

Lemma insertBefore_spec h hd t a event ev p bs :
  h !! event = Some ev → rep h p bs → event ∉ ids bs →
  (∀ k es bs', bs = (k, es) :: bs' → key_lt k (ev_key ev) = false) →
  ∃ ev', payload ev' = payload ev ∧
    insertBefore event p (Qst h hd t a) = Ok (event, Qst (<[event := ev']> h) hd t a) ∧
    rep (<[event := ev']> h) (Some event) (insert (ev_key ev) event bs).
Proof.
  intros He Hr Hni Hord. unfold insertBefore. run.
  destruct Hr as [|c cv k l bs Hc Hk Hch Hr].
  - eexists. split; [|split]; [|by run|]; [done|].
    cbn. econstructor; [apply lookup_insert_eq|done|constructor|constructor].
  - specialize (Hord _ _ _ eq_refl). run. rewrite ids_cons in Hni. cbn [insert].
    rewrite Hk, Hord. destruct (key_lt (ev_key ev) k) eqn:E.
    + eexists. split; [|split]; [|by run|]; [done|].
      econstructor; [apply lookup_insert_eq|done|constructor|]. cbn.
      eapply rep_frame; [econstructor; done|].
      intros x Hx. rewrite lookup_insert_ne; [done|]. rewrite ids_cons in Hx. set_solver.
    + assert (ev_key ev = k) as Hek by (apply key_le_antisym; by apply key_not_lt).
      eexists. split; [|split]; [|by run|]; [done|].
      econstructor; [apply lookup_insert_eq|done| |]; cbn.
      * econstructor.
        -- rewrite lookup_insert_ne; [done|]. set_solver.
        -- done.
        -- eapply chain_frame; [done|]. intros x Hx.
           rewrite lookup_insert_ne; [done|]. set_solver.
      * eapply rep_frame; [done|]. intros x Hx.
        rewrite lookup_insert_ne; [done|]. set_solver.
Qed.

(** Everything but the event and the given ids is left alone, and no payload
    changes. *)
Definition preserves (h h' : gmap EvId Event) (touched : list EvId) : Prop :=
  (∀ x, x ∉ touched → h' !! x = h !! x) ∧
  (∀ x, payload <$> h' !! x = payload <$> h !! x).

Lemma preserves_refl h l : preserves h h l.
Proof. done. Qed.
Lemma preserves_insert h l x xv xv' :
  h !! x = Some xv → payload xv' = payload xv → x ∈ l → preserves h (<[x := xv']> h) l.
Proof.
  intros Hx Hp Hl. split; intros y.
  - intros Hy. rewrite lookup_insert_ne; [done|]. set_solver.
  - rewrite lookup_insert. case_decide; subst; [|done]. rewrite Hx. cbn. by rewrite Hp.
Qed.
Lemma preserves_trans h1 h2 h3 l1 l2 l :
  preserves h1 h2 l1 → preserves h2 h3 l2 → l1 ⊆ l → l2 ⊆ l → preserves h1 h3 l.
Proof.
  intros [A1 B1] [A2 B2] S1 S2. split; intros x.
  - intros Hx. rewrite A2, A1; [done| |]; set_solver.
  - by rewrite B2, B1.
Qed.
Lemma preserves_key h h' l x xv :
  preserves h h' l → h !! x = Some xv → ∃ xv', h' !! x = Some xv' ∧ payload xv' = payload xv.
Proof.
  intros [_ B] Hx. specialize (B x). rewrite Hx in B. cbn in B.
  destruct (h' !! x) as [v|]; [|done]. injection B as B. exists v. split; [done|].
  unfold payload. congruence.
Qed.

(** A bin untouched by a change keeps its place before the changed bins. *)
Lemma rep_behind h h' l prev pv lp bs :
  h !! prev = Some pv → chain h (ev_key pv) (nextInBin pv) lp → preserves h h' l →
  (∀ x, x ∈ prev :: lp → x ∉ l) → rep h' (nextBin pv) bs → rep h' (Some prev) ((ev_key pv, prev :: lp) :: bs).
Proof.
  intros Hp Hch Hpres Hl Hr. apply (rep_cons h' prev pv); [|done| |done].
  - rewrite (proj1 Hpres); [done|]. apply Hl. by left.
  - eapply chain_frame; [done|]. intros x Hx. apply (proj1 Hpres), Hl. by right.
Qed.

(** Linking a new bin list after the bin on top of which [prev] sits. *)
Lemma relink h hd t a event prev pv k0 lp bs bs' h1 :
  h !! prev = Some pv → ev_key pv = k0 → chain h k0 (nextInBin pv) lp →
  NoDup (prev :: lp) → event ≠ prev → event ∉ lp →
  preserves h h1 [event] → rep h1 (Some event) bs' → prev ∉ ids bs' →
  (∀ x, x ∈ lp → x ∉ ids bs') →
  ∃ h', upd prev (λ p, p <| nextBin := Some event |>) (Qst h1 hd t a) =
          Ok (tt, Qst h' hd t a) ∧
    rep h' (Some prev) ((k0, prev :: lp) :: bs') ∧
    preserves h h' (event :: ids ((k0, prev :: lp) :: bs)).
Proof.
  intros Hp Hk Hch Hnd Hne Hni Hpres Hrep Hnp Hdis.
  assert (h1 !! prev = Some pv) as Hp1.
  { rewrite (proj1 Hpres); [done|]. set_solver. }
  apply NoDup_cons in Hnd as [Hnd1 Hnd2].
  eexists. split; [by apply upd_run|]. split.
  - econstructor; [apply lookup_insert_eq|done| |]; cbn.
    + eapply chain_frame; [done|]. intros x Hx.
      rewrite lookup_insert_ne by set_solver. apply (proj1 Hpres). set_solver.
    + eapply rep_frame; [done|]. intros x Hx. rewrite lookup_insert_ne; [done|]. set_solver.
  - eapply (preserves_trans _ h1 _ [event] [prev]); [done| | |].
    + by eapply preserves_insert; [done|done|left].
    + set_solver.
    + rewrite ids_cons. set_solver.
Qed.

Lemma insert_ids_perm k e bs : ids (insert k e bs) ≡ₚ e :: ids bs.
Proof.
  induction bs as [|[k' es] bs IH]; [done|]. cbn [insert].
  destruct (key_lt k' k); [|destruct (key_lt k k')]; rewrite !ids_cons; [|done|done].
  rewrite IH. symmetry. apply Permutation_middle.
Qed.

Lemma insert_after_spec k bs : ∀ h hd t a event ev k0 prev pv lp fuel,
  h !! event = Some ev → ev_key ev = k → h !! prev = Some pv →
  rep h (Some prev) ((k0, prev :: lp) :: bs) → key_lt k0 k = true →
  NoDup (ids ((k0, prev :: lp) :: bs)) → event ∉ ids ((k0, prev :: lp) :: bs) →
  (length bs ≤ fuel)%nat →
  ∃ h', ('(p, curr) ← find_bin fuel k prev (nextBin pv);
         e ← insertBefore event curr;
         upd p (λ x, x <| nextBin := Some e |>)) (Qst h hd t a) =
          Ok (tt, Qst h' hd t a) ∧
    rep h' (Some prev) ((k0, prev :: lp) :: insert k event bs) ∧
    preserves h h' (event :: ids ((k0, prev :: lp) :: bs)).
Proof.
  induction bs as [|[k1 es1] bs IH];
    intros h hd t a event ev k0 prev pv lp fuel He Hek Hp Hrep Hlt Hnd Hni Hfuel;
    inversion Hrep as [|? pv' ? ? ? Hp' Hpk Hch Hr]; subst; simplify_eq;
    rewrite ids_cons in Hnd, Hni; apply NoDup_app in Hnd as (Hnd1 & Hdis & Hnd2).
  - inversion Hr as [Hnb|].
    erewrite bind_run by (by destruct fuel). cbv beta iota.
    destruct (insertBefore_spec h hd t a event ev None [] He) as (ev' & Hpl & Hrun & Hrep');
      [constructor|set_solver|done|].
    erewrite bind_run by exact Hrun.
    eapply (relink h hd t a event prev pv _ lp [] _ (<[event := ev']> h)); try done; try set_solver.
    by eapply preserves_insert; [done|done|left].
  - inversion Hr as [|c cv ? l1 ? Hc Hck Hch1 Hr1 Hnb]; subst.
    destruct fuel as [|fuel]; [cbn in Hfuel; lia|]. cbn [find_bin]. 
    destruct (key_lt (ev_key cv) (ev_key ev)) eqn:E.
    + edestruct (IH h hd t a event ev (ev_key cv) c cv l1 fuel)
        as (h' & Hrun & Hrep' & Hpres); try done.
      { by econstructor. } { set_solver. }
      { cbn in Hfuel. lia. }
      exists h'. split; [|split].
      * rewrite <- Hrun. unfold mbind, M_bind. rewrite (deref_run _ _ _ _ _ _ Hc).
        by rewrite E.
      * cbn [insert]. rewrite E. eapply rep_behind; [done|done|exact Hpres|set_solver|by rewrite <- Hnb].
      * eapply preserves_trans; [exact Hpres|apply preserves_refl|..].
        -- rewrite (ids_cons (ev_key pv)). set_solver.
        -- apply list_subseteq_nil.
    + destruct (insertBefore_spec h hd t a event ev (Some c)
                  ((ev_key cv, c :: l1) :: bs) He) as (ev' & Hpl & Hrun & Hrep').
      { by econstructor. } { set_solver. } { intros ? ? ? [= <- <- <-]. done. }
      assert (∀ x, x ∈ ids (insert (ev_key ev) event ((ev_key cv, c :: l1) :: bs)) →
                   x = event ∨ x ∈ ids ((ev_key cv, c :: l1) :: bs)) as Hids.
      { intros x Hx. rewrite insert_ids_perm in Hx. set_solver. }
      edestruct (relink h hd t a event prev pv (ev_key pv) lp
                  ((ev_key cv, c :: l1) :: bs)
                  (insert (ev_key ev) event ((ev_key cv, c :: l1) :: bs))
                  (<[event := ev']> h)) as (h' & Hupd & Hr' & Hpr); try done.
      { set_solver. } { set_solver. }
      { by eapply preserves_insert; [done|done|left]. }
      { intros Hx%Hids. set_solver. } { intros x Hx Hx'%Hids. set_solver. }
      exists h'. split; [|done]. rewrite <- Hupd.
      unfold mbind, M_bind. rewrite (deref_run _ _ _ _ _ _ Hc), E. cbn. by rewrite Hrun.
Qed.

Lemma insert_spec h hd t a event ev bs :
  h !! event = Some ev → rep h hd bs → NoDup (ids bs) → event ∉ ids bs →
  ∃ h' hd', Ptr.insert event (Qst h hd t a) = Ok (tt, Qst h' hd' t a) ∧
    rep h' hd' (insert (ev_key ev) event bs) ∧ preserves h h' (event :: ids bs).
Proof.
  intros He Hrep Hnd Hni. unfold Ptr.insert. run. 
  destruct Hrep as [|c cv k l bs Hc Hk Hch Hr].
  - destruct (insertBefore_spec h None t a event ev None [] He) as (ev' & Hpl & Hrun & Hrep');
      [constructor|set_solver|done|].
    eexists _, _. split; [|split; [exact Hrep'|]].
    + unfold mbind, M_bind, gets. cbn. by rewrite Hrun.
    + by eapply preserves_insert; [done|done|left].
  - unfold mbind at 1, M_bind at 1, gets. cbn [head]. run. rewrite Hk.
    destruct (key_le (ev_key ev) k) eqn:E.
    + destruct (insertBefore_spec h (Some c) t a event ev (Some c) ((k, c :: l) :: bs) He)
        as (ev' & Hpl & Hrun & Hrep').
      { by econstructor. } { done. }
      { intros ? ? ? [= <- <- <-]. by apply key_not_lt. }
      eexists _, _. split; [|split; [exact Hrep'|]].
      * unfold mbind, M_bind. by rewrite Hrun.
      * by eapply preserves_insert; [done|done|left].
    + apply key_not_le in E.
      destruct (insert_after_spec (ev_key ev) bs h (Some c) t a event ev k c cv l (size h))
        as (h' & Hrun & Hrep' & Hpres); try done.
      { by econstructor. }
      { pose proof (rep_length h (Some c) ((k, c :: l) :: bs) ltac:(by econstructor) Hnd).
        pose proof (rep_length_bins h (nextBin cv) bs Hr). rewrite ids_cons in *.
        rewrite length_app in *. cbn in *. lia. }
      eexists _, _. split; [|split; [|exact Hpres]].
      * unfold fuel_of, mbind at 1, M_bind at 1, gets. cbn [mem]. exact Hrun.
      * cbn [insert]. by rewrite E.
Qed.

(** *** Removal *)

Lemma rm_cons_eq e l : e ∉ l → rm e (e :: l) = l.
Proof.
  intros H. unfold rm. rewrite filter_cons, decide_False by (by intros []).
  apply list_filter_id. intros x Hx ->. done.
Qed.
Lemma rm_cons_ne e x l : x ≠ e → rm e (x :: l) = x :: rm e l.
Proof. intros H. unfold rm. by rewrite filter_cons, decide_True. Qed.
Lemma rm_fresh e l : e ∉ l → rm e l = l.
Proof. intros H. apply list_filter_id. intros x Hx ->. done. Qed.
Lemma rm_sub e l x : x ∈ rm e l → x ∈ l.
Proof. intros Hx. by apply list_elem_of_filter in Hx as [_ ?]. Qed.

Lemma unlink_spec k l : ∀ h hd t a event curr cv fuel,
  h !! curr = Some cv → ev_key cv = k → chain h k (nextInBin cv) l → event ∈ l →
  NoDup (curr :: l) → (length l ≤ fuel)%nat →
  ∃ h', ('(c, n) ← find_item fuel event curr (nextInBin cv);
         nv ← deref n;
         upd c (λ e, e <| nextInBin := nextInBin nv |>)) (Qst h hd t a) =
          Ok (tt, Qst h' hd t a) ∧
    chain h' k (Some curr) (curr :: rm event l) ∧
    preserves h h' (curr :: l) ∧
    (∀ x, nextBin <$> h' !! x = nextBin <$> h !! x).
Proof.
  induction l as [|n l IH]; intros h hd t a event curr cv fuel Hc Hk Hch Hin Hnd Hfuel.
  { by apply not_elem_of_nil in Hin. }
  inversion Hch as [|? nv ? Hn Hnk Hch' Hnext]; subst.
  apply NoDup_cons in Hnd as [Hcn Hnd]. pose proof Hnd as [Hn' Hnd']%NoDup_cons.
  destruct fuel as [|fuel]; [cbn in Hfuel; lia|]. cbn [find_item].
  case_decide as Heq.
  - subst n. erewrite bind_run by done. cbv beta iota. run.
    exists (<[curr := cv <| nextInBin := nextInBin nv |>]> h).
    split; [by apply upd_run|]. rewrite rm_cons_eq by done. split; [|split].
    + econstructor; [apply lookup_insert_eq|done|]. cbn.
      eapply chain_frame; [exact Hch'|]. intros x Hx.
      rewrite lookup_insert_ne; [done|]. set_solver.
    + eapply preserves_insert; [done|done|left].
    + intros x. rewrite lookup_insert. case_decide; subst; [by rewrite Hc|done].
  - apply elem_of_cons in Hin as [->|Hin]; [done|].
    destruct (IH h hd t a event n nv fuel) as (h' & Hrun & Hch2 & Hpres & Hnb); try done.
    { cbn in Hfuel. lia. }
    exists h'. split; [|split; [|split]].
    + rewrite <- Hrun. unfold mbind, M_bind. by rewrite (deref_run _ _ _ _ _ _ Hn).
    + rewrite rm_cons_ne by congruence.
      apply (chain_cons h' _ curr cv); [|done|by rewrite <- Hnext].
      rewrite (proj1 Hpres); done.
    + eapply (preserves_trans _ h'); [exact Hpres|apply (preserves_refl _ [])|set_solver|].
      apply list_subseteq_nil.
    + done.
Qed.

Lemma removeItem_spec h hd t a event top k l bs :
  rep h (Some top) ((k, top :: l) :: bs) → event ∈ top :: l →
  NoDup (ids ((k, top :: l) :: bs)) →
  ∃ h' r, removeItem event top (Qst h hd t a) = Ok (r, Qst h' hd t a) ∧
    rep h' r (put k (rm event (top :: l)) bs) ∧ preserves h h' (top :: l).
Proof.
  intros Hrep Hin Hnd. pose proof (rep_length _ _ _ Hrep Hnd) as Hsz.
  inversion Hrep as [|? tv ? ? ? Ht Hk Hch Hr]; subst.
  rewrite ids_cons in Hnd, Hsz. apply NoDup_app in Hnd as (Hnd1 & Hdis & Hnd2).
  pose proof Hnd1 as [Hnt Hndl]%NoDup_cons.
  unfold removeItem. run. case_decide as Heq.
  - subst event. rewrite rm_cons_eq by done. destruct Hch as [|n nv l Hn Hnk Hch].
    + eexists _, _. split; [done|]. split; [done|apply preserves_refl].
    + eexists _, _. split; [by run|]. cbn [put]. split.
      * econstructor; [apply lookup_insert_eq|done| |]; cbn.
        -- eapply chain_frame; [done|]. intros x Hx. rewrite lookup_insert_ne; [done|].
           apply NoDup_cons in Hndl as [? _]. set_solver.
        -- eapply rep_frame; [done|]. intros x Hx. rewrite lookup_insert_ne; [done|].
           set_solver.
      * eapply preserves_insert; [done|done|set_solver].
  - apply elem_of_cons in Hin as [->|Hin]; [done|].
    destruct (unlink_spec (ev_key tv) l h hd t a event top tv (size h))
      as (h' & Hrun & Hch' & Hpres & Hnb); try done.
    { rewrite length_app in Hsz. cbn in Hsz. lia. }
    exists h', (Some top). split; [|split].
    + unfold fuel_of. erewrite bind_run by done. cbv beta.
      unfold mbind, M_bind in Hrun |- *. cbn [mem].
      destruct (find_item _ _ _ _ _) as [[[c n] s]|]; [|done].
      destruct (deref n s) as [[nv s']|]; [|done].
      destruct (upd _ _ s') as [[u s'']|]; [|done]. injection Hrun as _ Hq. by rewrite Hq.
    + rewrite rm_cons_ne by done. cbn [put].
      inversion Hch' as [|? tv' ? Ht' Hk' Hch'']; subst. econstructor; [done|done|done|].
      specialize (Hnb top). rewrite Ht', Ht in Hnb. injection Hnb as ->.
      eapply rep_frame; [done|]. intros x Hx. apply (proj1 Hpres).
      intros Hx'. by apply (Hdis x).
    + done.
Qed.

Lemma put_ids k es bs : ids (put k es bs) = es ++ ids bs.
Proof. by destruct es. Qed.

Lemma remove_after_spec k bs : ∀ h hd t a event ev k0 prev pv lp fuel,
  h !! event = Some ev → ev_key ev = k → h !! prev = Some pv →
  rep h (Some prev) ((k0, prev :: lp) :: bs) → sorted bs →
  (∃ es, (k, es) ∈ bs ∧ event ∈ es) →
  NoDup (ids ((k0, prev :: lp) :: bs)) → (length bs ≤ fuel)%nat →
  ∃ h', ('(p, curr) ← find_bin fuel k prev (nextBin pv);
         match curr with
         | None => abort_with Panicked
         | Some c =>
             cv ← deref c;
             if key_ne (ev_key cv) (ev_key ev) then abort_with Panicked
             else r ← removeItem event c; upd p (λ x, x <| nextBin := r |>)
         end) (Qst h hd t a) = Ok (tt, Qst h' hd t a) ∧
    rep h' (Some prev) ((k0, prev :: lp) :: remove k event bs) ∧
    preserves h h' (ids ((k0, prev :: lp) :: bs)).
Proof.
  induction bs as [|[k1 es1] bs IH];
    intros h hd t a event ev k0 prev pv lp fuel He Hek Hp Hrep Hs Hex Hnd Hfuel.
  { destruct Hex as (es & Hin & _). by apply not_elem_of_nil in Hin. }
  inversion Hrep as [|? pv' ? ? ? Hp' Hpk Hch Hr]; subst; simplify_eq.
  rewrite ids_cons in Hnd; apply NoDup_app in Hnd as (Hnd1 & Hdis & Hnd2).
  inversion Hr as [|c cv ? l1 ? Hc Hck Hch1 Hr1 Hnb]; subst.
  apply StronglySorted_inv in Hs as [Hs Hall].
  destruct fuel as [|fuel]; [cbn in Hfuel; lia|]. cbn [find_bin remove].
  destruct Hex as (es & Hin & Hes). apply elem_of_cons in Hin as [Heq|Hin].
  - pose proof (f_equal fst Heq) as Hke. pose proof (f_equal snd Heq) as Hee.
    cbn [fst snd] in Hke, Hee. subst es. rewrite Hke, key_lt_irrefl.
    rewrite <- Hnb in Hr.
    destruct (removeItem_spec h hd t a event c (ev_key cv) l1 bs Hr Hes Hnd2)
      as (h1 & r & Hrun & Hrep1 & Hpres1).
    assert (h1 !! prev = Some pv) as Hp1.
    { rewrite (proj1 Hpres1); [done|]. set_solver. }
    exists (<[prev := pv <| nextBin := r |>]> h1). split; [|split].
    + unfold mbind, M_bind. rewrite (deref_run _ _ _ _ _ _ Hc). rewrite key_lt_irrefl. cbn.
      rewrite (deref_run _ _ _ _ _ _ Hc). unfold key_ne. rewrite !Z.eqb_refl. cbn.
      rewrite Hrun. by apply upd_run.
    + pose proof Hnd1 as [Hnp _]%NoDup_cons.
      assert (∀ x, x ∈ ids (put (ev_key cv) (rm event (c :: l1)) bs) →
                   x ∈ ids ((ev_key cv, c :: l1) :: bs)) as Hids.
      { intros x. rewrite put_ids, ids_cons, !elem_of_app. intros [Hx|Hx]; [|by right].
        left. by eapply rm_sub. }
      econstructor; [apply lookup_insert_eq|done| |]; cbn.
      * eapply chain_frame; [done|]. intros x Hx. rewrite lookup_insert_ne by set_solver.
        apply (proj1 Hpres1). set_solver.
      * eapply rep_frame; [done|]. intros x Hx%Hids. rewrite lookup_insert_ne; [done|].
        set_solver.
    + eapply (preserves_trans _ h1); [exact Hpres1| | |].
      * apply (preserves_insert _ [prev] _ pv); [done|done|left].
      * rewrite !ids_cons. set_solver.
      * rewrite !ids_cons. set_solver.
  - rewrite Forall_forall in Hall. specialize (Hall _ Hin) as Hlt. cbn in Hlt. rewrite Hlt.
    destruct (IH h hd t a event ev (ev_key cv) c cv l1 fuel) as (h' & Hrun & Hrep' & Hpres);
      try done.
    { by rewrite Hnb. } { eauto. } { cbn in Hfuel. lia. }
    exists h'. split; [|split].
    + rewrite <- Hrun. unfold mbind, M_bind. rewrite (deref_run _ _ _ _ _ _ Hc). by rewrite Hlt.
    + eapply rep_behind; [done|done|exact Hpres|set_solver|by rewrite <- Hnb].
    + eapply (preserves_trans _ h'); [exact Hpres|apply (preserves_refl _ [])| |].
      * rewrite (ids_cons (ev_key pv)). set_solver.
      * apply list_subseteq_nil.
Qed.

Lemma remove_spec h hd t a event ev bs :
  h !! event = Some ev → rep h hd bs → sorted bs → NoDup (ids bs) →
  (∃ es, (ev_key ev, es) ∈ bs ∧ event ∈ es) →
  ∃ h' hd', Ptr.remove event (Qst h hd t a) = Ok (tt, Qst h' hd' t a) ∧
    rep h' hd' (remove (ev_key ev) event bs) ∧ preserves h h' (ids bs).
Proof.
  intros He Hrep Hs Hnd (es & Hin & Hes). unfold Ptr.remove.
  erewrite bind_run by done. cbn [head].
  destruct Hrep as [|c cv k l bs Hc Hk Hch Hr].
  { by apply not_elem_of_nil in Hin. }
  run. run. assert (rep h (Some c) ((k, c :: l) :: bs)) as Hrep by (by econstructor).
  pose proof (rep_length _ _ _ Hrep Hnd) as Hsz.
  pose proof (rep_length_bins _ _ _ Hr) as Hlen.
  apply StronglySorted_inv in Hs as [Hs Hall].
  apply elem_of_cons in Hin as [Heq|Hin].
  - pose proof (f_equal fst Heq) as Hke. pose proof (f_equal snd Heq) as Hee.
    cbn [fst snd] in Hke, Hee. subst es. rewrite Hk, Hke. rewrite (proj2 (key_eq_iff k k) eq_refl).
    destruct (removeItem_spec h (Some c) t a event c k l bs Hrep Hes Hnd)
      as (h' & r & Hrun & Hrep' & Hpres).
    exists h', r. split; [|split].
    + erewrite bind_run by exact Hrun. done.
    + cbn [remove]. by rewrite key_lt_irrefl.
    + eapply (preserves_trans _ h'); [exact Hpres|apply (preserves_refl _ [])| |].
      * rewrite ids_cons. set_solver.
      * apply list_subseteq_nil.
  - rewrite Forall_forall in Hall. specialize (Hall _ Hin) as Hlt. cbn in Hlt.
    destruct (key_eq (ev_key cv) (ev_key ev)) eqn:E.
    { apply key_eq_iff in E. rewrite <- Hk, E, key_lt_irrefl in Hlt. done. }
    destruct (remove_after_spec (ev_key ev) bs h (Some c) t a event ev k c cv l (size h))
      as (h' & Hrun & Hrep' & Hpres); try done.
    { eauto. } { rewrite ids_cons, length_app in Hsz. cbn in Hsz. lia. }
    exists h', (Some c). split; [|split; [|done]].
    + unfold fuel_of. erewrite bind_run by done. exact Hrun.
    + cbn [remove]. by rewrite Hlt.
Qed.

(** *** Order and distinctness are kept *)

Lemma insert_keys k e bs b : b ∈ insert k e bs → b.1 = k ∨ ∃ b', b' ∈ bs ∧ b'.1 = b.1.
Proof.
  induction bs as [|[k' es] bs IH]; cbn [insert].
  - intros ->%list_elem_of_singleton. by left.
  - destruct (key_lt k' k); [|destruct (key_lt k k')]; rewrite !elem_of_cons.
    + intros [->|Hin]; [right; exists (k', es); by split; [left|]|].
      destruct (IH Hin) as [?|(b' & ? & ?)]; [by left|]. right. exists b'. by split; [right|].
    + intros [->|Hb]; [by left|]. right. exists b. by rewrite elem_of_cons.
    + intros [->|Hb]; right.
      * exists (k', es). by split; [left|].
      * exists b. by split; [right|].
Qed.

Lemma bins_insert_sorted k e bs : sorted bs → sorted (insert k e bs).
Proof.
  unfold sorted. induction 1 as [|[k' es] bs Hs IH Hall]; cbn [insert].
  - repeat constructor.
  - destruct (key_lt k' k) eqn:E1; [|destruct (key_lt k k') eqn:E2].
    + constructor; [done|]. rewrite Forall_forall in Hall |- *. intros b Hb.
      apply insert_keys in Hb as [->|(b' & Hb' & <-)]; [done|]. by apply Hall.
    + constructor; [by constructor|]. constructor; [done|].
      eapply Forall_impl; [exact Hall|]. intros b Hb. by eapply key_lt_trans.
    + by constructor.
Qed.

Lemma remove_keys k e bs b : b ∈ remove k e bs → ∃ b', b' ∈ bs ∧ b'.1 = b.1.
Proof.
  induction bs as [|[k' es] bs IH]; cbn [remove].
  - by intros ?%not_elem_of_nil.
  - destruct (key_lt k' k).
    + rewrite elem_of_cons. intros [->|Hin]; [exists (k', es); by split; [left|]|].
      destruct (IH Hin) as (b' & ? & ?). exists b'. by split; [right|].
    + unfold put. destruct (rm e es) as [|x l]; [|rewrite elem_of_cons; intros [->|Hb]].
      * intros Hb. exists b. by split; [right|].
      * exists (k', es). by split; [left|].
      * exists b. by split; [right|].
Qed.

Lemma bins_remove_sorted k e bs : sorted bs → sorted (remove k e bs).
Proof.
  unfold sorted. induction 1 as [|[k' es] bs Hs IH Hall]; cbn [remove]; [constructor|].
  destruct (key_lt k' k).
  - constructor; [done|]. rewrite Forall_forall in Hall |- *. intros b Hb.
    apply remove_keys in Hb as (b' & Hb' & <-). by apply Hall.
  - unfold put. destruct (rm e es); [done|]. by constructor.
Qed.

Lemma ids_remove k e bs :
  NoDup (ids bs) → (∃ es, (k, es) ∈ bs ∧ e ∈ es) → sorted bs →
  ids (remove k e bs) = rm e (ids bs).
Proof.
  intros Hnd Hin Hs. rewrite <- !flatten_ids, flatten_remove by done.
  unfold Abs.ids, Abs.remove, rm. generalize (flatten bs) as q.
  induction q as [|x q IH]; [done|]. rewrite fmap_cons, !filter_cons.
  repeat case_decide; try done. cbn. by rewrite IH.
Qed.

Lemma elem_of_ids bs e : e ∈ ids bs ↔ ∃ k es, (k, es) ∈ bs ∧ e ∈ es.
Proof.
  unfold ids. rewrite list_elem_of_In, in_concat. split.
  - intros (es & Hes & He). apply list_elem_of_In in He.
    apply list_elem_of_In, list_elem_of_fmap in Hes as ([k es'] & -> & Hin). eauto.
  - intros (k & es & Hin & He). exists es. rewrite <- !list_elem_of_In.
    split; [|done]. apply list_elem_of_fmap. by exists (k, es).
Qed.

Lemma elem_of_flatten bs k e : (k, e) ∈ flatten bs ↔ ∃ es, (k, es) ∈ bs ∧ e ∈ es.
Proof.
  unfold flatten. rewrite list_elem_of_In, in_concat. split.
  - intros (l & Hl & He). apply list_elem_of_In in He.
    apply list_elem_of_In, list_elem_of_fmap in Hl as ([k' es] & -> & Hin). cbn in He.
    apply list_elem_of_fmap in He as (x & [= -> ->] & Hx). eauto.
  - intros (es & Hin & He). exists ((λ x, (k, x)) <$> es). rewrite <- !list_elem_of_In.
    split; apply list_elem_of_fmap; [by exists (k, es)|]. by exists e.
Qed.

(** Changing a flag of an event does not disturb the structure. *)
Lemma chain_touch h e ev ev' k p l :
  h !! e = Some ev → nextInBin ev' = nextInBin ev → ev_key ev' = ev_key ev →
  chain h k p l → chain (<[e := ev']> h) k p l.
Proof.
  intros He Hn Hk. induction 1 as [|x xv l Hx Hxk Hc IH]; [constructor|].
  destruct (decide (x = e)) as [->|Hne].
  - rewrite He in Hx. injection Hx as <-. apply (chain_cons _ _ e ev'); [apply lookup_insert_eq|congruence|]. by rewrite Hn.
  - econstructor; [by rewrite lookup_insert_ne|done|done].
Qed.

Lemma rep_touch h e ev ev' p bs :
  h !! e = Some ev → nextBin ev' = nextBin ev → nextInBin ev' = nextInBin ev →
  ev_key ev' = ev_key ev → rep h p bs → rep (<[e := ev']> h) p bs.
Proof.
  intros He Hb Hn Hk. induction 1 as [|x xv k l bs Hx Hxk Hc Hr IH]; [constructor|].
  destruct (decide (x = e)) as [->|Hne].
  - rewrite He in Hx. injection Hx as <-. apply (rep_cons _ e ev'); [apply lookup_insert_eq|congruence| |].
    + rewrite Hn. by eapply chain_touch.
    + by rewrite Hb.
  - apply (rep_cons _ x xv); [by rewrite lookup_insert_ne|done| |done].
    by eapply chain_touch.
Qed.

End Bins.

(** ** The queue's own consistency check *)

Module Verify.
Import Ptr Bins.

Lemma verify_in_bin_ok h hd t a k l : ∀ p fuel time prio seen,
  chain h k p l → NoDup l → (∀ e, e ∈ l → e ∉ seen) → key_le (time, prio) k = true →
  (length l ≤ fuel)%nat → l ≠ [] →
  verify_in_bin fuel p time prio seen (mkEventQueue h hd t a) =
    Ok (Some (k.1, k.2, list_to_set l ∪ seen), mkEventQueue h hd t a).
Proof.
  induction l as [|e l IH]; intros p fuel time prio seen Hc Hnd Hseen Hk Hfuel Hne; [done|].
  inversion Hc as [|? ev ? He Hek Hc']; subst.
  apply NoDup_cons in Hnd as [Hnl Hnd].
  destruct fuel as [|fuel]; [cbn in Hfuel; lia|]. cbn [verify_in_bin].
  erewrite bind_run by (by apply deref_run).
  unfold key_le, ev_key in Hk. cbn in Hk.
  destruct (when ev <? time) eqn:E1; [lia|].
  destruct ((when ev =? time) && (priority ev <? prio)) eqn:E2; [lia|].
  rewrite decide_False by (apply Hseen; by left).
  destruct l as [|e' l'].
  - inversion Hc'; subst.
    replace (list_to_set [e] ∪ seen) with ({[e]} ∪ seen : gset EvId) by set_solver.
    by destruct fuel.
  - rewrite (IH (nextInBin ev) fuel (when ev) (priority ev)); try done.
    + replace (list_to_set (e :: e' :: l') ∪ seen)
        with (list_to_set (e' :: l') ∪ ({[e]} ∪ seen) : gset EvId) by set_solver. done.
    + intros x Hx. rewrite elem_of_union, elem_of_singleton. intros [->|Hs]; [done|].
      eapply Hseen; [|done]. by right.
    + apply key_le_refl.
    + cbn in *. lia.
Qed.

Lemma verify_bins_ok h hd t a bs : ∀ p fuel fuel_in time prio seen,
  rep h p bs → sorted bs → NoDup (ids bs) → (∀ e, e ∈ ids bs → e ∉ seen) →
  Forall (λ b, key_le (time, prio) b.1 = true) bs → (length bs ≤ fuel)%nat →
  (length (ids bs) ≤ fuel_in)%nat →
  verify_bins fuel fuel_in p time prio seen (mkEventQueue h hd t a) =
    Ok (true, mkEventQueue h hd t a).
Proof.
  induction bs as [|[k es] bs IH];
    intros p fuel fuel_in time prio seen Hr Hs Hnd Hseen Hle Hf1 Hf2.
  - inversion Hr; subst. by destruct fuel.
  - inversion Hr as [|e ev ? l ? He Hk Hc Hr']; subst.
    destruct fuel as [|fuel]; [cbn in Hf1; lia|]. cbn [verify_bins].
    rewrite ids_cons in *. rewrite length_app in Hf2.
    apply NoDup_app in Hnd as (Hnd1 & Hdis & Hnd2).
    apply Forall_cons in Hle as [Hle1 Hle2]. apply StronglySorted_inv in Hs as [Hs Hall].
    erewrite bind_run.
    2:{ eapply (verify_in_bin_ok h hd t a (ev_key ev) (e :: l)); try done.
        - by econstructor.
        - intros x Hx. apply Hseen. set_solver.
        - cbn in *. lia. }
    cbv beta iota. erewrite bind_run by (by apply deref_run).
    apply IH; try done.
    + intros x Hx. rewrite elem_of_union, elem_of_list_to_set. intros [Hx'|Hx'].
      * by apply (Hdis x).
      * eapply Hseen; [|done]. set_solver.
    + eapply Forall_impl; [exact Hall|]. intros b Hb. by apply key_lt_le.
    + cbn in Hf1. lia.
    + lia.
Qed.

End Verify.

(** ** Refinement *)

Module Refine.
Import Ptr Bins Verify.

(** The pointer structure holds the abstract queue [l]: its bins flatten to [l],
    exactly the queued events have the [Scheduled] flag, and nothing queued lies
    in the past. *)
Definition implements (q : EventQueue) (l : Abs.queue) : Prop :=
  ∃ bs, rep (mem q) (head q) bs ∧ sorted bs ∧ NoDup (ids bs) ∧ flatten bs = l ∧
    (∀ e ev, mem q !! e = Some ev → (scheduled ev = true ↔ e ∈ ids bs)) ∧
    (∀ k e, (k, e) ∈ l → curTick q ≤ k.1).

Lemma preserves_back h h' l x xv' :
  preserves h h' l → h' !! x = Some xv' → ∃ xv, h !! x = Some xv ∧ payload xv' = payload xv.
Proof.
  intros [_ B] Hx. specialize (B x). rewrite Hx in B. cbn in B.
  destruct (h !! x) as [v|]; [|done]. injection B as B1 B2 B3. exists v. split; [done|].
  unfold payload. congruence.
Qed.

Lemma payload_scheduled ev ev' : payload ev' = payload ev → scheduled ev' = scheduled ev.
Proof. intros [= H1 H2 H3]. unfold scheduled. by rewrite H3. Qed.

Lemma payload_key ev ev' : payload ev' = payload ev → ev_key ev' = ev_key ev.
Proof. intros [= H1 H2 H3]. unfold ev_key. by rewrite H1, H2. Qed.

Lemma scheduled_set ev : scheduled (ev <| flags ::= λ f, Flags.set f Scheduled |>) = true.
Proof. by apply isSet_set. Qed.

Lemma clear_clear_scheduled f :
  Flags.isSet (Flags.clear (Flags.clear f Scheduled) Squashed) Scheduled = false.
Proof.
  unfold Flags.isSet, Flags.clear.
  replace (Z.land _ Scheduled) with 0; [done|]. symmetry. apply Z.bits_inj'. intros i _.
  rewrite Z.land_spec, !Z.ldiff_spec, Z.bits_0.
  by destruct (Z.testbit f i), (Z.testbit Scheduled i), (Z.testbit Squashed i).
Qed.

(** [implements] once the structure and the flags are known. *)
Lemma insert_implements q event ev bs l g :
  mem q !! event = Some ev → rep (mem q) (head q) bs → sorted bs → NoDup (ids bs) →
  flatten bs = l → event ∉ ids bs →
  (∀ e ev, e ≠ event → mem q !! e = Some ev → (scheduled ev = true ↔ e ∈ ids bs)) →
  (∀ k e, (k, e) ∈ l → curTick q ≤ k.1) → curTick q ≤ when ev →
  (∀ e, flags (g e) = Flags.set (flags e) Scheduled ∨
        flags (g e) = Flags.set (Flags.clear (flags e) Squashed) Scheduled) →
  (∀ e, nextBin (g e) = nextBin e ∧ nextInBin (g e) = nextInBin e ∧ ev_key (g e) = ev_key e) →
  ∃ q', (Ptr.insert event;; upd event g) q = Ok (tt, q') ∧
    implements q' (Abs.insert (ev_key ev) event l) ∧ curTick q' = curTick q.
Proof.
  intros He Hr Hs Hnd Hfl Hni Hsch Hnow Hev Hg Hk.
  destruct q as [h hd t a]; cbn in *.
  destruct (insert_spec h hd t a event ev bs He Hr Hnd Hni) as (h' & hd' & Hrun & Hr' & Hp).
  destruct (preserves_key _ _ _ _ _ Hp He) as (ev1 & He1 & Hpl).
  exists (mkEventQueue (<[event := g ev1]> h') hd' t a).
  split; [|split; [|done]].
  { unfold mbind, M_bind. rewrite Hrun. by apply upd_run. }
  destruct (Hk ev1) as (Hk1 & Hk2 & Hk3).
  exists (insert (ev_key ev) event bs). cbn [mem head curTick]. split; [|split; [|split; [|split; [|split]]]].
  - by eapply rep_touch.
  - by apply bins_insert_sorted.
  - rewrite insert_ids_perm. by apply NoDup_cons.
  - rewrite flatten_insert by (done || by eapply rep_nonempty). by rewrite Hfl.
  - intros e xv Hx. rewrite insert_ids_perm, elem_of_cons.
    rewrite lookup_insert in Hx. case_decide as Heq.
    + injection Hx as <-. subst. split; [by left|]. intros _.
      unfold scheduled. destruct (Hg ev1) as [->| ->]; by apply isSet_set.
    + destruct (preserves_back _ _ _ _ _ Hp Hx) as (xv0 & Hx0 & Hpx).
      rewrite (payload_scheduled _ _ Hpx), (Hsch e xv0) by done.
      split; [by right|]. intros [->|]; done.
  - intros k e. rewrite (Abs.insert_perm (ev_key ev) event l), elem_of_cons.
    intros [[= -> ->]|Hin]; [done|eauto].
Qed.

(** A small queue for the examples: event 1 waits at tick 5, event 0 is idle. *)
Definition demo : EventQueue :=
  mkEventQueue {[0%nat := mkEvent None None 0 0 Initialized;
                 1%nat := mkEvent None None 5 0 (Flags.set Initialized Scheduled)]}
    (Some 1%nat) 3 [].

Lemma demo_implements : implements demo [((5, 0), 1%nat)].
Proof.
  exists [((5, 0), [1%nat])].
  split; [by eapply (rep_cons _ 1%nat); [done|done|constructor|constructor]|].
  split; [by repeat constructor|]. split; [by apply NoDup_singleton|]. split; [done|]. split.
  - intros e ev H. unfold demo in H. cbn [mem] in H. change (ids _) with [1%nat]. rewrite list_elem_of_singleton.
    apply lookup_insert_Some in H as [[<- <-]|[_ H]]; [done|].
    by apply lookup_singleton_Some in H as [<- <-].
  - intros k e [= -> ->]%list_elem_of_singleton. cbn. lia.
Qed.

(** Scheduling refines the abstract queue: an event that is
    not scheduled and does not lie in the past is inserted at its tick, before
    the events of the same tick and priority and after all earlier ones. *)
Theorem schedule_refines q l event ev t :
  implements q l → mem q !! event = Some ev → scheduled ev = false →
  initialized ev = true → curTick q ≤ t →
  ∃ q', schedule event t false q = Ok (tt, q') ∧
    implements q' (Abs.insert (t, priority ev) event l) ∧ curTick q' = curTick q.
Proof.
  intros (bs & Hr & Hs & Hnd & Hfl & Hsch & Hnow) He Hns Hinit Ht.
  assert (event ∉ ids bs) as Hni.
  { intros Hin. by rewrite (proj2 (Hsch _ _ He) Hin) in Hns. }
  destruct (insert_implements (q <| mem ::= <[event := ev <| when := t |>]> |>) event
             (ev <| when := t |>) bs l (λ e, e <| flags ::= λ f, Flags.set f Scheduled |>))
    as (q' & Hrun & Himp & Hcur); cbn; try done.
  - apply lookup_insert_eq.
  - eapply rep_frame; [done|]. intros x Hx. rewrite lookup_insert_ne; [done|]. congruence.
  - intros e xv Hne Hx. rewrite lookup_insert_ne in Hx by done. eauto.
  - intros e. by left.
  - exists q'. split; [|done]. destruct q as [h hd now a]; cbn in *.
    unfold schedule. erewrite bind_run by done. cbn [curTick].
    rewrite (proj2 (Z.leb_le now t)) by done. erewrite bind_run by done.
    erewrite bind_run by (by apply deref_run). rewrite Hns, Hinit.
    do 2 erewrite bind_run by done. erewrite bind_run by (by apply upd_run). exact Hrun.
Qed.

Lemma schedule_refines_witness :
  ∃ q', schedule 0 5 false demo = Ok (tt, q') ∧
    implements q' [((5, 0), 0%nat); ((5, 0), 1%nat)] ∧ curTick q' = 3.
Proof.
  apply (schedule_refines demo _ 0%nat (mkEvent None None 0 0 Initialized) 5 demo_implements);
    reflexivity || discriminate.
Defined.

(** Scheduling an event twice, or in the past, stops the
    simulator: the queue never holds such an event. *)
Theorem schedule_rejects q event ev t :
  mem q !! event = Some ev → t < curTick q ∨ scheduled ev = true →
  schedule event t false q = Abort AssertFailed.
Proof.
  intros He Hbad. destruct q as [h hd now a]. unfold schedule.
  erewrite bind_run by done. cbn [curTick] in *.
  destruct (Z.leb_spec now t); [|done]. erewrite bind_run by done.
  erewrite bind_run by (by apply deref_run). destruct Hbad as [?| ->]; [lia|done].
Qed.

Lemma schedule_rejects_witness : schedule 1 7 false demo = Abort AssertFailed.
Proof.
  apply (schedule_rejects demo 1 (mkEvent None None 5 0 (Flags.set Initialized Scheduled)) 7);
    [reflexivity|right; reflexivity].
Defined.

(** [remove] on a queued event. *)
Lemma remove_run q l event ev :
  implements q l → mem q !! event = Some ev → scheduled ev = true →
  ∃ h' hd' ev1 bs, Ptr.remove event q =
      Ok (tt, mkEventQueue h' hd' (curTick q) (async_queue q)) ∧
    h' !! event = Some ev1 ∧ payload ev1 = payload ev ∧
    rep h' hd' bs ∧ sorted bs ∧ NoDup (ids bs) ∧ flatten bs = Abs.remove event l ∧
    (event ∉ ids bs) ∧
    (∀ e ev, e ≠ event → h' !! e = Some ev → (scheduled ev = true ↔ e ∈ ids bs)) ∧
    (∀ k e, (k, e) ∈ Abs.remove event l → curTick q ≤ k.1).
Proof.
  intros (bs & Hr & Hs & Hnd & Hfl & Hsch & Hnow) He Hsc.
  pose proof (proj1 (Hsch _ _ He) Hsc) as Hin. apply elem_of_ids in Hin as (k & es & Hin & Hes).
  destruct (rep_in _ _ _ _ _ _ Hr Hin Hes) as (ev' & He' & Hk). rewrite He in He'.
  injection He' as <-. subst k.
  assert (∃ es, (ev_key ev, es) ∈ bs ∧ event ∈ es) as Hex by eauto.
  destruct q as [h hd now a]; cbn in *.
  destruct (remove_spec h hd now a event ev bs He Hr Hs Hnd Hex) as (h' & hd' & Hrun & Hr' & Hp).
  destruct (preserves_key _ _ _ _ _ Hp He) as (ev1 & He1 & Hpl).
  exists h', hd', ev1, (remove (ev_key ev) event bs).
  split; [done|]. split; [done|]. split; [done|]. split; [done|].
  split; [by apply bins_remove_sorted|]. rewrite ids_remove by done.
  split; [by apply NoDup_filter|]. split; [by rewrite flatten_remove, Hfl|].
  split; [by intros [[] _]%list_elem_of_filter|]. split.
  - intros e xv Hne Hx. destruct (preserves_back _ _ _ _ _ Hp Hx) as (xv0 & Hx0 & Hpx).
    rewrite (payload_scheduled _ _ Hpx), (Hsch e xv0) by done.
    unfold rm. rewrite list_elem_of_filter. naive_solver.
  - intros k e Hke. apply list_elem_of_filter in Hke as [_ Hke]. eauto.
Qed.

(** [release] leaves the queue alone: it can only delete an unscheduled event. *)
Lemma release_implements q l event ev :
  implements q l → mem q !! event = Some ev → scheduled ev = false →
  ∃ q', release event q = Ok (tt, q') ∧ implements q' l ∧ curTick q' = curTick q.
Proof.
  intros Himp He Hns. destruct q as [h hd now a]; cbn in *. unfold release.
  erewrite bind_run by (by apply deref_run). rewrite Hns.
  destruct (Flags.isSet _ _); cbn; eexists; (split; [done|]); [|done].
  split; [|done]. destruct Himp as (bs & Hr & Hs & Hnd & Hfl & Hsch & Hnow); cbn in *.
  assert (event ∉ ids bs) as Hni.
  { intros Hin. by rewrite (proj2 (Hsch _ _ He) Hin) in Hns. }
  exists bs. cbn. repeat split; try done.
  - eapply rep_frame; [done|]. intros x Hx. rewrite lookup_delete_ne; [done|]. congruence.
  - intros Hx. apply lookup_delete_Some in H as [_ H]. by apply (Hsch e ev0).
  - intros Hx. apply lookup_delete_Some in H as [_ H]. by apply (Hsch e ev0).
Qed.

(** Descheduling refines removal from the abstract queue. *)
Theorem deschedule_refines q l event ev :
  implements q l → mem q !! event = Some ev → scheduled ev = true →
  initialized ev = true →
  ∃ q', deschedule event q = Ok (tt, q') ∧
    implements q' (Abs.remove event l) ∧ curTick q' = curTick q.
Proof.
  intros Himp He Hsc Hinit. destruct (remove_run q l event ev Himp He Hsc)
    as (h' & hd' & ev1 & bs & Hrun & He1 & Hpl & Hr & Hs & Hnd & Hfl & Hni & Hsch & Hnow).
  destruct q as [h hd now a]; cbn in *.
  set (ev2 := ev1 <| flags ::= λ f, Flags.clear (Flags.clear f Squashed) Scheduled |>).
  set (q2 := mkEventQueue (<[event := ev2]> h') hd' now a).
  assert (deschedule event (mkEventQueue h hd now a) = release event q2) as ->.
  { unfold deschedule. erewrite bind_run by (by apply deref_run). rewrite Hsc, Hinit.
    do 2 erewrite bind_run by done. erewrite bind_run by exact Hrun.
    erewrite bind_run by (by apply upd_run). done. }
  apply (release_implements q2 (Abs.remove event l) event ev2).
  - exists bs. cbn. repeat split; try done.
    + eapply rep_frame; [done|]. intros x Hx. rewrite lookup_insert_ne; [done|]. congruence.
    + intros Hx. rewrite lookup_insert in H. case_decide as Heq.
      * injection H as <-. unfold scheduled, ev2 in Hx. cbn in Hx. by rewrite isSet_clear in Hx.
      * by apply (Hsch e ev0).
    + intros Hx. rewrite lookup_insert in H. case_decide as Heq; [by subst|].
      by apply (Hsch e ev0).
  - apply lookup_insert_eq.
  - unfold scheduled, ev2. cbn. by rewrite isSet_clear.
Qed.

Lemma deschedule_refines_witness :
  ∃ q', deschedule 1 demo = Ok (tt, q') ∧ implements q' [] ∧ curTick q' = 3.
Proof.
  apply (deschedule_refines demo _ 1%nat
           (mkEvent None None 5 0 (Flags.set Initialized Scheduled)) demo_implements);
    reflexivity.
Defined.

(** Rescheduling a queued event is removal followed by insertion
    at the new tick, whatever the [always] argument. *)
Theorem reschedule_refines q l event ev t always :
  implements q l → mem q !! event = Some ev → scheduled ev = true →
  initialized ev = true → curTick q ≤ t →
  ∃ q', reschedule event t always q = Ok (tt, q') ∧
    implements q' (Abs.insert (t, priority ev) event (Abs.remove event l)) ∧
    curTick q' = curTick q.
Proof.
  intros Himp He Hsc Hinit Ht. destruct (remove_run q l event ev Himp He Hsc)
    as (h' & hd' & ev1 & bs & Hrun & He1 & Hpl & Hr & Hs & Hnd & Hfl & Hni & Hsch & Hnow).
  destruct q as [h hd now a]; cbn in *.
  destruct (insert_implements (mkEventQueue (<[event := ev1 <| when := t |>]> h') hd' now a)
             event (ev1 <| when := t |>) bs (Abs.remove event l)
             (λ e, e <| flags ::= λ f, Flags.set (Flags.clear f Squashed) Scheduled |>))
    as (q' & Hrun' & Himp' & Hcur); cbn; try done.
  - apply lookup_insert_eq.
  - eapply rep_frame; [done|]. intros x Hx. rewrite lookup_insert_ne; [done|]. congruence.
  - intros e xv Hne Hx. rewrite lookup_insert_ne in Hx by done. eauto.
  - intros e. by right.
  - exists q'. injection Hpl as Hw Hp Hf. unfold ev_key in Himp'. cbn in Himp'.
    rewrite Hp in Himp'. split; [|done].
    unfold reschedule. erewrite bind_run by done. cbn [curTick].
    rewrite (proj2 (Z.leb_le now t)) by done. erewrite bind_run by done.
    erewrite bind_run by (by apply deref_run). rewrite Hsc, Hinit, orb_true_r.
    do 2 erewrite bind_run by done. cbn [when_]. erewrite bind_run by exact Hrun.
    erewrite bind_run by (by apply upd_run). exact Hrun'.
Qed.

Lemma reschedule_refines_witness :
  ∃ q', reschedule 1 9 false demo = Ok (tt, q') ∧ implements q' [((9, 0), 1%nat)] ∧
    curTick q' = 3.
Proof.
  apply (reschedule_refines demo _ 1%nat
           (mkEvent None None 5 0 (Flags.set Initialized Scheduled)) 9 false demo_implements);
    reflexivity || discriminate.
Defined.

Lemma flatten_sorted bs : sorted bs → Abs.sorted (flatten bs).
Proof.
  unfold sorted, Abs.sorted. induction 1 as [|[k es] bs Hs IH Hall]; [constructor|].
  rewrite flatten_cons. induction es as [|e es IHe]; [done|]. cbn.
  constructor; [by apply IHe|]. apply Forall_forall. intros [k' e'].
  rewrite elem_of_app. intros [Hin|Hin].
  - apply list_elem_of_fmap in Hin as (x & [= -> ->] & _). apply key_le_refl.
  - apply elem_of_flatten in Hin as (es' & Hin & _).
    rewrite Forall_forall in Hall. apply key_lt_le, (Hall _ Hin).
Qed.

(** The abstract queue is always sorted by tick and priority, and holds each
    event once. *)
Lemma implements_sorted q l :
  implements q l → Abs.sorted l ∧ NoDup (Abs.ids l).
Proof.
  intros (bs & _ & Hs & Hnd & <- & _). split; [by apply flatten_sorted|].
  by rewrite flatten_ids.
Qed.

(** Clearing the flag of the first event takes it off the scheduled ones. *)
Lemma unscheduled_flags (h : gmap EvId Event) event ev l :
  h !! event = Some ev → (∀ e xv, h !! e = Some xv → scheduled xv = true ↔ e ∈ event :: l) → event ∉ l →
  ∀ e xv, <[event := ev <| flags ::= λ f, Flags.clear f Scheduled |>]> h !! e = Some xv → scheduled xv = true ↔ e ∈ l.
Proof.
  intros He Hsch Hni e xv Hx. destruct (decide (e = event)) as [->|Hne].
  - rewrite lookup_insert_eq in Hx. injection Hx as <-. unfold scheduled. cbn. by rewrite isSet_clear.
  - rewrite lookup_insert_ne in Hx by done. rewrite (Hsch _ _ Hx). set_solver.
Qed.

(** Unlinking the head, the first half of [serviceOne]. *)
Lemma pop_run q k event l :
  implements q ((k, event) :: l) →
  ∃ h' hd' ev ev1, mem q !! event = Some ev ∧ ev_key ev = k ∧ head q = Some event ∧
    h' !! event = Some ev1 ∧ ev1 = ev <| flags ::= λ f, Flags.clear f Scheduled |> ∧
    implements (mkEventQueue h' hd' (curTick q) (async_queue q)) l ∧
    (upd event (λ e, e <| flags ::= λ f, Flags.clear f Scheduled |>);;
     match nextInBin ev with
     | Some n =>
         upd n (λ e, e <| nextBin := nextBin ev |>);;
         modify (λ q, q <| head := Some n |>)
     | None => modify (λ q, q <| head := nextBin ev |>)
     end) q = Ok (tt, mkEventQueue h' hd' (curTick q) (async_queue q)).
Proof.
  intros (bs & Hr & Hs & Hnd & Hfl & Hsch & Hnow).
  destruct q as [h hd now a]; cbn in *.
  destruct Hr as [|e ev k' l' bs He Hk Hch Hr]; [done|].
  rewrite flatten_cons in Hfl. cbn in Hfl. injection Hfl as -> -> Hfl.
  rewrite ids_cons in Hnd. apply NoDup_app in Hnd as (Hnd1 & Hdis & Hnd2).
  pose proof Hnd1 as [Hne Hnd1']%NoDup_cons. apply StronglySorted_inv in Hs as [Hs Hall].
  set (ev1 := ev <| flags ::= λ f, Flags.clear f Scheduled |>).
  assert (event ∉ l' ++ ids bs) as Hni by set_solver.
  assert (∀ e0 xv, <[event := ev1]> h !! e0 = Some xv → scheduled xv = true ↔ e0 ∈ l' ++ ids bs) as Hsch'.
  { apply (unscheduled_flags h event ev); [done| |done]. intros e0 xv Hx. by rewrite (Hsch _ _ Hx), ids_cons. }
  clear Hsch.
  remember (nextInBin ev) as nx eqn:Hnx. destruct Hch as [|n nv l' Hn Hnk Hch].
  - eexists (<[event := ev1]> h), _, ev, ev1. repeat (split; [done|]).
    split; [apply lookup_insert_eq|]. split; [done|]. split.
    + exists bs. cbn in *. split; [|split; [done|split; [done|split; [done|split; [done|]]]]].
      * eapply rep_frame; [done|]. intros x Hx. rewrite lookup_insert_ne; [done|]. set_solver.
      * intros k0 e0 Hin. apply (Hnow k0 e0). by right.
    + rewrite <- Hnx. by erewrite bind_run by (by apply upd_run).
  - eexists (<[n := nv <| nextBin := nextBin ev |>]> (<[event := ev1]> h)), _, ev, ev1.
    repeat (split; [done|]). assert (n ≠ event) as Hnev by set_solver.
    split; [by rewrite lookup_insert_ne, lookup_insert_eq|]. split; [done|]. split.
    + exists ((k, n :: l') :: bs). cbn [mem head curTick].
      apply NoDup_cons in Hnd1' as [Hnl Hnd1'].
      split; [|split; [|split; [|split; [|split]]]].
      * econstructor; [apply lookup_insert_eq|done| |]; cbn.
        -- clear Hsch'. eapply chain_frame; [done|]. intros x Hx. rewrite !lookup_insert_ne; set_solver.
        -- clear Hsch'. eapply rep_frame; [done|]. intros x Hx. rewrite !lookup_insert_ne; set_solver.
      * by constructor.
      * clear Hsch'. rewrite ids_cons. apply NoDup_app. split; [by apply NoDup_cons|]. set_solver.
      * by rewrite flatten_cons.
      * rewrite ids_cons. intros e0 xv Hx. destruct (decide (e0 = n)) as [->|Hne0].
        { rewrite lookup_insert_eq in Hx. injection Hx as <-.
          apply (Hsch' n nv). by rewrite lookup_insert_ne. }
        rewrite lookup_insert_ne in Hx by done. by apply Hsch'.
      * intros k0 e0 Hin. apply (Hnow k0 e0). by right.
    + rewrite <- Hnx. erewrite bind_run by (by apply upd_run).
      erewrite bind_run by (apply upd_run; by rewrite lookup_insert_ne). done.
Qed.

(** What remains of [serviceOne] once the first event is off the list. *)
Lemma serviceOne_popped process (h : gmap EvId Event) event ev now a q' :
  h !! event = Some ev →
  (upd event (λ e, e <| flags ::= λ f, Flags.clear f Scheduled |>);;
   match nextInBin ev with
   | Some n => upd n (λ e, e <| nextBin := nextBin ev |>);; modify (λ q, q <| head := Some n |>)
   | None => modify (λ q, q <| head := nextBin ev |>)
   end) (mkEventQueue h (Some event) now a) = Ok (tt, q') →
  serviceOne process (mkEventQueue h (Some event) now a) =
    (if negb (squashed ev) then
       setCurTick (when ev);; process event;; ev' ← deref event;
       if isExitEvent ev' then
         assert_that (negb (Flags.isSet (flags ev') Managed) ||
                      negb (Flags.isSet (flags ev') IsMainQueue));; mret (Some event)
       else release event;; mret None
     else upd event (λ e, e <| flags ::= λ f, Flags.clear f Squashed |>);;
          release event;; mret None) q'.
Proof.
  intros He Hrun. unfold serviceOne. erewrite bind_run by done. cbn [head].
  erewrite bind_run by (by apply deref_run).
  rewrite M_bind_assoc. by erewrite bind_run by exact Hrun.
Qed.

(** A change of an event that leaves its links, its key and whether it is
    scheduled. *)
Lemma implements_touch (h : gmap EvId Event) hd e ev' ev now a l :
  implements (mkEventQueue h hd now a) l → h !! e = Some ev →
  nextBin ev' = nextBin ev → nextInBin ev' = nextInBin ev → ev_key ev' = ev_key ev → scheduled ev' = scheduled ev →
  implements (mkEventQueue (<[e := ev']> h) hd now a) l.
Proof.
  intros (bs & Hr & Hs & Hnd & Hfl & Hsch & Hnow) He H1 H2 H3 H4. exists bs. cbn in *.
  split; [by eapply rep_touch|]. repeat (split; [done|]). split; [|done].
  intros e0 xv Hx. rewrite lookup_insert in Hx. case_decide; subst; [|by apply Hsch].
  injection Hx as <-. rewrite H4. by apply Hsch.
Qed.

(** C12.  [serviceOne] takes the first event of the abstract queue:
    time never moves backwards, the event's action runs at the event's own tick
    on the rest of the queue with the event no longer scheduled, and a squashed
    event is dropped without running or advancing time. *)
Theorem serviceOne_refines q k event l process :
  implements q ((k, event) :: l) →
  ∃ ev q1, mem q !! event = Some ev ∧ curTick q ≤ k.1 ∧
    (squashed ev = false →
       implements q1 l ∧ curTick q1 = k.1 ∧
       (∃ ev1, mem q1 !! event = Some ev1 ∧ scheduled ev1 = false) ∧
       serviceOne process q =
         (process event;;
          ev' ← deref event;
          if isExitEvent ev' then
            assert_that (negb (Flags.isSet (flags ev') Managed) ||
                         negb (Flags.isSet (flags ev') IsMainQueue));;
            mret (Some event)
          else release event;; mret None) q1) ∧
    (squashed ev = true →
       implements q1 l ∧ curTick q1 = curTick q ∧ serviceOne process q = Ok (None, q1)).
Proof.
  intros Himp.
  assert (∀ x, x ∈ (k, event) :: l → curTick q ≤ x.1.1) as Hpast.
  { intros [k0 e0] Hin. destruct Himp as (_ & _ & _ & _ & _ & _ & Hnow). eauto. }
  pose proof (proj1 (implements_sorted _ _ Himp)) as [_ Hall]%StronglySorted_inv.
  destruct (pop_run q k event l Himp)
    as (h' & hd' & ev & ev1 & He & Hk & Hhd & He1 & Hev1 & Himp' & Hrun).
  assert (scheduled ev1 = false) as Hs1.
  { subst ev1. unfold scheduled. cbn. apply isSet_clear. }
  destruct q as [h hd now a]; cbn in *. subst hd.
  pose proof (serviceOne_popped process h event ev now a _ He Hrun) as Hone.
  exists ev. destruct (squashed ev) eqn:Esq.
  - destruct (release_implements
      (mkEventQueue (<[event := ev1 <| flags ::= λ f, Flags.clear f Squashed |>]> h') hd' now a)
      l event (ev1 <| flags ::= λ f, Flags.clear f Squashed |>)) as (q1 & Hrel & Hq1 & Hcur).
    { apply (implements_touch _ _ _ _ ev1 _ _ _ Himp' He1); [done..|]. unfold scheduled; cbn. rewrite Hev1. cbn.
      by rewrite clear_clear_scheduled, isSet_clear. }
    { cbn. apply lookup_insert_eq. }
    { unfold scheduled; cbn. rewrite Hev1. cbn. by rewrite clear_clear_scheduled. }
    exists q1. split; [done|]. split; [apply (Hpast (k, event)); by left|]. split; [done|].
    intros _. split; [done|]. split; [done|]. rewrite Hone. cbn [negb].
    erewrite bind_run by (by apply upd_run). unfold mbind, M_bind. by rewrite Hrel.
  - exists (mkEventQueue h' hd' (when ev) a). split; [done|].
    split; [apply (Hpast (k, event)); by left|]. split; [|done]. intros _. split; [|split; [|split]].
    + destruct Himp' as (bs & Hr & Hs & Hnd & Hfl & Hsch & Hnow). exists bs. cbn in *.
      repeat (split; [done|]). intros k0 e0 Hin. rewrite Forall_forall in Hall.
      specialize (Hall _ Hin). cbn in Hall. subst k. clear -Hall. destruct k0.
      unfold ev_key, key_le in Hall. cbn in *. lia.
    + cbn. by subst k.
    + by exists ev1.
    + rewrite Hone. cbn [negb]. by erewrite bind_run by done.
Qed.

Lemma serviceOne_refines_witness :
  ∃ q1, implements q1 [] ∧ curTick q1 = 5 ∧
    serviceOne (λ _, mret tt) demo =
      (ev' ← deref 1; if isExitEvent ev' then
         assert_that (negb (Flags.isSet (flags ev') Managed) ||
                      negb (Flags.isSet (flags ev') IsMainQueue));; mret (Some 1%nat)
       else release 1;; mret None) q1.
Proof.
  destruct (serviceOne_refines demo (5, 0) 1%nat [] (λ _, mret tt) demo_implements)
    as (ev & q1 & He & _ & Hlive & _).
  injection He as <-. destruct (Hlive eq_refl) as (Hi & Hc & _ & Hs).
  exists q1. split; [exact Hi|]. split; [exact Hc|]. rewrite Hs. reflexivity.
Defined.

(** The queue's self-check accepts every well-formed queue,
    provided no event at tick 0 has a negative priority. *)
Theorem debugVerify_accepts q l :
  implements q l → (∀ k e, (k, e) ∈ l → 0 ≤ k.1 ∧ (k.1 = 0 → 0 ≤ k.2)) →
  debugVerify q = Ok (true, q).
Proof.
  intros (bs & Hr & Hs & Hnd & Hfl & _) Hpos. destruct q as [h hd now a]. cbn in *.
  unfold debugVerify, fuel_of. erewrite bind_run by done. cbn [mem].
  erewrite bind_run by done. cbn [head].
  eapply verify_bins_ok; try done.
  - apply Forall_forall. intros [k es] Hin. destruct es as [|e es].
    { apply rep_nonempty in Hr. rewrite Forall_forall in Hr. by specialize (Hr _ Hin). }
    assert ((k, e) ∈ flatten bs) as Hke.
    { apply elem_of_flatten. exists (e :: es). by split; [|left]. }
    rewrite Hfl in Hke. destruct (Hpos _ _ Hke) as [H0 H1]. unfold key_le.
    destruct k as [t p]. cbn [fst snd] in *. lia.
  - pose proof (rep_length _ _ _ Hr Hnd). pose proof (rep_length_bins _ _ _ Hr). lia.
  - pose proof (rep_length _ _ _ Hr Hnd). done.
Qed.

Lemma debugVerify_accepts_witness : debugVerify demo = Ok (true, demo).
Proof.
  apply (debugVerify_accepts demo _ demo_implements).
  intros k e [= -> ->]%list_elem_of_singleton. cbn. lia.
Defined.

(** The exception is real: the check starts from priority 0 at tick 0, so it
    rejects a queue holding one event of negative priority at tick 0. *)
Example debugVerify_rejects_tick0 :
  let ev f := mkEvent None None 0 (-1) f in
  let q := mkEventQueue {[0%nat := ev Initialized]} None 0 [] in
  let q' := mkEventQueue {[0%nat := ev (Flags.set Initialized Scheduled)]} (Some 0%nat) 0 [] in
  schedule 0 0 false q = Ok (tt, q') ∧ implements q' [((0, -1), 0%nat)] ∧
  debugVerify q' = Ok (false, q').
Proof.
  split; [vm_compute; reflexivity|]. split; [|vm_compute; reflexivity].
  exists [((0, -1), [0%nat])]. repeat split.
  - eapply (rep_cons _ 0%nat); [done|done|constructor|constructor].
  - repeat constructor.
  - repeat constructor. by intros ?%not_elem_of_nil.
  - cbn in H. apply lookup_singleton_Some in H as [<- _]. intros _. by left.
  - cbn in H. by apply lookup_singleton_Some in H as [<- <-].
  - by intros k e [= -> ->]%list_elem_of_singleton.
Qed.

End Refine.
