(* ===== verification/FlitPacker.v ===== *)
(** * Flits, the packer and the unpacker (src/gem5/src/mem/ucie/ucie_link.hh, .cc)

    The link's unit of transfer and the two engines around it.  The packer is a
    byte counter and a queue of partially sent transaction packets (TLPs); a
    flit carries at most 236 bytes of that queue and lists the TLPs whose last
    byte it holds. *)

From S2P Require Import Prelude MemCmd Packet.
#[local] Open Scope Z_scope.

(** ** Data *)

Inductive FlitType :=
  PROTOCOL | FLIT_LEVEL_ACK | FLIT_LEVEL_NAK | LINK_MGMT | NULL_FLIT.
#[export] Instance FlitType_eq_dec : EqDecision FlitType.
Proof. solve_decision. Defined.

Inductive ProtocolType :=
  PCIE | CXL_IO | CXL_MEM | CXL_CACHE | STREAMING | UNDEFINED.

Definition UCIE_FLIT_SIZE_BYTES : Z := 256.
Definition UCIE_PAYLOAD_SIZE_BYTES : Z := 236.
Definition UCIE_DLP_BYTES : Z := 6.
Definition UCIE_CRC_BYTES : Z := 4.
Definition UCIE_RESERVED_BYTES : Z := 10.
Definition TLP_HEADER_BYTES : Z := 16.

(** The [static_assert] of the header. *)
Definition flit_fields_sum : Prop :=
  UCIE_PAYLOAD_SIZE_BYTES + UCIE_DLP_BYTES + UCIE_CRC_BYTES + UCIE_RESERVED_BYTES
  = UCIE_FLIT_SIZE_BYTES.

(** TLPs are packets known by their address in the packet store. *)
Abbreviation PktId := nat (only parsing).

Record UcieFlitPacket := mkFlit {
  base : Packet;
  flitType : FlitType;
  protocol : ProtocolType;
  timestamp : Z;
  payloadBytes : Z;
  isRetransmission : bool;
  originalPackets : list PktId;
  isFirstSegment : bool;
  isLastSegment : bool;
  isMiddleSegment : bool;
}.
#[export] Instance eta_UcieFlitPacket : Eta UcieFlitPacket := λ f,
  mkFlit (base f) (flitType f) (protocol f) (timestamp f) (payloadBytes f)
    (isRetransmission f) (originalPackets f) (isFirstSegment f) (isLastSegment f)
    (isMiddleSegment f).

(** [std::make_shared<Request>(0, size, 0, 0)]. *)
Definition dummy_req (sz : Z) : Request.t :=
  Request.phys 0 sz 0 0.

Definition UcieFlitPacket_ctor (req : Request.t) (cmd : Command) (time_stamp : Z)
    (type : FlitType) : res UcieFlitPacket :=
  p ← allocate (Packet_ctor_blk req cmd UCIE_FLIT_SIZE_BYTES);
  mret (mkFlit p type PCIE time_stamp 0 false [] true true false).

Record StagedTLP := mkStaged { pkt : PktId; bytesRemaining : Z }.
#[export] Instance eta_StagedTLP : Eta StagedTLP := λ t,
  mkStaged (pkt t) (bytesRemaining t).

Record FlitPacker := mkPacker {
  currentBytes : Z;
  tlpQueue : list StagedTLP;
}.
#[export] Instance eta_FlitPacker : Eta FlitPacker := λ k,
  mkPacker (currentBytes k) (tlpQueue k).

(** ** Packer operations *)

Definition FlitPacker_ctor : FlitPacker := mkPacker 0 [].

Definition processIncomingTLP (p : PktId) (pk : Packet) (k : FlitPacker) : res FlitPacker :=
  sz ← getSize pk;
  let totalTlpSize := u32 (sz + 16) in
  mret (k <| tlpQueue ::= λ q, q ++ [mkStaged p totalTlpSize] |>
          <| currentBytes := u32 (currentBytes k + totalTlpSize) |>).

(** The loop that fills a flit: the TLPs that end in it, the space left over and
    the queue that remains. *)
Fixpoint pull (spaceLeft : Z) (q : list StagedTLP) : list PktId * Z * list StagedTLP :=
  match q with
  | [] => ([], spaceLeft, [])
  | t :: q' =>
      if 0 <? spaceLeft then
        if bytesRemaining t <=? spaceLeft then
          let '(ps, s, q'') := pull (spaceLeft - bytesRemaining t) q' in
          (pkt t :: ps, s, q'')
        else ([], 0, t <| bytesRemaining := u32 (bytesRemaining t - spaceLeft) |> :: q')
      else ([], spaceLeft, q)
  end.

(** The [isFlush] argument of the source is unused there. *)
Definition assembleFlit (curTick : Z) (k : FlitPacker) :
    res (option UcieFlitPacket * FlitPacker) :=
  if currentBytes k =? 0 then mret (None, k)
  else
    let bytesToPack := Z.min (currentBytes k) UCIE_PAYLOAD_SIZE_BYTES in
    flit ← UcieFlitPacket_ctor (dummy_req UCIE_PAYLOAD_SIZE_BYTES) WriteReq curTick PROTOCOL;
    let '(ps, _, q) := pull bytesToPack (tlpQueue k) in
    mret (Some (flit <| payloadBytes := bytesToPack |> <| originalPackets := ps |>),
          k <| tlpQueue := q |> <| currentBytes := u32 (currentBytes k - bytesToPack) |>).

Definition hasData (k : FlitPacker) : bool := 0 <? currentBytes k.
Definition stagedBytes (k : FlitPacker) : Z := currentBytes k.

Definition forceFlush (curTick : Z) (k : FlitPacker) :
    res (option UcieFlitPacket * FlitPacker) :=
  if hasData k then assembleFlit curTick k else mret (None, k).

(** The [while (stagedBytes() >= 236)] loop of [recvTimingReq], packer side. *)
Fixpoint assemble_full (fuel : nat) (curTick : Z) (k : FlitPacker) :
    res (list UcieFlitPacket * FlitPacker) :=
  if UCIE_PAYLOAD_SIZE_BYTES <=? stagedBytes k then
    match fuel with
    | O => Abort UndefinedBehavior
    | S fuel =>
        '(f, k) ← assembleFlit curTick k;
        '(fs, k) ← assemble_full fuel curTick k;
        mret (match f with Some f => f :: fs | None => fs end, k)
    end
  else mret ([], k).

(** ** Unpacker *)

Definition processReceivedFlit (f : UcieFlitPacket) : list PktId := originalPackets f.

(** ** The packer invariant *)

Definition rem_sum (q : list StagedTLP) : Z := sumZ (bytesRemaining <$> q).
Arguments rem_sum : simpl never.

Definition packer_ok (k : FlitPacker) : Prop :=
  Forall (λ t, 0 < bytesRemaining t) (tlpQueue k) ∧
  currentBytes k = rem_sum (tlpQueue k) ∧ is_u32 (currentBytes k).

Lemma flit_fields_sum_holds : flit_fields_sum.
Proof. reflexivity. Qed.

Lemma rem_sum_nil : rem_sum [] = 0.
Proof. done. Qed.

Lemma rem_sum_cons t q : rem_sum (t :: q) = bytesRemaining t + rem_sum q.
Proof. done. Qed.

Lemma rem_sum_app q1 q2 : rem_sum (q1 ++ q2) = rem_sum q1 + rem_sum q2.
Proof. unfold rem_sum. by rewrite fmap_app, sumZ_app. Qed.

Lemma rem_sum_nonneg q : Forall (λ t, 0 < bytesRemaining t) q → 0 ≤ rem_sum q.
Proof.
  intros H. apply sumZ_nonneg. rewrite Forall_fmap. eapply Forall_impl; [done|].
  intros t. cbn. lia.
Qed.

(** What [pull] takes: the longest prefix of whole TLPs that fits, and the rest
    of the space from the next one. *)
Lemma pull_spec q : ∀ space ps s q',
  Forall (λ t, 0 < bytesRemaining t) q → 0 ≤ space ≤ rem_sum q → rem_sum q < 2 ^ 32 →
  pull space q = (ps, s, q') →
  s = 0 ∧ Forall (λ t, 0 < bytesRemaining t) q' ∧ rem_sum q' = rem_sum q - space ∧
  ps ++ (pkt <$> q') = pkt <$> q ∧
  rem_sum (take (length ps) q) ≤ space ∧
  (∀ t, (q : list StagedTLP) !! length ps = Some t →
        space < rem_sum (take (length ps) q) + bytesRemaining t).
Proof.
  induction q as [|t q IH]; intros space ps s q' Hpos Hs Hb Hp; cbn in Hp.
  - injection Hp as <- <- <-. cbn. rewrite rem_sum_nil in *. repeat split; try done; lia.
  - apply Forall_cons in Hpos as [Ht Hpos]. pose proof (rem_sum_nonneg _ Hpos).
    rewrite rem_sum_cons in *. destruct (Z.ltb_spec 0 space).
    2:{ injection Hp as <- <- <-. rewrite rem_sum_cons. cbn. rewrite rem_sum_nil.
        repeat split; try done; try lia; [by constructor|].
        intros t' [= <-]. lia. }
    destruct (Z.leb_spec (bytesRemaining t) space).
    + destruct (pull (space - bytesRemaining t) q) as [[ps1 s1] q1] eqn:E.
      injection Hp as <- <- <-.
      assert (0 ≤ space - bytesRemaining t) as Hs1 by lia.
      assert (space - bytesRemaining t ≤ rem_sum q) as Hs2 by lia.
      assert (rem_sum q < 2 ^ 32) as Hb1 by lia.
      destruct (IH _ _ _ _ Hpos (conj Hs1 Hs2) Hb1 E)
        as (-> & ? & ? & Hps & ? & Hmax).
      cbn [length take]. rewrite rem_sum_cons. repeat split; try done; try lia.
      * cbn. by rewrite Hps.
      * intros t' Ht'. specialize (Hmax t' Ht'). lia.
    + injection Hp as <- <- <-. rewrite rem_sum_cons. unfold set_field. cbn. unfold u32.
      rewrite Z.mod_small, rem_sum_nil by lia. repeat split; try done; try lia.
      * constructor; [cbn; lia|done].
      * intros t' [= <-]. lia.
Qed.

(** The packet part of a freshly built flit. *)
Definition flit_base (sz : Z) (c : Command) : Packet :=
  match allocate (Packet_ctor_blk (dummy_req sz) c UCIE_FLIT_SIZE_BYTES) with
  | Ok p => p
  | Abort _ => Packet_ctor_blk (dummy_req sz) c UCIE_FLIT_SIZE_BYTES
  end.

Lemma flit_ctor_ok sz c ts ty :
  c = WriteReq ∨ c = WriteResp →
  UcieFlitPacket_ctor (dummy_req sz) c ts ty =
    Ok (mkFlit (flit_base sz c) ty PCIE ts 0 false [] true true false).
Proof. by intros [->| ->]. Qed.

Lemma flit_base_cmd sz c : c = WriteReq ∨ c = WriteResp → cmd (flit_base sz c) = c.
Proof. by intros [->| ->]. Qed.

(** The flit [assembleFlit] builds. *)
Definition protocol_flit (now payload : Z) (ps : list PktId) : UcieFlitPacket :=
  mkFlit (flit_base UCIE_PAYLOAD_SIZE_BYTES WriteReq) PROTOCOL PCIE now payload false ps
    true true false.

Definition staged (k : FlitPacker) : list PktId := pkt <$> tlpQueue k.

Lemma assembleFlit_ok now k :
  packer_ok k → currentBytes k ≠ 0 →
  let n := Z.min (currentBytes k) UCIE_PAYLOAD_SIZE_BYTES in
  ∃ ps k', assembleFlit now k = Ok (Some (protocol_flit now n ps), k') ∧
    packer_ok k' ∧ currentBytes k' = currentBytes k - n ∧ ps ++ staged k' = staged k ∧
    rem_sum (take (length ps) (tlpQueue k)) ≤ n ∧
    (∀ t, (tlpQueue k : list StagedTLP) !! length ps = Some t →
          n < rem_sum (take (length ps) (tlpQueue k)) + bytesRemaining t).
Proof.
  intros (Hpos & Hcur & Hu) Hne n. unfold assembleFlit.
  destruct (Z.eqb_spec (currentBytes k) 0); [done|].
  rewrite flit_ctor_ok by auto. cbn. destruct (pull _ _) as [[ps s] q] eqn:E.
  unfold is_u32 in Hu. fold n in E.
  assert (0 < n ≤ currentBytes k) by (unfold n, UCIE_PAYLOAD_SIZE_BYTES; lia).
  eapply pull_spec in E as (-> & Hpos' & Hsum & Hps & Hfit & Hmax); [|done|lia|lia].
  exists ps, (mkPacker (currentBytes k - n) q). split.
  - unfold mret, res_ret, set_field. cbn. fold n. rewrite u32_id by (unfold is_u32; lia). done.
  - unfold packer_ok, staged, is_u32. cbn. repeat split; try done; lia.
Qed.

(** One flit: while bytes are staged, [assembleFlit] returns a
    flit whose payload is the smaller of the staged bytes and 236, that lists, in
    order and without loss, exactly the TLPs whose last byte it carries. *)
Theorem assembleFlit_spec now k :
  packer_ok k → currentBytes k ≠ 0 →
  ∃ f k', assembleFlit now k = Ok (Some f, k') ∧ packer_ok k' ∧
    payloadBytes f = Z.min (currentBytes k) 236 ∧
    currentBytes k' = currentBytes k - payloadBytes f ∧
    originalPackets f ++ staged k' = staged k ∧
    rem_sum (take (length (originalPackets f)) (tlpQueue k)) ≤ payloadBytes f ∧
    (∀ t, (tlpQueue k : list StagedTLP) !! length (originalPackets f) = Some t →
       payloadBytes f <
         rem_sum (take (length (originalPackets f)) (tlpQueue k)) + bytesRemaining t).
Proof.
  intros Hok Hne. destruct (assembleFlit_ok now k Hok Hne) as (ps & k' & H & Hok' & Hrest).
  exists (protocol_flit now (Z.min (currentBytes k) UCIE_PAYLOAD_SIZE_BYTES) ps), k'.
  split; [exact H|]. split; [exact Hok'|]. split; [done|]. exact Hrest.
Qed.

Lemma assembleFlit_witness :
  let k := mkPacker 300 [mkStaged 1 216; mkStaged 2 84] in
  ∃ f k', assembleFlit 7 k = Ok (Some f, k') ∧ payloadBytes f = 236 ∧
    originalPackets f ++ staged k' = staged k.
Proof.
  intros k. assert (packer_ok k) as Hk.
  { unfold packer_ok, rem_sum; cbn. repeat split; try lia. repeat constructor; cbn; lia. }
  destruct (assembleFlit_spec 7 k Hk ltac:(discriminate)) as (f & k' & H & _ & Hp & _ & Ho & _).
  exists f, k'. auto.
Defined.

Lemma processIncomingTLP_ok p pk k sz :
  packer_ok k → getSize pk = Ok sz → 0 ≤ sz → currentBytes k + sz + 16 < 2 ^ 32 →
  ∃ k', processIncomingTLP p pk k = Ok k' ∧ packer_ok k' ∧
    currentBytes k' = currentBytes k + sz + 16 ∧ staged k' = staged k ++ [p].
Proof.
  intros (Hpos & Hcur & Hu) Hsz H0 Hb. unfold is_u32 in Hu.
  unfold processIncomingTLP. rewrite Hsz. cbn. unfold mret, res_ret, set_field. cbn.
  rewrite !u32_id by (unfold is_u32; rewrite ?u32_id; unfold is_u32; lia).
  eexists. split; [done|]. unfold packer_ok, staged, is_u32. cbn. repeat split.
  - apply Forall_app. split; [done|]. constructor; [cbn; lia|constructor].
  - rewrite rem_sum_app, rem_sum_cons, rem_sum_nil. cbn. lia.
  - lia.
  - lia.
  - lia.
  - by rewrite fmap_app.
Qed.

Lemma assemble_full_ok fuel : ∀ now k,
  packer_ok k → (Z.to_nat (currentBytes k / UCIE_PAYLOAD_SIZE_BYTES) ≤ fuel)%nat →
  ∃ fs k', assemble_full fuel now k = Ok (fs, k') ∧ packer_ok k' ∧
    currentBytes k' = currentBytes k mod UCIE_PAYLOAD_SIZE_BYTES ∧
    Z.of_nat (length fs) = currentBytes k / UCIE_PAYLOAD_SIZE_BYTES ∧
    Forall (λ f, ∃ ps, f = protocol_flit now UCIE_PAYLOAD_SIZE_BYTES ps) fs ∧
    concat (originalPackets <$> fs) ++ staged k' = staged k.
Proof.
  unfold UCIE_PAYLOAD_SIZE_BYTES.
  induction fuel as [|fuel IH]; intros now k Hok Hf; pose proof Hok as (_ & _ & Hu);
    unfold is_u32 in Hu; cbn [assemble_full]; unfold stagedBytes, UCIE_PAYLOAD_SIZE_BYTES;
    destruct (Z.leb_spec 236 (currentBytes k)) as [Hge|Hlt].
  1: exfalso; assert (1 ≤ currentBytes k / 236) by lia_div; lia.
  1,3: exists [], k; rewrite Z.mod_small, Z.div_small by lia; repeat (split; [done|]); done.
  destruct (assembleFlit_ok now k Hok) as (ps & k1 & E & Hok1 & Hc1 & Hs1 & _); [lia|].
  unfold UCIE_PAYLOAD_SIZE_BYTES in *. rewrite Z.min_r in * by lia.
  assert (currentBytes k = currentBytes k1 + 1 * 236) as Hk by lia.
  assert (currentBytes k / 236 = currentBytes k1 / 236 + 1) as Hd.
  { rewrite Hk, Z.div_add by lia. done. }
  destruct (IH now k1 Hok1) as (fs & k2 & E2 & Hok2 & Hc2 & Hl2 & Hfs & Hcat).
  { assert (0 ≤ currentBytes k1 / 236) by (apply Z.div_pos; lia). lia. }
  rewrite E. cbn. rewrite E2. cbn. do 2 eexists. split; [done|]. split; [done|]. split.
  { rewrite Hc2, Hk, Z.mod_add by lia. done. }
  split; [cbn; lia|]. split; [constructor; [by eexists|done]|].
  cbn. by rewrite <- Hs1, <- Hcat, app_assoc.
Qed.

(** C33.  Segmentation terminates: from any staged amount, the
    assembly loop emits exactly [staged / 236] full flits, leaves [staged mod 236]
    bytes behind, and between flits and leftover no TLP is lost, duplicated or
    reordered. *)
Theorem segmentation now k :
  packer_ok k →
  ∃ fs k', assemble_full (Z.to_nat (currentBytes k / 236)) now k = Ok (fs, k') ∧
    packer_ok k' ∧ currentBytes k' = currentBytes k mod 236 ∧
    Z.of_nat (length fs) = currentBytes k / 236 ∧
    Forall (λ f, payloadBytes f = 236) fs ∧
    concat (originalPackets <$> fs) ++ staged k' = staged k.
Proof.
  intros Hok.
  destruct (assemble_full_ok (Z.to_nat (currentBytes k / 236)) now k Hok)
    as (fs & k' & E & Hok' & Hc & Hl & Hfs & Hcat); [done|].
  exists fs, k'. repeat split; try done; try apply Hok'.
  eapply Forall_impl; [exact Hfs|]. by intros f [ps ->].
Qed.

Lemma segmentation_witness :
  let k := mkPacker 500 [mkStaged 1 416; mkStaged 2 84] in
  ∃ fs k', assemble_full 2 7 k = Ok (fs, k') ∧ currentBytes k' = 28 ∧
    concat (originalPackets <$> fs) ++ staged k' = staged k.
Proof.
  intros k. assert (packer_ok k) as Hk.
  { unfold packer_ok, rem_sum; cbn. repeat split; try lia. repeat constructor; cbn; lia. }
  destruct (segmentation 7 k Hk) as (fs & k' & H & _ & Hc & _ & _ & Ho).
  exists fs, k'. auto.
Defined.
