(* ===== verification/Latency.v ===== *)
(** * The link's floating-point arithmetic (src/gem5/src/mem/ucie/ucie_link.cc)

    The latency formula of [recvTimingReq] and the bit-error threshold of
    [init], in IEEE binary64 with round-to-nearest-even, each operation rounded
    as the C++ expression rounds it. *)

From Stdlib Require Import SpecFloat.
From S2P Require Import Prelude FlitPacker.
#[local] Open Scope Z_scope.

(** ** binary64 *)

Abbreviation double := spec_float (only parsing).

Definition dadd : double → double → double := SFadd 53 1024.
Definition dsub : double → double → double := SFsub 53 1024.
Definition dmul : double → double → double := SFmul 53 1024.
Definition ddiv : double → double → double := SFdiv 53 1024.
Definition dgt (x y : double) : bool := SFltb y x.

(** An integer converted to [double]. *)
Definition d_of_Z (z : Z) : double := binary_normalize 53 1024 z 0 false.
(** The rational [m * 2^e]. *)
Definition d_of (m e : Z) : double := binary_normalize 53 1024 m e false.

(** [(uint64_t)x]: truncation; undefined outside the range of the type. *)
Definition d_to_u64 (x : double) : option Z :=
  match x with
  | S754_zero _ => Some 0
  | S754_infinity _ | S754_nan => None
  | S754_finite s m e =>
      let t := if 0 <=? e then Zpos m * 2 ^ e else Zpos m / 2 ^ (- e) in
      if s then (if t =? 0 then Some 0 else None)
      else if t <? 2 ^ 64 then Some t else None
  end.

(** ** The latency model *)

Definition RTL_DATAPATH_CYCLES : double := d_of_Z 5.
Definition lclk_period_ns : double := d_of 1 (-1).

Definition startDelayTicks (dataRate : double) (numLanes tlpSize : Z) : option Z :=
  let BW_Gbps := dmul dataRate (d_of_Z numLanes) in
  let transmission_ns := ddiv (dmul (d_of_Z tlpSize) (d_of_Z 8)) BW_Gbps in
  let f_link_GHz := ddiv dataRate (d_of_Z numLanes) in
  let accumulation_ns :=
    dsub (d_of_Z 16) (ddiv (d_of_Z 1) (dmul (d_of_Z 2) f_link_GHz)) in
  let rtl_penalty_ns := dmul RTL_DATAPATH_CYCLES lclk_period_ns in
  d_to_u64 (dmul (dadd (dadd transmission_ns accumulation_ns) rtl_penalty_ns) (d_of_Z 1000)).

(** ** The error threshold *)

Definition errorThreshold (errorRate : double) : option Z :=
  d_to_u64 (dmul (dmul (ddiv (d_of_Z 1) errorRate) (d_of_Z UCIE_FLIT_SIZE_BYTES)) (d_of_Z 8)).

(** The defaults of UcieLink.py: 4 GT/s over 16 lanes, bit error rate 1e-10. *)
Definition default_data_rate : double := d_of_Z 4.
Definition default_num_lanes : Z := 16.
Definition default_error_rate : double := ddiv (d_of_Z 1) (d_of_Z 10000000000).

(** ** What the formulas compute *)

(** The closed form in picoseconds: 125 per byte, plus 14 ns of accumulation and
    2.5 ns of datapath penalty. *)
Definition latency_ps (tlpSize : Z) : Z := 125 * tlpSize + 16500.

Definition latency_agrees (n : nat) : bool :=
  bool_decide (startDelayTicks default_data_rate default_num_lanes (Z.of_nat n) =
               Some (latency_ps (Z.of_nat n))).

Lemma latency_sweep : forallb latency_agrees (seq 0 (Z.to_nat 2048)) = true.
Proof. vm_compute. reflexivity. Qed.

(** With the default parameters, rounding never shows: for
    every TLP of up to 2047 bytes the floating-point formula gives exactly
    125 ps per byte plus 16.5 ns. *)
Theorem startDelayTicks_default tlpSize :
  0 ≤ tlpSize < 2048 →
  startDelayTicks default_data_rate default_num_lanes tlpSize = Some (latency_ps tlpSize).
Proof.
  intros H. pose proof latency_sweep as Hs. rewrite forallb_forall in Hs.
  specialize (Hs (Z.to_nat tlpSize)). unfold latency_agrees in Hs.
  rewrite bool_decide_eq_true, Z2Nat.id in Hs by lia. apply Hs, in_seq. lia.
Qed.

Lemma startDelayTicks_witness : startDelayTicks default_data_rate default_num_lanes 80 = Some 26500.
Proof. apply (startDelayTicks_default 80); lia. Defined.

(** At the default bit error rate the threshold is 2048 * 10^10
    bits, which is the 2048 bits of 10^10 flits. *)
Theorem errorThreshold_default :
  errorThreshold default_error_rate = Some (10 ^ 10 * (UCIE_FLIT_SIZE_BYTES * 8)).
Proof. vm_compute. reflexivity. Qed.
