(* ===== verification/SimpleMem.v ===== *)
(** * The simple memory (src/gem5/src/mem/simple_mem.cc, simple_mem.hh)

    A memory with a latency and a bandwidth limit: a request is served at once,
    its response waits in a queue, and while the bandwidth is used up further
    requests are rejected and the requestor is told when to retry.  The port's
    peer is an interface: it may make requests before it returns from a response
    or from a retry.  Event times are explicit. *)

From Stdlib Require Import SpecFloat.
From S2P Require Import Prelude AddrRanges MemCmd Packet PacketQueues AbstractMem Latency.
#[local] Open Scope Z_scope.

Module SimpleMemory.
Import PacketQueue(DeferredPacket, mkDeferred, tick, pkt, sendable, key, after).

Record parameters := mkParameters { latency : Tick; latency_var : Tick; bandwidth : spec_float }.

Record t := mk {
  mem : AbstractMemory.t;
  packetQueue : list DeferredPacket;
  isBusy : bool;
  retryReq : bool;
  retryResp : bool;
  releaseEvent : option Tick;         (* its tick, when scheduled *)
  dequeueEvent : option Tick;
  pendingDelete : option Packet;
  drainState : DrainState;
  drainDone : nat;                    (* calls of signalDrainDone *)
}.
#[export] Instance simple_eta : Eta t := λ s,
  mk (mem s) (packetQueue s) (isBusy s) (retryReq s) (retryResp s) (releaseEvent s) (dequeueEvent s)
    (pendingDelete s) (drainState s) (drainDone s).

Definition ctor (m : AbstractMemory.t) : t := mk m [] false false false None None None Running 0.

(** The requestor behind the port, with the random number generator.  It answers
    a response and makes requests before it returns; [informed] tells it what
    became of one of them. *)
Class Requestor (E : Type) := {
  recvTimingResp : Tick → Packet → E → bool * list Packet * E;
  recvReqRetry : Tick → E → list Packet * E;
  informed : Packet → bool → E → E;
  random : Tick → Tick → E → Tick * E;
}.

(** [accepted] are the requests of which the requestor was told that they were
    accepted, and [delivered] the responses it took, oldest first; the code keeps no
    such lists. *)
Record World (E : Type) := mkWorld {
  memory : t; curTick : Tick; peer : E; accepted : list Packet; delivered : list Packet }.
Arguments mkWorld {E}. Arguments memory {E}. Arguments curTick {E}. Arguments peer {E}.
Arguments accepted {E}. Arguments delivered {E}.
#[export] Instance simple_world_eta E : Eta (World E) := λ w,
  mkWorld (memory w) (curTick w) (peer w) (accepted w) (delivered w).

Section Memory.
Context {E : Type} `{!Requestor E} (prm : parameters) (atomicOp : Packet → list Z → list Z).
Abbreviation W := (World E).
Abbreviation H := (M W).

Definition upd (f : t → t) : H unit := modify (λ w, w <| memory ::= f |>).

Definition getLatency : H Tick :=
  if latency_var prm =? 0 then mret (latency prm)
  else
    w ← get_state;
    let '(r, e) := random 0 (latency_var prm) (peer w) in
    modify (λ w, w <| peer := e |>);;
    mret (u64 (latency prm + r)).

Definition recvAtomic (p : Packet) : H (Packet * Tick) :=
  if cacheResponding p then abort_with Panicked
  else
    w ← get_state;
    '(p, m) ← lift_res (AbstractMemory.access atomicOp p (mem (memory w)));
    upd (λ s, s <| mem := m |>);;
    l ← getLatency;
    mret (p, l).

Definition recvFunctional (p : Packet) : H Packet :=
  w ← get_state;
  '(p, m) ← lift_res (AbstractMemory.functionalAccess p (mem (memory w)));
  '(_, p, l) ← lift_res (PacketQueue.satisfy p (packetQueue (memory w)));
  upd (λ s, s <| mem := m |> <| packetQueue := l |>);;
  mret p.

Definition schedule_release (when : Tick) : H unit :=
  w ← get_state;
  assert_that (curTick w <=? when);;
  assert_that (bool_decide (releaseEvent (memory w) = None));;
  upd (λ s, s <| releaseEvent := Some when |>).
Definition schedule_dequeue (when : Tick) : H unit :=
  w ← get_state;
  assert_that (curTick w <=? when);;
  assert_that (bool_decide (dequeueEvent (memory w) = None));;
  upd (λ s, s <| dequeueEvent := Some when |>).
(** [reschedule(..., true)]. *)
Definition reschedule_dequeue (when : Tick) : H unit :=
  w ← get_state;
  assert_that (curTick w <=? when);;
  upd (λ s, s <| dequeueEvent := Some when |>).

(** The insertion, on the queue in reverse.  The iterator starts at the last
    element and stops at the first at the latest; the element goes in after it.
    A list is circular, so that on an empty one the decrement and the increment
    of [end()] cancel. *)
Fixpoint emplace (dp : DeferredPacket) (rl : list DeferredPacket) : res (list DeferredPacket) :=
  match rl with
  | [] => Ok [dp]
  | [i] => Ok [dp; i]
  | i :: rl =>
      if tick dp <? tick i then
        m ← matchAddr_pkt (pkt i) (pkt dp);
        if (m : bool) then Ok (dp :: i :: rl) else l ← emplace dp rl; Ok (i :: l)
      else Ok (dp :: i :: rl)
  end.

(** The response is queued and the dequeue event scheduled. *)
Definition queue_response (p : Packet) (when : Tick) : H bool :=
  w ← get_state;
  rq ← lift_res (emplace (mkDeferred when p) (reverse (packetQueue (memory w))));
  upd (λ s, s <| packetQueue := reverse rq |>);;
  back ← of_option UndefinedBehavior (head rq);
  when_ (negb (retryResp (memory w)) && bool_decide (dequeueEvent (memory w) = None))
    (schedule_dequeue (tick back));;
  mret true.

Definition recvTimingReq (p : Packet) : H bool :=
  if cacheResponding p then abort_with Panicked
  else if negb (isRead (cmd p) || isWrite (cmd p)) then abort_with Panicked
  else
    w ← get_state;
    if retryReq (memory w) then mret false
    else if isBusy (memory w) then upd (λ s, s <| retryReq := true |>);; mret false
    else
      let receive_delay := u32 (headerDelay p + payloadDelay p) in
      let p := p <| headerDelay := 0 |> <| payloadDelay := 0 |> in
      sz ← lift_res (getSize p);
      duration ← of_option UndefinedBehavior (d_to_u64 (dmul (d_of_Z sz) (bandwidth prm)));
      when_ (negb (duration =? 0))
        (schedule_release (u64 (curTick w + duration));; upd (λ s, s <| isBusy := true |>));;
      let needs := needsResponse (cmd p) in
      '(p, _) ← recvAtomic p;
      if needs then
        assert_that (isResponse (cmd p));;
        l ← getLatency;
        queue_response p (u64 (curTick w + receive_delay + l))
      else
        upd (λ s, s <| pendingDelete := Some p |>);; mret true.

(** What the requestor is told. *)
Definition noted (p : Packet) (ok : bool) (w : W) : W :=
  if ok then w <| accepted ::= λ l, l ++ [p] |> else w.

(** The requests a peer makes before it returns. *)
Fixpoint requests (l : list Packet) : H unit :=
  match l with
  | [] => mret tt
  | p :: l =>
      ok ← recvTimingReq p;
      modify (noted p ok);;
      modify (λ w, w <| peer ::= informed p ok |>);;
      requests l
  end.

Definition sendRetryReq : H unit :=
  w ← get_state;
  let '(l, e) := recvReqRetry (curTick w) (peer w) in
  modify (λ w, w <| peer := e |>);; requests l.

Definition sendTimingResp (p : Packet) : H bool :=
  w ← get_state;
  let '(ok, l, e) := recvTimingResp (curTick w) p (peer w) in
  modify (λ w, w <| peer := e |>);; requests l;; mret ok.

Definition release : H unit :=
  w ← get_state;
  assert_that (isBusy (memory w));;
  upd (λ s, s <| isBusy := false |>);;
  if retryReq (memory w) then upd (λ s, s <| retryReq := false |>);; sendRetryReq else mret tt.

(** What follows a response that was taken. *)
Definition advance (dp : DeferredPacket) : H unit :=
  upd (λ s, s <| packetQueue ::= tail |>);;
  modify (λ w, w <| delivered ::= λ l, l ++ [pkt dp] |>);;
  w ← get_state;
  match packetQueue (memory w) with
  | front :: _ => reschedule_dequeue (Z.max (tick front) (curTick w))
  | [] => when_ (bool_decide (drainState (memory w) = Draining)) (upd (λ s, s <| drainState := Drained |> <| drainDone ::= S |>))
  end.

Definition dequeue : H unit :=
  w ← get_state;
  match packetQueue (memory w) with
  | [] => abort_with AssertFailed
  | deferred_pkt :: _ =>
      ok ← sendTimingResp (pkt deferred_pkt);
      upd (λ s, s <| retryResp := negb ok |>);;
      if (ok : bool) then advance deferred_pkt else mret tt
  end.

Definition recvRespRetry : H unit :=
  w ← get_state;
  assert_that (retryResp (memory w));;
  dequeue.

Definition drain (s : t) : DrainState := if bool_decide (packetQueue s = []) then Drained else Draining.

(** ** What happens around the memory *)

Inductive Action :=
  | Request (p : Packet)    (* the requestor makes a request *)
  | FireRelease | FireDequeue
  | RespRetry               (* the requestor can take the response it rejected *)
  | Drain
  | Advance (now : Tick).

Definition exec (a : Action) : H unit :=
  match a with
  | Request p => requests [p]
  | FireRelease =>
      w ← get_state;
      now ← of_option UndefinedBehavior (releaseEvent (memory w));
      modify (λ w, w <| curTick := now |> <| memory ::= λ s, s <| releaseEvent := None |> |>);;
      release
  | FireDequeue =>
      w ← get_state;
      now ← of_option UndefinedBehavior (dequeueEvent (memory w));
      modify (λ w, w <| curTick := now |> <| memory ::= λ s, s <| dequeueEvent := None |> |>);;
      dequeue
  | RespRetry => recvRespRetry
  | Drain => upd (λ s, s <| drainState := drain s |>)
  | Advance now => modify (λ w, w <| curTick := now |>)
  end.

(** ** The insertion *)

(** The new element goes behind the first one, if there is one, and before
    elements that are later and for other addresses only. *)
Lemma simple_emplace_run dp l : sendable (pkt dp) → Forall (λ x, sendable (pkt x)) l →
  ∃ l1 l2, l = l1 ++ l2 ∧ emplace dp (reverse l) = Ok (reverse (l1 ++ dp :: l2)) ∧
    (l ≠ [] → l1 ≠ []) ∧ Forall (after true dp) l2.
Proof.
  intros Hdp. induction l as [|x l IH] using rev_ind; intros Hl.
  { by exists [], []. }
  apply Forall_app in Hl as [Hl Hx]. inversion Hx as [|?? Hx' _]; subst.
  destruct (decide (l = [])) as [->|Hne].
  { exists [x], []. by split_and!. }
  destruct (IH Hl) as (l1 & l2 & -> & Hem & Hl1 & Haf). rewrite reverse_snoc.
  assert (emplace dp (x :: reverse (l1 ++ l2))
          = if tick dp <? tick x then
              m ← matchAddr_pkt (pkt x) (pkt dp);
              if (m : bool) then Ok (dp :: x :: reverse (l1 ++ l2))
              else l ← emplace dp (reverse (l1 ++ l2)); Ok (x :: l)
            else Ok (dp :: x :: reverse (l1 ++ l2))) as ->.
  { destruct (reverse (l1 ++ l2)) eqn:Hr; [|done]. apply (f_equal reverse) in Hr. by rewrite reverse_involutive in Hr. }
  assert (∃ l1' l2', (l1 ++ l2) ++ [x] = l1' ++ l2' ∧
            Ok (dp :: x :: reverse (l1 ++ l2)) = Ok (reverse (l1' ++ dp :: l2')) ∧
            ((l1 ++ l2) ++ [x] ≠ [] → l1' ≠ []) ∧ Forall (after true dp) l2') as Hend.
  { exists ((l1 ++ l2) ++ [x]), []. rewrite app_nil_r, reverse_snoc, reverse_snoc. split_and!; [done..|constructor]. }
  destruct (Z.ltb_spec (tick dp) (tick x)) as [Ht|Ht]; [|done].
  rewrite PacketQueue.matchAddr_run by done. cbn [mbind res_bind]. case_bool_decide as Hk; [done|].
  rewrite Hem. cbn [mbind res_bind]. exists l1, (l2 ++ [x]).
  split_and!; [by rewrite app_assoc| |intros _; by apply Hl1|].
  - by rewrite app_comm_cons, app_assoc, reverse_snoc.
  - apply Forall_app. split; [done|]. constructor; [|done]. by split.
Qed.

(** The last element after an insertion is the new one or a later one. *)
Lemma emplace_back dp l1 l2 :
  Forall (after true dp) l2 → ∃ b, head (reverse (l1 ++ dp :: l2)) = Some b ∧ tick dp ≤ tick b.
Proof.
  intros Haf. destruct l2 as [|y l2 _] using rev_ind.
  - exists dp. rewrite reverse_snoc. by split; [|lia].
  - exists y. rewrite app_comm_cons, app_assoc, reverse_snoc. split; [done|].
    apply Forall_app in Haf as [_ Hy]. inversion Hy as [|?? [? _] _]; subst. lia.
Qed.

(** ** The invariant *)

(** [good] requests are reads or writes that the memory can serve whenever its
    contents satisfy [minv]. *)
Record serves (minv : AbstractMemory.t → Prop) (good : Packet → Prop) : Prop := {
  sv_kind : ∀ p, good p → cacheResponding p = false ∧ isRead (cmd p) || isWrite (cmd p) = true;
  sv_size : ∀ p, good p → ∃ sz d, getSize p = Ok sz ∧
    d_to_u64 (dmul (d_of_Z sz) (bandwidth prm)) = Some d ∧ 0 ≤ d < 2 ^ 61;
  sv_access : ∀ p m, good p → minv m → ∃ p' m',
    AbstractMemory.access atomicOp (p <| headerDelay := 0 |> <| payloadDelay := 0 |>) m = Ok (p', m') ∧ minv m' ∧
    (needsResponse (cmd p) = true → isResponse (cmd p') = true ∧ sendable p');
}.

(** A requestor that makes good requests, and none while it rejects a response;
    its random numbers lie in the interval asked for. *)
Record polite (good : Packet → Prop) : Prop := {
  pl_resp : ∀ now p (e : E) ok l e', recvTimingResp now p e = (ok, l, e') → Forall good l ∧ (ok = false → l = []);
  pl_retry : ∀ now (e : E) l e', recvReqRetry now e = (l, e') → Forall good l;
  pl_random : ∀ lo hi (e : E) r e', random lo hi e = (r, e') → lo ≤ hi → lo ≤ r ≤ hi;
}.

Context (minv : AbstractMemory.t → Prop) (good : Packet → Prop).
Context (Hserve : serves minv good) (Hpeer : polite good).
Context (Hlat : 0 ≤ latency prm ∧ 0 ≤ latency_var prm ∧ latency prm + latency_var prm < 2 ^ 61).

(** The response a request asks for, and a response. *)
Definition needs (p : Packet) : Prop := needsResponse (cmd p) = true.
Definition due (p : Packet) := (responseCommand (cmd p), AbstractMemory.ticket p).
Definition given (p : Packet) := (cmd p, AbstractMemory.ticket p).

(** The responses [l] answer the requests [A]: they are the responses [S] that [A]
    asks for, up to the order of those for different addresses. *)
Definition answering (A l : list Packet) : Prop := ∃ S,
  given <$> S = due <$> filter needs A ∧ l ≡ₚ S ∧
  ∀ k, filter (λ p, key p = k) l = filter (λ p, key p = k) S.

Record Core (w : W) : Prop := {
  co_now : 0 ≤ curTick w;
  co_event : ∀ t, releaseEvent (memory w) = Some t → curTick w ≤ t ∧ isBusy (memory w) = true;
  co_busy : isBusy (memory w) = true → is_Some (releaseEvent (memory w));
  co_retry : retryReq (memory w) = true → isBusy (memory w) = true;
  co_mem : minv (mem (memory w));
  co_list : Forall (λ x, sendable (pkt x)) (packetQueue (memory w));
  co_answers : answering (accepted w) (delivered w ++ (pkt <$> packetQueue (memory w)));
}.

Lemma given_keys k (S A : list Packet) :
  given <$> S = due <$> A → given <$> filter (λ p, key p = k) S = due <$> filter (λ p, key p = k) A.
Proof.
  revert A. induction S as [|x S IH]; intros [|y A]; try done. rewrite !fmap_cons. intros [= H1 H2 H3 H4 H5 H6 H].
  assert (key x = key y) as Hk by (unfold key; congruence).
  rewrite !filter_cons, Hk. destruct (decide (key y = k)); [|by apply IH].
  rewrite !fmap_cons. f_equal; [|by apply IH]. unfold given, due, AbstractMemory.ticket. congruence.
Qed.
Lemma answering_skip A l p : answering A l → ¬ needs p → answering (A ++ [p]) l.
Proof.
  intros (S & Hg & Hp & Ho) Hn. exists S. rewrite filter_app, (filter_cons_False _ p), filter_nil, app_nil_r by done.
  done.
Qed.
Lemma answering_spec A l : answering A l →
  (given <$> l) ≡ₚ (due <$> filter needs A) ∧
  ∀ k, given <$> filter (λ p, key p = k) l = due <$> filter (λ p, key p = k) (filter needs A).
Proof.
  intros (S & Hg & Hp & Ho). split; [by rewrite Hp, Hg|]. intros k. rewrite Ho. by apply given_keys.
Qed.

Lemma getLatency_run w :
  ∃ l e, getLatency w = Ok (l, w <| peer := e |>) ∧ 0 ≤ l < 2 ^ 61.
Proof.
  unfold getLatency. destruct (Z.eqb_spec (latency_var prm) 0) as [H0|H0].
  - exists (latency prm), (peer w). split; [by destruct w|lia].
  - unfold get_state, modify, mbind, M_bind. destruct (random 0 (latency_var prm) (peer w)) as [r e] eqn:Hr.
    apply (pl_random _ Hpeer) in Hr; [|lia]. exists (u64 (latency prm + r)), e.
    rewrite u64_id by (unfold is_u64; lia). split; [done|lia].
Qed.

Lemma recvAtomic_run w p :
  good p → minv (mem (memory w)) →
  ∃ p' m' l e, recvAtomic (p <| headerDelay := 0 |> <| payloadDelay := 0 |>) w
    = Ok ((p', l), w <| memory ::= λ s, s <| mem := m' |> |> <| peer := e |>) ∧ minv m' ∧
    (needs p → isResponse (cmd p') = true ∧ sendable p' ∧ given p' = due p).
Proof.
  intros Hp Hm. destruct (sv_access _ _ Hserve p _ Hp Hm) as (p' & m' & Ha & Hm' & Hr).
  destruct (sv_kind _ _ Hserve p Hp) as [Hc _].
  assert (needs p → given p' = due p) as Hg.
  { intros Hn. destruct (AbstractMemory.access_ticket _ _ _ _ _ Ha Hc Hn) as [Ht Hcm].
    unfold given, due. by rewrite Ht, Hcm. }
  destruct (getLatency_run (w <| memory ::= λ s, s <| mem := m' |> |>)) as (l & e & Hl & _).
  exists p', m', l, e. split; [|split; [done|intros Hn; destruct (Hr Hn); auto]]. unfold recvAtomic.
  change (cacheResponding _) with (cacheResponding p). rewrite Hc.
  unfold get_state, lift_res, upd, modify, mbind, M_bind. rewrite Ha. cbn [mret M_ret]. by rewrite Hl.
Qed.

(** The bandwidth taken by a request. *)
Definition occupied (d : Tick) (w : W) : W :=
  if d =? 0 then w
  else w <| memory ::= λ s, s <| releaseEvent := Some (curTick w + d) |> <| isBusy := true |> |>.

Lemma occupied_run w d :
  Core w → isBusy (memory w) = false → curTick w < 2 ^ 62 → 0 ≤ d < 2 ^ 61 →
  when_ (negb (d =? 0)) (schedule_release (u64 (curTick w + d));; upd (λ s, s <| isBusy := true |>)) w
  = Ok (tt, occupied d w).
Proof.
  intros Hc Hb Hn Hd. pose proof (co_now _ Hc). unfold occupied. destruct (Z.eqb_spec d 0) as [H0|H0]; [done|].
  cbn [negb when_]. rewrite u64_id by (unfold is_u64; lia).
  unfold schedule_release, get_state, assert_that, upd, modify, mbind, M_bind.
  rewrite (proj2 (Z.leb_le _ _)) by lia. cbn [mret M_ret]. rewrite bool_decide_true; [done|].
  destruct (releaseEvent (memory w)) as [t|] eqn:Ht; [|done]. destruct (co_event _ Hc t Ht). congruence.
Qed.

Lemma occupied_core w d m e :
  Core w → isBusy (memory w) = false → 0 ≤ d → minv m →
  Core ((occupied d w) <| memory ::= λ s, s <| mem := m |> |> <| peer := e |>).
Proof.
  intros [] Hb Hd Hm. unfold occupied. destruct (Z.eqb_spec d 0); split; cbn; try done.
  intros t [= <-]. split; [lia|done].
Qed.

(** ** One request *)

(** The event once [dp] was put between [l1] and [l2]: scheduled, unless it was
    or a retry is owed. *)
Definition woken (w : W) (dp : DeferredPacket) (ev : option Tick) : Prop :=
  if negb (retryResp (memory w)) && bool_decide (dequeueEvent (memory w) = None)
  then ∃ t, ev = Some t ∧ tick dp ≤ t ∧ (packetQueue (memory w) = [] → t = tick dp)
  else ev = dequeueEvent (memory w).

(** What a request does to the queue and the dequeue event. *)
Inductive effect (w w' : W) : Prop :=
  | effect_none :
      packetQueue (memory w') = packetQueue (memory w) → dequeueEvent (memory w') = dequeueEvent (memory w) → effect w w'
  | effect_queued dp l1 l2 :
      packetQueue (memory w) = l1 ++ l2 → packetQueue (memory w') = l1 ++ dp :: l2 →
      (packetQueue (memory w) ≠ [] → l1 ≠ []) → curTick w ≤ tick dp →
      woken w dp (dequeueEvent (memory w')) → effect w w'.

Record received (w w' : W) : Prop := {
  rc_core : Core w';
  rc_now : curTick w' = curTick w;
  rc_flag : retryResp (memory w') = retryResp (memory w);
  rc_effect : effect w w';
}.

Lemma queued_core w r p when l1 l2 ev :
  Core w → sendable p → needs r → given p = due r →
  packetQueue (memory w) = l1 ++ l2 → Forall (after true (mkDeferred when p)) l2 →
  Core (noted r true (w <| memory ::= λ s, s <| packetQueue := l1 ++ mkDeferred when p :: l2 |> <| dequeueEvent := ev |> |>)).
Proof.
  intros [Hn He Hb Hr Hm Hl (S & Hg & Hp & Ho)] Hs Hnr Hgr Hq Haf. rewrite Hq in *. split; cbn; try done.
  - apply Forall_app in Hl as [? ?]. apply Forall_app. split; [done|by constructor].
  - exists (S ++ [p]). split_and!.
    + rewrite filter_app, (filter_cons_True _ r), filter_nil, !fmap_app by done. cbn. by rewrite Hg, Hgr.
    + rewrite fmap_app, fmap_cons. cbn [pkt]. rewrite <- Hp, fmap_app. solve_Permutation.
    + intros k. by apply PacketQueue.order_insert.
Qed.

Lemma queue_response_run w r p when :
  Core w → sendable p → needs r → given p = due r → curTick w ≤ when →
  ∃ w', queue_response p when w = Ok (true, w') ∧ received w (noted r true w').
Proof.
  intros Hc Hs Hnr Hgr Hw.
  destruct (simple_emplace_run (mkDeferred when p) (packetQueue (memory w))) as (l1 & l2 & Hq & Hem & Hne & Haf);
    [done|apply Hc|].
  destruct (emplace_back (mkDeferred when p) l1 l2 Haf) as (b & Hb & Hwb). cbn [tick] in Hwb.
  unfold queue_response, get_state, lift_res, upd, modify, of_option, mbind, M_bind. rewrite Hem, Hb.
  cbn [mret M_ret]. rewrite reverse_involutive.
  pose proof (queued_core w r p when l1 l2 (dequeueEvent (memory w)) Hc Hs Hnr Hgr Hq Haf) as Hk0.
  pose proof (queued_core w r p when l1 l2 (Some (tick b)) Hc Hs Hnr Hgr Hq Haf) as Hk1.
  unfold woken. destruct (negb (retryResp (memory w)) && bool_decide (dequeueEvent (memory w) = None)) eqn:Hcond; cbn [when_].
  - apply andb_prop in Hcond as [Hrr Hev%bool_decide_eq_true].
    unfold schedule_dequeue, get_state, assert_that, upd, modify, mbind, M_bind. cbn [memory curTick set_field].
    rewrite (proj2 (Z.leb_le _ _)) by (cbn; lia). cbn. rewrite Hev. cbn. eexists. split; [done|].
    split; [exact Hk1|done|done|]. eapply (effect_queued _ _ (mkDeferred when p) l1 l2); [done..|].
    unfold woken. rewrite Hev, Hrr. cbn [andb].
    rewrite bool_decide_true by done.
    exists (tick b). split_and!; [done|done|]. intros Hq0. rewrite Hq0 in Hq. symmetry in Hq.
    apply app_eq_nil in Hq as [-> ->]. cbn in Hb. by injection Hb as <-.
  - eexists. split; [done|]. split; [|done|done|].
    + destruct w as [[] ? ? ? ?]. exact Hk0.
    + eapply (effect_queued _ _ (mkDeferred when p) l1 l2); [done..|]. unfold woken. by rewrite Hcond.
Qed.

Lemma recvTimingReq_run w p :
  Core w → good p → curTick w < 2 ^ 62 →
  ∃ ok w', recvTimingReq p w = Ok (ok, w') ∧ received w (noted p ok w').
Proof.
  intros Hc Hp Hn. destruct (sv_kind _ _ Hserve p Hp) as [Hcr Hk].
  destruct (sv_size _ _ Hserve p Hp) as (sz & d & Hsz & Hd & Hd0).
  unfold recvTimingReq. rewrite Hcr, Hk. cbn [negb]. unfold get_state at 1. erewrite bind_run by done.
  destruct (retryReq (memory w)) eqn:Hrt.
  { exists false, w. split; [done|]. split; [done..|by apply effect_none]. }
  destruct (isBusy (memory w)) eqn:Hb.
  { eexists false, _. split; [done|]. split; [|done..|by apply effect_none]. destruct Hc. by split. }
  erewrite bind_run by (unfold lift_res; change (getSize _) with (getSize p); by rewrite Hsz).
  erewrite bind_run by (by rewrite Hd). erewrite bind_run by (by apply occupied_run).
  assert (mem (memory (occupied d w)) = mem (memory w) ∧ packetQueue (memory (occupied d w)) = packetQueue (memory w) ∧
          dequeueEvent (memory (occupied d w)) = dequeueEvent (memory w) ∧ curTick (occupied d w) = curTick w ∧
          retryResp (memory (occupied d w)) = retryResp (memory w)) as (Hm & Hq & He & Ht & Hf).
  { unfold occupied. by destruct (d =? 0). }
  destruct (recvAtomic_run (occupied d w) p Hp) as (p' & m' & l & e & Hr & Hm' & Hresp); [rewrite Hm; apply Hc|].
  erewrite bind_run by exact Hr.
  pose proof (occupied_core w d m' e Hc Hb (proj1 Hd0) Hm') as Hc1.
  set (w1 := (occupied d w) <| memory ::= λ s, s <| mem := m' |> |> <| peer := e |>) in *.
  change (needsResponse (cmd _)) with (needsResponse (cmd p)). unfold needs in Hresp.
  destruct (needsResponse (cmd p)) eqn:Hneeds.
  - destruct (Hresp eq_refl) as (Hir & Hs & Hg). erewrite bind_run by (by rewrite Hir).
    destruct (getLatency_run w1) as (l2 & e2 & Hl2 & Hb2). erewrite bind_run by exact Hl2.
    pose proof (u32_range (headerDelay p + payloadDelay p)) as Hdel. unfold is_u32 in Hdel.
    pose proof (co_now _ Hc). rewrite u64_id by (unfold is_u64; lia).
    destruct (queue_response_run (w1 <| peer := e2 |>) p p' (curTick w + u32 (headerDelay p + payloadDelay p) + l2))
      as (w' & Hrun & [R1 R2 R3 R4]); [by destruct Hc1; split|done|done|done|change (curTick w1) with (curTick (occupied d w)); cbn; rewrite Ht; lia|].
    exists true, w'. split; [exact Hrun|]. split; [done|by rewrite R2|by rewrite R3|].
    destruct R4 as [A1 A2|dp l1 l3 A1 A2 A3 A4 A5]; cbn in *; rewrite ?Hq, ?He, ?Ht in *.
    + by apply effect_none.
    + eapply effect_queued; [done..|]. unfold woken in *. cbn in *. by rewrite Hf, He, Hq in A5.
  - eexists true, _. split; [done|]. split; [|done|done|].
    + destruct Hc1. split; try done. apply answering_skip; [done|]. unfold needs. congruence.
    + by apply effect_none.
Qed.

(** ** Between calls, and while a response is offered *)

Abbreviation tl w := (packetQueue (memory w)).

Record Inv (w : W) : Prop := {
  iv_core : Core w;
  iv_event : ∀ t, dequeueEvent (memory w) = Some t →
    curTick w ≤ t ∧ retryResp (memory w) = false ∧ ∃ dp l, tl w = dp :: l ∧ tick dp ≤ t;
  iv_wait : retryResp (memory w) = true → ∃ dp l, tl w = dp :: l ∧ tick dp ≤ curTick w;
  iv_wake : tl w ≠ [] → retryResp (memory w) = true ∨ is_Some (dequeueEvent (memory w));
}.

Record Sending (dp : DeferredPacket) (w : W) : Prop := {
  sd_core : Core w;
  sd_head : ∃ l, tl w = dp :: l ∧ (∀ t, dequeueEvent (memory w) = Some t → curTick w ≤ t ∧ l ≠ []);
}.

Lemma received_inv w w' : Inv w → received w w' → Inv w'.
Proof.
  intros [Hc He Hw Hk] [Rc Rn Rf [A1 A2|dp l1 l2 A1 A2 A3 A4 A5]].
  { split; [done|..]; rewrite ?A1, ?A2, ?Rn, ?Rf; done. }
  unfold woken in A5. destruct (negb (retryResp (memory w)) && bool_decide (dequeueEvent (memory w) = None)) eqn:Hcond.
  - apply andb_prop in Hcond as [Hr%negb_true_iff Hev%bool_decide_eq_true]. destruct A5 as (t & At & A6 & A7).
    assert (tl w = []) as Hnil.
    { destruct (tl w) eqn:Htl; [done|]. destruct (Hk ltac:(done)) as [?|[? ?]]; congruence. }
    specialize (A7 Hnil). rewrite Hnil in A1. symmetry in A1. apply app_eq_nil in A1 as [-> ->].
    split; [done|..]; rewrite ?Rn, ?Rf, ?At, ?A2.
    + intros t' [= <-]. split_and!; [lia|done|]. exists dp, []. split; [done|lia].
    + congruence.
    + intros _. right. by eexists.
  - split; [done|..]; rewrite ?Rn, ?Rf, ?A5, ?A2.
    + intros t Ht. destruct (He t Ht) as (? & ? & d & l & Hq & ?). split_and!; [done..|].
      specialize (A3 ltac:(by rewrite Hq)). destruct l1 as [|x l1]; [done|]. rewrite Hq in A1. injection A1 as <- _. eauto.
    + intros Hr. destruct (Hw Hr) as (d & l & Hq & ?).
      specialize (A3 ltac:(by rewrite Hq)). destruct l1 as [|x l1]; [done|]. rewrite Hq in A1. injection A1 as <- _. eauto.
    + intros _. apply andb_false_iff in Hcond as [Hr%negb_false_iff|Hev%bool_decide_eq_false]; [by left|right].
      destruct (dequeueEvent (memory w)); [by eexists|done].
Qed.

Lemma received_sending dp w w' : Sending dp w → received w w' → Sending dp w'.
Proof.
  intros [Hc (l & Hq & He)] [Rc Rn Rf [A1 A2|x l1 l2 A1 A2 A3 A4 A5]]; split; try done.
  { exists l. rewrite A1, A2, Rn. by split. }
  specialize (A3 ltac:(by rewrite Hq)). destruct l1 as [|y l1]; [done|]. rewrite Hq in A1. injection A1 as <- Hl.
  exists (l1 ++ x :: l2). rewrite A2, Rn. split; [done|]. intros t Ht. split; [|by destruct l1].
  unfold woken in A5. destruct (_ && _).
  - destruct A5 as (t' & Ht' & ? & _). rewrite Ht in Ht'. injection Ht' as <-. lia.
  - rewrite Ht in A5. by destruct (He t).
Qed.

Lemma requests_keep (P : W → Prop) l : ∀ w,
  (∀ w, P w → Core w) → (∀ w w', P w → received w w' → P w') → (∀ w f, P w → P (w <| peer ::= f |>)) →
  P w → Forall good l → (l ≠ [] → curTick w < 2 ^ 62) →
  ∃ w', requests l w = Ok (tt, w') ∧ P w' ∧ curTick w' = curTick w.
Proof.
  induction l as [|p l IH]; intros w Hcore Hrec Hpe Hw Hl Hn; [by exists w|].
  apply Forall_cons in Hl as [Hp Hl]. cbn [requests].
  destruct (recvTimingReq_run w p) as (ok & w1 & Hr & R); [by apply Hcore|done|by apply Hn|].
  erewrite bind_run by exact Hr. erewrite bind_run by done. erewrite bind_run by done.
  destruct (IH ((noted p ok w1) <| peer ::= informed p ok |>)) as (w' & Hr' & Hw' & Ht'); try done.
  - apply Hpe. by eapply Hrec.
  - intros _. cbn. rewrite (rc_now _ _ R). by apply Hn.
  - exists w'. split; [done|]. split; [done|]. rewrite Ht'. cbn. apply R.
Qed.

Lemma core_peer w f : Core w → Core (w <| peer ::= f |>).
Proof. intros []. by split. Qed.
Lemma inv_peer w f : Inv w → Inv (w <| peer ::= f |>).
Proof. intros [[]]. by split; [split|..]. Qed.
Lemma sending_peer dp w f : Sending dp w → Sending dp (w <| peer ::= f |>).
Proof. intros [[] ?]. by split; [split|]. Qed.

(** ** One response *)

(** The state once the first response is taken. *)
Definition popped (dp : DeferredPacket) (l : list DeferredPacket) (ev : option Tick) (d : DrainState) (n : nat) (w : W) : W :=
  w <| memory ::= λ s, s <| retryResp := false |> <| packetQueue := l |> <| dequeueEvent := ev |>
                         <| drainState := d |> <| drainDone := n |> |>
    <| delivered ::= λ d, d ++ [pkt dp] |>.

Lemma popped_core dp l ev d n w : Core w → tl w = dp :: l → Core (popped dp l ev d n w).
Proof.
  intros [Hn He Hb Hr Hm Hl Hp] Hq. rewrite Hq in *. inversion Hl; subst.
  split; cbn; try done. rewrite <- app_assoc. exact Hp.
Qed.

Lemma advance_run dp w :
  Sending dp w →
  ∃ l w', tl w = dp :: l ∧ advance dp (w <| memory ::= λ s, s <| retryResp := false |> |>) = Ok (tt, w') ∧ Inv w' ∧
    tl w' = l ∧ accepted w' = accepted w ∧ retryResp (memory w') = false ∧ releaseEvent (memory w') = releaseEvent (memory w).
Proof.
  intros [Hc (l & Hq & He)]. exists l. unfold advance, upd, modify, get_state, mbind, M_bind. cbn. rewrite Hq. cbn [tail].
  destruct l as [|y l].
  - assert (dequeueEvent (memory w) = None) as Hev.
    { destruct (dequeueEvent (memory w)) as [t|] eqn:Ht; [|done]. by destruct (He t eq_refl). }
    set (b := bool_decide (drainState (memory w) = Draining)).
    exists (popped dp [] None (if b then Drained else drainState (memory w))
                              (if b then S (drainDone (memory w)) else drainDone (memory w)) w).
    split; [done|]. split.
    { unfold popped, when_, b. destruct w as [[] ? ? ? ?]. cbn in *. subst. by case_bool_decide. }
    split; [|done]. split; [by apply popped_core|done..].
  - exists (popped dp (y :: l) (Some (Z.max (tick y) (curTick w))) (drainState (memory w)) (drainDone (memory w)) w). split; [done|]. split.
    { unfold reschedule_dequeue, get_state, assert_that, upd, modify, mbind, M_bind. cbn.
      rewrite (proj2 (Z.leb_le _ _)) by lia. cbn. unfold popped. destruct w as [[] ? ? ? ?]. cbn in *. by subst. }
    split; [|done]. split; [by apply popped_core| |done|].
    + intros t [= <-]. cbn. split_and!; [lia|done|]. exists y, l. split; [done|lia].
    + intros _. right. by eexists.
Qed.

Lemma dequeue_inv w dp l :
  Core w → tl w = dp :: l → tick dp ≤ curTick w → dequeueEvent (memory w) = None → curTick w < 2 ^ 62 →
  ∃ w', dequeue w = Ok (tt, w') ∧ Inv w'.
Proof.
  intros Hc Hq Hdp Hev Hn. unfold dequeue. unfold get_state at 1. erewrite bind_run by done. rewrite Hq.
  destruct (recvTimingResp (curTick w) (pkt dp) (peer w)) as [[ok rs] e] eqn:Hr.
  destruct (pl_resp _ Hpeer _ _ _ _ _ _ Hr) as [Hrs Hrej].
  assert (Sending dp (w <| peer := e |>)) as Hs.
  { split; [by apply (core_peer w (λ _, e))|]. exists l. split; [done|]. cbn. by rewrite Hev. }
  destruct (requests_keep (Sending dp) rs (w <| peer := e |>)) as (w1 & Hreq & Hs1 & Hn1); try done.
  { by intros ? []. } { intros. by eapply received_sending. } { intros. by apply sending_peer. }
  assert (sendTimingResp (pkt dp) w = Ok (ok, w1)) as Hsend.
  { unfold sendTimingResp, get_state, modify, mbind, M_bind. rewrite Hr. by rewrite Hreq. }
  erewrite bind_run by exact Hsend. erewrite bind_run by done. destruct ok; cbn [negb].
  - destruct (advance_run dp w1 Hs1) as (l' & w' & _ & Hrun & Hi & _). by exists w'.
  - specialize (Hrej eq_refl). subst rs. injection Hreq as <-. eexists. split; [done|].
    destruct Hc. split; [by split|..]; cbn; rewrite ?Hev, ?Hq; try done; eauto.
Qed.

(** ** Runs *)

Definition enabled (a : Action) (w : W) : Prop :=
  match a with
  | Request p => good p ∧ curTick w < 2 ^ 62
  | FireRelease => ∃ t, releaseEvent (memory w) = Some t ∧ t < 2 ^ 62 ∧ ∀ t', dequeueEvent (memory w) = Some t' → t ≤ t'
  | FireDequeue => ∃ t, dequeueEvent (memory w) = Some t ∧ t < 2 ^ 62 ∧ ∀ t', releaseEvent (memory w) = Some t' → t ≤ t'
  | RespRetry => retryResp (memory w) = true ∧ curTick w < 2 ^ 62
  | Drain => True
  | Advance now => curTick w ≤ now ∧ (∀ t, releaseEvent (memory w) = Some t → now ≤ t) ∧
      (∀ t, dequeueEvent (memory w) = Some t → now ≤ t)
  end.

(** The memory is free again. *)
Definition released (t : Tick) (w : W) : W :=
  w <| curTick := t |> <| memory ::= λ s, s <| releaseEvent := None |> <| isBusy := false |> <| retryReq := false |> |>.

Lemma released_inv w t :
  Inv w → releaseEvent (memory w) = Some t → (∀ t', dequeueEvent (memory w) = Some t' → t ≤ t') → Inv (released t w).
Proof.
  intros [[Hn He Hb Hr Hm Hl Hp] Hev Hwt Hwk] Ht Hord. destruct (He t Ht) as [Hle Hbusy].
  split; [split|..]; cbn; try done; [lia| |].
  - intros t' Ht'. destruct (Hev t' Ht') as (_ & ? & ?). split_and!; [by apply Hord|done..].
  - intros Hrr. destruct (Hwt Hrr) as (dp & l & ? & ?). exists dp, l. split; [done|lia].
Qed.

Lemma release_run w t :
  Inv w → releaseEvent (memory w) = Some t →
  exec FireRelease w = (if retryReq (memory w) then sendRetryReq else mret tt) (released t w).
Proof.
  intros Hi Ht. destruct (co_event _ (iv_core _ Hi) t Ht) as [_ Hbusy].
  unfold exec, of_option, get_state, modify, mbind, M_bind. rewrite Ht. cbn [mret M_ret].
  unfold release, get_state, assert_that, upd, modify, mbind, M_bind. cbn. rewrite Hbusy. cbn.
  destruct (retryReq (memory w)) eqn:Hrt; [done|]. unfold released. destruct w as [[] ? ? ? ?]. cbn in *. by subst.
Qed.

Lemma release_inv w t :
  Inv w → releaseEvent (memory w) = Some t → t < 2 ^ 62 → (∀ t', dequeueEvent (memory w) = Some t' → t ≤ t') →
  ∃ w', exec FireRelease w = Ok (tt, w') ∧ Inv w'.
Proof.
  intros Hi Ht Hmax Hord. rewrite (release_run w t Hi Ht). pose proof (released_inv w t Hi Ht Hord) as Hi1.
  destruct (retryReq (memory w)); [|by exists (released t w)].
  unfold sendRetryReq, get_state, modify, mbind, M_bind. cbn.
  destruct (recvReqRetry t (peer w)) as [rs e] eqn:Hrr. pose proof (pl_retry _ Hpeer _ _ _ _ Hrr) as Hrs.
  destruct (requests_keep Inv rs ((released t w) <| peer := e |>)) as (w' & Hreq & Hi' & _); try done; [..|by exists w'].
  - by intros ? [].
  - intros. by eapply received_inv.
  - intros. by apply inv_peer.
  - by apply (inv_peer (released t w) (λ _, e)).
Qed.

Lemma simple_exec_inv a w : Inv w → enabled a w → ∃ w', exec a w = Ok (tt, w') ∧ Inv w'.
Proof.
  intros Hi Hen. pose proof Hi as [Hc Hev Hwt Hwk]. destruct a as [p| | | | |now]; cbn [enabled] in Hen.
  - destruct Hen as [Hp Hn]. destruct (requests_keep Inv [p] w) as (w' & Hr & Hi' & _); try done; [..|by exists w'].
    + by intros ? [].
    + intros. by eapply received_inv.
    + intros. by apply inv_peer.
    + by constructor.
  - destruct Hen as (t & Ht & Hmax & Hord). by eapply release_inv.
  - destruct Hen as (t & Ht & Hmax & Hord). destruct (Hev t Ht) as (Hle & Hrr & dp & l & Hq & Hdp).
    unfold exec, of_option, get_state, modify, mbind, M_bind. rewrite Ht. cbn [mret M_ret].
    eapply (dequeue_inv _ dp l); [|done..]. destruct Hc. split; cbn; try done; [lia|].
    intros t' Ht'. split; [by apply Hord|by eapply co_event0].
  - destruct Hen as [Hrr Hn]. destruct (Hwt Hrr) as (dp & l & Hq & Hdp).
    unfold exec, recvRespRetry, get_state, assert_that, mbind, M_bind. rewrite Hrr. cbn [mret M_ret].
    eapply (dequeue_inv _ dp l); try done. destruct (dequeueEvent (memory w)) as [t|] eqn:Ht; [|done].
    destruct (Hev t eq_refl) as (_ & ? & _). congruence.
  - eexists. split; [done|]. destruct Hc. by split; [split|..].
  - destruct Hen as (Hle & Hr & Hd). eexists. split; [done|]. destruct Hc. split; [split|..]; cbn; try done; [lia|..].
    + intros t Ht. split; [by apply Hr|by eapply co_event0].
    + intros t Ht. destruct (Hev t Ht) as (_ & ?). split; [by apply Hd|done].
    + intros Hrr. destruct (Hwt Hrr) as (dp & l & ? & ?). exists dp, l. split; [done|lia].
Qed.

Inductive reachable (m : AbstractMemory.t) (e : E) : W → Prop :=
  | reach_init : reachable m e (mkWorld (ctor m) 0 e [] [])
  | reach_step w a w' : reachable m e w → enabled a w → exec a w = Ok (tt, w') → reachable m e w'.

Lemma simple_reachable_inv m e w : minv m → reachable m e w → Inv w.
Proof.
  intros Hm. induction 1 as [|w a w' Hr IH Hen Hex].
  - split; [split|..]; try done. by exists [].
  - destruct (simple_exec_inv a w IH Hen) as (w'' & Hex' & Hi). rewrite Hex in Hex'. by injection Hex' as <-.
Qed.

(** With a polite requestor no assertion of the memory fires:
    every enabled action of a reachable state completes. *)
Theorem simple_never_aborts m e w a :
  minv m → reachable m e w → enabled a w → ∃ w', exec a w = Ok (tt, w').
Proof.
  intros Hm Hr Hen. destruct (simple_exec_inv a w (simple_reachable_inv m e w Hm Hr) Hen) as (w' & Hex & _). eauto.
Qed.

(** C40.  The memory answers each request it accepts once.  The responses taken and
    those waiting are, in number and kind, the responses that the accepted requests
    ask for, each with the response command, the address, the size, the requestor and
    the sender state of its request, and those for one address come in the order in
    which the requests were accepted.  While a response waits, either the requestor
    owes a retry or the dequeue event is scheduled, not before the first response is
    ready; and a requestor that was rejected is owed a retry, which the scheduled
    release event gives.  The requestor makes requests that the memory can serve, and
    none in the call in which it rejects a response. *)
Theorem simple_conserves m e w :
  minv m → reachable m e w →
  (given <$> delivered w ++ (pkt <$> tl w)) ≡ₚ (due <$> filter needs (accepted w)) ∧
  (∀ k, given <$> filter (λ p, key p = k) (delivered w ++ (pkt <$> tl w))
        = due <$> filter (λ p, key p = k) (filter needs (accepted w))) ∧
  (∀ dp l, tl w = dp :: l →
     retryResp (memory w) = true ∨ ∃ t, dequeueEvent (memory w) = Some t ∧ curTick w ≤ t ∧ tick dp ≤ t) ∧
  (retryReq (memory w) = true → ∃ t, releaseEvent (memory w) = Some t ∧ curTick w ≤ t).
Proof.
  intros Hm Hr. destruct (simple_reachable_inv m e w Hm Hr) as [[Hn He Hb Hrt _ _ Hp] Hev Hwt Hwk].
  destruct (answering_spec _ _ Hp) as [Hperm Hord]. split_and!; [done|done| |].
  - intros dp l Hq. destruct (Hwk ltac:(by rewrite Hq)) as [?|[t Ht]]; [by left|right]. exists t.
    destruct (Hev t Ht) as (? & _ & d & l' & Hq' & ?). rewrite Hq in Hq'. injection Hq' as <- _. done.
  - intros Hrr. destruct (Hb (Hrt Hrr)) as [t Ht]. exists t. split; [done|]. by apply He.
Qed.

(** ** Every response leaves *)

(** The next event. *)
Definition service : H unit :=
  w ← get_state;
  match releaseEvent (memory w), dequeueEvent (memory w) with
  | Some r, Some d => exec (if r <? d then FireRelease else FireDequeue)
  | Some _, None => exec FireRelease
  | None, Some _ => exec FireDequeue
  | None, None => mret tt
  end.
Fixpoint services (n : nat) : H unit :=
  match n with 0%nat => mret tt | S n => service;; services n end.

(** A requestor that takes every response and makes no further request. *)
Record quiet : Prop := {
  qt_resp : ∀ now p (e : E) ok l e', recvTimingResp now p e = (ok, l, e') → ok = true ∧ l = [];
  qt_retry : ∀ now (e : E) l e', recvReqRetry now e = (l, e') → l = [];
}.
Context (Hquiet : quiet).

(** The events still to come: one per response, and the release. *)
Definition remaining (w : W) : nat := (length (tl w) + match releaseEvent (memory w) with Some _ => 1 | None => 0 end)%nat.

Lemma quiet_release w t :
  Inv w → releaseEvent (memory w) = Some t → (∀ t', dequeueEvent (memory w) = Some t' → t ≤ t') →
  ∃ w', exec FireRelease w = Ok (tt, w') ∧ Inv w' ∧ tl w' = tl w ∧ accepted w' = accepted w ∧
    retryResp (memory w') = retryResp (memory w) ∧ releaseEvent (memory w') = None.
Proof.
  intros Hi Ht Hord. rewrite (release_run w t Hi Ht). pose proof (released_inv w t Hi Ht Hord) as Hi1.
  destruct (retryReq (memory w)); [|by exists (released t w)].
  unfold sendRetryReq, get_state, modify, mbind, M_bind. cbn.
  destruct (recvReqRetry t (peer w)) as [rs e] eqn:Hrr. rewrite (qt_retry Hquiet _ _ _ _ Hrr).
  eexists. split; [done|]. split; [|done]. by apply (inv_peer (released t w) (λ _, e)).
Qed.

Lemma quiet_dequeue w t :
  Inv w → dequeueEvent (memory w) = Some t → (∀ t', releaseEvent (memory w) = Some t' → t ≤ t') →
  ∃ w', exec FireDequeue w = Ok (tt, w') ∧ Inv w' ∧ tl w' = tail (tl w) ∧ accepted w' = accepted w ∧
    retryResp (memory w') = false ∧ releaseEvent (memory w') = releaseEvent (memory w).
Proof.
  intros [Hc Hev _ _] Ht Hord. destruct (Hev t Ht) as (Hle & Hrr & dp & l & Hq & Hdp).
  unfold exec, of_option, get_state, modify, mbind, M_bind. rewrite Ht. cbn [mret M_ret].
  unfold dequeue, get_state, mbind, M_bind. cbn. rewrite Hq.
  destruct (recvTimingResp t (pkt dp) (peer w)) as [[ok rs] e] eqn:Hr.
  destruct (qt_resp Hquiet _ _ _ _ _ _ Hr) as [-> ->].
  unfold sendTimingResp, get_state, modify, upd, mbind, M_bind. cbn. rewrite Hr. cbn.
  set (w1 := w <| curTick := t |> <| memory ::= λ s, s <| dequeueEvent := None |> |> <| peer := e |>).
  destruct (advance_run dp w1) as (l' & w' & Hq' & Hrun & Hi & Htl & Hiss & Hf & Hrel).
  { split; [|by exists l]. destruct Hc. split; cbn; try done; [lia|].
    intros t' Ht'. split; [by apply Hord|by eapply co_event0]. }
  exists w'. split; [exact Hrun|]. cbn in Hq'. rewrite Hq in Hq'. injection Hq' as <-. by split_and!.
Qed.

Lemma service_run w :
  Inv w → retryResp (memory w) = false → tl w ≠ [] →
  ∃ w', service w = Ok (tt, w') ∧ Inv w' ∧ retryResp (memory w') = false ∧ accepted w' = accepted w ∧
    remaining w = S (remaining w').
Proof.
  intros Hi Hrr Hne. destruct (iv_wake _ Hi Hne) as [?|[d Hd]]; [congruence|].
  unfold service, get_state, mbind, M_bind. rewrite Hd. unfold remaining.
  destruct (releaseEvent (memory w)) as [r|] eqn:Hr; [destruct (Z.ltb_spec r d)|].
  - destruct (quiet_release w r Hi Hr) as (w' & Hx & Hi' & A1 & A2 & A3 & A4); [intros t' Ht'; rewrite Hd in Ht'; injection Ht'; lia|].
    exists w'. rewrite A1, A3, A4. split_and!; [done..|lia].
  - destruct (quiet_dequeue w d Hi Hd) as (w' & Hx & Hi' & A1 & A2 & A3 & A4); [intros t' Ht'; rewrite Hr in Ht'; injection Ht'; lia|].
    exists w'. rewrite A1, A4, Hr. split_and!; [done..|]. destruct (tl w); [done|]. cbn. lia.
  - destruct (quiet_dequeue w d Hi Hd) as (w' & Hx & Hi' & A1 & A2 & A3 & A4); [by rewrite Hr|].
    exists w'. rewrite A1, A4, Hr. split_and!; [done..|]. destruct (tl w); [done|]. cbn. lia.
Qed.

(** Every response leaves: when the requestor takes what it is
    given and asks for nothing more, at most one event per waiting response and
    one more empty the queue, and then every request has its response. *)
Theorem simple_answers m e w :
  minv m → reachable m e w → retryResp (memory w) = false →
  ∃ n w', (n ≤ length (tl w) + 1)%nat ∧ services n w = Ok (tt, w') ∧ tl w' = [] ∧ accepted w' = accepted w ∧
    (given <$> delivered w') ≡ₚ (due <$> filter needs (accepted w)).
Proof.
  intros Hm Hr Hf. apply (simple_reachable_inv m e w Hm) in Hr.
  assert (remaining w ≤ length (tl w) + 1)%nat as Hrem by (unfold remaining; case_match; lia).
  enough (∀ k w, (remaining w ≤ k)%nat → Inv w → retryResp (memory w) = false →
    ∃ n w', (n ≤ k)%nat ∧ services n w = Ok (tt, w') ∧ tl w' = [] ∧ accepted w' = accepted w ∧
      (given <$> delivered w') ≡ₚ (due <$> filter needs (accepted w))) as Hk.
  { exact (Hk _ w Hrem Hr Hf). }
  clear w Hr Hf Hrem. induction k as [|k IH]; intros w Hk Hi Hf; (destruct (decide (tl w = [])) as [Hnil|Hne];
    [exists 0%nat, w; destruct (answering_spec _ _ (co_answers _ (iv_core _ Hi))) as [Hp _]; rewrite Hnil, app_nil_r in Hp; split_and!; by try lia|]).
  - unfold remaining in Hk. destruct (tl w); [done|]. cbn in Hk. lia.
  - destruct (service_run w Hi Hf Hne) as (w1 & Hx & Hi1 & Hf1 & Hs & Hrm).
    destruct (IH w1) as (n & w' & Hn & Hrun & A1 & A2 & A3); [lia|done|done|].
    exists (S n), w'. cbn [services]. erewrite bind_run by exact Hx. rewrite <- Hs. split_and!; [lia|done..].
Qed.
End Memory.

(** ** Plain reads and writes *)

Section Plain.
Context (prm : parameters) (atomicOp : Packet → list Z → list Z) (rg : AddrRanges.AddrRange.t).
Import AbstractMemory(range, lockedAddrList, writeable, backed, fits).

Definition plain_memory (m : AbstractMemory.t) : Prop :=
  range m = rg ∧ lockedAddrList m = [] ∧ writeable m = true ∧ ∃ bytes, backed m bytes.
Definition plain_request (p : Packet) : Prop :=
  (cmd p = ReadReq ∨ cmd p = WriteReq) ∧
  ∃ a sz d, (∀ m, range m = rg → fits m p a sz) ∧
    d_to_u64 (dmul (d_of_Z sz) (bandwidth prm)) = Some d ∧ 0 ≤ d < 2 ^ 61.

Lemma backed_keeps m m' bytes bytes' :
  backed m bytes → AbstractMemory.keeps m m' → AbstractMemory.pmem m' = Some bytes' → length bytes' = length bytes →
  backed m' bytes'.
Proof. intros [] (Hr & _) Hp Hl. split; rewrite ?Hr, ?Hl; done. Qed.

Lemma plain_serves : (∃ m, plain_memory m) → serves prm atomicOp plain_memory plain_request.
Proof.
  intros [m0 (Hr0 & _)]. split.
  - intros p (Hk & a & sz & d & Hf & _). destruct (AbstractMemory.ft_plain _ _ _ _ (Hf m0 Hr0)).
    split; [done|]. by destruct Hk as [-> | ->].
  - intros p (_ & a & sz & d & Hf & Hd). exists sz, d. split; [|done]. apply (Hf m0 Hr0).
  - intros p m (Hk & a & sz & d & Hf & _) (Hr & Hl & Hw & bytes & Hb). specialize (Hf m Hr).
    assert (fits m (p <| headerDelay := 0 |> <| payloadDelay := 0 |>) a sz) as Hf' by (by destruct Hf).
    destruct (AbstractMemory.fits_offset m bytes Hb p a sz Hf) as [_ Ho].
    destruct Hk as [Hk|Hk].
    + destruct (AbstractMemory.access_read atomicOp m bytes Hb _ a sz Hf' Hk) as (p' & m' & Ha & Hc & Hs & Hkp & _ & Hp).
      exists p', m'. pose proof Hkp as (A1 & A2 & A3). split_and!; [done| |intros _; rewrite Hc; by split].
      split_and!; [congruence..|]. exists bytes. by eapply backed_keeps.
    + destruct (AbstractMemory.access_write atomicOp m bytes Hb _ a sz Hf' Hk Hl Hw) as (p' & m' & Ha & Hc & Hs & Hkp & Hp).
      exists p', m'. pose proof Hkp as (A1 & A2 & A3). split_and!; [done| |intros _; rewrite Hc; by split].
      split_and!; [congruence..|]. eexists. eapply backed_keeps; [done..|].
      pose proof (AbstractMemory.ft_data _ _ _ _ Hf). rewrite !length_app, length_take, length_drop. cbn. lia.
Qed.
End Plain.

(** ** Runs *)

(** A memory of 256 bytes that takes a tick per byte and answers after 30. *)
Definition demo_parameters : parameters := mkParameters 30 0 (d_of_Z 1).
Definition no_atomics (_ : Packet) (x : list Z) : list Z := x.
Definition demo_memory : AbstractMemory.t := AbstractMemory.small [].
Definition demo_write : Packet := AbstractMemory.packet_at WriteReq 0x1020 [1; 2; 3; 4] None.
Definition demo_read : Packet := AbstractMemory.packet_at ReadReq 0x1022 [0; 0; 0; 0] None.

(** A requestor that takes everything. *)
#[local] Instance taking : Requestor unit := {|
  recvTimingResp := λ _ _ e, (true, [], e); recvReqRetry := λ _ e, ([], e);
  informed := λ _ _ e, e; random := λ lo _ e, (lo, e) |}.

Lemma taking_polite good : polite good.
Proof.
  split.
  - by intros now p e ok l e' [= <- <- <-].
  - by intros now e l e' [= <- <-].
  - intros lo hi e r e' [= <- <-]. lia.
Qed.
Lemma taking_quiet : quiet.
Proof. split; [by intros ? ? ? ? ? ? [= <- <- <-]|by intros ? ? ? ? [= <- <-]]. Qed.

Lemma demo_plain : plain_memory (AddrRange.plain 0x1000 0x1100) demo_memory.
Proof. split_and!; [done..|]. exists (replicate 256 0). apply AbstractMemory.small_backed. Qed.
Lemma demo_serves :
  serves demo_parameters no_atomics (plain_memory (AddrRange.plain 0x1000 0x1100))
    (plain_request demo_parameters (AddrRange.plain 0x1000 0x1100)).
Proof. apply plain_serves. exists demo_memory. apply demo_plain. Qed.

Lemma demo_good k a d x :
  k = ReadReq ∨ k = WriteReq → 0x1000 ≤ a → d ≠ [] → a + Z.of_nat (length d) ≤ 0x1100 →
  d_to_u64 (dmul (d_of_Z (Z.of_nat (length d))) (d_of_Z 1)) = Some x → 0 ≤ x < 2 ^ 61 →
  plain_request demo_parameters (AddrRange.plain 0x1000 0x1100) (AbstractMemory.packet_at k a d None).
Proof.
  intros Hk Ha Hd He Hx Hx'. split; [done|]. exists a, (Z.of_nat (length d)), x. split; [|done].
  intros m Hm. destruct (AbstractMemory.packet_fits [] k a d Ha Hd He). split; try done. by rewrite Hm.
Qed.

Definition outcome (a : Action) (w : World unit) : World unit :=
  match exec demo_parameters no_atomics a w with Ok (_, w') => w' | Abort _ => w end.
(** A write, and a read once the memory is free. *)
Definition demo_start : World unit := mkWorld (ctor demo_memory) 0 tt [] [].
Definition demo_busy : World unit := outcome (Request demo_write) demo_start.
Definition demo_free : World unit := outcome FireRelease demo_busy.
Definition demo_full : World unit := outcome (Request demo_read) demo_free.
Definition demo : World unit := outcome FireRelease demo_full.

#[local] Abbreviation demo_reachable_from :=
  (reachable demo_parameters no_atomics (plain_request demo_parameters (AddrRange.plain 0x1000 0x1100)) demo_memory tt).

#[local] Ltac fires t :=
  exists t; split; [vm_compute; reflexivity|split; [lia|]]; intros t' Ht'; vm_compute in Ht';
  first [discriminate Ht' | injection Ht' as <-; lia].

Lemma demo_reached : demo_reachable_from demo.
Proof.
  apply (reach_step _ _ _ _ _ demo_full FireRelease); [|fires 8|by vm_compute].
  apply (reach_step _ _ _ _ _ demo_free (Request demo_read)); [| |by vm_compute].
  2:{ split; [|by vm_compute]. eapply (demo_good ReadReq 0x1022 [0; 0; 0; 0] 4); [by left|lia|done|cbn; lia|by vm_compute|lia]. }
  apply (reach_step _ _ _ _ _ demo_busy FireRelease); [|fires 4|by vm_compute].
  apply (reach_step _ _ _ _ _ demo_start (Request demo_write)); [constructor| |by vm_compute].
  split; [|by vm_compute]. eapply (demo_good WriteReq 0x1020 [1; 2; 3; 4] 4); [by right|lia|done|cbn; lia|by vm_compute|lia].
Qed.

Lemma demo_latency : 0 ≤ latency demo_parameters ∧ 0 ≤ latency_var demo_parameters ∧
  latency demo_parameters + latency_var demo_parameters < 2 ^ 61.
Proof. cbn. lia. Qed.

Lemma simple_never_aborts_witness : ∃ w', exec demo_parameters no_atomics FireDequeue demo = Ok (tt, w').
Proof.
  apply (simple_never_aborts demo_parameters no_atomics _ _ demo_serves (taking_polite _) demo_latency demo_memory tt demo
           FireDequeue demo_plain demo_reached).
  fires 30.
Defined.

Lemma simple_conserves_witness :
  (given <$> delivered demo ++ (pkt <$> packetQueue (memory demo))) ≡ₚ (due <$> filter needs (accepted demo)) ∧
  length (accepted demo) = 2%nat.
Proof.
  split; [|by vm_compute]. apply (simple_conserves demo_parameters no_atomics _ _ demo_serves (taking_polite _) demo_latency demo_memory tt demo
           demo_plain demo_reached).
Defined.

Lemma simple_answers_witness :
  ∃ n w', (n ≤ 3)%nat ∧ services demo_parameters no_atomics n demo = Ok (tt, w') ∧ packetQueue (memory w') = [] ∧
    accepted w' = accepted demo ∧ (given <$> delivered w') ≡ₚ (due <$> filter needs (accepted demo)).
Proof.
  apply (simple_answers demo_parameters no_atomics _ _ demo_serves (taking_polite _) demo_latency taking_quiet demo_memory tt demo
           demo_plain demo_reached).
  vm_compute. reflexivity.
Defined.

(** The read sees the write. *)
Example demo_data : data ∘ pkt <$> packetQueue (memory demo) = [[1; 2; 3; 4]; [3; 4; 0; 0]].
Proof. vm_compute. reflexivity. Qed.

(** Politeness is needed.  A requestor that rejects a response and makes a request
    in the same call finds the dequeue event scheduled although a retry is owed:
    the response is sent again without its retry, and when the requestor retries,
    as it must, the memory stops. *)
#[local] Instance rude : Requestor nat := {|
  recvTimingResp := λ _ _ n, match n with 0%nat => (false, [demo_read], 1%nat) | S _ => (true, [], S n) end;
  recvReqRetry := λ _ n, ([], n); informed := λ _ _ n, n; random := λ lo _ n, (lo, n) |}.

Fixpoint execs (l : list Action) : M (World nat) unit :=
  match l with [] => mret tt | a :: l => exec demo_parameters no_atomics a;; execs l end.

Example rude_requestor :
  (∃ w, execs [Request demo_write; FireRelease; FireDequeue] (mkWorld (ctor demo_memory) 0 0%nat [] []) = Ok (tt, w) ∧
    retryResp (memory w) = true ∧ dequeueEvent (memory w) = Some 60) ∧
  execs [Request demo_write; FireRelease; FireDequeue; FireRelease; FireDequeue; RespRetry]
    (mkWorld (ctor demo_memory) 0 0%nat [] []) = Abort AssertFailed.
Proof. split; [eexists; split; [vm_compute; reflexivity|done]|vm_compute; reflexivity]. Qed.
End SimpleMemory.
