(* ===== verification/Bridge.v ===== *)
(** * The bridge (src/gem5/src/mem/bridge.cc, bridge.hh)

    Two bounded queues between a requestor and a memory.  Space for the response
    is reserved when a request is accepted; a request that finds no space is
    rejected and the requestor is told to retry.  The peers are an interface: the
    requestor may make requests before it returns from a response or from a retry,
    the memory may answer a request before it returns from it.  Event times are
    explicit. *)

From S2P Require Import Prelude Clocked MemCmd Packet PacketQueues.
#[local] Open Scope Z_scope.

Module Bridge.
Import PacketQueue(DeferredPacket, mkDeferred, tick, pkt).

(** ** State *)

(** [sendEvent] is its tick, when scheduled.  [blocked] says that the peer has
    rejected the first packet and owes a retry; the code keeps no such flag. *)
Record port := mkPort { transmitList : list DeferredPacket; sendEvent : option Tick; blocked : bool }.
#[export] Instance bridge_port_eta : Eta port := λ s, mkPort (transmitList s) (sendEvent s) (blocked s).

Record parameters := mkParameters { delay : Z; reqQueueLimit : Z; respQueueLimit : Z }.

Record t := mk {
  cpuSidePort : port;               (* responses *)
  memSidePort : port;               (* requests *)
  outstandingResponses : Z;
  retryReq : bool;
  clock : Clocked }.
#[export] Instance bridge_eta : Eta t := λ b,
  mk (cpuSidePort b) (memSidePort b) (outstandingResponses b) (retryReq b) (clock b).

Definition ctor (c : Clocked) : t := mk (mkPort [] None false) (mkPort [] None false) 0 false c.

(** The peers.  [informed] tells the requestor what became of a request. *)
Class Peers (E : Type) := {
  peer_recvTimingResp : Tick → Packet → E → bool * list Packet * E;
  peer_recvReqRetry : Tick → E → list Packet * E;
  peer_informed : Packet → bool → E → E;
  peer_recvTimingReq : Tick → Packet → E → bool * list Packet * E;
}.

(** What passed each port, oldest first; the code keeps no such lists. *)
Record World (E : Type) := mkWorld {
  bridge : t; curTick : Tick; peers : E;
  accepted : list Packet; forwarded : list Packet; received : list Packet; delivered : list Packet }.
Arguments mkWorld {E}. Arguments bridge {E}. Arguments curTick {E}. Arguments peers {E}.
Arguments accepted {E}. Arguments forwarded {E}. Arguments received {E}. Arguments delivered {E}.
#[export] Instance bridge_world_eta E : Eta (World E) := λ w,
  mkWorld (bridge w) (curTick w) (peers w) (accepted w) (forwarded w) (received w) (delivered w).

(** ** One port *)

(** [schedule(sendEvent, when)]. *)
Definition schedule (now when : Tick) (s : port) : res port :=
  if (now <=? when) && bool_decide (sendEvent s = None) then Ok (s <| sendEvent := Some when |>) else Abort AssertFailed.

(** Put a packet behind the others; the first one schedules the event.  The
    request port asserts that there is room. *)
Definition enqueue (limit : option Z) (now when : Tick) (p : Packet) (s : port) : res port :=
  s ← (if bool_decide (transmitList s = []) then schedule now when s else Ok s);
  if bool_decide (limit = Some (Z.of_nat (length (transmitList s)))) then Abort AssertFailed
  else Ok (s <| transmitList ::= λ l, l ++ [mkDeferred when p] |>).

Definition pop_front (s : port) : port := s <| transmitList ::= tail |> <| blocked := false |>.

Section Bridge.
Context {E : Type} `{!Peers E} (prm : parameters).
Abbreviation W := (World E).
Abbreviation H := (M W).

Definition upd (f : t → t) : H unit := modify (λ w, w <| bridge ::= f |>).
Definition on_mem (f : port → res port) : H unit :=
  w ← get_state; s ← lift_res (f (memSidePort (bridge w))); upd (λ b, b <| memSidePort := s |>).
Definition on_cpu (f : port → res port) : H unit :=
  w ← get_state; s ← lift_res (f (cpuSidePort (bridge w))); upd (λ b, b <| cpuSidePort := s |>).

Definition clockEdge_ (cycles : Z) : H Tick :=
  w ← get_state;
  '(e, c) ← lift_res (clockEdge (curTick w) cycles (clock (bridge w)));
  upd (λ b, b <| clock := c |>);; mret e.

Definition respQueueFull (b : t) : bool := outstandingResponses b =? respQueueLimit prm.
Definition reqQueueFull (b : t) : bool := Z.of_nat (length (transmitList (memSidePort b))) =? reqQueueLimit prm.

(** ** Requests *)

Definition schedTimingReq (p : Packet) (when : Tick) : H unit :=
  w ← get_state;
  on_mem (enqueue (Some (reqQueueLimit prm)) (curTick w) when p);;
  modify (λ w, w <| accepted ::= λ l, l ++ [p] |>).

Definition cleared (p : Packet) : Packet := p <| headerDelay := 0 |> <| payloadDelay := 0 |>.

Definition recvTimingReq (p : Packet) : H bool :=
  if cacheResponding p then abort_with Panicked
  else
    w ← get_state;
    if retryReq (bridge w) then mret false
    else
      (if reqQueueFull (bridge w) then upd (λ b, b <| retryReq := true |>)
       else
         (if needsResponse (cmd p) then
            if respQueueFull (bridge w) then upd (λ b, b <| retryReq := true |>)
            else
              assert_that (negb (outstandingResponses (bridge w) =? respQueueLimit prm));;
              upd (λ b, b <| outstandingResponses ::= λ n, u32 (n + 1) |>)
          else mret tt);;
         w ← get_state;
         when_ (negb (retryReq (bridge w)))
           (let receive_delay := u32 (headerDelay p + payloadDelay p) in
            e ← clockEdge_ (delay prm);
            schedTimingReq (cleared p) (u64 (e + receive_delay))));;
      w ← get_state;
      mret (negb (retryReq (bridge w))).

(** The requests a peer makes before it returns. *)
Fixpoint requests (l : list Packet) : H unit :=
  match l with
  | [] => mret tt
  | p :: l =>
      ok ← recvTimingReq p;
      modify (λ w, w <| peers ::= peer_informed p ok |>);;
      requests l
  end.

Definition sendRetryReq : H unit :=
  w ← get_state;
  let '(l, e) := peer_recvReqRetry (curTick w) (peers w) in
  modify (λ w, w <| peers := e |>);; requests l.

Definition retryStalledReq : H unit :=
  w ← get_state;
  when_ (retryReq (bridge w)) (upd (λ b, b <| retryReq := false |>);; sendRetryReq).

(** ** Responses *)

Definition schedTimingResp (p : Packet) (when : Tick) : H unit :=
  w ← get_state;
  on_cpu (enqueue None (curTick w) when p);;
  modify (λ w, w <| received ::= λ l, l ++ [p] |>).

Definition recvTimingResp (p : Packet) : H bool :=
  let receive_delay := u32 (headerDelay p + payloadDelay p) in
  e ← clockEdge_ (delay prm);
  schedTimingResp (cleared p) (u64 (e + receive_delay));;
  mret true.

(** The responses the memory makes before it returns. *)
Fixpoint responses (l : list Packet) : H unit :=
  match l with [] => mret tt | p :: l => recvTimingResp p;; responses l end.

(** ** Sending *)

Definition sendTimingReq (p : Packet) : H bool :=
  w ← get_state;
  let '(ok, l, e) := peer_recvTimingReq (curTick w) p (peers w) in
  modify (λ w, w <| peers := e |>);; responses l;; mret ok.
Definition sendTimingResp (p : Packet) : H bool :=
  w ← get_state;
  let '(ok, l, e) := peer_recvTimingResp (curTick w) p (peers w) in
  modify (λ w, w <| peers := e |>);; requests l;; mret ok.

(** More packets to send: schedule the event again. *)
Definition next_mem : H unit :=
  w ← get_state;
  match transmitList (memSidePort (bridge w)) with
  | [] => mret tt
  | next_req :: _ => e ← clockEdge_ 0; on_mem (schedule (curTick w) (Z.max (tick next_req) e))
  end.
Definition next_cpu : H unit :=
  w ← get_state;
  match transmitList (cpuSidePort (bridge w)) with
  | [] => mret tt
  | next_resp :: _ => e ← clockEdge_ 0; on_cpu (schedule (curTick w) (Z.max (tick next_resp) e))
  end.

Definition trySendTiming_req : H unit :=
  w ← get_state;
  match transmitList (memSidePort (bridge w)) with
  | [] => abort_with AssertFailed
  | req :: _ =>
      assert_that (tick req <=? curTick w);;
      ok ← sendTimingReq (pkt req);
      if (ok : bool) then
        upd (λ b, b <| memSidePort ::= pop_front |>);;
        modify (λ w, w <| forwarded ::= λ l, l ++ [pkt req] |>);;
        next_mem;;
        retryStalledReq
      else upd (λ b, b <| memSidePort ::= λ s, s <| blocked := true |> |>)
  end.

(** There is space for a response again: retry, if there is space for the request. *)
Definition retry_if_room : H unit :=
  w ← get_state;
  when_ (negb (reqQueueFull (bridge w)) && retryReq (bridge w))
    (upd (λ b, b <| retryReq := false |>);; sendRetryReq).

Definition trySendTiming_resp : H unit :=
  w ← get_state;
  match transmitList (cpuSidePort (bridge w)) with
  | [] => abort_with AssertFailed
  | resp :: _ =>
      assert_that (tick resp <=? curTick w);;
      ok ← sendTimingResp (pkt resp);
      if (ok : bool) then
        upd (λ b, b <| cpuSidePort ::= pop_front |>);;
        modify (λ w, w <| delivered ::= λ l, l ++ [pkt resp] |>);;
        w ← get_state;
        assert_that (negb (outstandingResponses (bridge w) =? 0));;
        upd (λ b, b <| outstandingResponses ::= λ n, u32 (n - 1) |>);;
        next_cpu;;
        retry_if_room
      else upd (λ b, b <| cpuSidePort ::= λ s, s <| blocked := true |> |>)
  end.

Definition recvReqRetry : H unit := trySendTiming_req.
Definition recvRespRetry : H unit := trySendTiming_resp.

(** ** Atomic and functional accesses *)

Definition recvAtomic (sendAtomic : Packet → H (Packet * Tick)) (p : Packet) : H (Packet * Tick) :=
  if cacheResponding p then abort_with Panicked
  else
    w ← get_state;
    '(p, l) ← sendAtomic p;
    mret (p, u64 (u64 (delay prm * clockPeriod (clock (bridge w))) + l)).

(** One search, and the response made when it succeeds.  Labels are for printing. *)
Definition search (p : Packet) (l : list DeferredPacket) : res (bool * Packet * list DeferredPacket) :=
  '(found, p, l) ← PacketQueue.satisfy p l;
  if (found : bool) then p ← makeResponse p; Ok (true, p, l) else Ok (false, p, l).

Definition recvFunctional (sendFunctional : Packet → H Packet) (p : Packet) : H Packet :=
  w ← get_state;
  '(found, p, l) ← lift_res (search p (transmitList (cpuSidePort (bridge w))));
  upd (λ b, b <| cpuSidePort ::= λ s, s <| transmitList := l |> |>);;
  if (found : bool) then mret p
  else
    '(found, p, l) ← lift_res (search p (transmitList (memSidePort (bridge w))));
    upd (λ b, b <| memSidePort ::= λ s, s <| transmitList := l |> |>);;
    if (found : bool) then mret p else sendFunctional p.

(** ** What happens around the bridge *)

Inductive Action :=
  | Request (p : Packet)      (* the requestor makes a request *)
  | Response (p : Packet)     (* the memory answers one *)
  | FireReq | FireResp        (* a send event is serviced *)
  | ReqRetry | RespRetry      (* a peer can take what it rejected *)
  | Advance (now : Tick).

Definition exec (a : Action) : H unit :=
  match a with
  | Request p => requests [p]
  | Response p => responses [p]
  | FireReq =>
      w ← get_state;
      now ← of_option UndefinedBehavior (sendEvent (memSidePort (bridge w)));
      modify (λ w, w <| curTick := now |>);;
      upd (λ b, b <| memSidePort ::= λ s, s <| sendEvent := None |> |>);;
      trySendTiming_req
  | FireResp =>
      w ← get_state;
      now ← of_option UndefinedBehavior (sendEvent (cpuSidePort (bridge w)));
      modify (λ w, w <| curTick := now |>);;
      upd (λ b, b <| cpuSidePort ::= λ s, s <| sendEvent := None |> |>);;
      trySendTiming_resp
  | ReqRetry => recvReqRetry
  | RespRetry => recvRespRetry
  | Advance now => modify (λ w, w <| curTick := now |>)
  end.

(** ** One port *)

Record port_ok (now : Tick) (s : port) : Prop := {
  po_event : ∀ t, sendEvent s = Some t → now ≤ t ∧ blocked s = false ∧ ∃ dp l, transmitList s = dp :: l ∧ tick dp ≤ t;
  po_wait : blocked s = true → ∃ dp l, transmitList s = dp :: l ∧ tick dp ≤ now;
  po_wake : transmitList s ≠ [] → blocked s = true ∨ is_Some (sendEvent s);
}.

Lemma enqueue_run limit now when p s :
  port_ok now s → now ≤ when → limit ≠ Some (Z.of_nat (length (transmitList s))) →
  ∃ ev, let s' := mkPort (transmitList s ++ [mkDeferred when p]) ev (blocked s) in
    enqueue limit now when p s = Ok s' ∧ port_ok now s'.
Proof.
  intros [He Hw Hk] Hn Hl. destruct s as [q ev b]. cbn in *. unfold enqueue, schedule. cbn. destruct q as [|x q].
  - assert (ev = None) as ->. { destruct ev as [t|]; [|done]. by destruct (He t eq_refl) as (_ & _ & ? & ? & ? & _). }
    assert (b = false) as ->. { destruct b; [|done]. by destruct (Hw eq_refl) as (? & ? & ? & _). }
    exists (Some when). rewrite bool_decide_true, (proj2 (Z.leb_le _ _)) by done. cbn. rewrite bool_decide_false by done.
    split; [done|]. split; cbn; [|done|by right].
    intros t [= <-]. split_and!; [done|done|]. eexists _, _. split; [done|]. cbn. lia.
  - exists ev. rewrite bool_decide_false by done. cbn. rewrite bool_decide_false by done. split; [done|]. split; cbn.
    + intros t Ht. destruct (He t Ht) as (? & ? & dp & l & [= <- <-] & ?). split_and!; [done|done|]. by eexists _, _.
    + intros Hb. destruct (Hw Hb) as (dp & l & [= <- <-] & ?). by eexists _, _.
    + intros _. by apply Hk.
Qed.

(** A port whose event was serviced schedules the next. *)
Lemma schedule_next_ok now when x l :
  now ≤ when → tick x ≤ when →
  schedule now when (mkPort (x :: l) None false) = Ok (mkPort (x :: l) (Some when) false) ∧
  port_ok now (mkPort (x :: l) (Some when) false).
Proof.
  intros Hn Hx. unfold schedule. cbn. rewrite (proj2 (Z.leb_le _ _)) by done. split; [done|]. split; cbn; [|done|by right].
  intros t [= <-]. split_and!; [done|done|]. by eexists _, _.
Qed.

Lemma port_ok_empty now : port_ok now (mkPort [] None false).
Proof. by split. Qed.

Lemma port_ok_blocked now s dp l :
  sendEvent s = None → transmitList s = dp :: l → tick dp ≤ now → port_ok now (s <| blocked := true |>).
Proof. intros He Hq Hd. split; cbn; rewrite ?He, ?Hq; [done| |by left]. intros _. by eexists _, _. Qed.

(** Time passes up to the event. *)
Lemma port_ok_later now now' s :
  port_ok now s → now ≤ now' → (∀ t, sendEvent s = Some t → now' ≤ t) → port_ok now' s.
Proof.
  intros [He Hw Hk] Hn Ht. split; [| |done].
  - intros t Hs. destruct (He t Hs) as (_ & ? & ?). split_and!; [by apply Ht|done..].
  - intros Hb. destruct (Hw Hb) as (dp & l & ? & ?). exists dp, l. split; [done|lia].
Qed.

(** ** The invariant *)

Context (P : Z) (HP : 0 < P) (Hdelay : 0 ≤ delay prm) (Hperiod : (delay prm + 2) * P < 2 ^ 62).
Context (Hreq : 1 ≤ reqQueueLimit prm) (Hresp : 1 ≤ respQueueLimit prm < 2 ^ 32).

Definition reqs (w : W) : list DeferredPacket := transmitList (memSidePort (bridge w)).
Definition resps (w : W) : list DeferredPacket := transmitList (cpuSidePort (bridge w)).
(** The packets of a list that want an answer. *)
Definition wanting (l : list Packet) : Z := Z.of_nat (length (filter (λ p, needsResponse (cmd p) = true) l)).

Lemma wanting_app l k : wanting (l ++ k) = wanting l + wanting k.
Proof. unfold wanting. rewrite filter_app, length_app. lia. Qed.
Lemma wanting_one p : wanting [p] = if needsResponse (cmd p) then 1 else 0.
Proof. unfold wanting. rewrite filter_cons, filter_nil. by destruct (needsResponse (cmd p)). Qed.
Lemma wanting_cons p l : wanting (p :: l) = (if needsResponse (cmd p) then 1 else 0) + wanting l.
Proof. rewrite <-wanting_one. exact (wanting_app [p] l). Qed.
Lemma wanting_nonneg l : 0 ≤ wanting l.
Proof. unfold wanting. lia. Qed.

(** The answers the memory owes. *)
Definition owed (w : W) : Z := wanting (forwarded w) - Z.of_nat (length (received w)).
(** A requestor is turned away only for want of space. *)
Definition stalled (w : W) : Prop :=
  Z.of_nat (length (reqs w)) = reqQueueLimit prm ∨ outstandingResponses (bridge w) = respQueueLimit prm.

(** The reserved space is for the requests that wait, for the answers the memory
    owes and for the answers that wait. *)
Record Core (w : W) : Prop := {
  co_now : 0 ≤ curTick w;
  co_clock : clock_ok (curTick w) (clock (bridge w)) ∧ clockPeriod (clock (bridge w)) = P;
  co_room : Z.of_nat (length (reqs w)) ≤ reqQueueLimit prm;
  co_count : outstandingResponses (bridge w) = wanting (pkt <$> reqs w) + owed w + Z.of_nat (length (resps w));
  co_bound : outstandingResponses (bridge w) ≤ respQueueLimit prm;
  co_reqs : accepted w = forwarded w ++ (pkt <$> reqs w);
  co_resps : received w = delivered w ++ (pkt <$> resps w);
}.

Definition early (w : W) : Prop := curTick w < 2 ^ 62.

Lemma clock_run w n :
  0 ≤ curTick w → clock_ok (curTick w) (clock (bridge w)) ∧ clockPeriod (clock (bridge w)) = P → early w → 0 ≤ n ≤ delay prm →
  ∃ e c, clockEdge_ n w = Ok (e, w <| bridge ::= λ b, b <| clock := c |> |>) ∧ curTick w ≤ e < 2 ^ 63 ∧
    (∀ now, curTick w ≤ now → clock_ok now c) ∧ clockPeriod c = P.
Proof.
  intros H0 [Hk Hp] Hn Hd. unfold early in Hn.
  destruct (clockEdge_run (curTick w) n (clock (bridge w)) Hk H0) as (c & Hr & Hc' & Hok); [lia|rewrite Hp; nia|].
  pose proof (edge_spec (curTick w) P HP). rewrite Hp in *. eexists _, c.
  unfold clockEdge_, get_state, lift_res, upd, modify, mbind, M_bind. rewrite Hr. split; [done|]. split_and!; [nia|nia|done|done].
Qed.

Definition with_peers (e : E) (w : W) : W := w <| peers := e |>.

(** ** One request *)

Definition good (p : Packet) : Prop := cacheResponding p = false.

(** What a request leaves alone. *)
Record took (w w' : W) : Prop := {
  tk_core : Core w';
  tk_stall : retryReq (bridge w') = true → stalled w';
  tk_mem : port_ok (curTick w') (memSidePort (bridge w'));
  tk_now : curTick w' = curTick w;
  tk_cpu : cpuSidePort (bridge w') = cpuSidePort (bridge w);
  tk_accepted : accepted w `prefix_of` accepted w';
  tk_forwarded : forwarded w' = forwarded w;
  tk_received : received w' = received w;
  tk_delivered : delivered w' = delivered w;
}.

Lemma stall_took w :
  Core w → port_ok (curTick w) (memSidePort (bridge w)) →
  stalled w → took w (w <| bridge ::= λ b, b <| retryReq := true |> |>).
Proof. intros [] Hp Hf. by split; [split|..]. Qed.

(** The request is queued, with space for its response. *)
Definition queued (p : Packet) (when : Tick) (ev : option Tick) (n : Z) (c : Clocked) (w : W) : W :=
  w <| bridge ::= λ b, b <| memSidePort := mkPort (reqs w ++ [mkDeferred when (cleared p)]) ev (blocked (memSidePort b)) |>
                         <| outstandingResponses := n |> <| clock := c |> |>
    <| accepted ::= λ l, l ++ [cleared p] |>.

Lemma accepted_core p when ev n c w :
  Core w → retryReq (bridge w) = false → Z.of_nat (length (reqs w)) ≠ reqQueueLimit prm →
  (∀ now, curTick w ≤ now → clock_ok now c) → clockPeriod c = P →
  n = outstandingResponses (bridge w) + (if needsResponse (cmd p) then 1 else 0) → n ≤ respQueueLimit prm →
  Core (queued p when ev n c w).
Proof.
  intros [H1 H2 H3 H5 H6 H8 H9] Hr Hl Hck Hcp Hn Hb.
  assert (wanting (pkt <$> reqs w ++ [mkDeferred when (cleared p)])
          = wanting (pkt <$> reqs w) + (if needsResponse (cmd p) then 1 else 0)) as Hw.
  { rewrite fmap_app, wanting_app. cbn [fmap list_fmap pkt]. by rewrite wanting_one. }
  split; unfold queued, owed, reqs, resps in *; cbn; try done.
  - split; [|done]. apply Hck. lia.
  - rewrite length_app. cbn [length]. lia.
  - rewrite Hw, Hn. lia.
  - by rewrite H8, fmap_app, app_assoc.
Qed.

Definition reserved (n : Z) (w : W) : W := w <| bridge ::= λ b, b <| outstandingResponses := n |> |>.

(** The request is accepted once its response has its space. *)
Lemma accept_run w p n :
  Core w → port_ok (curTick w) (memSidePort (bridge w)) → early w → retryReq (bridge w) = false →
  Z.of_nat (length (reqs w)) ≠ reqQueueLimit prm →
  n = outstandingResponses (bridge w) + (if needsResponse (cmd p) then 1 else 0) → n ≤ respQueueLimit prm →
  ∃ w', (e ← clockEdge_ (delay prm); schedTimingReq (cleared p) (u64 (e + u32 (headerDelay p + payloadDelay p))))
          (reserved n w) = Ok (tt, w') ∧
        took w w' ∧ retryReq (bridge w') = false.
Proof.
  intros Hc Hp Hn Hr Hl Hnn Hb. pose proof (co_now _ Hc) as H0.
  destruct (clock_run (reserved n w) (delay prm) H0 (co_clock _ Hc) Hn)
    as (e & c & Hrun & He & Hck & Hcp); [lia|].
  set (rd := u32 (headerDelay p + payloadDelay p)). assert (0 ≤ rd < 2 ^ 32) as Hrd by apply u32_range.
  change (curTick _) with (curTick w) in He, Hck.
  erewrite bind_run by exact Hrun. rewrite u64_id by (unfold is_u64; lia).
  destruct (enqueue_run (Some (reqQueueLimit prm)) (curTick w) (e + rd) (cleared p) (memSidePort (bridge w)) Hp) as (ev & Henq & Hp');
    [lia|unfold reqs in Hl; congruence|].
  exists (queued p (e + rd) ev n c w). split_and!; [| |done].
  - unfold schedTimingReq, on_mem, get_state, lift_res, upd, modify, mbind, M_bind. cbn. cbn zeta in Henq. rewrite Henq. done.
  - split; [by apply accepted_core|intros Hx; cbn in Hx; congruence|done..| |done|done|done]. by apply prefix_app_r.
Qed.

Lemma bridge_recvTimingReq w p :
  Core w → 0 ≤ owed w → (retryReq (bridge w) = true → stalled w) → port_ok (curTick w) (memSidePort (bridge w)) →
  good p → early w →
  ∃ ok w', recvTimingReq p w = Ok (ok, w') ∧ took w w'.
Proof.
  intros Hc Ho Hs Hp Hg Hn. unfold recvTimingReq. rewrite Hg. unfold get_state at 1. erewrite bind_run by done.
  destruct (retryReq (bridge w)) eqn:Hr.
  { exists false, w. split; [done|]. split; try done. by intros _; apply Hs. }
  destruct (reqQueueFull (bridge w)) eqn:Hf.
  { eexists false, _. split; [done|]. apply stall_took; [done|done|left]. by apply Z.eqb_eq in Hf. }
  apply Z.eqb_neq in Hf.
  destruct (needsResponse (cmd p) && respQueueFull (bridge w)) eqn:Hfull.
  { apply andb_prop in Hfull as [-> Hq]. rewrite Hq. eexists false, _. split; [done|].
    apply stall_took; [done|done|right]. by apply Z.eqb_eq in Hq. }
  set (n := outstandingResponses (bridge w) + (if needsResponse (cmd p) then 1 else 0)).
  assert (n ≤ respQueueLimit prm ∧ is_u32 n) as [Hn1 Hn2].
  { pose proof (co_bound _ Hc). pose proof (co_count _ Hc).
    pose proof (wanting_nonneg (pkt <$> reqs w)). unfold n, respQueueFull, is_u32 in *.
    destruct (needsResponse (cmd p)); cbn [andb] in Hfull; [apply Z.eqb_neq in Hfull|]; lia. }
  destruct (accept_run w p n) as (w' & Hrun & Ht & Hr'); [done..|].
  exists true, w'. split; [|done].
  assert ((if needsResponse (cmd p) then
             if respQueueFull (bridge w) then upd (λ b, b <| retryReq := true |>)
             else assert_that (negb (outstandingResponses (bridge w) =? respQueueLimit prm));;
                  upd (λ b, b <| outstandingResponses ::= λ n, u32 (n + 1) |>)
           else mret tt) w = Ok (tt, reserved n w)) as Hres.
  { unfold n in *. destruct (needsResponse (cmd p)); cbn [andb] in Hfull.
    - rewrite Hfull. unfold respQueueFull in Hfull. unfold assert_that, upd, modify, mbind, M_bind. rewrite Hfull.
      cbn [negb]. unfold mret, M_ret, reserved, set_field. cbn. by rewrite u32_id.
    - rewrite Z.add_0_r. by destruct w as [[] ? ? ? ? ? ?]. }
  erewrite bind_run; [|erewrite bind_run by exact Hres; unfold get_state at 1; erewrite bind_run by done;
    change (retryReq _) with (retryReq (bridge w)); rewrite Hr; exact Hrun].
  unfold get_state, mbind, M_bind. by rewrite Hr'.
Qed.

(** ** One response *)

Record answered (p : Packet) (w w' : W) : Prop := {
  an_core : Core w';
  an_cpu : port_ok (curTick w') (cpuSidePort (bridge w'));
  an_now : curTick w' = curTick w;
  an_mem : memSidePort (bridge w') = memSidePort (bridge w);
  an_retry : retryReq (bridge w') = retryReq (bridge w);
  an_count : outstandingResponses (bridge w') = outstandingResponses (bridge w);
  an_accepted : accepted w' = accepted w;
  an_forwarded : forwarded w' = forwarded w;
  an_received : received w' = received w ++ [cleared p];
  an_delivered : delivered w' = delivered w;
}.

Lemma recvTimingResp_run w p :
  Core w → port_ok (curTick w) (cpuSidePort (bridge w)) → early w →
  ∃ w', recvTimingResp p w = Ok (true, w') ∧ answered p w w'.
Proof.
  intros Hc Hp Hn. pose proof (co_now _ Hc) as H0. unfold recvTimingResp.
  destruct (clock_run w (delay prm) H0 (co_clock _ Hc) Hn) as (e & c & Hrun & He & Hck & Hcp); [lia|].
  set (rd := u32 (headerDelay p + payloadDelay p)). assert (0 ≤ rd < 2 ^ 32) as Hrd by apply u32_range.
  erewrite bind_run by exact Hrun. rewrite u64_id by (unfold is_u64; lia).
  destruct (enqueue_run None (curTick w) (e + rd) (cleared p) (cpuSidePort (bridge w)) Hp) as (ev & Henq & Hp'); [lia|done|].
  eexists. split.
  - unfold schedTimingResp, on_cpu, get_state, lift_res, upd, modify, mbind, M_bind. cbn. cbn zeta in Henq. by rewrite Henq.
  - destruct Hc as [H1 H2 H3 H5 H6 H8 H9]. split; try done. split; unfold owed, reqs, resps in *; cbn; try done.
    + split; [|done]. apply Hck. lia.
    + rewrite H5, !length_app. cbn [length]. lia.
    + by rewrite H9, fmap_app, app_assoc.
Qed.

Lemma responses_run l : ∀ w,
  Core w → port_ok (curTick w) (cpuSidePort (bridge w)) → early w →
  ∃ w', responses l w = Ok (tt, w') ∧ Core w' ∧ port_ok (curTick w') (cpuSidePort (bridge w')) ∧ curTick w' = curTick w ∧
    memSidePort (bridge w') = memSidePort (bridge w) ∧ retryReq (bridge w') = retryReq (bridge w) ∧
    outstandingResponses (bridge w') = outstandingResponses (bridge w) ∧ accepted w' = accepted w ∧
    forwarded w' = forwarded w ∧ received w' = received w ++ (cleared <$> l) ∧ delivered w' = delivered w.
Proof.
  induction l as [|p l IH]; intros w Hc Hp Hn; [exists w; rewrite app_nil_r; by split_and!|].
  destruct (recvTimingResp_run w p Hc Hp Hn) as (w1 & Hr & [A1 A2 A3 A4 A5 A6 A7 A8 A9 A10]).
  destruct (IH w1) as (w' & Hr' & B1 & B2 & B3 & B4 & B5 & B6 & B7 & B8 & B9 & B10); [done|done|unfold early in *; congruence|].
  exists w'. cbn [responses]. erewrite bind_run by exact Hr. split_and!; try congruence; try done.
  by rewrite B9, A9, <-app_assoc.
Qed.

(** ** Requests the requestor makes before it returns *)

Lemma took_peers w w' f : took w w' → took w (w' <| peers ::= f |>).
Proof. intros [[]]. by split; [split|..]. Qed.
Lemma took_trans w1 w2 w3 : took w1 w2 → took w2 w3 → took w1 w3.
Proof. intros [] []. split; try done; [congruence|congruence|by etrans|congruence..]. Qed.
Lemma took_owed w w' : took w w' → owed w' = owed w.
Proof. intros []. unfold owed. congruence. Qed.

(** Nothing is wrong on the request side. *)
Record Requesting (w : W) : Prop := {
  rq_core : Core w;
  rq_owed : 0 ≤ owed w;
  rq_stall : retryReq (bridge w) = true → stalled w;
  rq_mem : port_ok (curTick w) (memSidePort (bridge w));
  rq_early : early w;
}.

Lemma took_requesting w w' : Requesting w → took w w' → Requesting w'.
Proof.
  intros [_ Ho _ _ Hn] Ht. pose proof (took_owed _ _ Ht). destruct Ht. split; try done; [lia|]. unfold early in *. congruence.
Qed.

Lemma requests_run l : ∀ w, Requesting w → Forall good l → ∃ w', requests l w = Ok (tt, w') ∧ took w w'.
Proof.
  induction l as [|p l IH]; intros w Hw Hl; [exists w; destruct Hw; by split|].
  apply Forall_cons in Hl as [Hp Hl]. pose proof Hw as [H1 H2 H3 H4 H5].
  destruct (bridge_recvTimingReq w p H1 H2 H3 H4 Hp H5) as (ok & w1 & Hr & Ht).
  cbn [requests]. erewrite bind_run by exact Hr. erewrite bind_run by done.
  apply (took_peers _ _ (peer_informed p ok)) in Ht. pose proof (took_requesting _ _ Hw Ht) as Hw1.
  destruct (IH _ Hw1 Hl) as (w' & Hr' & Ht'). exists w'. split; [exact Hr'|]. by eapply took_trans.
Qed.

(** ** After a packet has left *)

Definition clocked (w : W) (c : Clocked) : Prop := clock_ok (curTick w) c ∧ clockPeriod c = P.
Definition set_mem (s : port) (c : Clocked) (w : W) : W := w <| bridge ::= λ b, b <| memSidePort := s |> <| clock := c |> |>.
Definition set_cpu (s : port) (c : Clocked) (w : W) : W := w <| bridge ::= λ b, b <| cpuSidePort := s |> <| clock := c |> |>.

Lemma next_mem_run w l :
  memSidePort (bridge w) = mkPort l None false → 0 ≤ curTick w → clocked w (clock (bridge w)) → early w →
  ∃ ev c, let s := mkPort l ev false in next_mem w = Ok (tt, set_mem s c w) ∧ port_ok (curTick w) s ∧ clocked w c.
Proof.
  intros Hs H0 Hc Hn. unfold next_mem, set_mem. unfold get_state at 1. erewrite bind_run by done. rewrite Hs. cbn [transmitList].
  destruct l as [|x l].
  - exists None, (clock (bridge w)). split_and!; [|apply port_ok_empty|done]. destruct w as [[] ? ? ? ? ? ?]. cbn in *. by subst.
  - destruct (clock_run w 0 H0 Hc Hn) as (e & c & Hrun & He & Hck & Hcp); [lia|].
    destruct (schedule_next_ok (curTick w) (Z.max (tick x) e) x l) as [Hsch Hok]; [lia|lia|].
    exists (Some (Z.max (tick x) e)), c. split_and!; [|done|split; [by apply Hck|done]]. erewrite bind_run by exact Hrun.
    unfold on_mem, get_state, lift_res, upd, modify, mbind, M_bind. cbn. rewrite Hs. by rewrite Hsch.
Qed.

Lemma next_cpu_run w l :
  cpuSidePort (bridge w) = mkPort l None false → 0 ≤ curTick w → clocked w (clock (bridge w)) → early w →
  ∃ ev c, let s := mkPort l ev false in next_cpu w = Ok (tt, set_cpu s c w) ∧ port_ok (curTick w) s ∧ clocked w c.
Proof.
  intros Hs H0 Hc Hn. unfold next_cpu, set_cpu. unfold get_state at 1. erewrite bind_run by done. rewrite Hs. cbn [transmitList].
  destruct l as [|x l].
  - exists None, (clock (bridge w)). split_and!; [|apply port_ok_empty|done]. destruct w as [[] ? ? ? ? ? ?]. cbn in *. by subst.
  - destruct (clock_run w 0 H0 Hc Hn) as (e & c & Hrun & He & Hck & Hcp); [lia|].
    destruct (schedule_next_ok (curTick w) (Z.max (tick x) e) x l) as [Hsch Hok]; [lia|lia|].
    exists (Some (Z.max (tick x) e)), c. split_and!; [|done|split; [by apply Hck|done]]. erewrite bind_run by exact Hrun.
    unfold on_cpu, get_state, lift_res, upd, modify, mbind, M_bind. cbn. rewrite Hs. by rewrite Hsch.
Qed.

(** The peers: requests that no cache answers, and a memory that answers within
    a call at most the request it takes. *)
Record civil : Prop := {
  cv_resp : ∀ now p (e : E) ok l e', peer_recvTimingResp now p e = (ok, l, e') → Forall good l;
  cv_retry : ∀ now (e : E) l e', peer_recvReqRetry now e = (l, e') → Forall good l;
  cv_req : ∀ now p (e : E) ok l e', peer_recvTimingReq now p e = (ok, l, e') →
    Z.of_nat (length l) ≤ if ok && needsResponse (cmd p) then 1 else 0;
}.
Context (Hcivil : civil).

Lemma sendRetryReq_run w : Requesting w → ∃ w', sendRetryReq w = Ok (tt, w') ∧ took w w'.
Proof.
  intros Hw. unfold sendRetryReq, get_state, modify, mbind, M_bind.
  destruct (peer_recvReqRetry (curTick w) (peers w)) as [l e] eqn:Hr. apply (cv_retry Hcivil) in Hr.
  assert (Requesting (w <| peers := e |>)) as Hw' by (destruct Hw as [[]]; by split; [split|..]).
  destruct (requests_run l _ Hw' Hr) as (w' & Hrun & Ht). exists w'. split; [exact Hrun|].
  destruct Ht. by split.
Qed.

(** ** Between calls *)

Record Inv (w : W) : Prop := {
  iv_core : Core w;
  iv_owed : 0 ≤ owed w;
  iv_stall : retryReq (bridge w) = true → stalled w;
  iv_mem : port_ok (curTick w) (memSidePort (bridge w));
  iv_cpu : port_ok (curTick w) (cpuSidePort (bridge w));
}.

Lemma inv_requesting w : Inv w → early w → Requesting w.
Proof. by intros [] ?; split. Qed.
Lemma took_inv w w' : took w w' → port_ok (curTick w) (cpuSidePort (bridge w)) → 0 ≤ owed w → Inv w'.
Proof. intros Ht Hp Ho. pose proof (took_owed _ _ Ht). destruct Ht. split; [done|lia|done|done|]. by rewrite tk_now0, tk_cpu0. Qed.

(** The bridge once the first request is taken and [l] remain. *)
Definition left_mem (dp : DeferredPacket) (l : list DeferredPacket) (ev : option Tick) (c : Clocked) (w : W) : W :=
  w <| bridge ::= λ b, b <| memSidePort := mkPort l ev false |> <| clock := c |>
                         <| retryReq := false |> |>
    <| forwarded ::= λ l, l ++ [pkt dp] |>.

Lemma forward_run w dp l :
  Core w → reqs w = dp :: l → sendEvent (memSidePort (bridge w)) = None → early w →
  ∃ ev c,
    (upd (λ b, b <| memSidePort ::= pop_front |>);;
     modify (λ w, w <| forwarded ::= λ l, l ++ [pkt dp] |>);; next_mem;; retryStalledReq) w
    = (if retryReq (bridge w) then sendRetryReq else mret tt) (left_mem dp l ev c w) ∧
    Core (left_mem dp l ev c w) ∧ port_ok (curTick w) (mkPort l ev false).
Proof.
  intros [H1 H2 H3 H5 H6 H8 H9] Hq He Hn. unfold reqs in Hq.
  set (w1 := w <| bridge ::= λ b, b <| memSidePort ::= pop_front |> |> <| forwarded ::= λ l, l ++ [pkt dp] |>).
  assert (memSidePort (bridge w1) = mkPort l None false) as Hs1.
  { cbn. unfold pop_front. destruct (memSidePort (bridge w)) as [q ev b]. cbn in *. by subst. }
  destruct (next_mem_run w1 l Hs1 H1 H2 Hn) as (ev & c & Hrun & Hok & Hck). exists ev, c. cbn zeta in *.
  split_and!; [| |exact Hok].
  - erewrite bind_run by done. erewrite bind_run by done. erewrite bind_run by exact Hrun.
    unfold retryStalledReq. unfold get_state at 1. erewrite bind_run by done.
    change (retryReq (bridge (set_mem _ _ _))) with (retryReq (bridge w)). unfold left_mem.
    destruct (retryReq (bridge w)) eqn:Hr; cbn [when_]; [by erewrite bind_run by done|].
    unfold w1, set_mem. destruct w as [[] ? ? ? ? ? ?]. cbn in *. by subst.
  - unfold left_mem. split; unfold owed, reqs, resps in *; cbn in *; try done.
    + rewrite Hq in H3. cbn [length] in H3. lia.
    + rewrite H5, Hq, fmap_cons, wanting_cons, wanting_app, wanting_one. lia.
    + rewrite H8, Hq. by rewrite <-app_assoc.
Qed.

(** A port about to send: its event is serviced, or the peer retries. *)
Definition ready (now : Tick) (s : port) : Prop :=
  sendEvent s = None ∧ ∃ dp l, transmitList s = dp :: l ∧ tick dp ≤ now.

(** What was accepted and received stays so. *)
Definition grows (w w' : W) : Prop :=
  accepted w `prefix_of` accepted w' ∧ received w `prefix_of` received w'.
Lemma took_grows w w' : took w w' → grows w w'.
Proof. intros []. split; [done|]. by rewrite tk_received0. Qed.

(** What one attempt to forward a request does. *)
Inductive forwards (w w' : W) : Prop :=
  | forwards_rejected p rs e : peer_recvTimingReq (curTick w) p (peers w) = (false, rs, e) → forwards w w'
  | forwards_taken dp l :
      reqs w = dp :: l → forwarded w' = forwarded w ++ [pkt dp] → delivered w' = delivered w →
      grows w w' → forwards w w'.

Lemma trySendTiming_req_run w :
  Core w → 0 ≤ owed w → (retryReq (bridge w) = true → stalled w) → ready (curTick w) (memSidePort (bridge w)) →
  port_ok (curTick w) (cpuSidePort (bridge w)) → early w →
  ∃ w', trySendTiming_req w = Ok (tt, w') ∧ Inv w' ∧ curTick w' = curTick w ∧ forwards w w'.
Proof.
  intros Hc Ho Hst (He & dp & l & Hq & Hdp) Hcpu Hn. unfold trySendTiming_req. unfold get_state at 1. erewrite bind_run by done.
  rewrite Hq. erewrite bind_run by (by rewrite (proj2 (Z.leb_le _ _))).
  destruct (peer_recvTimingReq (curTick w) (pkt dp) (peers w)) as [[ok rs] e] eqn:Hr.
  pose proof (cv_req Hcivil _ _ _ _ _ _ Hr) as Hlen.
  set (w0 := with_peers e w). assert (Core w0) as Hc0 by (destruct Hc; by split).
  destruct (responses_run rs w0 Hc0 Hcpu Hn) as (w1 & Hrs & B1 & B2 & B3 & B4 & B5 & B6 & B7 & B8 & B9 & B10).
  assert (sendTimingReq (pkt dp) w = Ok (ok, w1)) as Hsend.
  { unfold sendTimingReq. unfold get_state at 1. erewrite bind_run by done. rewrite Hr. erewrite bind_run by done.
    by erewrite bind_run by exact Hrs. }
  erewrite bind_run by exact Hsend.
  assert (owed w1 = owed w - Z.of_nat (length rs)) as Ho1.
  { unfold owed. rewrite B8, B9. cbn. rewrite length_app, length_fmap. lia. }
  assert (early w1) as Hn1 by (unfold early in *; by rewrite B3). destruct ok.
  - destruct (forward_run w1 dp l B1) as (ev & c & Hrun & Hc2 & Hp2); [unfold reqs; by rewrite B4|by rewrite B4|done|].
    set (w2 := left_mem dp l ev c w1) in *.
    assert (0 ≤ owed w2) as Ho2.
    { unfold owed in *. cbn. rewrite wanting_app, wanting_one. cbn [andb] in Hlen. case_match; lia. }
    assert (Requesting w2) as Hr2 by (by split).
    assert (∃ w', (if retryReq (bridge w1) then sendRetryReq else mret tt) w2 = Ok (tt, w') ∧ took w2 w')
      as (w' & Hrun' & Ht).
    { destruct (retryReq (bridge w1)); [by apply sendRetryReq_run|].
      exists w2. split; [done|]. destruct Hr2. by split. }
    exists w'. rewrite Hrun. split_and!; [done|by eapply took_inv| |].
    + rewrite (tk_now _ _ Ht). exact B3.
    + apply (forwards_taken w w' dp l); [done| | |].
      * rewrite (tk_forwarded _ _ Ht). cbn. by rewrite B8.
      * rewrite (tk_delivered _ _ Ht). exact B10.
      * destruct (took_grows _ _ Ht) as [G1 G2]. change (accepted w2) with (accepted w1) in G1. rewrite B7 in G1. split; [exact G1|].
        etrans; [|exact G2].
        change (received w2) with (received w1). rewrite B9. by apply prefix_app_r.
  - cbn [andb] in Hlen. destruct rs as [|]; [|cbn in Hlen; lia]. injection Hrs as <-.
    eexists. split; [done|]. split_and!; [|done|by eapply forwards_rejected].
    destruct B1. split; [by split|done|done| |done]. eapply port_ok_blocked; [exact He|exact Hq|done].
Qed.

(** The bridge once the first response is taken and [l] remain. *)
Definition left_cpu (dp : DeferredPacket) (l : list DeferredPacket) (ev : option Tick) (c : Clocked) (w : W) : W :=
  w <| bridge ::= λ b, b <| cpuSidePort := mkPort l ev false |> <| clock := c |> <| outstandingResponses ::= λ n, n - 1 |> |>
    <| delivered ::= λ l, l ++ [pkt dp] |>.
Definition popped_cpu (dp : DeferredPacket) (w : W) : W :=
  w <| bridge ::= λ b, b <| cpuSidePort ::= pop_front |> |> <| delivered ::= λ l, l ++ [pkt dp] |>.
Definition unreserved (w : W) : W := w <| bridge ::= λ b, b <| outstandingResponses ::= λ n, u32 (n - 1) |> |>.

Lemma return_run w dp l :
  Core w → 0 ≤ owed w → resps w = dp :: l → sendEvent (cpuSidePort (bridge w)) = None → early w →
  ∃ ev c,
    (upd (λ b, b <| cpuSidePort ::= pop_front |>);;
     modify (λ w, w <| delivered ::= λ l, l ++ [pkt dp] |>);;
     w ← get_state;
     assert_that (negb (outstandingResponses (bridge w) =? 0));;
     upd (λ b, b <| outstandingResponses ::= λ n, u32 (n - 1) |>);;
     next_cpu;; retry_if_room) w = retry_if_room (left_cpu dp l ev c w) ∧
    Core (left_cpu dp l ev c w) ∧ port_ok (curTick w) (mkPort l ev false).
Proof.
  intros [H1 H2 H3 H5 H6 H8 H9] Ho Hq He Hn. unfold resps in Hq.
  assert (1 ≤ outstandingResponses (bridge w) < 2 ^ 32) as Hout.
  { rewrite H5. unfold resps. rewrite Hq. cbn [length]. pose proof (wanting_nonneg (pkt <$> reqs w)). unfold resps in *. rewrite Hq in *.
    cbn [length] in *. lia. }
  set (w1 := unreserved (popped_cpu dp w)).
  assert (cpuSidePort (bridge w1) = mkPort l None false) as Hs1.
  { cbn. unfold pop_front. destruct (cpuSidePort (bridge w)) as [q ev b]. cbn in *. by subst. }
  destruct (next_cpu_run w1 l Hs1 H1 H2 Hn) as (ev & c & Hrun & Hok & Hck). exists ev, c. cbn zeta in *.
  assert (set_cpu (mkPort l ev false) c w1 = left_cpu dp l ev c w) as Hw.
  { unfold w1, set_cpu, left_cpu, unreserved, popped_cpu, set_field. cbn. rewrite u32_id by (unfold is_u32; lia). by destruct w as [[] ? ? ? ? ? ?]. }
  assert (assert_that (negb (outstandingResponses (bridge (popped_cpu dp w)) =? 0)) (popped_cpu dp w) = Ok (tt, popped_cpu dp w)) as Ha.
  { change (outstandingResponses (bridge (popped_cpu dp w))) with (outstandingResponses (bridge w)).
    by rewrite (proj2 (Z.eqb_neq _ _)) by lia. }
  split_and!; [| |exact Hok].
  - erewrite bind_run by done. erewrite bind_run by done. unfold get_state at 1. erewrite bind_run by done.
    erewrite bind_run by exact Ha.
    erewrite bind_run by done. erewrite bind_run by exact Hrun. by rewrite Hw.
  - split; unfold left_cpu, owed, reqs, resps in *; cbn in *; try done.
    + rewrite H5, Hq. cbn [length]. lia.
    + lia.
    + rewrite H9, Hq. by rewrite <-app_assoc.
Qed.

(** What one attempt to return a response does. *)
Inductive returns (w w' : W) : Prop :=
  | returns_rejected p rs e : peer_recvTimingResp (curTick w) p (peers w) = (false, rs, e) → returns w w'
  | returns_taken dp l :
      resps w = dp :: l → delivered w' = delivered w ++ [pkt dp] → forwarded w' = forwarded w →
      grows w w' → returns w w'.

Definition unstalled (w : W) : W := w <| bridge ::= λ b, b <| retryReq := false |> |>.

(** The retry after a response has left. *)
Lemma return_retry_run w :
  Core w → 0 ≤ owed w → port_ok (curTick w) (memSidePort (bridge w)) → early w →
  ∃ w1 w', retry_if_room w = Ok (tt, w') ∧
    (w1 = w ∨ w1 = unstalled w) ∧ took w1 w'.
Proof.
  intros Hc Ho Hp Hn. unfold retry_if_room. unfold get_state at 1. erewrite bind_run by done.
  destruct (negb (reqQueueFull (bridge w)) && retryReq (bridge w)) eqn:Hcond; cbn [when_].
  - assert (Requesting (unstalled w)) as Hr by (destruct Hc; by split; [split|..]).
    destruct (sendRetryReq_run _ Hr) as (w' & Hrun & Ht). exists (unstalled w), w'.
    erewrite bind_run by done. split_and!; [done|by right|done].
  - exists w, w. split_and!; [done|by left|]. split; try done. intros Hr. left.
    rewrite Hr, andb_true_r in Hcond. by apply negb_false_iff, Z.eqb_eq in Hcond.
Qed.

Lemma trySendTiming_resp_run w :
  Core w → 0 ≤ owed w → (retryReq (bridge w) = true → stalled w) → ready (curTick w) (cpuSidePort (bridge w)) →
  port_ok (curTick w) (memSidePort (bridge w)) → early w →
  ∃ w', trySendTiming_resp w = Ok (tt, w') ∧ Inv w' ∧ curTick w' = curTick w ∧ returns w w'.
Proof.
  intros Hc Ho Hst (He & dp & l & Hq & Hdp) Hmem Hn. unfold trySendTiming_resp. unfold get_state at 1. erewrite bind_run by done.
  rewrite Hq. erewrite bind_run by (by rewrite (proj2 (Z.leb_le _ _))).
  destruct (peer_recvTimingResp (curTick w) (pkt dp) (peers w)) as [[ok rs] e] eqn:Hr.
  pose proof (cv_resp Hcivil _ _ _ _ _ _ Hr) as Hgood.
  assert (Requesting (with_peers e w)) as Hw0 by (destruct Hc; by split; [split|..]).
  destruct (requests_run rs _ Hw0 Hgood) as (w1 & Hrs & Ht). pose proof (took_owed _ _ Ht) as Ho1.
  pose proof Ht as [A1 A2 A3 A4 A5 _ A6 A7 A8]. change (owed (with_peers e w)) with (owed w) in Ho1.
  assert (sendTimingResp (pkt dp) w = Ok (ok, w1)) as Hsend.
  { unfold sendTimingResp. unfold get_state at 1. erewrite bind_run by done. rewrite Hr. erewrite bind_run by done.
    by erewrite bind_run by exact Hrs. }
  erewrite bind_run by exact Hsend. change (curTick (with_peers e w)) with (curTick w) in A4.
  assert (early w1) as Hn1 by (unfold early in *; by rewrite A4). destruct ok.
  - destruct (return_run w1 dp l) as (ev & c & Hrun & Hc2 & Hp2);
      [done|lia|unfold resps; by rewrite A5|by rewrite A5|done|].
    destruct (return_retry_run (left_cpu dp l ev c w1)) as (w2 & w' & Hrun' & Hw2 & Ht'); [done| |done|done|].
    { change (owed (left_cpu dp l ev c w1)) with (owed w1). lia. }
    exists w'. split_and!; [etrans; [exact Hrun|exact Hrun']| | |].
    + apply (took_inv w2); [done|by destruct Hw2 as [-> | ->]|].
      assert (owed w2 = owed w1) as -> by by destruct Hw2 as [-> | ->]. lia.
    + rewrite (tk_now _ _ Ht'). by destruct Hw2 as [-> | ->].
    + apply (returns_taken w w' dp l); [done| | |].
      * rewrite (tk_delivered _ _ Ht'). assert (delivered w2 = delivered w1 ++ [pkt dp]) as -> by by destruct Hw2 as [-> | ->].
        by rewrite A8.
      * rewrite (tk_forwarded _ _ Ht'). assert (forwarded w2 = forwarded w1) as -> by by destruct Hw2 as [-> | ->].
        done.
      * destruct (took_grows _ _ Ht) as [G1 G2], (took_grows _ _ Ht') as [G3 G4].
        split; [etrans; [exact G1|]|etrans; [exact G2|]]; by destruct Hw2 as [-> | ->].
  - eexists. split; [done|]. split_and!; [|done|by eapply returns_rejected].
    destruct A1. split; [by split|change (0 ≤ owed w1); lia|done|done|].
    apply (port_ok_blocked (curTick w1) (cpuSidePort (bridge w1)) dp l); [by rewrite A5..|by rewrite A4].
Qed.

(** ** Runs *)

Abbreviation reqEvent w := (sendEvent (memSidePort (bridge w))).
Abbreviation respEvent w := (sendEvent (cpuSidePort (bridge w))).

(** The memory answers only what it owes, peers retry only what they rejected, and
    events are serviced in time order. *)
Definition enabled (a : Action) (w : W) : Prop :=
  match a with
  | Request p => good p ∧ early w
  | Response _ => 0 < owed w ∧ early w
  | FireReq => ∃ t, reqEvent w = Some t ∧ t < 2 ^ 62 ∧ ∀ t', respEvent w = Some t' → t ≤ t'
  | FireResp => ∃ t, respEvent w = Some t ∧ t < 2 ^ 62 ∧ ∀ t', reqEvent w = Some t' → t ≤ t'
  | ReqRetry => blocked (memSidePort (bridge w)) = true ∧ early w
  | RespRetry => blocked (cpuSidePort (bridge w)) = true ∧ early w
  | Advance now => curTick w ≤ now ∧ (∀ t, reqEvent w = Some t → now ≤ t) ∧ (∀ t, respEvent w = Some t → now ≤ t)
  end.

Definition fired_req (t : Tick) (w : W) : W :=
  w <| curTick := t |> <| bridge ::= λ b, b <| memSidePort ::= λ s, s <| sendEvent := None |> |> |>.
Definition fired_resp (t : Tick) (w : W) : W :=
  w <| curTick := t |> <| bridge ::= λ b, b <| cpuSidePort ::= λ s, s <| sendEvent := None |> |> |>.

Lemma fire_req w t :
  Inv w → reqEvent w = Some t → t < 2 ^ 62 → (∀ t', respEvent w = Some t' → t ≤ t') →
  exec FireReq w = trySendTiming_req (fired_req t w) ∧
  ∃ w', trySendTiming_req (fired_req t w) = Ok (tt, w') ∧ Inv w' ∧ forwards (fired_req t w) w'.
Proof.
  intros [Hc Ho Hs Hm Hp] Ht Hmax Hord. destruct (po_event _ _ Hm t Ht) as (Hle & Hb & dp & l & Hq & Hdp). split.
  { unfold exec, of_option, get_state, modify, mbind, M_bind. by rewrite Ht. }
  destruct (trySendTiming_req_run (fired_req t w)) as (w' & Hrun & Hi & _ & Hf); [|done|done|by split; [|exists dp, l]| |done|by exists w'].
  - destruct Hc as [H1 [H2 H2'] H3 H5 H6 H8 H9]. split; cbn; try done; [lia|]. split; [by eapply clock_later|done].
  - by eapply port_ok_later.
Qed.

Lemma fire_resp w t :
  Inv w → respEvent w = Some t → t < 2 ^ 62 → (∀ t', reqEvent w = Some t' → t ≤ t') →
  exec FireResp w = trySendTiming_resp (fired_resp t w) ∧
  ∃ w', trySendTiming_resp (fired_resp t w) = Ok (tt, w') ∧ Inv w' ∧ returns (fired_resp t w) w'.
Proof.
  intros [Hc Ho Hs Hm Hp] Ht Hmax Hord. destruct (po_event _ _ Hp t Ht) as (Hle & Hb & dp & l & Hq & Hdp). split.
  { unfold exec, of_option, get_state, modify, mbind, M_bind. by rewrite Ht. }
  destruct (trySendTiming_resp_run (fired_resp t w)) as (w' & Hrun & Hi & _ & Hf); [|done|done|by split; [|exists dp, l]| |done|by exists w'].
  - destruct Hc as [H1 [H2 H2'] H3 H5 H6 H8 H9]. split; cbn; try done; [lia|]. split; [by eapply clock_later|done].
  - by eapply port_ok_later.
Qed.

(** A port that waits for a retry is ready to send. *)
Lemma blocked_ready now s : port_ok now s → blocked s = true → ready now s.
Proof.
  intros [He Hw _] Hb. split; [|by apply Hw]. destruct (sendEvent s) as [t|] eqn:Ht; [|done].
  destruct (He t eq_refl) as (_ & ? & _). congruence.
Qed.

Lemma bridge_exec_inv a w : Inv w → enabled a w → ∃ w', exec a w = Ok (tt, w') ∧ Inv w'.
Proof.
  intros Hi Hen. pose proof Hi as [Hc Ho Hs Hm Hp]. destruct a as [p|p| | | | |now]; cbn [enabled] in Hen.
  - destruct Hen as [Hg Hn]. destruct (requests_run [p] w) as (w' & Hr & Ht); [by apply inv_requesting|by constructor|].
    exists w'. split; [done|]. by eapply took_inv.
  - destruct Hen as [Hw Hn]. destruct (recvTimingResp_run w p Hc Hp Hn) as (w' & Hr & [A1 A2 A3 A4 A5 A6 A7 A8 A9 A10]).
    exists w'. cbn [exec responses]. split; [by erewrite bind_run by exact Hr|]. split; [done| | |by rewrite A3, A4|done].
    + unfold owed in *. rewrite A8, A9, length_app. cbn [length]. lia.
    + unfold stalled, reqs. by rewrite A4, A5, A6.
  - destruct Hen as (t & Ht & Hmax & Hord). destruct (fire_req w t Hi Ht Hmax Hord) as (-> & w' & ? & ? & _). by exists w'.
  - destruct Hen as (t & Ht & Hmax & Hord). destruct (fire_resp w t Hi Ht Hmax Hord) as (-> & w' & ? & ? & _). by exists w'.
  - destruct Hen as [Hb Hn].
    destruct (trySendTiming_req_run w Hc Ho Hs (blocked_ready _ _ Hm Hb) Hp Hn) as (w' & ? & ? & _). by exists w'.
  - destruct Hen as [Hb Hn].
    destruct (trySendTiming_resp_run w Hc Ho Hs (blocked_ready _ _ Hp Hb) Hm Hn) as (w' & ? & ? & _). by exists w'.
  - destruct Hen as (Hle & Hr & Hd). eexists. split; [done|].
    destruct Hc as [H1 [H2 H2'] H3 H5 H6 H8 H9]. split; [split|..]; cbn; try done; [lia| |by eapply port_ok_later..].
    split; [by eapply clock_later|done].
Qed.

Inductive reachable (c : Clocked) (e : E) : W → Prop :=
  | reach_init : reachable c e (mkWorld (ctor c) 0 e [] [] [] [])
  | reach_step w a w' : reachable c e w → enabled a w → exec a w = Ok (tt, w') → reachable c e w'.

Lemma bridge_reachable_inv c e w : clock_ok 0 c → clockPeriod c = P → reachable c e w → Inv w.
Proof.
  intros Hc Hp. induction 1 as [|w a w' Hr IH Hen Hex].
  - split; [split|..]; cbn; try done; try lia; apply port_ok_empty.
  - destruct (bridge_exec_inv a w IH Hen) as (w'' & Hex' & Hi). rewrite Hex in Hex'. by injection Hex' as <-.
Qed.

(** With civil peers no assertion of the bridge fires: every enabled action of a
    reachable state completes.  In particular a response always finds the space
    that was reserved for it. *)
Theorem bridge_never_aborts c e w a :
  clock_ok 0 c → clockPeriod c = P → reachable c e w → enabled a w → ∃ w', exec a w = Ok (tt, w').
Proof.
  intros Hc Hp Hr Hen. destruct (bridge_exec_inv a w (bridge_reachable_inv c e w Hc Hp Hr) Hen) as (w' & Hex & _). eauto.
Qed.

(** C36.  The bridge keeps its promises in every reachable state.  Requests
    leave in the order in which they were accepted and responses in the order in
    which they came, none lost and none invented.  The request queue stays within
    its limit, and the reserved space is exactly for the requests that wait, the
    answers owed and the answers that wait, so that the response queue stays within
    its limit too.  A requestor that was turned away is owed a retry: a packet is
    about to leave one of the queues, or the memory owes an answer.  The peers are
    [civil]: no request is one that a cache answers, and within a call the memory
    answers at most the request that it takes. *)
Theorem bridge_conserves c e w :
  clock_ok 0 c → clockPeriod c = P → reachable c e w →
  accepted w = forwarded w ++ (pkt <$> reqs w) ∧ received w = delivered w ++ (pkt <$> resps w) ∧
  Z.of_nat (length (reqs w)) ≤ reqQueueLimit prm ∧
  outstandingResponses (bridge w) = wanting (pkt <$> reqs w) + owed w + Z.of_nat (length (resps w)) ∧
  0 ≤ owed w ∧ outstandingResponses (bridge w) ≤ respQueueLimit prm ∧
  (retryReq (bridge w) = true →
     (reqs w ≠ [] ∧ (blocked (memSidePort (bridge w)) = true ∨ is_Some (reqEvent w))) ∨
     (resps w ≠ [] ∧ (blocked (cpuSidePort (bridge w)) = true ∨ is_Some (respEvent w))) ∨ 0 < owed w).
Proof.
  intros Hc Hp Hr. destruct (bridge_reachable_inv c e w Hc Hp Hr) as [[H1 H2 H3 H5 H6 H8 H9] Ho Hs Hm Hcpu].
  split_and!; try done. intros Hst. destruct (decide (reqs w = [])) as [Hq|Hq]; [|left; split; [done|by apply Hm]].
  destruct (decide (resps w = [])) as [Hq'|Hq']; [|right; left; split; [done|by apply Hcpu]].
  right. right. rewrite Hq, Hq' in H5. change (wanting (pkt <$> [])) with 0 in H5. cbn [length] in H5.
  destruct (Hs Hst) as [Hf|Hf]; [rewrite Hq in Hf; cbn in Hf|]; lia.
Qed.

(** ** Everything leaves *)

(** Peers that take what they are given.  The requestor may make requests of its own
    before it returns, and make the one it was refused again when it is retried. *)
Record obliging : Prop := {
  ob_req : ∀ now p (e : E) ok l e', peer_recvTimingReq now p e = (ok, l, e') → ok = true;
  ob_resp : ∀ now p (e : E) ok l e', peer_recvTimingResp now p e = (ok, l, e') → ok = true;
}.

Definition sends_req (a : Action) : bool := match a with FireReq | ReqRetry => true | _ => false end.
Definition sends_resp (a : Action) : bool := match a with FireResp | RespRetry => true | _ => false end.
Definition sends (a : Action) : bool := sends_req a || sends_resp a.
Definition count (f : Action → bool) (l : list Action) : nat := length (filter f l).

(** The world after the actions of a list, each of them enabled. *)
Inductive runs : list Action → W → W → Prop :=
  | runs_nil w : runs [] w w
  | runs_cons a l w w1 w' : enabled a w → exec a w = Ok (tt, w1) → runs l w1 w' → runs (a :: l) w w'.

Context (Hob : obliging).

Lemma obliging_forwards w w' : forwards w w' →
  length (forwarded w') = S (length (forwarded w)) ∧ length (delivered w') = length (delivered w) ∧ grows w w'.
Proof.
  intros [p rs e Hr|dp l _ -> -> ?]; [by apply (ob_req Hob) in Hr|]. rewrite length_app. cbn. split; [lia|by split].
Qed.
Lemma obliging_returns w w' : returns w w' →
  length (forwarded w') = length (forwarded w) ∧ length (delivered w') = S (length (delivered w)) ∧ grows w w'.
Proof.
  intros [p rs e Hr|dp l _ -> -> ?]; [by apply (ob_resp Hob) in Hr|]. rewrite length_app. cbn. split_and!; [done|lia|done].
Qed.

(** Each action sends what its name says. *)
Lemma exec_sends a w w' : Inv w → enabled a w → exec a w = Ok (tt, w') →
  length (forwarded w') = (count sends_req [a] + length (forwarded w))%nat ∧
  length (delivered w') = (count sends_resp [a] + length (delivered w))%nat ∧ grows w w'.
Proof.
  intros Hi Hen Hx. pose proof Hi as [Hc Ho Hs Hm Hp].
  destruct a as [p|p| | | | |now]; cbn [enabled] in Hen; unfold count; cbn.
  - destruct Hen as [Hg Hn]. destruct (requests_run [p] w) as (w1 & Hr & Ht); [by apply inv_requesting|by constructor|].
    cbn [exec] in Hx. rewrite Hr in Hx. injection Hx as <-. rewrite (tk_forwarded _ _ Ht), (tk_delivered _ _ Ht).
    split_and!; [done..|by apply took_grows].
  - destruct Hen as [Hw Hn]. destruct (responses_run [p] w Hc Hp Hn) as (w1 & Hr & _ & _ & _ & _ & _ & _ & Ha & Hf & Hv & Hd).
    cbn [exec] in Hx. rewrite Hr in Hx. injection Hx as <-. rewrite Hf, Hd.
    split_and!; [done..|]. split; [by rewrite Ha|]. rewrite Hv. by apply prefix_app_r.
  - destruct Hen as (t & Ht & Hmax & Hord). destruct (fire_req w t Hi Ht Hmax Hord) as (E1 & w1 & E2 & _ & Hf).
    rewrite E1, E2 in Hx. injection Hx as <-. exact (obliging_forwards _ _ Hf).
  - destruct Hen as (t & Ht & Hmax & Hord). destruct (fire_resp w t Hi Ht Hmax Hord) as (E1 & w1 & E2 & _ & Hf).
    rewrite E1, E2 in Hx. injection Hx as <-. exact (obliging_returns _ _ Hf).
  - destruct Hen as [Hb Hn].
    destruct (trySendTiming_req_run w Hc Ho Hs (blocked_ready _ _ Hm Hb) Hp Hn) as (w1 & E2 & _ & _ & Hf).
    cbn [exec] in Hx. unfold recvReqRetry in Hx. rewrite E2 in Hx. injection Hx as <-. exact (obliging_forwards _ _ Hf).
  - destruct Hen as [Hb Hn].
    destruct (trySendTiming_resp_run w Hc Ho Hs (blocked_ready _ _ Hp Hb) Hm Hn) as (w1 & E2 & _ & _ & Hf).
    cbn [exec] in Hx. unfold recvRespRetry in Hx. rewrite E2 in Hx. injection Hx as <-. exact (obliging_returns _ _ Hf).
  - injection Hx as <-. done.
Qed.

Lemma count_cons f a l : count f (a :: l) = (count f [a] + count f l)%nat.
Proof. unfold count. rewrite !filter_cons, filter_nil. by destruct (decide (f a)). Qed.
Lemma count_sends l : count sends l = (count sends_req l + count sends_resp l)%nat.
Proof.
  induction l as [|a l IH]; [done|]. rewrite !(count_cons _ a l), IH.
  assert (count sends [a] = count sends_req [a] + count sends_resp [a])%nat by (by destruct a). lia.
Qed.

Lemma runs_inv l w w' : runs l w w' → Inv w →
  Inv w' ∧ length (forwarded w') = (count sends_req l + length (forwarded w))%nat ∧
  length (delivered w') = (count sends_resp l + length (delivered w))%nat ∧ grows w w'.
Proof.
  induction 1 as [|a l w w1 w' Hen Hx _ IH]; intros Hi; [by split_and!|].
  destruct (bridge_exec_inv a w Hi Hen) as (w1' & Hx' & Hi1). rewrite Hx in Hx'. injection Hx' as <-.
  destruct (exec_sends a w w1 Hi Hen Hx) as (F1 & D1 & A1 & R1). destruct (IH Hi1) as (Hi' & F2 & D2 & A2 & R2).
  rewrite !(count_cons _ a l). split_and!; [done|lia|lia|]. split; by etrans.
Qed.

(** What leaves first was there first. *)
Lemma prefix_length {A} (l k m : list A) : l `prefix_of` m → k `prefix_of` m → (length l ≤ length k)%nat → l `prefix_of` k.
Proof.
  intros Hl Hk Hn. destruct (prefix_weak_total l k m Hl Hk) as [?|Hkl]; [done|].
  rewrite (prefix_length_eq k l Hkl Hn). done.
Qed.
Lemma wanting_prefix l k : l `prefix_of` k → wanting k ≤ wanting l + Z.of_nat (length k) - Z.of_nat (length l).
Proof.
  intros [m ->]. rewrite wanting_app, length_app. unfold wanting at 2.
  pose proof (length_filter (λ p, needsResponse (cmd p) = true) m). lia.
Qed.

(** Responses cannot leave for ever without a request leaving. *)
Lemma resps_bounded l w w' : runs l w w' → Inv w →
  Z.of_nat (count sends_resp l) ≤ respQueueLimit prm + Z.of_nat (count sends_req l).
Proof.
  intros Hl Hi. destruct (runs_inv l w w' Hl Hi) as ([Hc' Ho' _ _ _] & Hf & Hd & Ha & _). destruct Hi as [Hc _ _ _ _].
  pose proof (co_count _ Hc) as Hn. pose proof (co_bound _ Hc). pose proof (wanting_nonneg (pkt <$> reqs w)).
  pose proof (f_equal length (co_resps _ Hc)) as L1. pose proof (f_equal length (co_resps _ Hc')) as L2.
  rewrite length_app, length_fmap in L1, L2.
  assert (forwarded w `prefix_of` forwarded w') as Hp.
  { apply (prefix_length _ _ (accepted w')); [|rewrite (co_reqs _ Hc'); by apply prefix_app_r|lia].
    etrans; [|exact Ha]. rewrite (co_reqs _ Hc). by apply prefix_app_r. }
  apply wanting_prefix in Hp. unfold owed in *. lia.
Qed.

(** No tick that matters is beyond [2^62]. *)
Definition timely (w : W) : Prop :=
  early w ∧ (∀ t, reqEvent w = Some t → t < 2 ^ 62) ∧ (∀ t, respEvent w = Some t → t < 2 ^ 62).

(** While a packet is inside one of the ports can send. *)
Lemma sends_enabled w : Inv w → timely w → reqs w ≠ [] ∨ resps w ≠ [] → ∃ a, sends a ∧ enabled a w.
Proof.
  intros [_ _ _ Hm Hp] (Hn & Hq & Hr) Hh.
  destruct (blocked (memSidePort (bridge w))) eqn:Hb; [by exists ReqRetry|].
  destruct (blocked (cpuSidePort (bridge w))) eqn:Hb'; [by exists RespRetry|].
  assert (is_Some (reqEvent w) ∨ is_Some (respEvent w)) as Hev.
  { destruct Hh as [Hh|Hh]; [left; destruct (po_wake _ _ Hm Hh)|right; destruct (po_wake _ _ Hp Hh)]; congruence. }
  destruct (reqEvent w) as [t|] eqn:Et, (respEvent w) as [t'|] eqn:Et'; [destruct (Z.le_gt_cases t t')|..|by destruct Hev as [[]|[]]].
  - exists FireReq. split; [done|]. exists t. split_and!; [done|by apply Hq|]. intros x Hx. rewrite Et' in Hx. injection Hx as <-. done.
  - exists FireResp. split; [done|]. exists t'. split_and!; [done|by apply Hr|]. intros x Hx. rewrite Et in Hx. injection Hx as <-. lia.
  - exists FireReq. split; [done|]. exists t. split_and!; [done|by apply Hq|]. by rewrite Et'.
  - exists FireResp. split; [done|]. exists t'. split_and!; [done|by apply Hr|]. by rewrite Et.
Qed.

(** C37.  Everything leaves the bridge when its peers take what they are given,
    whatever requests and answers come meanwhile, those that the requestor makes
    when it takes a response or is retried included.  While a packet is inside, a
    send event or a retry can happen, unless it lies beyond tick 2^62, and whatever
    can happen completes.  In a run in which twice as many sends happen as requests
    wait, and as many more as the response queue holds, all of these requests are
    forwarded; in one in which as many responses are sent as wait, these are
    delivered.  The peers are also [civil], as above. *)
Theorem bridge_drains c e w l w' :
  clock_ok 0 c → clockPeriod c = P → reachable c e w → runs l w w' →
  (timely w' → reqs w' ≠ [] ∨ resps w' ≠ [] → ∃ a, sends a ∧ enabled a w') ∧
  (∀ a, enabled a w' → ∃ w2, exec a w' = Ok (tt, w2)) ∧
  (respQueueLimit prm + 2 * Z.of_nat (length (reqs w)) ≤ Z.of_nat (count sends l) → accepted w `prefix_of` forwarded w') ∧
  ((length (resps w) ≤ count sends_resp l)%nat → received w `prefix_of` delivered w').
Proof.
  intros Hc Hp Hr Hl. pose proof (bridge_reachable_inv c e w Hc Hp Hr) as Hi.
  destruct (runs_inv l w w' Hl Hi) as (Hi' & Hf & Hd & Ha & Hv). pose proof (resps_bounded l w w' Hl Hi) as Hb.
  destruct Hi as [Hcw _ _ _ _]. pose proof (iv_core _ Hi') as Hc'. split_and!.
  - by apply sends_enabled.
  - intros a Hen. destruct (bridge_exec_inv a w' Hi' Hen) as (w2 & ? & _). by exists w2.
  - intros Hn. rewrite count_sends in Hn.
    apply (prefix_length _ _ (accepted w')); [done|rewrite (co_reqs _ Hc'); by apply prefix_app_r|].
    rewrite (co_reqs _ Hcw), length_app, length_fmap. lia.
  - intros Hn. apply (prefix_length _ _ (received w')); [done|rewrite (co_resps _ Hc'); by apply prefix_app_r|].
    rewrite (co_resps _ Hcw), length_app, length_fmap. lia.
Qed.
End Bridge.

(** ** A run *)

(** One request and one response at a time, two cycles of 500 ticks away. *)
Definition demo_parameters : parameters := mkParameters 2 1 1.
Definition demo_clock : Clocked := mkClocked 0 0 500.

(** Peers that take everything; the memory answers later, and the requestor makes
    the second read again when it is retried. *)
#[local] Instance taking : Peers unit := {|
  peer_recvTimingResp := λ _ _ e, (true, [], e); peer_recvReqRetry := λ _ e, ([PacketQueue.read_at 128], e);
  peer_informed := λ _ _ e, e; peer_recvTimingReq := λ _ _ e, (true, [], e) |}.

Lemma taking_civil : civil.
Proof.
  split.
  - by intros ? ? ? ? ? ? [= <- <- <-].
  - intros ? ? ? ? [= <- <-]. by constructor.
  - intros ? ? ? ? ? ? [= <- <- <-]. cbn. by case_match.
Qed.
Lemma taking_obliging : obliging.
Proof. by split; intros ? ? ? ? ? ? [= <- <- <-]. Qed.

Definition outcome (a : Action) (w : World unit) : World unit :=
  match exec demo_parameters a w with Ok (_, w') => w' | Abort _ => w end.
(** A read is accepted, a second one is turned away. *)
Definition demo_start : World unit := mkWorld (ctor demo_clock) 0 tt [] [] [] [].
Definition demo_one : World unit := outcome (Request (PacketQueue.read_at 64)) demo_start.
Definition demo : World unit := outcome (Request (PacketQueue.read_at 128)) demo_one.

Lemma bridge_demo_reached : reachable demo_parameters demo_clock tt demo.
Proof.
  apply (reach_step _ _ _ demo_one (Request (PacketQueue.read_at 128))); [|by split; vm_compute|by vm_compute].
  apply (reach_step _ _ _ demo_start (Request (PacketQueue.read_at 64))); [constructor|by split; vm_compute|by vm_compute].
Qed.

Lemma demo_clock_ok : clock_ok 0 demo_clock.
Proof. split; cbn; lia. Qed.

Lemma bridge_never_aborts_witness : ∃ w', exec demo_parameters FireReq demo = Ok (tt, w').
Proof.
  apply (bridge_never_aborts demo_parameters 500 ltac:(lia) ltac:(cbn; lia) ltac:(cbn; lia) ltac:(cbn; lia) ltac:(cbn; lia)
    taking_civil demo_clock tt demo FireReq demo_clock_ok eq_refl bridge_demo_reached).
  exists 1000. split; [by vm_compute|]. split; [lia|]. by vm_compute.
Defined.

Lemma bridge_conserves_witness :
  accepted demo = forwarded demo ++ (pkt <$> reqs demo) ∧ Z.of_nat (length (reqs demo)) ≤ 1.
Proof.
  destruct (bridge_conserves demo_parameters 500 ltac:(lia) ltac:(cbn; lia) ltac:(cbn; lia) ltac:(cbn; lia) ltac:(cbn; lia)
    taking_civil demo_clock tt demo demo_clock_ok eq_refl bridge_demo_reached) as (H1 & _ & H2 & _). by split.
Defined.

(** The first read goes out and its answer comes back; the second is accepted on a
    retry, and forwarded too. *)
Definition demo_rest : list Action := [FireReq; Response (PacketQueue.read_at 64); FireResp; FireReq].
Definition demo_end : World unit := foldl (flip outcome) demo demo_rest.
Lemma demo_runs : runs demo_parameters demo_rest demo demo_end.
Proof.
  eapply runs_cons; [exists 1000; split; [by vm_compute|split; [lia|by vm_compute]]|by vm_compute|].
  eapply runs_cons; [by vm_compute|by vm_compute|].
  eapply runs_cons; [exists 2000; split; [by vm_compute|split; [lia|by vm_compute]]|by vm_compute|].
  eapply runs_cons; [exists 3000; split; [by vm_compute|split; [lia|by vm_compute]]|by vm_compute|].
  vm_compute. constructor.
Qed.

Lemma bridge_drains_witness : accepted demo `prefix_of` forwarded demo_end ∧ length (forwarded demo_end) = 2%nat.
Proof.
  split; [|by vm_compute].
  apply (bridge_drains demo_parameters 500 ltac:(lia) ltac:(cbn; lia) ltac:(cbn; lia) ltac:(cbn; lia) ltac:(cbn; lia)
    taking_civil taking_obliging demo_clock tt demo demo_rest demo_end demo_clock_ok eq_refl bridge_demo_reached demo_runs).
  by vm_compute.
Defined.

(** The second read was turned away, and is owed a retry. *)
Example demo_stalled : retryReq (bridge demo) = true ∧ length (accepted demo) = 1%nat.
Proof. by vm_compute. Qed.

(** The memory may not answer what it was not asked: the bridge counts such an
    answer against the space of another and stops when it is delivered. *)
Example unasked_answer :
  exec demo_parameters FireResp (outcome (Response (PacketQueue.read_at 64)) demo_start) = Abort AssertFailed.
Proof. by vm_compute. Qed.
End Bridge.
