(* ===== verification/XBarLayer.v ===== *)
(** * The layers of a crossbar (BaseXBar::Layer of src/gem5/src/mem/xbar.cc, xbar.hh)

    A layer serialises the packets of several source ports to one destination
    port.  It is occupied while a packet passes; sources that find it occupied
    queue up and are told to retry one at a time when it is released; a source
    whose packet the destination refuses waits for the destination's own retry.
    The sources and the destination are an interface: a source that is told to
    retry may call the layer again before it returns.  Event times are explicit. *)

From S2P Require Import Prelude Clocked PacketQueues.
#[local] Open Scope Z_scope.

Module Layer.

(** A source port, by its index. *)
Abbreviation Src := nat.

Inductive State := IDLE | BUSY | RETRY.
#[export] Instance State_eq_dec : EqDecision State.
Proof. solve_decision. Defined.

Record t := mk {
  state : State;
  waitingForLayer : list Src;
  waitingForPeer : option Src;
  releaseEvent : option Tick;           (* its tick, when scheduled *)
  occupancy : Z;
  drainState : DrainState;
  drainDone : nat }.                    (* calls of signalDrainDone *)
#[export] Instance layer_eta : Eta t := λ l,
  mk (state l) (waitingForLayer l) (waitingForPeer l) (releaseEvent l) (occupancy l) (drainState l) (drainDone l).

Definition ctor : t := mk IDLE [] None None 0 Running 0.

(** [dst_takes]: the destination's answer to the packet of a source, and the
    payload delay of the packet.  [src_retries]: whether a source that is told to
    retry calls the layer before it returns. *)
Class Users (E : Type) := {
  dst_takes : Tick → Src → E → bool * Tick * E;
  src_retries : Tick → Src → E → bool * E;
}.

(** [told] lists the sources that were told to retry, oldest first; the code keeps
    no such list. *)
Record World (E : Type) := mkWorld { layer : t; clock : Clocked; curTick : Tick; users : E; told : list Src }.
Arguments mkWorld {E}. Arguments layer {E}. Arguments clock {E}. Arguments curTick {E}. Arguments users {E}. Arguments told {E}.
#[export] Instance layer_world_eta E : Eta (World E) := λ w,
  mkWorld (layer w) (clock w) (curTick w) (users w) (told w).

Section Layer.
Context {E : Type} `{!Users E}.
Abbreviation W := (World E).
Abbreviation H := (M W).

Definition upd (f : t → t) : H unit := modify (λ w, w <| layer ::= f |>).
Definition is_state (s : State) : H unit := w ← get_state; assert_that (bool_decide (state (layer w) = s)).

Definition clockEdge_ (cycles : Z) : H Tick :=
  w ← get_state;
  '(e, c) ← lift_res (clockEdge (curTick w) cycles (clock w));
  modify (λ w, w <| clock := c |>);; mret e.

(** [xbar.schedule(releaseEvent, until)]. *)
Definition schedule (until : Tick) : H unit :=
  w ← get_state;
  assert_that (curTick w <=? until);;
  assert_that (bool_decide (releaseEvent (layer w) = None));;
  upd (λ l, l <| releaseEvent := Some until |>).

Definition occupyLayer (until : Tick) : H unit :=
  is_state BUSY;;
  assert_that (negb (until =? 0));;
  schedule until;;
  w ← get_state;
  upd (λ l, l <| occupancy ::= λ o, o + (until - curTick w) |>).

Definition tryTiming (src_port : Src) : H bool :=
  w ← get_state;
  if bool_decide (state (layer w) = BUSY) || bool_decide (waitingForPeer (layer w) ≠ None) then
    assert_that (bool_decide (src_port ∉ waitingForLayer (layer w)));;
    upd (λ l, l <| waitingForLayer ::= λ q, q ++ [src_port] |>);;
    mret false
  else
    upd (λ l, l <| state := BUSY |>);;
    mret true.

Definition succeededTiming (busy_time : Tick) : H unit :=
  is_state BUSY;;
  occupyLayer busy_time.

Definition failedTiming (src_port : Src) (busy_time : Tick) : H unit :=
  w ← get_state;
  assert_that (bool_decide (waitingForPeer (layer w) = None));;
  upd (λ l, l <| waitingForPeer := Some src_port |>);;
  is_state BUSY;;
  occupyLayer busy_time.

(** How a crossbar passes a packet through a layer: recvTimingReq of
    NoncoherentXBar from tryTiming on, with the busy times it computes. *)
Definition pass (src_port : Src) : H bool :=
  ok ← tryTiming src_port;
  if negb ok then mret false
  else
    e ← clockEdge_ 1;
    w ← get_state;
    let '(success, payloadDelay, u) := dst_takes (curTick w) src_port (users w) in
    modify (λ w, w <| users := u |>);;
    if (success : bool) then succeededTiming (u64 (e + payloadDelay));; mret true
    else
      e ← clockEdge_ 1;
      failedTiming src_port e;; mret false.

(** [sendRetry]: the source may call the layer before it returns. *)
Definition sendRetry (retry_port : Src) : H unit :=
  w ← get_state;
  let '(again, u) := src_retries (curTick w) retry_port (users w) in
  modify (λ w, w <| users := u |> <| told ::= λ l, l ++ [retry_port] |>);;
  when_ again (pass retry_port;; mret tt).

Definition retryWaiting : H unit :=
  w ← get_state;
  match waitingForLayer (layer w) with
  | [] => abort_with AssertFailed
  | retryingPort :: rest =>
      is_state IDLE;;
      upd (λ l, l <| state := RETRY |>);;
      upd (λ l, l <| waitingForLayer := rest |>);;
      sendRetry retryingPort;;
      w ← get_state;
      when_ (bool_decide (state (layer w) = RETRY))
        (upd (λ l, l <| state := BUSY |>);;
         e ← clockEdge_ 0;
         occupyLayer e)
  end.

Definition releaseLayer : H unit :=
  w ← get_state;
  is_state BUSY;;
  assert_that (bool_decide (releaseEvent (layer w) = None));;
  upd (λ l, l <| state := IDLE |>);;
  if bool_decide (waitingForLayer (layer w) ≠ []) then
    when_ (bool_decide (waitingForPeer (layer w) = None)) retryWaiting
  else
    when_ (bool_decide (waitingForPeer (layer w) = None) && bool_decide (drainState (layer w) = Draining))
      (upd (λ l, l <| drainState := Drained |> <| drainDone ::= S |>)).

Definition recvRetry : H unit :=
  w ← get_state;
  src ← of_option AssertFailed (waitingForPeer (layer w));
  upd (λ l, l <| waitingForLayer ::= cons src |>);;
  upd (λ l, l <| waitingForPeer := None |>);;
  if bool_decide (state (layer w) = IDLE) then retryWaiting else is_state BUSY.

Definition drain (l : t) : DrainState := if bool_decide (state l ≠ IDLE) then Draining else Drained.

(** ** What happens around the layer *)

Inductive Action :=
  | Send (src : Src)          (* a source sends a packet *)
  | Release                   (* the release event is serviced *)
  | PeerRetry                 (* the destination can take what it refused *)
  | Drain
  | Advance (now : Tick).

Definition exec (a : Action) : H unit :=
  match a with
  | Send src => pass src;; mret tt
  | Release =>
      w ← get_state;
      now ← of_option UndefinedBehavior (releaseEvent (layer w));
      modify (λ w, w <| curTick := now |>);;
      upd (λ l, l <| releaseEvent := None |>);;
      releaseLayer
  | PeerRetry => recvRetry
  | Drain => upd (λ l, l <| drainState := drain l |>)
  | Advance now => modify (λ w, w <| curTick := now |>)
  end.

(** The sources that wait, in the order in which they will be told to retry. *)
Definition waiting (w : W) : list Src := option_list (waitingForPeer (layer w)) ++ waitingForLayer (layer w).

(** A source that waits does not send, and the destination retries only what it
    refused. *)
Definition enabled (a : Action) (w : W) : Prop :=
  match a with
  | Send src => (src ∉ waiting w) ∧ curTick w < 2 ^ 62
  | Release => ∃ t, releaseEvent (layer w) = Some t ∧ t < 2 ^ 62
  | PeerRetry => waitingForPeer (layer w) ≠ None ∧ curTick w < 2 ^ 62
  | Drain => True
  | Advance now => curTick w ≤ now ∧ ∀ t, releaseEvent (layer w) = Some t → now ≤ t
  end.

Inductive reachable (c : Clocked) (e : E) : W → Prop :=
  | layer_init : reachable c e (mkWorld ctor c 0 e [])
  | layer_step w a w' : reachable c e w → enabled a w → exec a w = Ok (tt, w') → reachable c e w'.

(** ** The invariant *)

Context (P : Z) (HP : 0 < P < 2 ^ 60).
(** Payload delays are sizes of packets in time. *)
Context (Hdst : ∀ now src (e : E), 0 ≤ (dst_takes now src e).1.2 < 2 ^ 62).

(** Between calls, but also while a source is told to retry. *)
Record Core (w : W) : Prop := {
  co_now : 0 ≤ curTick w;
  co_clock : clock_ok (curTick w) (clock w) ∧ clockPeriod (clock w) = P;
  co_dup : NoDup (waiting w);
}.

Record Inv (w : W) : Prop := {
  iv_core : Core w;
  iv_state : match state (layer w) with
             | IDLE => releaseEvent (layer w) = None ∧
                       (waitingForPeer (layer w) = None → waitingForLayer (layer w) = []) ∧
                       (waitingForPeer (layer w) ≠ None → 0 < curTick w)
             | BUSY => ∃ t, releaseEvent (layer w) = Some t ∧ curTick w ≤ t ∧ 0 < t
             | RETRY => False
             end;
}.

Lemma layer_clock_run w n :
  Core w → curTick w < 2 ^ 62 → 0 ≤ n ≤ 1 →
  ∃ e c, clockEdge_ n w = Ok (e, w <| clock := c |>) ∧ curTick w ≤ e < 2 ^ 63 ∧ (0 < curTick w ∨ n = 1 → 0 < e) ∧
    (∀ now, curTick w ≤ now → clock_ok now c) ∧ clockPeriod c = P.
Proof.
  intros [H0 [Hk Hp] _] Hn Hd.
  destruct (clockEdge_run (curTick w) n (clock w) Hk H0) as (c & Hr & Hc' & Hok); [lia|rewrite Hp; nia|].
  pose proof (edge_spec (curTick w) P ltac:(lia)). rewrite Hp in *. eexists _, c.
  unfold clockEdge_, get_state, lift_res, modify, mbind, M_bind. rewrite Hr. split; [done|].
  split_and!; [nia|nia| |done|done]. nia.
Qed.

(** ** A packet through the layer *)

(** The layer is occupied until [t]; a refused source [r] waits for the
    destination. *)
Definition occupied (r : option Src) (t : Tick) (w : W) : W :=
  w <| layer ::= λ l, l <| state := BUSY |> <| waitingForPeer := r |> <| releaseEvent := Some t |>
                        <| occupancy ::= λ o, o + (t - curTick w) |> |>.

Definition with_clock (c : Clocked) (w : W) : W := w <| clock := c |>.
Definition with_users (u : E) (w : W) : W := w <| users := u |>.
Definition busy (w : W) : W := w <| layer ::= λ l, l <| state := BUSY |> |>.

(** A layer that nobody uses; it may be telling a source to retry. *)
Record free (w : W) : Prop := {
  fr_state : state (layer w) ≠ BUSY;
  fr_peer : waitingForPeer (layer w) = None;
  fr_event : releaseEvent (layer w) = None;
}.

Lemma core_clock w c : Core w → (∀ now, curTick w ≤ now → clock_ok now c) → clockPeriod c = P → Core (with_clock c w).
Proof. intros [H1 H2 H3] Hc Hp. split; cbn; [done|split; [apply Hc; cbn; lia|done]|done]. Qed.

Lemma core_busy w : Core w → Core (busy w).
Proof. by intros []. Qed.

Lemma core_users w u : Core w → Core (with_users u w).
Proof. by intros []. Qed.

Lemma occupied_inv r t w :
  Core w → waitingForPeer (layer w) = None → curTick w ≤ t → 0 < t →
  (∀ src, r = Some src → src ∉ waitingForLayer (layer w)) → Inv (occupied r t w).
Proof.
  intros [H1 H2 H3] Hp Ht H0 Hr. split; [split|]; cbn; [done|done| |by exists t].
  unfold waiting in *. cbn. rewrite Hp in H3. destruct r as [src|]; [|done]. cbn in *. constructor; [by apply Hr|done].
Qed.

Lemma is_state_run s w : state (layer w) = s → is_state s w = Ok (tt, w).
Proof. intros <-. unfold is_state, get_state, mbind, M_bind. by rewrite bool_decide_true. Qed.

Lemma occupyLayer_run w t :
  state (layer w) = BUSY → releaseEvent (layer w) = None → curTick w ≤ t → 0 < t →
  occupyLayer t w = Ok (tt, occupied (waitingForPeer (layer w)) t w).
Proof.
  destruct w as [[st q r ev o d n] c now u l]. cbn. intros -> -> Ht H0.
  unfold occupyLayer. erewrite bind_run by (by apply is_state_run).
  unfold schedule, get_state, assert_that, upd, modify, mbind, M_bind.
  rewrite (proj2 (Z.eqb_neq t 0)) by lia. cbn. by rewrite (proj2 (Z.leb_le now t)) by done.
Qed.

Lemma succeededTiming_run w t :
  state (layer w) = BUSY → waitingForPeer (layer w) = None → releaseEvent (layer w) = None → curTick w ≤ t → 0 < t →
  succeededTiming t w = Ok (tt, occupied None t w).
Proof.
  intros Hs Hp He Ht H0. unfold succeededTiming. erewrite bind_run by (by apply is_state_run).
  rewrite occupyLayer_run by done. by rewrite Hp.
Qed.

Lemma failedTiming_run w src t :
  state (layer w) = BUSY → waitingForPeer (layer w) = None → releaseEvent (layer w) = None → curTick w ≤ t → 0 < t →
  failedTiming src t w = Ok (tt, occupied (Some src) t w).
Proof.
  destruct w as [[st q r ev o d n] c now u l]. cbn. intros -> -> -> Ht H0.
  unfold failedTiming. unfold get_state at 1. do 3 erewrite bind_run by done. erewrite bind_run by (by apply is_state_run).
  by rewrite occupyLayer_run.
Qed.

(** States of the users from which the destination takes every packet. *)
Definition willing (Q : E → Prop) : Prop := ∀ now src e, Q e →
  (dst_takes now src e).1.1 = true ∧ Q (dst_takes now src e).2 ∧ Q (src_retries now src e).2.

Record passed (src : Src) (ok : bool) (w w' : W) : Prop := {
  ps_inv : Inv w';
  ps_state : state (layer w') = BUSY;
  ps_peer : waitingForPeer (layer w') = if ok then None else Some src;
  ps_layer : waitingForLayer (layer w') = waitingForLayer (layer w);
  ps_told : told w' = told w;
  ps_willing : ∀ Q, willing Q → Q (users w) → ok = true ∧ Q (users w');
}.

Lemma pass_free src w :
  Core w → free w → curTick w < 2 ^ 62 → src ∉ waitingForLayer (layer w) →
  ∃ ok w', pass src w = Ok (ok, w') ∧ passed src ok w w'.
Proof.
  intros Hc [Hs Hp He] Hn Hsrc. unfold pass.
  assert (tryTiming src w = Ok (true, busy w)) as Ht.
  { unfold tryTiming, get_state, upd, modify, mbind, M_bind. cbn.
    rewrite bool_decide_false by done. rewrite (bool_decide_false (_ ≠ None)) by (rewrite Hp; auto). done. }
  erewrite bind_run by exact Ht. cbn [negb].
  destruct (layer_clock_run (busy w) 1 (core_busy _ Hc) Hn ltac:(lia)) as (e & c & Hr & He1 & Hpos & Hck & Hcp).
  erewrite bind_run by exact Hr. unfold get_state at 1. erewrite bind_run by done. cbn [curTick users].
  set (w1 := with_clock c (busy w)).
  change (dst_takes _ _ _) with (dst_takes (curTick w) src (users w)).
  pose proof (Hdst (curTick w) src (users w)) as Hd.
  destruct (dst_takes (curTick w) src (users w)) as [[ok pd] u] eqn:Hdt. cbn in Hd.
  assert (Core (with_users u w1)) as Hc1 by (by apply core_users, core_clock; [apply core_busy|..]).
  erewrite bind_run by done. change (modify _ _) with (Ok (tt, with_users u w1)). cbn in He1.
  destruct ok.
  - rewrite u64_id by (unfold is_u64; lia). eexists true, _. split.
    { erewrite bind_run by (apply succeededTiming_run; [done|exact Hp|exact He|cbn; lia|lia]). done. }
    split; [apply occupied_inv; [done|done|cbn; lia|lia|done]|done..|].
    intros Q HQ Hu. destruct (HQ (curTick w) src _ Hu) as (_ & Hu' & _). by rewrite Hdt in Hu'.
  - destruct (layer_clock_run (with_users u w1) 1 Hc1 Hn ltac:(lia)) as (e' & c' & Hr' & He' & Hpos' & Hck' & Hcp').
    eexists false, _. split.
    { erewrite bind_run by exact Hr'. erewrite bind_run by (apply failedTiming_run; [done|exact Hp|exact He|cbn in *; lia|auto]). done. }
    split; [|done..|].
    + apply (occupied_inv (Some src) e' (with_clock c' (with_users u w1))); [by apply core_clock|done|cbn in *; lia|auto|].
      by intros ? [= <-].
    + intros Q HQ Hu. destruct (HQ (curTick w) src _ Hu) as (Ht' & _). by rewrite Hdt in Ht'.
Qed.

Definition queued (src : Src) (w : W) : W := w <| layer ::= λ l, l <| waitingForLayer ::= λ q, q ++ [src] |> |>.

Lemma pass_queued src w :
  src ∉ waitingForLayer (layer w) → state (layer w) = BUSY ∨ waitingForPeer (layer w) ≠ None →
  pass src w = Ok (false, queued src w).
Proof.
  intros Hs Hb. unfold pass, tryTiming, get_state, assert_that, upd, modify, mbind, M_bind. cbn.
  assert (bool_decide (state (layer w) = BUSY) || bool_decide (waitingForPeer (layer w) ≠ None) = true) as ->.
  { destruct Hb; [by rewrite bool_decide_true|]. rewrite (bool_decide_true (_ ≠ None)) by done. by rewrite orb_true_r. }
  by rewrite bool_decide_true.
Qed.

(** ** Telling a source to retry *)

Definition retrying (w : W) (rest : list Src) : W :=
  w <| layer ::= λ l, l <| state := RETRY |> <| waitingForLayer := rest |> |>.
Definition telling (u : E) (i : Src) (w : W) : W := w <| users := u |> <| told ::= λ l, l ++ [i] |>.


Lemma telling_core u i w : Core w → Core (telling u i w).
Proof. by intros []. Qed.
Lemma telling_free u i w : free w → free (telling u i w).
Proof. by intros []. Qed.

Lemma sendRetry_run i w :
  Core w → free w → curTick w < 2 ^ 62 → i ∉ waitingForLayer (layer w) →
  ∃ u w', sendRetry i w = Ok (tt, w') ∧ (w' = telling u i w ∨ ∃ ok, passed i ok (telling u i w) w') ∧
    (∀ Q, willing Q → Q (users w) → Q u).
Proof.
  intros Hc Hf Hn Hi. unfold sendRetry. unfold get_state at 1. erewrite bind_run by done.
  destruct (src_retries (curTick w) i (users w)) as [again u] eqn:Hu. exists u.
  assert (∀ Q, willing Q → Q (users w) → Q u) as HQ.
  { intros Q HQ Hq. destruct (HQ (curTick w) i _ Hq) as (_ & _ & Hq'). by rewrite Hu in Hq'. }
  erewrite bind_run by done.
  change (w <| users := u |> <| told ::= λ l, l ++ [i] |>) with (telling u i w). destruct again; cbn [when_].
  - destruct (pass_free i (telling u i w)) as (ok & w' & Hr & Hp); [by apply telling_core|by apply telling_free|done..|].
    exists w'. split; [by erewrite bind_run by exact Hr|]. split; [eauto|done].
  - eexists. split; [done|]. split; [by left|done].
Qed.

Record retried (i : Src) (rest : list Src) (w w' : W) : Prop := {
  rt_inv : Inv w';
  rt_state : state (layer w') = BUSY;
  rt_told : told w' = told w ++ [i];
  rt_layer : waitingForLayer (layer w') = rest;
  rt_peer : waitingForPeer (layer w') = None ∨ waitingForPeer (layer w') = Some i;
  rt_willing : ∀ Q, willing Q → Q (users w) → waitingForPeer (layer w') = None ∧ Q (users w');
}.

Lemma retrying_core w i rest :
  Core w → waitingForPeer (layer w) = None → waitingForLayer (layer w) = i :: rest →
  Core (retrying w rest) ∧ i ∉ rest.
Proof.
  intros [H1 H2 H3] Hp Hq. unfold waiting in H3. rewrite Hp, Hq in H3. cbn in H3. apply NoDup_cons in H3 as [Hi Hr].
  split; [|done]. split; cbn; [done..|]. unfold waiting. cbn. by rewrite Hp.
Qed.

Lemma retryWaiting_run w i rest :
  Core w → free w → state (layer w) = IDLE → waitingForLayer (layer w) = i :: rest → 0 < curTick w < 2 ^ 62 →
  ∃ w', retryWaiting w = Ok (tt, w') ∧ retried i rest w w'.
Proof.
  intros Hc [_ Hp He] Hs Hq Hn. destruct (retrying_core w i rest Hc Hp Hq) as [Hc' Hi].
  destruct (sendRetry_run i (retrying w rest)) as (u & w1 & Hr & Hw & HQ); [done|by split|cbn; lia|done|].
  unfold retryWaiting. unfold get_state at 1. erewrite bind_run by done. rewrite Hq.
  erewrite bind_run by (by apply is_state_run). unfold upd at 1 2. do 2 erewrite bind_run by reflexivity.
  erewrite bind_run by exact Hr. erewrite bind_run by done.
  destruct Hw as [->|(ok & [Hv Hb Hpe Hl Ht Hwl])].
  - unfold when_. rewrite bool_decide_true by done. erewrite bind_run by reflexivity.
    set (w2 := busy (telling u i (retrying w rest))). assert (Core w2) as Hc2 by (by apply core_busy, telling_core).
    destruct (layer_clock_run w2 0 Hc2) as (e & c & Hk & He1 & Hpos & Hck & Hcp); [cbn; lia|lia|]. cbn in He1.
    eexists. split; [erewrite bind_run by exact Hk; apply occupyLayer_run; [done|exact He|cbn; lia|apply Hpos; cbn; lia]|].
    split; [|done|done|done|by left|by intros Q Hw Hu; split; [|apply (HQ Q)]].
    apply (occupied_inv _ e (with_clock c w2)); [by apply core_clock|done|cbn; lia|apply Hpos; cbn; lia|].
    cbn. by rewrite Hp.
  - rewrite bool_decide_false by (by rewrite Hb). eexists. split; [done|].
    split; [done..| |]; [destruct ok; auto|]. intros Q Hw Hu. destruct (Hwl Q Hw (HQ Q Hw Hu)) as [-> ?]. done.
Qed.

(** ** The events *)

Definition fired (t : Tick) (w : W) : W :=
  w <| curTick := t |> <| layer ::= λ l, l <| releaseEvent := None |> <| state := IDLE |> |>.
Definition drained (w : W) : W := w <| layer ::= λ l, l <| drainState := Drained |> <| drainDone ::= S |> |>.
Definition pushed (i : Src) (w : W) : W :=
  w <| layer ::= λ l, l <| waitingForLayer ::= cons i |> <| waitingForPeer := None |> |>.

Lemma event_busy w t : Inv w → releaseEvent (layer w) = Some t → state (layer w) = BUSY ∧ curTick w ≤ t ∧ 0 < t.
Proof.
  intros [_ Hs] He. destruct (state (layer w)); [destruct Hs as [Hs _]; congruence| |done].
  destruct Hs as (t' & Ht & ? & ?). rewrite He in Ht. by injection Ht as <-.
Qed.

Lemma fired_core t w : Core w → curTick w ≤ t → Core (fired t w).
Proof. intros [H1 [H2 H2'] H3] Ht. split; cbn; [lia|split; [by eapply clock_later|done]|done]. Qed.

Lemma exec_release w t :
  releaseEvent (layer w) = Some t → state (layer w) = BUSY →
  exec Release w =
    (if bool_decide (waitingForLayer (layer w) ≠ []) then
       when_ (bool_decide (waitingForPeer (layer w) = None)) retryWaiting
     else
       when_ (bool_decide (waitingForPeer (layer w) = None) && bool_decide (drainState (layer w) = Draining))
         (modify drained)) (fired t w).
Proof.
  destruct w as [[st q r ev o d n] c now u l]. cbn [layer releaseEvent state]. intros -> ->.
  unfold exec. unfold get_state at 1. erewrite bind_run by done. cbn [layer releaseEvent of_option]. do 3 erewrite bind_run by done.
  unfold releaseLayer. unfold get_state at 1. erewrite bind_run by done. erewrite bind_run by (by apply is_state_run).
  by do 2 erewrite bind_run by done.
Qed.

Lemma layer_release_run w t :
  Inv w → releaseEvent (layer w) = Some t → t < 2 ^ 62 →
  ∃ w', exec Release w = Ok (tt, w') ∧
    ((∃ i rest, waitingForPeer (layer w) = None ∧ waitingForLayer (layer w) = i :: rest ∧ retried i rest w w') ∨
     (Inv w' ∧ state (layer w') = IDLE ∧ told w' = told w ∧ users w' = users w ∧ waitingForPeer (layer w') = waitingForPeer (layer w) ∧
      waitingForLayer (layer w') = waitingForLayer (layer w))).
Proof.
  intros Hi Ht Hmax. destruct (event_busy w t Hi Ht) as (Hs & Hle & Hpos). rewrite (exec_release w t Ht Hs).
  pose proof (fired_core t w (iv_core _ Hi) Hle) as Hf. destruct (waitingForLayer (layer w)) as [|i rest] eqn:Hq.
  - rewrite bool_decide_false by auto. unfold when_. destruct (_ && _).
    all: eexists; (split; [done|]); right; split; [|done]; split; [by destruct Hf; split|]; cbn; split_and!; [done|by rewrite Hq|by intros].
  - rewrite bool_decide_true by done. unfold when_. case_bool_decide as Hp.
    + destruct (retryWaiting_run (fired t w) i rest Hf) as (w' & Hr & []); [by split|done|done|cbn; lia|].
      exists w'. split; [done|]. left. by exists i, rest.
    + eexists. split; [done|]. right. split; [|done]. split; [done|]. cbn. by split_and!.
Qed.

Lemma pushed_core i w : Core w → waitingForPeer (layer w) = Some i → Core (pushed i w).
Proof. intros [H1 H2 H3] Hp. split; [done..|]. unfold waiting in *. by rewrite Hp in H3. Qed.

Lemma recvRetry_run w i :
  Inv w → waitingForPeer (layer w) = Some i → curTick w < 2 ^ 62 →
  ∃ w', exec PeerRetry w = Ok (tt, w') ∧
    ((state (layer w) = IDLE ∧ retried i (waitingForLayer (layer w)) w w') ∨
     (Inv w' ∧ state (layer w) = BUSY ∧ state (layer w') = BUSY ∧ told w' = told w ∧ users w' = users w ∧
      waitingForPeer (layer w') = None ∧ waitingForLayer (layer w') = i :: waitingForLayer (layer w))).
Proof.
  intros Hi Hp Hn. pose proof (pushed_core i w (iv_core _ Hi) Hp) as Hc. pose proof (iv_state _ Hi) as Hs.
  cbn [exec]. unfold recvRetry. unfold get_state at 1. erewrite bind_run by done. rewrite Hp.
  do 3 erewrite bind_run by done. destruct (state (layer w)) eqn:Est; [| |done].
  - destruct Hs as (He & _ & H0). rewrite Hp in H0. specialize (H0 ltac:(done)). rewrite bool_decide_true by done.
    destruct (retryWaiting_run (pushed i w) i (waitingForLayer (layer w)) Hc) as (w' & Hr & []);
      [split; [cbn; by rewrite Est|done..]|done|done|done|].
    exists w'. split; [done|]. by left.
  - rewrite bool_decide_false by done. exists (pushed i w). split; [by apply is_state_run|]. right.
    split; [split; [done|]|done]. cbn. by rewrite Est.
Qed.

Lemma send_run w i :
  Inv w → i ∉ waiting w → curTick w < 2 ^ 62 →
  ∃ w', exec (Send i) w = Ok (tt, w') ∧ Inv w' ∧ told w' = told w ∧ (waiting w' = waiting w ∨ waiting w' = waiting w ++ [i]).
Proof.
  intros Hi Hw Hn. pose proof Hi as [Hc Hs]. cbn [exec].
  assert (i ∉ waitingForLayer (layer w)) as Hl by (unfold waiting in Hw; set_solver).
  destruct (decide (state (layer w) = BUSY ∨ waitingForPeer (layer w) ≠ None)) as [Hb|Hb].
  - exists (queued i w). split; [by erewrite bind_run by (by apply pass_queued)|].
    assert (waiting (queued i w) = waiting w ++ [i]) as Hq by (unfold waiting; cbn; by rewrite app_assoc).
    split; [|split; [done|by right]]. destruct Hc as [H1 H2 H3]. split; [split; [done..|]|].
    + rewrite Hq. apply NoDup_app. split_and!; [done|set_solver|apply NoDup_singleton].
    + cbn. destruct (state (layer w)); [|done..]. destruct Hs as (? & ? & ?). split_and!; [done| |done].
      destruct Hb as [|Hb]; [done|]. intros ?. by destruct Hb.
  - apply Decidable.not_or in Hb as [Hb Hp]. apply dec_stable in Hp. destruct (state (layer w)) eqn:Est; [|done..].
    destruct Hs as (He & Hq & _). destruct (pass_free i w Hc) as (ok & w' & Hr & [P1 P2 P3 P4 P5 P6]); [split; [by rewrite Est|done..]|done..|].
    exists w'. split; [by erewrite bind_run by exact Hr|]. split; [done|]. split; [done|].
    unfold waiting. rewrite P3, P4, Hp, (Hq Hp). destruct ok; [by left|by right].
Qed.

(** ** Arbitration *)

(** What an action does to the sources that wait: nothing, one joins at the end,
    or the first is told to retry and may be refused again. *)
Inductive effect (a : Action) (w w' : W) : Prop :=
  | effect_none : told w' = told w → waiting w' = waiting w → effect a w w'
  | effect_joins i : a = Send i → told w' = told w → waiting w' = waiting w ++ [i] → effect a w w'
  | effect_tells i rest : waiting w = i :: rest → told w' = told w ++ [i] →
      waiting w' = rest ∨ waiting w' = i :: rest ∧ waitingForPeer (layer w') = Some i → effect a w w'.

Lemma retried_effect a i rest w w' : waiting w = i :: rest → retried i rest w w' → effect a w w'.
Proof.
  intros Hw [_ _ Ht Hl Hp _]. apply (effect_tells _ _ _ i rest Hw Ht). unfold waiting. rewrite Hl.
  destruct Hp as [-> | ->]; [by left|by right].
Qed.

Lemma layer_exec a w : Inv w → enabled a w → ∃ w', exec a w = Ok (tt, w') ∧ Inv w' ∧ effect a w w'.
Proof.
  intros Hi Hen. destruct a as [i| | | |now]; cbn [enabled] in Hen.
  - destruct Hen as [Hw Hn]. destruct (send_run w i Hi Hw Hn) as (w' & ? & ? & ? & [?|?]); exists w';
      (split; [done|]); (split; [done|]); [by apply effect_none|by apply (effect_joins _ _ _ i)].
  - destruct Hen as (t & Ht & Hmax). destruct (layer_release_run w t Hi Ht Hmax) as (w' & Hr & [(i & rest & Hp & Hq & R)|(? & _ & ? & _ & Hp & Hq)]).
    + exists w'. split; [done|]. split; [by apply R|]. apply (retried_effect _ i rest); [|done]. unfold waiting. by rewrite Hp, Hq.
    + exists w'. split; [done|]. split; [done|]. apply effect_none; [done|]. unfold waiting. by rewrite Hp, Hq.
  - destruct Hen as [Hp Hn]. destruct (waitingForPeer (layer w)) as [i|] eqn:Hw; [|done].
    destruct (recvRetry_run w i Hi Hw Hn) as (w' & Hr & [[_ R]|(? & _ & _ & ? & _ & Hp' & Hq)]); exists w'; (split; [done|]).
    + split; [by apply R|]. apply (retried_effect _ i (waitingForLayer (layer w))); [|done]. unfold waiting. by rewrite Hw.
    + split; [done|]. apply effect_none; [done|]. unfold waiting. by rewrite Hp', Hq, Hw.
  - eexists. split; [done|]. split; [by destruct Hi as [[] ?]; split; [split|]|by apply effect_none].
  - destruct Hen as [Hle Ht]. eexists. split; [done|]. split; [|by apply effect_none].
    destruct Hi as [[H1 [H2 H2'] H3] Hs]. split; [split; cbn; [lia|split; [by eapply clock_later|done]|done]|].
    cbn. destruct (state (layer w)); [| |done].
    + destruct Hs as (? & ? & H0). split_and!; [done..|]. intros Hp. specialize (H0 Hp). lia.
    + destruct Hs as (t & Et & ? & ?). exists t. split_and!; [done|by apply Ht|done].
Qed.

Lemma layer_inv c e w : clock_ok 0 c → clockPeriod c = P → reachable c e w → Inv w.
Proof.
  intros Hc Hp. induction 1 as [|w a w' Hr IH Hen Hex].
  - split; [split|]; cbn; [done|done|apply NoDup_nil_2|by split_and!].
  - destruct (layer_exec a w IH Hen) as (w'' & Hex' & Hi & _). rewrite Hex in Hex'. by injection Hex' as <-.
Qed.

Lemma waiting_served w : Inv w → waiting w ≠ [] → is_Some (releaseEvent (layer w)) ∨ waitingForPeer (layer w) ≠ None.
Proof.
  intros [_ Hs] Hw. destruct (state (layer w)); [| |done].
  - destruct Hs as (_ & Hq & _). right. intros Hp. unfold waiting in Hw. by rewrite Hp, (Hq Hp) in Hw.
  - destruct Hs as (t & Ht & _). left. by exists t.
Qed.

(** C38.  A layer serves its sources first come, first served.  In every
    reachable state every enabled action completes, so no assertion of the layer
    fires; no source waits twice; while one waits, the layer is about to be
    released or the destination owes a retry.  An action leaves the order of those
    who wait alone, or adds the sender at the end, or tells the first one, and
    nobody else, to retry; that one leaves, or keeps its place when the
    destination refuses it again. *)
Theorem layer_fair c e w a :
  clock_ok 0 c → clockPeriod c = P → reachable c e w → enabled a w →
  NoDup (waiting w) ∧
  (waiting w ≠ [] → is_Some (releaseEvent (layer w)) ∨ waitingForPeer (layer w) ≠ None) ∧
  ∃ w', exec a w = Ok (tt, w') ∧ effect a w w'.
Proof.
  intros Hc Hp Hr Hen. pose proof (layer_inv c e w Hc Hp Hr) as Hi. split; [apply Hi|]. split; [by apply waiting_served|].
  destruct (layer_exec a w Hi Hen) as (w' & ? & _ & ?). by exists w'.
Qed.

(** ** Progress *)

Definition serves (a : Action) : Prop := a = Release ∨ a = PeerRetry.

(** Steps until all who wait have been told. *)
Definition rank (w : W) : nat :=
  3 * length (waiting w) + length (option_list (waitingForPeer (layer w))) +
  (if bool_decide (state (layer w) = BUSY) then 1 else 0).

Lemma retried_rank Q i rest w w' :
  willing Q → Q (users w) → waiting w = i :: rest → retried i rest w w' →
  Q (users w') ∧ told w' ++ waiting w' = told w ++ waiting w ∧ (rank w' < rank w)%nat.
Proof.
  intros HQ Hu Hw [_ Hs Ht Hl _ Hwl]. destruct (Hwl Q HQ Hu) as [Hp Hu']. split; [done|].
  assert (waiting w' = rest) as Hw' by (unfold waiting; by rewrite Hp, Hl).
  split; [by rewrite Ht, Hw, Hw', <- app_assoc|].
  unfold rank. rewrite Hp, Hw, Hw', Hs. change (length (option_list None)) with 0%nat. cbn [length]. rewrite bool_decide_true by done. lia.
Qed.

Lemma serves_rank Q w a :
  Inv w → willing Q → Q (users w) → serves a → enabled a w →
  ∃ w', exec a w = Ok (tt, w') ∧ Q (users w') ∧ told w' ++ waiting w' = told w ++ waiting w ∧ (rank w' < rank w)%nat.
Proof.
  intros Hi HQ Hu [-> | ->] Hen; cbn [enabled] in Hen.
  - destruct Hen as (t & Ht & Hmax). destruct (event_busy w t Hi Ht) as (Hs & _).
    destruct (layer_release_run w t Hi Ht Hmax) as (w' & Hr & [(i & rest & Hp & Hq & R)|(? & Hs' & Hto & Hus & Hp & Hq)]);
      exists w'; (split; [done|]).
    + apply (retried_rank Q i rest); try done. unfold waiting. by rewrite Hp, Hq.
    + rewrite Hus. split; [done|]. unfold rank, waiting. rewrite Hto, Hp, Hq, Hs, Hs'. split; [done|].
      rewrite bool_decide_false, bool_decide_true by done. lia.
  - destruct Hen as [Hp Hn]. destruct (waitingForPeer (layer w)) as [i|] eqn:Hw; [|done].
    destruct (recvRetry_run w i Hi Hw Hn) as (w' & Hr & [[_ R]|(? & Hs & Hs' & Hto & Hus & Hp' & Hq)]); exists w'; (split; [done|]).
    + apply (retried_rank Q i (waitingForLayer (layer w))); try done. unfold waiting. by rewrite Hw.
    + rewrite Hus. split; [done|]. unfold rank, waiting. rewrite Hto, Hp', Hq, Hw, Hs, Hs'. split; [done|]. cbn.
      rewrite bool_decide_true by done. lia.
Qed.

(** C39.  Nobody starves once the destination takes what it is given: while a
    source waits, a release or a retry of the destination can happen, unless it
    lies beyond tick 2^62; each of them completes, tells those who wait in their
    order or brings that nearer, and the number of steps left falls. *)
Theorem layer_serves c e w Q :
  clock_ok 0 c → clockPeriod c = P → reachable c e w → willing Q → Q (users w) →
  (waiting w ≠ [] → curTick w < 2 ^ 62 → (∀ t, releaseEvent (layer w) = Some t → t < 2 ^ 62) →
     ∃ a, serves a ∧ enabled a w) ∧
  (∀ a, serves a → enabled a w →
     ∃ w', exec a w = Ok (tt, w') ∧ Q (users w') ∧
       told w' ++ waiting w' = told w ++ waiting w ∧ (rank w' < rank w)%nat).
Proof.
  intros Hc Hp Hr HQ Hu. pose proof (layer_inv c e w Hc Hp Hr) as Hi. split.
  - intros Hw Hn Ht. destruct (waiting_served w Hi Hw) as [[t Et]|Hpeer].
    + exists Release. split; [by left|]. exists t. split; [done|by apply Ht].
    + exists PeerRetry. split; [by right|done].
  - intros a. by apply serves_rank.
Qed.
End Layer.

(** ** A run *)

(** A destination that refuses its first packet and then takes all; sources that
    send again as soon as they are told. *)
#[local] Instance picky : Users bool := {|
  dst_takes := λ _ _ b, (b, 1000, true); src_retries := λ _ _ b, (true, b) |}.

Definition demo_clock : Clocked := mkClocked 0 0 500.
Definition outcome (a : Action) (w : World bool) : World bool :=
  match exec a w with Ok (_, w') => w' | Abort _ => w end.

(** Source 0 is refused, sources 1 and 2 queue up behind it. *)
Definition demo_start : World bool := mkWorld ctor demo_clock 0 false [].
Definition demo_actions : list Action := [Send 0; Send 1; Send 2]%nat.
Definition demo : World bool := foldl (λ w a, outcome a w) demo_start demo_actions.

Lemma layer_demo_reached : reachable demo_clock false demo.
Proof.
  apply (layer_step _ _ (outcome (Send 1) (outcome (Send 0) demo_start)) (Send 2)); [|split; [by vm_compute; set_solver|done]|by vm_compute].
  apply (layer_step _ _ (outcome (Send 0) demo_start) (Send 1)); [|split; [by vm_compute; set_solver|done]|by vm_compute].
  apply (layer_step _ _ demo_start (Send 0)); [constructor|split; [by vm_compute; set_solver|done]|by vm_compute].
Qed.

Lemma layer_clock_ok : clock_ok 0 demo_clock.
Proof. split; cbn; lia. Qed.

Lemma picky_delays now src (e : bool) : 0 ≤ (dst_takes now src e).1.2 < 2 ^ 62.
Proof. cbn. lia. Qed.

Lemma layer_fair_witness : ∃ w', exec Release demo = Ok (tt, w') ∧ effect Release demo w'.
Proof.
  apply (layer_fair 500 ltac:(lia) picky_delays demo_clock false demo Release layer_clock_ok eq_refl layer_demo_reached).
  exists 500. by vm_compute.
Defined.

Lemma layer_serves_witness :
  ∃ w', exec PeerRetry demo = Ok (tt, w') ∧ told w' ++ waiting w' = [0; 1; 2]%nat ∧ (rank w' < rank demo)%nat.
Proof.
  destruct (layer_serves 500 ltac:(lia) picky_delays demo_clock false demo (λ b, b = true)
    layer_clock_ok eq_refl layer_demo_reached) as [_ H]; [by intros ? ? ? ->|by vm_compute|].
  destruct (H PeerRetry) as (w' & ? & _ & Hw & ?); [by right|by split; vm_compute|].
  exists w'. split_and!; [done| |done]. rewrite Hw. by vm_compute.
Defined.

(** The three are told in their order, one per release. *)
Example layer_demo_order :
  told (foldl (λ w a, outcome a w) demo [Release; PeerRetry; Release; Release]) = [0; 1; 2]%nat.
Proof. by vm_compute. Qed.

(** An idle layer reports that it has drained although a source waits for the
    destination. *)
Example drained_with_waiter :
  let w := outcome Drain (outcome Release demo) in
  drainState (layer w) = Drained ∧ waiting w = [0; 1; 2]%nat.
Proof. by vm_compute. Qed.
End Layer.
