(* ===== verification/UcieLink.v ===== *)
(** * The UCIe link (src/gem5/src/mem/ucie/ucie_link.hh, ucie_link.cc)

    One definition per method of [UcieLink] and of its two ports, over a world
    that holds both ends of a die-to-die connection: [Near] is the link on the
    requesting chiplet, [Far] the one on the memory chiplet.  Timing calls are
    synchronous, so a handler may be re-entered through its own outgoing call;
    what a port's peer does is therefore an argument of the handlers
    ([tx_peer], [rx_peer]) and may change any part of the world.

    Pointers are kept: TLPs and flits live in stores, queues hold addresses, and
    a freed flit can no longer be read. *)

From Stdlib Require Import SpecFloat.
From S2P Require Import Prelude MemCmd Packet Clocked EventQueue EventQueueSpec FlitPacker Latency.
#[local] Open Scope Z_scope.

(** ** State *)

Inductive UcieLinkState := INIT | ACTIVE | RETRAIN.
#[export] Instance UcieLinkState_eq_dec : EqDecision UcieLinkState.
Proof. solve_decision. Defined.

Record UcieLinkParams := mkParams {
  dataRate : spec_float;
  numLanes : Z;
  physDelay : Z;
  creditPool : Z;
  errorRate : spec_float;
  retryTimeoutDelay : Z;
  clk_period : Z;
}.

Record UcieStats := mkStats {
  totalFlitsSent : Z;
  totalTLPsSent : Z;
  totalPayloadBytes : Z;
  totalPaddingBytes : Z;
  totalRetransmissions : Z;
  totalFlitsNaked : Z;
  totalFlitsReceived : Z;
  totalCrcErrors : Z;
  totalAcksSent : Z;
  totalNaksSent : Z;
  totalTLPsReceived : Z;
  tlpLatency : list Z;
  simDurationTicks : Z;
}.
#[export] Instance eta_UcieStats : Eta UcieStats := λ t,
  mkStats (totalFlitsSent t) (totalTLPsSent t) (totalPayloadBytes t) (totalPaddingBytes t)
    (totalRetransmissions t) (totalFlitsNaked t) (totalFlitsReceived t) (totalCrcErrors t)
    (totalAcksSent t) (totalNaksSent t) (totalTLPsReceived t) (tlpLatency t)
    (simDurationTicks t).

Definition UcieStats_ctor : UcieStats := mkStats 0 0 0 0 0 0 0 0 0 0 0 [] 0.

Abbreviation FlitId := nat (only parsing).

Record UcieLink := mkLink {
  params : UcieLinkParams;
  clk : Clocked;
  txPacker : FlitPacker;
  linkState : UcieLinkState;
  rxFlitCounter : Z;
  rxBitsReceived : Z;
  nextErrorAtBits : Z;
  txCredits : Z;
  txBlocked : bool;
  rxWaitingForRetry : bool;
  tlpBlocked : bool;
  tlpSendQueue : list PktId;
  txSendQueue : list FlitId;
  retryBuffer : list FlitId;
  lastProcessedTimestamp : Z;
  lastAckedTimestamp : Z;
  simStartTick : Z;
  simLastTick : Z;
  stats : UcieStats;
}.
#[export] Instance eta_UcieLink : Eta UcieLink := λ l,
  mkLink (params l) (clk l) (txPacker l) (linkState l) (rxFlitCounter l) (rxBitsReceived l)
    (nextErrorAtBits l) (txCredits l) (txBlocked l) (rxWaitingForRetry l) (tlpBlocked l)
    (tlpSendQueue l) (txSendQueue l) (retryBuffer l) (lastProcessedTimestamp l)
    (lastAckedTimestamp l) (simStartTick l) (simLastTick l) (stats l).

Definition UcieLink_ctor (p : UcieLinkParams) : UcieLink :=
  mkLink p (Clocked_ctor (clk_period p)) FlitPacker_ctor INIT 0 0 0 (u32 (creditPool p))
    false false false [] [] [] 0 0 0 0 UcieStats_ctor.

Inductive Side := Near | Far.
#[export] Instance Side_eq_dec : EqDecision Side.
Proof. solve_decision. Defined.

(** The three member events of a link, as identities in the event queue. *)
Inductive EventKind := packTlpEvent | sendFlitEvent | retryTimeoutEvent.
#[export] Instance EventKind_eq_dec : EqDecision EventKind.
Proof. solve_decision. Defined.

Definition event_id (s : Side) (k : EventKind) : EvId :=
  (match s with Near => 0 | Far => 3 end +
   match k with packTlpEvent => 0 | sendFlitEvent => 1 | retryTimeoutEvent => 2 end)%nat.

(** The world; [env] is the state of everything beyond the two links. *)
Record World (E : Type) := mkWorld {
  near : UcieLink;
  far : UcieLink;
  pkts : gmap PktId Packet;
  flits : gmap FlitId UcieFlitPacket;
  nextFlit : FlitId;
  curTick : Z;
  events : Abs.queue;
  env : E;
}.
Arguments mkWorld {E}.
Arguments near {E}. Arguments far {E}. Arguments pkts {E}. Arguments flits {E}.
Arguments nextFlit {E}. Arguments curTick {E}. Arguments events {E}. Arguments env {E}.
#[export] Instance eta_World E : Eta (World E) := λ w,
  mkWorld (near w) (far w) (pkts w) (flits w) (nextFlit w) (curTick w) (events w) (env w).

(** [PacketPtr]: what [dynamic_cast<UcieFlitPacket*>] distinguishes. *)
Inductive PacketPtr := TlpPtr (p : PktId) | FlitPtr (f : FlitId).

Section Handlers.
Context {E : Type}.
Abbreviation H := (M (World E)).

(** ** Memory and the event queue *)

Definition link_of (s : Side) (w : World E) : UcieLink :=
  match s with Near => near w | Far => far w end.
Definition set_link (s : Side) (f : UcieLink → UcieLink) (w : World E) : World E :=
  match s with Near => w <| near ::= f |> | Far => w <| far ::= f |> end.
Definition upd_link (s : Side) (f : UcieLink → UcieLink) : H unit := modify (set_link s f).
Definition getl {A} (s : Side) (f : UcieLink → A) : H A := gets (λ w, f (link_of s w)).

Definition deref_flit (f : FlitId) : H UcieFlitPacket :=
  o ← gets (λ w, flits w !! f); of_option UndefinedBehavior o.
Definition upd_flit (f : FlitId) (g : UcieFlitPacket → UcieFlitPacket) : H unit :=
  x ← deref_flit f; modify (λ w, w <| flits ::= <[f := g x]> |>).
Definition new_flit (x : UcieFlitPacket) : H FlitId :=
  f ← gets nextFlit;
  modify (λ w, w <| flits ::= <[f := x]> |> <| nextFlit := S f |>);;
  mret f.
Definition delete_flit (f : FlitId) : H unit :=
  deref_flit f;; modify (λ w, w <| flits ::= base.delete f |>).
Definition deref_pkt (p : PktId) : H Packet :=
  o ← gets (λ w, pkts w !! p); of_option UndefinedBehavior o.
Definition set_pkt (p : PktId) (x : Packet) : H unit :=
  modify (λ w, w <| pkts ::= <[p := x]> |>).

Definition scheduled (s : Side) (k : EventKind) : H bool :=
  gets (λ w, bool_decide (event_id s k ∈ Abs.ids (events w))).
Definition schedule (s : Side) (k : EventKind) (t : Z) : H unit :=
  now ← gets curTick;
  assert_that (now <=? t);;
  b ← scheduled s k;
  assert_that (negb b);;
  modify (λ w, w <| events ::= Abs.insert (t, Default_Pri) (event_id s k) |>).
Definition deschedule (s : Side) (k : EventKind) : H unit :=
  b ← scheduled s k;
  assert_that b;;
  modify (λ w, w <| events ::= Abs.remove (event_id s k) |>).

(** [if (!event.scheduled()) schedule(event, t)]. *)
Definition schedule_unless (s : Side) (k : EventKind) (t : Z) : H unit :=
  b ← scheduled s k; when_ (negb b) (schedule s k t).

Definition clock_edge (s : Side) (n : Z) : H Z :=
  now ← gets curTick;
  c ← getl s clk;
  '(t, c') ← lift_res (clockEdge now n c);
  upd_link s (λ l, l <| clk := c' |>);;
  mret t.

(** The port layer (mem/port.hh, mem/protocol/timing.cc): only requests travel
    downstream and only responses upstream. *)
Definition ptr_cmd (p : PacketPtr) : H Command :=
  match p with
  | TlpPtr p => x ← deref_pkt p; mret (cmd x)
  | FlitPtr f => x ← deref_flit f; mret (cmd (base x))
  end.
Definition sendReq (recv : PacketPtr → H bool) (p : PacketPtr) : H bool :=
  c ← ptr_cmd p; assert_that (isRequest c);; recv p.
Definition sendResp (recv : PacketPtr → H bool) (p : PacketPtr) : H bool :=
  c ← ptr_cmd p; assert_that (isResponse c);; recv p.

(** ** Transmit side *)

Definition drainTxSendQueue (s : Side) : H unit :=
  b ← scheduled s sendFlitEvent;
  when_ (negb b) (t ← clock_edge s 1; schedule s sendFlitEvent t).

(** The loops that delete the oldest flits of the retry buffer while their
    timestamp satisfies [old]; [buf] is the buffer.  The result counts them. *)
Fixpoint retire (s : Side) (old : Z → bool) (buf : list FlitId) : H Z :=
  match buf with
  | [] => mret 0
  | f :: buf' =>
      x ← deref_flit f;
      if old (timestamp x) then
        upd_link s (λ l, l <| retryBuffer := buf' |>);;
        delete_flit f;;
        n ← retire s old buf';
        mret (n + 1)
      else mret 0
  end.

(** The three steps of [processAck] after the loop: give the credits back and
    resume a stalled sender; restart the timer for the oldest flit left; leave
    [RETRAIN] when none is left. *)
Definition return_credits (s : Side) (flitsAcked : Z) : H unit :=
  upd_link s (λ l, l <| txCredits :=
    Z.min (u32 (txCredits l + flitsAcked)) (u32 (creditPool (params l))) |>);;
  l ← getl s id;
  when_ (txBlocked l && (0 <? txCredits l))
    (upd_link s (λ l, l <| txBlocked := false |>);; drainTxSendQueue s).

Definition restart_timer (s : Side) : H unit :=
  b ← scheduled s retryTimeoutEvent;
  when_ b (deschedule s retryTimeoutEvent);;
  l ← getl s id;
  match retryBuffer l with
  | f :: _ =>
      x ← deref_flit f;
      schedule s retryTimeoutEvent (u64 (timestamp x + retryTimeoutDelay (params l)))
  | [] => mret tt
  end.

Definition leave_retrain (s : Side) : H unit :=
  l ← getl s id;
  when_ (bool_decide (retryBuffer l = []) && bool_decide (linkState l = RETRAIN))
    (upd_link s (λ l, l <| linkState := ACTIVE |>)).

Definition processAck (s : Side) (ackedTimestamp : Z) : H unit :=
  upd_link s (λ l, l <| lastAckedTimestamp := ackedTimestamp |>);;
  buf ← getl s retryBuffer;
  flitsAcked ← retire s (λ ts, ts <=? ackedTimestamp) buf;
  return_credits s flitsAcked;;
  restart_timer s;;
  leave_retrain s.

(** The replay loop of [processNak], from the back of the buffer; [rbuf] is the
    reversed buffer. *)
Fixpoint replay (s : Side) (rbuf : list FlitId) : H unit :=
  match rbuf with
  | [] => mret tt
  | f :: rbuf' =>
      upd_flit f (λ x, x <| isRetransmission := true |>);;
      upd_link s (λ l, l <| txSendQueue ::= cons f |>
                         <| stats ::= λ t, t <| totalRetransmissions ::= Z.add 1 |> |>
                         <| retryBuffer := rev rbuf' |>);;
      replay s rbuf'
  end.

Definition processNak (s : Side) (nakTimestamp : Z) : H unit :=
  upd_link s (λ l, l <| stats ::= λ t, t <| totalFlitsNaked ::= Z.add 1 |> |>);;
  buf ← getl s retryBuffer;
  retire s (λ ts, ts <? nakTimestamp) buf;;
  buf ← getl s retryBuffer;
  replay s (rev buf);;
  b ← scheduled s retryTimeoutEvent;
  when_ b (deschedule s retryTimeoutEvent);;
  upd_link s (λ l, l <| linkState := RETRAIN |>);;
  drainTxSendQueue s.

Definition processPackTlp (s : Side) : H unit :=
  now ← gets curTick;
  k ← getl s txPacker;
  '(o, k') ← lift_res (forceFlush now k);
  upd_link s (λ l, l <| txPacker := k' |>);;
  match o with
  | Some x =>
      f ← new_flit x;
      upd_link s (λ l, l <| txSendQueue ::= λ q, q ++ [f] |>);;
      schedule_unless s sendFlitEvent now
  | None => mret tt
  end.

(** The clone that goes on the wire. *)
Definition wire_flit (x : UcieFlitPacket) (retrans : bool) : H FlitId :=
  y ← lift_res (UcieFlitPacket_ctor (dummy_req UCIE_PAYLOAD_SIZE_BYTES) WriteReq
                  (timestamp x) (flitType x));
  new_flit (y <| payloadBytes := payloadBytes x |>
              <| originalPackets := originalPackets x |>
              <| isRetransmission := retrans |>).

(** ** Outgoing calls

    [tx_peer] and [rx_peer] are the receive functions of the ports connected to
    the link's [txPort] and [rxPort]. *)
Section Ports.
Context (s : Side) (tx_peer rx_peer : PacketPtr → H bool).

(** [drainTlpSendQueue]: the loop pops one TLP per turn, so the length of the
    queue bounds the turns. *)
Fixpoint drain_tlp (fuel : nat) : H unit :=
  l ← getl s id;
  match tlpSendQueue l with
  | [] => mret tt
  | tlp :: _ =>
      if tlpBlocked l then mret tt
      else
        match fuel with
        | O => abort_with UndefinedBehavior
        | S fuel =>
            ok ← sendReq tx_peer (TlpPtr tlp);
            if (ok : bool) then
              upd_link s (λ l, l <| tlpSendQueue ::= tail |>);;
              drain_tlp fuel
            else upd_link s (λ l, l <| tlpBlocked := true |>)
        end
  end.
Definition drainTlpSendQueue : H unit :=
  q ← getl s tlpSendQueue; drain_tlp (length q).

Definition send_control (type : FlitType) (ts : Z) : H unit :=
  now ← gets curTick;
  x ← lift_res (UcieFlitPacket_ctor (dummy_req UCIE_FLIT_SIZE_BYTES) WriteResp now type);
  f ← new_flit (x <| timestamp := ts |>);
  sendResp rx_peer (FlitPtr f);;
  mret tt.

Definition sendAck (ackedTimestamp : Z) : H unit :=
  send_control FLIT_LEVEL_ACK ackedTimestamp;;
  upd_link s (λ l, l <| stats ::= λ t, t <| totalAcksSent ::= Z.add 1 |> |>).

Definition sendNak (nakTimestamp : Z) : H unit :=
  send_control FLIT_LEVEL_NAK nakTimestamp;;
  upd_link s (λ l, l <| stats ::= λ t, t <| totalNaksSent ::= Z.add 1 |> |>).

(** [sendCreditReturn] leaves the constructor's timestamp, [curTick()]. *)
Definition sendCreditReturn : H unit :=
  now ← gets curTick; send_control LINK_MGMT now.

(** What [processSendFlit] does once the clone has been accepted. *)
Definition flit_sent (originalFlit : FlitId) : H unit :=
  now ← gets curTick;
  upd_link s (λ l, l <| txSendQueue ::= tail |>
                     <| retryBuffer ::= λ b, b ++ [originalFlit] |>
                     <| txCredits ::= λ c, u32 (c - 1) |>);;
  upd_link s (λ l, if simStartTick l =? 0 then l <| simStartTick := now |> else l);;
  upd_link s (λ l, l <| simLastTick := now |>);;
  x ← deref_flit originalFlit;
  upd_link s (λ l, l <| stats ::= λ t,
    t <| simDurationTicks := u64 (simLastTick l - simStartTick l) |>
      <| totalFlitsSent ::= Z.add 1 |>
      <| totalPayloadBytes ::= Z.add (payloadBytes x) |>
      <| totalPaddingBytes ::= Z.add (u32 (UCIE_PAYLOAD_SIZE_BYTES - payloadBytes x)) |> |>);;
  l ← getl s id;
  when_ (negb (bool_decide (txSendQueue l = [])))
    (schedule_unless s sendFlitEvent (u64 (now + 1)));;
  schedule_unless s retryTimeoutEvent (u64 (now + retryTimeoutDelay (params l))).

Definition processSendFlit : H unit :=
  l ← getl s id;
  match txSendQueue l with
  | [] => mret tt
  | originalFlit :: _ =>
      if txBlocked l then mret tt
      else if txCredits l =? 0 then upd_link s (λ l, l <| txBlocked := true |>)
      else
        now ← gets curTick;
        x ← deref_flit originalFlit;
        when_ (negb (isRetransmission x))
          (upd_flit originalFlit (λ x, x <| timestamp := now |>));;
        x ← deref_flit originalFlit;
        wireFlit ← wire_flit x (isRetransmission x);
        ok ← sendReq tx_peer (FlitPtr wireFlit);
        if (ok : bool) then flit_sent originalFlit
        else
          delete_flit wireFlit;;
          upd_link s (λ l, l <| txBlocked := true |>)
  end.

Definition processRetryTimeout : H unit :=
  now ← gets curTick;
  l ← getl s id;
  let again := schedule_unless s retryTimeoutEvent (u64 (now + retryTimeoutDelay (params l))) in
  if txBlocked l then again
  else
    match retryBuffer l with
    | [] => mret tt
    | probeFlit :: _ =>
        x ← deref_flit probeFlit;
        let deadline := u64 (timestamp x + retryTimeoutDelay (params l)) in
        if deadline <=? now then
          wireFlit ← wire_flit x true;
          edge ← clock_edge s 8;
          upd_flit wireFlit (λ y, y <| base ::= λ p,
            p <| headerDelay := u32 (headerDelay p + u64 (edge - now)) |> |>);;
          ok ← sendReq tx_peer (FlitPtr wireFlit);
          if (ok : bool) then
            upd_link s (λ l, l <| stats ::= λ t, t <| totalRetransmissions ::= Z.add 1 |> |>);;
            again
          else
            delete_flit wireFlit;;
            upd_link s (λ l, l <| txBlocked := true |>);;
            again
        else schedule_unless s retryTimeoutEvent deadline
    end.

(** ** The ports *)

(** [UcieTxPort::recvTimingResp]. *)
Definition recvTimingResp (p : PacketPtr) : H bool :=
  match p with
  | FlitPtr f =>
      x ← deref_flit f;
      match flitType x with
      | FLIT_LEVEL_ACK => processAck s (timestamp x)
      | FLIT_LEVEL_NAK => processNak s (timestamp x)
      | LINK_MGMT => return_credits s 1
      | PROTOCOL | NULL_FLIT => mret tt
      end;;
      delete_flit f;;
      mret true
  | TlpPtr _ => sendResp rx_peer p
  end.

(** [UcieTxPort::recvReqRetry]. *)
Definition recvReqRetry : H unit :=
  upd_link s (λ l, l <| txBlocked := false |> <| tlpBlocked := false |>);;
  drainTxSendQueue s;;
  drainTlpSendQueue.

(** [UcieRxPort::recvRespRetry]. *)
Definition recvRespRetry : H unit :=
  upd_link s (λ l, l <| tlpBlocked := false |>);;
  drainTlpSendQueue.

(** The loop over the TLPs of an accepted flit. *)
Fixpoint deliver (ps : list PktId) : H unit :=
  match ps with
  | [] => mret tt
  | tlp :: ps =>
      now ← gets curTick;
      x ← deref_pkt tlp;
      '(st, x') ← lift_res (popSenderState x);
      set_pkt tlp x';;
      match st with
      | UcieTimerState entryTime =>
          upd_link s (λ l, l <| stats ::= λ t,
            t <| tlpLatency ::= λ h, h ++ [u64 (now - entryTime)] |> |>)
      | OtherSenderState _ => mret tt
      end;;
      upd_link s (λ l, l <| stats ::= λ t, t <| totalTLPsReceived ::= Z.add 1 |> |>
                         <| tlpSendQueue ::= λ q, q ++ [tlp] |>);;
      deliver ps
  end.

Definition crc_error (l : UcieLink) (x : UcieFlitPacket) : bool :=
  dgt (errorRate (params l)) (S754_zero false) && negb (isRetransmission x) &&
  negb (rxWaitingForRetry l) && (nextErrorAtBits l <=? rxBitsReceived l).

(** [UcieRxPort::recvTimingReq] on a flit. *)
Definition recvFlit (f : FlitId) : H bool :=
  x ← deref_flit f;
  upd_link s (λ l, l <| stats ::= λ t, t <| totalFlitsReceived ::= Z.add 1 |> |>
                     <| rxBitsReceived ::= λ b, u64 (b + UCIE_FLIT_SIZE_BYTES * 8) |>);;
  l ← getl s id;
  if crc_error l x then
    d ← of_option UndefinedBehavior (errorThreshold (errorRate (params l)));
    upd_link s (λ l, l <| nextErrorAtBits ::= λ b, u64 (b + d) |>
                       <| stats ::= λ t, t <| totalCrcErrors ::= Z.add 1 |> |>
                       <| rxWaitingForRetry := true |>);;
    sendNak (timestamp x);;
    delete_flit f;;
    mret true
  else if rxWaitingForRetry l && negb (isRetransmission x) then
    delete_flit f;; mret true
  else
    when_ (rxWaitingForRetry l) (upd_link s (λ l, l <| rxWaitingForRetry := false |>));;
    if (0 <? rxFlitCounter l) && (timestamp x <=? lastProcessedTimestamp l) then
      sendAck (lastProcessedTimestamp l);;
      delete_flit f;;
      mret true
    else
      upd_link s (λ l, l <| lastProcessedTimestamp := timestamp x |>
                         <| rxFlitCounter ::= λ n, u64 (n + 1) |>);;
      deliver (processReceivedFlit x);;
      drainTlpSendQueue;;
      sendAck (timestamp x);;
      delete_flit f;;
      mret true.

(** The assembly loop of [recvTimingReq]; [d] is [startDelayTicks].  Each turn
    takes 236 bytes, so [stagedBytes / 236] turns are enough. *)
Fixpoint assemble_loop (fuel : nat) (d : Z) : H unit :=
  k ← getl s txPacker;
  if UCIE_PAYLOAD_SIZE_BYTES <=? stagedBytes k then
    match fuel with
    | O => abort_with UndefinedBehavior
    | S fuel =>
        now ← gets curTick;
        '(o, k') ← lift_res (assembleFlit now k);
        upd_link s (λ l, l <| txPacker := k' |>);;
        x ← of_option UndefinedBehavior o;
        f ← new_flit x;
        upd_link s (λ l, l <| txSendQueue ::= λ q, q ++ [f] |>);;
        schedule_unless s sendFlitEvent (u64 (now + d));;
        assemble_loop fuel d
    end
  else mret tt.

(** [UcieRxPort::recvTimingReq] on a TLP. *)
Definition recvTLP (p : PktId) : H bool :=
  l ← getl s id;
  if bool_decide (linkState l = RETRAIN) then mret false
  else
    now ← gets curTick;
    upd_link s (λ l, l <| stats ::= λ t, t <| totalTLPsSent ::= Z.add 1 |> |>);;
    x ← deref_pkt p;
    set_pkt p (pushSenderState (UcieTimerState now) x);;
    sz ← lift_res (getSize x);
    let tlpSize := u32 (sz + TLP_HEADER_BYTES) in
    d ← of_option UndefinedBehavior
          (startDelayTicks (dataRate (params l)) (numLanes (params l)) tlpSize);
    x ← deref_pkt p;
    k ← lift_res (processIncomingTLP p x (txPacker l));
    upd_link s (λ l, l <| txPacker := k |>);;
    assemble_loop (Z.to_nat (stagedBytes k / UCIE_PAYLOAD_SIZE_BYTES)) d;;
    b ← scheduled s packTlpEvent;
    k ← getl s txPacker;
    when_ (negb b && (0 <? stagedBytes k)) (schedule s packTlpEvent (u64 (now + d)));;
    mret true.

Definition recvTimingReq (p : PacketPtr) : H bool :=
  match p with FlitPtr f => recvFlit f | TlpPtr p => recvTLP p end.

(** [init]: [connected] is whether both ports are bound. *)
Definition init (connected : bool) : H unit :=
  (if connected then mret tt else abort_with FatalError);;
  upd_link s (λ l, l <| txCredits := u32 (creditPool (params l)) |>);;
  l ← getl s id;
  (if dgt (errorRate (params l)) (S754_zero false) then
     d ← of_option UndefinedBehavior (errorThreshold (errorRate (params l)));
     upd_link s (λ l, l <| nextErrorAtBits := d |>)
   else mret tt);;
  upd_link s (λ l, l <| linkState := ACTIVE |>).

Definition process (k : EventKind) : H unit :=
  match k with
  | packTlpEvent => processPackTlp s
  | sendFlitEvent => processSendFlit
  | retryTimeoutEvent => processRetryTimeout
  end.
End Ports.
End Handlers.
