(* ===== verification/UcieSystem.v ===== *)
(** * Two links back to back

    The system of the example configurations
    (src/gem5/configs/example/ucie_sys): a requestor drives the near link's
    [rx_port], the near link's [tx_port] is bound to the far link's [rx_port],
    and the far link's [tx_port] drives a memory.  The peers are tied together
    here.  The requestor and the memory are an interface: a state and the two
    calls the links make on them. *)

From Stdlib Require Import SpecFloat.
From S2P Require Import Prelude MemCmd Packet Clocked EventQueue EventQueueSpec FlitPacker Latency UcieLink.
#[local] Open Scope Z_scope.

(** What the links ask of the world beyond them.  Neither call re-enters the
    links before it returns: memories and requestors of the memory system
    answer through events of their own. *)
Class Environment (E : Type) := {
  mem_recvTimingReq : PktId → E → bool * E;
  cpu_recvTimingResp : PktId → E → bool * E;
}.

(** The test bench: the environment's state, the TLPs the near link accepted
    from the requestor and the TLPs the memory accepted, both oldest first. *)
Record Bench (E : Type) := mkBench {
  est : E;
  sent : list PktId;
  received : list PktId;
}.
Arguments mkBench {E}.
Arguments est {E}. Arguments sent {E}. Arguments received {E}.
#[export] Instance eta_Bench E : Eta (Bench E) := λ b, mkBench (est b) (sent b) (received b).

Section System.
Context {E : Type} `{EnvE : Environment E}.
Abbreviation W := (World (Bench E)).
Abbreviation H := (M W).

Definition mem_peer (p : PacketPtr) : H bool := λ w,
  match p with
  | TlpPtr p =>
      let '(ok, e) := mem_recvTimingReq p (est (env w)) in
      Ok (ok, w <| env ::= λ b, b <| est := e |>
                      <| received ::= λ r, if ok then r ++ [p] else r |> |>)
  | FlitPtr _ => Abort UndefinedBehavior
  end.

Definition cpu_peer (p : PacketPtr) : H bool := λ w,
  match p with
  | TlpPtr p =>
      let '(ok, e) := cpu_recvTimingResp p (est (env w)) in
      Ok (ok, w <| env ::= λ b, b <| est := e |> |>)
  | FlitPtr _ => Abort UndefinedBehavior
  end.

Definition near_recvTimingResp : PacketPtr → H bool := recvTimingResp Near cpu_peer.
Definition far_recvTimingReq : PacketPtr → H bool :=
  recvTimingReq Far mem_peer near_recvTimingResp.

Definition tx_peer (s : Side) : PacketPtr → H bool :=
  match s with Near => far_recvTimingReq | Far => mem_peer end.
Definition rx_peer (s : Side) : PacketPtr → H bool :=
  match s with Near => cpu_peer | Far => near_recvTimingResp end.

(** ** Actions

    [Service] runs the next event; the others are what the rest of the
    simulation may do in between. *)
Inductive Action :=
  | Service
  | Advance (t : Z)                    (* other events move time on *)
  | NewPacket (p : PktId) (x : Packet) (* the requestor builds a packet *)
  | CpuReq (p : PktId)                 (* requestor: sendTimingReq *)
  | MemResp (p : PktId) (x : Packet)   (* memory: turn p into x, sendTimingResp *)
  | MemRetry                           (* memory: sendRetryReq *)
  | CpuRetry                           (* requestor: sendRetryResp *)
  | EnvStep (e : E).                   (* the environment changes its state *)

Definition kinds : list (Side * EventKind) :=
  s ← [Near; Far]; k ← [packTlpEvent; sendFlitEvent; retryTimeoutEvent]; [(s, k)].

Definition event_of (i : EvId) : option (Side * EventKind) :=
  head (filter (λ '(s, k), event_id s k = i) kinds).

Definition exec (a : Action) (w : W) : res W :=
  snd <$> match a with
  | Service =>
      match events w with
      | [] => Ok (tt, w)
      | (k, i) :: rest =>
          match event_of i with
          | Some (s, kind) =>
              process s (tx_peer s) kind (w <| events := rest |> <| curTick := k.1 |>)
          | None => Abort UndefinedBehavior
          end
      end
  | Advance t => modify (λ w, w <| curTick := t |>) w
  | NewPacket p x => set_pkt p x w
  | CpuReq p =>
      (ok ← sendReq (recvTimingReq Near (tx_peer Near) (rx_peer Near)) (TlpPtr p);
       when_ ok (modify (λ w, w <| env ::= λ b, b <| sent ::= λ l, l ++ [p] |> |>))) w
  | MemResp p x =>
      (set_pkt p x;; sendResp (recvTimingResp Far (rx_peer Far)) (TlpPtr p);; mret tt) w
  | MemRetry => recvReqRetry Far (tx_peer Far) w
  | CpuRetry => recvRespRetry Near (tx_peer Near) w
  | EnvStep e => modify (λ w, w <| env ::= λ b, b <| est := e |> |>) w
  end.

Fixpoint run (l : list Action) (w : W) : res W :=
  match l with
  | [] => Ok w
  | a :: l => w ← exec a w; run l w
  end.

(** Construction and [init] of both links. *)
Definition boot (pn pf : UcieLinkParams) (e : E) : res W :=
  let w := mkWorld (UcieLink_ctor pn) (UcieLink_ctor pf) ∅ ∅ 0%nat 0 [] (mkBench e [] []) in
  snd <$> (init Near true;; init Far true) w.

End System.
