(* ===== verification/UcieRuns.v ===== *)
(** * What the link's handlers do

    One equation per handler of UcieLink.v in the two-link system: the exact
    world it leaves, under the conditions that let it run to completion. *)

From Stdlib Require Import SpecFloat.
From S2P Require Import Prelude MemCmd Packet Clocked EventQueue EventQueueSpec FlitPacker Latency UcieLink UcieSystem.
#[local] Open Scope Z_scope.

(** Reduce projections of updated records. *)
Ltac ws :=
  cbn [set_field set_link link_of near far pkts flits nextFlit curTick events env
    params clk txPacker linkState rxFlitCounter rxBitsReceived nextErrorAtBits txCredits
    txBlocked rxWaitingForRetry tlpBlocked tlpSendQueue txSendQueue retryBuffer
    lastProcessedTimestamp lastAckedTimestamp simStartTick simLastTick stats
    est sent received].
Tactic Notation "ws" "in" hyp(H) :=
  cbn [set_field set_link link_of near far pkts flits nextFlit curTick events env
    params clk txPacker linkState rxFlitCounter rxBitsReceived nextErrorAtBits txCredits
    txBlocked rxWaitingForRetry tlpBlocked tlpSendQueue txSendQueue retryBuffer
    lastProcessedTimestamp lastAckedTimestamp simStartTick simLastTick stats
    est sent received] in H.

(** The same, for worlds that are explicit records. *)
Ltac wx := cbv [set_field set_link]; ws.

Lemma link_ext l l' :
  params l = params l' → clk l = clk l' → txPacker l = txPacker l' →
  linkState l = linkState l' → rxFlitCounter l = rxFlitCounter l' →
  rxBitsReceived l = rxBitsReceived l' → nextErrorAtBits l = nextErrorAtBits l' →
  txCredits l = txCredits l' → txBlocked l = txBlocked l' →
  rxWaitingForRetry l = rxWaitingForRetry l' → tlpBlocked l = tlpBlocked l' →
  tlpSendQueue l = tlpSendQueue l' → txSendQueue l = txSendQueue l' →
  retryBuffer l = retryBuffer l' → lastProcessedTimestamp l = lastProcessedTimestamp l' →
  lastAckedTimestamp l = lastAckedTimestamp l' → simStartTick l = simStartTick l' →
  simLastTick l = simLastTick l' → stats l = stats l' → l = l'.
Proof. destruct l, l'. cbn. intros; by subst. Qed.

Section Runs.
Context {E : Type}.
Abbreviation W := (World E).
Implicit Types w : W.

Lemma world_ext w w' :
  near w = near w' → far w = far w' → pkts w = pkts w' → flits w = flits w' →
  nextFlit w = nextFlit w' → curTick w = curTick w' → events w = events w' →
  env w = env w' → w = w'.
Proof. destruct w, w'. cbn. by intros -> -> -> -> -> -> -> ->. Qed.

Lemma ok_ext {A} (a : A) w w' : w = w' → Ok (a, w) = Ok (a, w').
Proof. by intros ->. Qed.

Lemma deref_flit_run w f x : flits w !! f = Some x → deref_flit f w = Ok (x, w).
Proof. intros Hf. unfold deref_flit, gets, mbind, M_bind. by rewrite Hf. Qed.

Lemma deref_pkt_run w p x : pkts w !! p = Some x → deref_pkt p w = Ok (x, w).
Proof. intros Hf. unfold deref_pkt, gets, mbind, M_bind. by rewrite Hf. Qed.

Lemma upd_flit_run w f x g :
  flits w !! f = Some x → upd_flit f g w = Ok (tt, w <| flits ::= <[f := g x]> |>).
Proof. intros Hf. unfold upd_flit. by erewrite bind_run by (by apply deref_flit_run). Qed.

Lemma delete_flit_run w f :
  is_Some (flits w !! f) → delete_flit f w = Ok (tt, w <| flits ::= base.delete f |>).
Proof.
  intros [x Hf]. unfold delete_flit. by erewrite bind_run by (by apply deref_flit_run).
Qed.

Definition del_all (fs : list FlitId) (m : gmap FlitId UcieFlitPacket) :
    gmap FlitId UcieFlitPacket := foldl (λ m f, base.delete f m) m fs.

Lemma del_all_lookup fs m f :
  del_all fs m !! f = if decide (f ∈ fs) then None else m !! f.
Proof.
  revert m. induction fs as [|g fs IH]; intros m; cbn.
  - by rewrite decide_False by apply not_elem_of_nil.
  - unfold del_all in IH. rewrite IH. destruct (decide (f = g)) as [->|Hne].
    + rewrite lookup_delete_eq, (decide_True (P := g ∈ g :: fs)) by left. by case_decide.
    + rewrite lookup_delete_ne by done. do 2 case_decide; set_solver.
Qed.

Lemma retire_run s old dead live : ∀ w,
  retryBuffer (link_of s w) = dead ++ live → NoDup dead →
  (∀ f, f ∈ dead → ∃ x, flits w !! f = Some x ∧ old (timestamp x) = true) →
  (∀ f live', live = f :: live' → (f ∉ dead) ∧ ∃ x, flits w !! f = Some x ∧ old (timestamp x) = false) →
  retire s old (dead ++ live) w =
    Ok (Z.of_nat (length dead),
        (set_link s (λ l, l <| retryBuffer := live |>) w) <| flits ::= del_all dead |>).
Proof.
  induction dead as [|f dead IH]; intros w Hbuf Hnd Hdead Hlive.
  - cbn [app] in *. assert ((set_link s (λ l, l <| retryBuffer := live |>) w) <| flits ::= del_all [] |> = w) as ->.
    { destruct w as [n f], s; cbn in Hbuf; subst live; [by destruct n|by destruct f]. }
    destruct live as [|f live]; [done|]. destruct (Hlive f live eq_refl) as (_ & x & Hx & Ho).
    cbn. erewrite bind_run by (by apply deref_flit_run). by rewrite Ho.
  - cbn [app retire]. apply NoDup_cons in Hnd as [Hnf Hnd].
    destruct (Hdead f) as (x & Hx & Ho); [by left|].
    erewrite bind_run by (by apply deref_flit_run). rewrite Ho.
    erewrite bind_run by done.
    erewrite bind_run by (apply delete_flit_run; destruct s; by exists x).
    erewrite bind_run.
    2:{ apply IH; try done.
        - by destruct s.
        - intros g Hg. destruct (Hdead g) as (y & Hy & Hoy); [by right|].
          exists y. split; [|done]. destruct s; ws; rewrite lookup_delete_ne by set_solver; done.
        - intros g live' ->. destruct (Hlive g live' eq_refl) as (Hng & y & Hy & Hoy).
          split; [set_solver|]. exists y. split; [|done].
          destruct s; ws; rewrite lookup_delete_ne by set_solver; done. }
    unfold mret, M_ret. do 2 f_equal; [cbn; lia|]. destruct s; reflexivity.
Qed.

(** *** Events *)

Definition pending (w : W) (k : EventKind) : Prop := event_id Near k ∈ Abs.ids (events w).

Lemma remove_absent i (q : Abs.queue) : i ∉ Abs.ids q → Abs.remove i q = q.
Proof.
  intros Hi. apply list_filter_id. intros [k j] Hx Hj. cbn in *. subst.
  apply Hi. apply list_elem_of_fmap. by exists (k, i).
Qed.

Lemma schedule_run w s k t :
  curTick w ≤ t → event_id s k ∉ Abs.ids (events w) →
  schedule s k t w =
    Ok (tt, w <| events ::= Abs.insert (t, Default_Pri) (event_id s k) |>).
Proof.
  intros Ht Hi. unfold schedule. erewrite bind_run by done.
  erewrite bind_run by (by rewrite (proj2 (Z.leb_le _ _) Ht)).
  unfold scheduled. erewrite bind_run by done. rewrite bool_decide_false by done.
  by erewrite bind_run by done.
Qed.

Lemma deschedule_run w s k :
  event_id s k ∈ Abs.ids (events w) →
  deschedule s k w = Ok (tt, w <| events ::= Abs.remove (event_id s k) |>).
Proof.
  intros Hi. unfold deschedule, scheduled. erewrite bind_run by done.
  rewrite bool_decide_true by done. by erewrite bind_run by done.
Qed.

(** [if (scheduled()) deschedule()] always leaves the event out of the queue. *)
Lemma cancel_run w s k :
  (b ← scheduled s k; when_ b (deschedule s k)) w =
    Ok (tt, w <| events ::= Abs.remove (event_id s k) |>).
Proof.
  unfold scheduled. erewrite bind_run by done.
  destruct (decide (event_id s k ∈ Abs.ids (events w))) as [Hi|Hi].
  - rewrite bool_decide_true by done. by apply deschedule_run.
  - rewrite bool_decide_false by done. cbn. unfold mret, M_ret. do 2 f_equal.
    destruct w. wx. f_equal. symmetry. by apply remove_absent.
Qed.

Definition add_event (k : EventKind) (t : Z) (q : Abs.queue) : Abs.queue :=
  if decide (event_id Near k ∈ Abs.ids q) then q
  else Abs.insert (t, Default_Pri) (event_id Near k) q.

Lemma add_event_pending k t (q : Abs.queue) :
  event_id Near k ∈ Abs.ids q → add_event k t q = q.
Proof. intros Hi. unfold add_event. by rewrite decide_True. Qed.

Lemma add_event_new k t (q : Abs.queue) :
  event_id Near k ∉ Abs.ids q →
  add_event k t q = Abs.insert (t, Default_Pri) (event_id Near k) q.
Proof. intros Hi. unfold add_event. by rewrite decide_False. Qed.

Lemma schedule_unless_run w k t :
  curTick w ≤ t →
  schedule_unless Near k t w = Ok (tt, w <| events ::= add_event k t |>).
Proof.
  intros Ht. unfold schedule_unless, scheduled. erewrite bind_run by done.
  destruct (decide (event_id Near k ∈ Abs.ids (events w))) as [Hi|Hi].
  - rewrite bool_decide_true by done. cbn [negb when_]. unfold mret, M_ret. do 2 f_equal.
    destruct w. wx. by rewrite add_event_pending.
  - rewrite bool_decide_false by done. cbn [negb when_]. rewrite schedule_run by done.
    do 2 f_equal. destruct w. wx. by rewrite add_event_new.
Qed.

(** *** Acknowledgement *)

Definition ack_events (timer : option Z) (q : Abs.queue) : Abs.queue :=
  let q := Abs.remove (event_id Near retryTimeoutEvent) q in
  match timer with
  | Some t => Abs.insert (t, Default_Pri) (event_id Near retryTimeoutEvent) q
  | None => q
  end.

(** The world after an acknowledgement that retires [dead] and leaves [live]. *)
Definition ack_world (acked : Z) (dead live : list FlitId) (timer : option Z) (w : W) : W :=
  w <| near ::= λ l,
         l <| lastAckedTimestamp := acked |> <| retryBuffer := live |>
           <| txCredits ::= λ c, c + Z.of_nat (length dead) |>
           <| linkState ::= λ st, if bool_decide (live = []) && bool_decide (st = RETRAIN)
                                  then ACTIVE else st |> |>
    <| flits ::= del_all dead |>
    <| events ::= ack_events timer |>.

Lemma remove_not_in i (q : Abs.queue) : i ∉ Abs.ids (Abs.remove i q).
Proof.
  unfold Abs.ids, Abs.remove. rewrite list_elem_of_fmap. intros ([k j] & Hj & Hx).
  apply list_elem_of_filter in Hx as [Hx _]. by cbn in *.
Qed.

Lemma return_credits_run w n :
  txBlocked (near w) = false → is_u32 (creditPool (params (near w))) →
  0 ≤ txCredits (near w) → 0 ≤ n → txCredits (near w) + n ≤ creditPool (params (near w)) →
  return_credits Near n w = Ok (tt, w <| near ::= λ l, l <| txCredits ::= λ c, c + n |> |>).
Proof.
  unfold is_u32. intros Hblk Hpool H0 Hn Hcr. unfold return_credits, getl.
  erewrite bind_run by done. erewrite bind_run by done. cbv [id]. ws. rewrite Hblk.
  cbn [andb when_]. unfold mret, M_ret. do 2 f_equal. destruct w as [l]. wx. cbn in *.
  rewrite !u32_id by (unfold is_u32; lia). by rewrite Z.min_l by lia.
Qed.

Lemma restart_timer_run w timer :
  match retryBuffer (near w) with
  | [] => timer = None
  | f :: _ => ∃ x, flits w !! f = Some x ∧
      timer = Some (timestamp x + retryTimeoutDelay (params (near w))) ∧
      curTick w ≤ timestamp x + retryTimeoutDelay (params (near w)) < 2 ^ 64
  end →
  0 ≤ curTick w →
  restart_timer Near w = Ok (tt, w <| events ::= ack_events timer |>).
Proof.
  intros Hbuf Hnow. unfold restart_timer, getl. rewrite M_bind_assoc.
  erewrite bind_run by apply cancel_run. erewrite bind_run by done. cbv [id].
  cbn [link_of]. ws. destruct (retryBuffer (near w)) as [|f buf].
  - by subst timer.
  - destruct Hbuf as (x & Hx & -> & Ht). erewrite bind_run by (by apply deref_flit_run).
    rewrite u64_id by (unfold is_u64; lia). rewrite schedule_run; [done|ws; lia|].
    apply remove_not_in.
Qed.

Lemma leave_retrain_run w :
  leave_retrain Near w = Ok (tt, w <| near ::= λ l, l <| linkState ::= λ st,
    if bool_decide (retryBuffer l = []) && bool_decide (st = RETRAIN) then ACTIVE else st |> |>).
Proof.
  unfold leave_retrain, getl. erewrite bind_run by done. cbv [id]. cbn [link_of].
  destruct w as [n]. destruct n. wx. by do 2 case_bool_decide.
Qed.

Lemma processAck_run w acked dead live timer :
  retryBuffer (near w) = dead ++ live → NoDup dead →
  (∀ f, f ∈ dead → ∃ x, flits w !! f = Some x ∧ timestamp x ≤ acked) →
  match live with
  | [] => timer = None
  | f :: _ => (f ∉ dead) ∧ ∃ x, flits w !! f = Some x ∧ acked < timestamp x ∧
      timer = Some (timestamp x + retryTimeoutDelay (params (near w))) ∧
      curTick w ≤ timestamp x + retryTimeoutDelay (params (near w)) < 2 ^ 64
  end →
  txBlocked (near w) = false → is_u32 (creditPool (params (near w))) →
  0 ≤ txCredits (near w) →
  txCredits (near w) + Z.of_nat (length dead) ≤ creditPool (params (near w)) →
  0 ≤ curTick w →
  processAck Near acked w = Ok (tt, ack_world acked dead live timer w).
Proof.
  intros Hbuf Hnd Hdead Hlive Hblk Hpool H0 Hcr Hnow. unfold processAck, getl.
  erewrite bind_run by done. erewrite bind_run by done.
  change (retryBuffer (link_of Near _)) with (retryBuffer (near w)). rewrite Hbuf.
  erewrite bind_run.
  2:{ apply retire_run; [done|done| |].
      - intros f Hf. destruct (Hdead f Hf) as (x & Hx & Hle). exists x. split; [done|lia].
      - intros f live' ->. destruct Hlive as (Hnf & x & Hx & Hlt & _). split; [done|].
        exists x. split; [done|lia]. }
  erewrite bind_run by (apply return_credits_run; ws; (done || lia)).
  erewrite bind_run.
  2:{ apply (restart_timer_run _ timer); ws; [|done]. destruct live as [|f live]; [done|].
      destruct Hlive as (Hnf & x & Hx & Hlt & Ht & Hb). exists x.
      by rewrite del_all_lookup, decide_False by done. }
  by rewrite leave_retrain_run.
Qed.

(** *** Negative acknowledgement

    When every flit of the retry buffer is older than the failed one, nothing
    is replayed: the buffer is emptied and the link enters [RETRAIN]. *)

Definition nak_world (dead : list FlitId) (w : W) (c : Clocked) (t : Z) : W :=
  w <| near ::= λ l,
         l <| stats ::= λ t, t <| totalFlitsNaked ::= Z.add 1 |> |>
           <| retryBuffer := [] |> <| linkState := RETRAIN |> <| clk := c |> |>
    <| flits ::= del_all dead |>
    <| events ::= λ q, add_event sendFlitEvent t
                         (Abs.remove (event_id Near retryTimeoutEvent) q) |>.

Lemma clock_edge_run w n :
  clock_ok (curTick w) (clk (near w)) → 0 ≤ curTick w → 0 ≤ n →
  curTick w + (n + 2) * clockPeriod (clk (near w)) < 2 ^ 64 →
  ∃ c, clock_edge Near n w =
       Ok ((edge (curTick w) (clockPeriod (clk (near w))) + n) * clockPeriod (clk (near w)),
           w <| near ::= λ l, l <| clk := c |> |>) ∧
     clockPeriod c = clockPeriod (clk (near w)) ∧
     ∀ now, curTick w ≤ now → clock_ok now c.
Proof.
  intros Hok Hnow Hn Hw.
  destruct (clockEdge_run _ n _ Hok Hnow Hn Hw) as (c & Hc & Hp & Hlater).
  exists c. split; [|done]. unfold clock_edge, getl, lift_res.
  erewrite bind_run by done. erewrite bind_run by done.
  erewrite bind_run; [|cbn [link_of]; by rewrite Hc]. done.
Qed.

Lemma edge_future now p n : 0 < p → 0 ≤ n → now + n * p ≤ (edge now p + n) * p.
Proof. intros Hp Hn. pose proof (edge_spec now p Hp). nia. Qed.

Lemma drainTxSendQueue_run w :
  clock_ok (curTick w) (clk (near w)) → 0 ≤ curTick w →
  curTick w + 3 * clockPeriod (clk (near w)) < 2 ^ 64 →
  ∃ c t, drainTxSendQueue Near w =
       Ok (tt, w <| near ::= λ l, l <| clk := c |> |>
                 <| events ::= add_event sendFlitEvent t |>) ∧
     clockPeriod c = clockPeriod (clk (near w)) ∧
     (∀ now, curTick w ≤ now → clock_ok now c) ∧
     curTick w < t.
Proof.
  intros Hok Hnow Hw. unfold drainTxSendQueue, scheduled. erewrite bind_run by done.
  destruct (decide (event_id Near sendFlitEvent ∈ Abs.ids (events w))) as [Hi|Hi].
  - exists (clk (near w)), (curTick w + 1). rewrite bool_decide_true by done.
    split; [|split; [done|split; [|lia]]].
    + cbn [negb when_]. unfold mret, M_ret. do 2 f_equal. destruct w as [n]. wx.
      rewrite add_event_pending by done. by destruct n.
    + intros now Hle. destruct Hok as (? & ? & ? & ?). unfold clock_ok. lia.
  - rewrite bool_decide_false by done. cbn [negb when_].
    destruct (clock_edge_run w 1 Hok Hnow) as (c & Hc & Hp & Hlater); [lia|lia|].
    pose proof Hok as (Hpos & _).
    pose proof (edge_future (curTick w) (clockPeriod (clk (near w))) 1 Hpos) as Hf.
    exists c, ((edge (curTick w) (clockPeriod (clk (near w))) + 1) * clockPeriod (clk (near w))).
    split; [|split; [done|split; [done|lia]]].
    erewrite bind_run by exact Hc. rewrite schedule_run; [|ws; lia|done].
    do 2 f_equal. destruct w. wx. by rewrite add_event_new.
Qed.

Lemma processNak_run w nak :
  NoDup (retryBuffer (near w)) →
  (∀ f, f ∈ retryBuffer (near w) → ∃ x, flits w !! f = Some x ∧ timestamp x < nak) →
  clock_ok (curTick w) (clk (near w)) → 0 ≤ curTick w →
  curTick w + 3 * clockPeriod (clk (near w)) < 2 ^ 64 →
  ∃ c t, processNak Near nak w = Ok (tt, nak_world (retryBuffer (near w)) w c t) ∧
    clockPeriod c = clockPeriod (clk (near w)) ∧
    (∀ now, curTick w ≤ now → clock_ok now c) ∧ curTick w < t.
Proof.
  intros Hnd Hold Hok Hnow Hw. unfold processNak, getl.
  erewrite bind_run by done. erewrite bind_run by done. ws.
  erewrite bind_run.
  2:{ rewrite <- (app_nil_r (retryBuffer (near w))).
      apply retire_run; [by rewrite app_nil_r|done| |done].
      intros f Hf. destruct (Hold f Hf) as (x & Hx & Hlt). exists x. split; [done|lia]. }
  erewrite bind_run by done. ws. cbn [rev replay].
  erewrite bind_run by done.
  rewrite M_bind_assoc. erewrite bind_run by apply cancel_run. ws.
  erewrite bind_run by done. ws.
  edestruct drainTxSendQueue_run as (c & t & Hd & Hp & Hlater & Ht);
    [| | |exists c, t; rewrite Hd; done]; done.
Qed.

End Runs.

(** ** The receiving side *)

Section FarRuns.
Context {E : Type} `{EnvE : Environment E}.
Abbreviation W := (World (Bench E)).
Implicit Types w : W.

Definition control (type : FlitType) (now ts : Z) : UcieFlitPacket :=
  mkFlit (flit_base UCIE_FLIT_SIZE_BYTES WriteResp) type PCIE ts 0 false [] true true false.

Lemma new_flit_run w x :
  new_flit x w = Ok (nextFlit w, w <| flits ::= <[nextFlit w := x]> |>
                                   <| nextFlit := S (nextFlit w) |>).
Proof. done. Qed.

Lemma send_control_run w type ts w' :
  near_recvTimingResp (FlitPtr (nextFlit w))
    (w <| flits ::= <[nextFlit w := control type (curTick w) ts]> |>
       <| nextFlit := S (nextFlit w) |>) = Ok (true, w') →
  send_control near_recvTimingResp type ts w = Ok (tt, w').
Proof.
  intros Hr. unfold send_control. erewrite bind_run by done.
  erewrite bind_run; [|unfold lift_res; rewrite flit_ctor_ok by auto; done].
  erewrite bind_run by done. ws.
  erewrite bind_run; [done|].
  unfold sendResp, ptr_cmd. erewrite bind_run.
  2:{ erewrite bind_run; [done|]. apply deref_flit_run. ws. by rewrite lookup_insert_eq. }
  change (cmd (base _)) with (cmd (flit_base UCIE_FLIT_SIZE_BYTES WriteResp)).
  rewrite flit_base_cmd by auto.
  erewrite bind_run by done. exact Hr.
Qed.

Lemma del_all_fresh dead c x (m : gmap FlitId UcieFlitPacket) :
  m !! c = None → base.delete c (del_all dead (<[c := x]> m)) = del_all dead m.
Proof.
  intros Hc. apply map_eq. intros i. destruct (decide (i = c)) as [->|Hne].
  - rewrite lookup_delete_eq, del_all_lookup. case_decide; done.
  - rewrite lookup_delete_ne, !del_all_lookup, lookup_insert_ne by done. done.
Qed.

(** The conditions under which an acknowledgement of [acked] is processed, with
    the flits it retires, those it keeps and the timer it sets. *)
Record ack_ready (w : W) (acked : Z) (dead live : list FlitId) (timer : option Z) : Prop := {
  ar_buf : retryBuffer (near w) = dead ++ live;
  ar_nodup : NoDup dead;
  ar_dead : ∀ f, f ∈ dead → ∃ x, flits w !! f = Some x ∧ timestamp x ≤ acked;
  ar_live : match live with
            | [] => timer = None
            | f :: _ => (f ∉ dead) ∧ ∃ x, flits w !! f = Some x ∧ acked < timestamp x ∧
                timer = Some (timestamp x + retryTimeoutDelay (params (near w))) ∧
                curTick w ≤ timestamp x + retryTimeoutDelay (params (near w)) < 2 ^ 64
            end;
  ar_blocked : txBlocked (near w) = false;
  ar_pool : is_u32 (creditPool (params (near w)));
  ar_credits : 0 ≤ txCredits (near w);
  ar_bound : txCredits (near w) + Z.of_nat (length dead) ≤ creditPool (params (near w));
  ar_now : 0 ≤ curTick w;
}.

Lemma ack_ready_ext w w' acked dead live timer :
  near w' = near w → curTick w' = curTick w →
  (∀ f x, flits w !! f = Some x → flits w' !! f = Some x) →
  ack_ready w acked dead live timer → ack_ready w' acked dead live timer.
Proof.
  intros Hn Ht Hf []. split; rewrite ?Hn, ?Ht; try done.
  - intros f Hd. destruct (ar_dead0 f Hd) as (x & Hx & ?). eauto.
  - destruct live as [|f live]; [done|].
    destruct ar_live0 as (? & x & Hx & ? & ? & ?). eauto 10.
Qed.

Lemma processAck_ready w acked dead live timer :
  ack_ready w acked dead live timer →
  processAck Near acked w = Ok (tt, ack_world acked dead live timer w).
Proof. intros []. by apply processAck_run. Qed.

Lemma sendAck_run w acked dead live timer :
  ack_ready w acked dead live timer → flits w !! nextFlit w = None →
  sendAck Far near_recvTimingResp acked w =
    Ok (tt, (ack_world acked dead live timer w) <| nextFlit := S (nextFlit w) |>
              <| far ::= λ l, l <| stats ::= λ t, t <| totalAcksSent ::= Z.add 1 |> |> |>).
Proof.
  intros Hr Hfresh. unfold sendAck. erewrite bind_run.
  2:{ apply send_control_run. unfold near_recvTimingResp, recvTimingResp.
      erewrite bind_run.
      2:{ apply deref_flit_run. ws. by rewrite lookup_insert_eq. }
      cbn [flitType control]. erewrite bind_run.
      2:{ apply (processAck_ready _ _ dead live timer).
          eapply ack_ready_ext; [| | |exact Hr]; [done|done|].
          intros f x Hf. ws. rewrite lookup_insert_ne; [done|]. congruence. }
      erewrite bind_run; [done|]. apply delete_flit_run. unfold ack_world. ws.
      rewrite del_all_lookup, decide_False, lookup_insert_eq; [done|].
      intros Hd. destruct Hr. destruct (ar_dead0 _ Hd) as (x & Hx & _). congruence. }
  unfold upd_link, modify. do 2 f_equal. apply world_ext; try done.
  unfold ack_world. ws. by apply del_all_fresh.
Qed.

Definition nak_ready (w : W) (nak : Z) : Prop :=
  NoDup (retryBuffer (near w)) ∧
  (∀ f, f ∈ retryBuffer (near w) → ∃ x, flits w !! f = Some x ∧ timestamp x < nak) ∧
  clock_ok (curTick w) (clk (near w)) ∧ 0 ≤ curTick w ∧
  curTick w + 3 * clockPeriod (clk (near w)) < 2 ^ 64.

Lemma sendNak_run w nak :
  nak_ready w nak → flits w !! nextFlit w = None →
  ∃ c t, sendNak Far near_recvTimingResp nak w =
    Ok (tt, (nak_world (retryBuffer (near w)) w c t) <| nextFlit := S (nextFlit w) |>
              <| far ::= λ l, l <| stats ::= λ t, t <| totalNaksSent ::= Z.add 1 |> |> |>) ∧
    clockPeriod c = clockPeriod (clk (near w)) ∧
    (∀ now, curTick w ≤ now → clock_ok now c) ∧ curTick w < t.
Proof.
  intros (Hnd & Hold & Hck & Hnow & Hw) Hfresh.
  destruct (processNak_run (w <| flits ::= <[nextFlit w := control FLIT_LEVEL_NAK (curTick w) nak]> |>
              <| nextFlit := S (nextFlit w) |>) nak) as (c & t & Hp & Hrest); try done.
  { intros f Hf. destruct (Hold f Hf) as (x & Hx & Hlt). exists x. split; [|done].
    ws. rewrite lookup_insert_ne; [done|]. congruence. }
  exists c, t. split; [|done]. unfold sendNak. erewrite bind_run.
  2:{ apply send_control_run. unfold near_recvTimingResp, recvTimingResp.
      erewrite bind_run.
      2:{ apply deref_flit_run. ws. by rewrite lookup_insert_eq. }
      cbn [flitType control]. erewrite bind_run by exact Hp.
      erewrite bind_run; [done|]. apply delete_flit_run. unfold nak_world. ws.
      rewrite del_all_lookup, decide_False, lookup_insert_eq; [done|].
      intros Hd. destruct (Hold _ Hd) as (x & Hx & _). congruence. }
  unfold upd_link, modify. do 2 f_equal. apply world_ext; try done.
  unfold nak_world. ws. by apply del_all_fresh.
Qed.

(** *** Delivery *)

Definition pop_state (x : Packet) : Packet := x <| senderState ::= tail |>.
Definition pop_all (ps : list PktId) (m : gmap PktId Packet) : gmap PktId Packet :=
  foldl (λ m p, alter pop_state p m) m ps.

Definition timed (x : Packet) : Prop := ∃ t rest, senderState x = UcieTimerState t :: rest.

Lemma pop_all_other ps m p : p ∉ ps → pop_all ps m !! p = m !! p.
Proof.
  revert m. induction ps as [|q ps IH]; intros m Hp; [done|]. cbn.
  unfold pop_all in IH. rewrite IH by set_solver. rewrite lookup_alter_ne; set_solver.
Qed.

Lemma pop_all_in ps m p : NoDup ps → p ∈ ps → pop_all ps m !! p = pop_state <$> m !! p.
Proof.
  revert m. induction ps as [|q ps IH]; intros m Hnd Hp; [set_solver|]. cbn.
  apply NoDup_cons in Hnd as [Hq Hnd]. unfold pop_all in IH.
  apply elem_of_cons in Hp as [->|Hp].
  - pose proof (pop_all_other ps (alter pop_state q m) q Hq) as Ho. unfold pop_all in Ho.
    by rewrite Ho, lookup_alter_eq.
  - rewrite IH by done. rewrite lookup_alter_ne; [done|]. set_solver.
Qed.

Lemma deliver_run ps : ∀ w,
  NoDup ps → (∀ p, p ∈ ps → ∃ x, pkts w !! p = Some x ∧ timed x) →
  ∃ st, deliver Far ps w =
    Ok (tt, w <| far ::= λ l, l <| stats := st |> <| tlpSendQueue ::= λ q, q ++ ps |> |>
              <| pkts ::= pop_all ps |>).
Proof.
  induction ps as [|p ps IH]; intros w Hnd Hps.
  - exists (stats (far w)). cbn. unfold mret, M_ret. do 2 f_equal.
    destruct w as [n f]. destruct f. wx. cbn. by rewrite app_nil_r.
  - apply NoDup_cons in Hnd as [Hp Hnd]. destruct (Hps p) as (x & Hx & t & rest & Hst); [by left|].
    cbn [deliver]. erewrite bind_run by done.
    erewrite bind_run by (by apply deref_pkt_run).
    erewrite bind_run; [|unfold lift_res, popSenderState; by rewrite Hst]. cbv beta iota.
    erewrite bind_run by done. erewrite bind_run by done. erewrite bind_run by done.
    edestruct IH as (st & ->); [done| |].
    { intros q Hq. destruct (Hps q) as (y & Hy & ?); [by right|]. exists y. split; [|done].
      ws. rewrite lookup_insert_ne; [done|]. set_solver. }
    exists st. do 2 f_equal. apply world_ext; try done.
    { ws. apply link_ext; try done. ws. by rewrite <- app_assoc. }
    ws. cbn [pop_all foldl]. unfold pop_all. f_equal.
    apply map_eq. intros i. destruct (decide (i = p)) as [->|Hne].
    + rewrite lookup_insert_eq, lookup_alter_eq, Hx. cbn. f_equal.
      unfold pop_state, set_field. cbn. by rewrite Hst.
    + by rewrite lookup_insert_ne, lookup_alter_ne by done.
Qed.

(** The world after the memory took [k] TLPs of the queue [q]. *)
Definition drained (k : nat) (q : list PktId) (b : bool) (e : E) (w : W) : W :=
  w <| far ::= λ l, l <| tlpSendQueue := drop k q |> <| tlpBlocked := b |> |>
    <| env ::= λ v, v <| est := e |> <| received ::= λ r, r ++ take k q |> |>.

Lemma drained_0 q w :
  tlpSendQueue (far w) = q → drained 0 q (tlpBlocked (far w)) (est (env w)) w = w.
Proof.
  intros <-. destruct w as [n f ? ? ? ? ? v]. unfold drained. destruct f, v. wx. cbn.
  by rewrite app_nil_r.
Qed.

Lemma drain_tlp_stop fuel w :
  tlpSendQueue (far w) = [] ∨ tlpBlocked (far w) = true →
  drain_tlp Far mem_peer fuel w = Ok (tt, w).
Proof.
  intros Hs. destruct fuel; cbn [drain_tlp]; unfold getl; erewrite bind_run by done;
    cbn [link_of id]; destruct (tlpSendQueue (far w)) as [|p q]; try done;
    destruct Hs as [?| ->]; done.
Qed.

Lemma drain_tlp_step fuel w p q x ok e :
  tlpSendQueue (far w) = p :: q → tlpBlocked (far w) = false →
  pkts w !! p = Some x → isRequest (cmd x) = true →
  mem_recvTimingReq p (est (env w)) = (ok, e) →
  drain_tlp Far mem_peer (S fuel) w =
    if (ok : bool) then drain_tlp Far mem_peer fuel (drained 1 (p :: q) false e w)
    else Ok (tt, drained 0 (p :: q) true e w).
Proof.
  intros Hq Hb Hx Hr Hm. cbn [drain_tlp]. unfold getl. erewrite bind_run by done.
  cbn [link_of id]. rewrite Hq, Hb. erewrite bind_run.
  2:{ unfold sendReq, ptr_cmd. erewrite bind_run.
      2:{ erewrite bind_run; [done|]. by apply deref_pkt_run. }
      rewrite Hr. erewrite bind_run by done. unfold mem_peer. rewrite Hm. done. }
  destruct ok.
  - erewrite bind_run by done. f_equal. unfold drained. apply world_ext; try reflexivity.
    ws. destruct (far w). cbn in Hq, Hb. by subst.
  - unfold upd_link, modify, drained. do 2 f_equal. apply world_ext; try done.
    + ws. destruct (far w). cbn in Hq, Hb. by subst.
    + ws. destruct (env w). wx. cbn. by rewrite app_nil_r.
Qed.

Lemma drain_tlp_run q : ∀ fuel w,
  tlpSendQueue (far w) = q → (length q ≤ fuel)%nat →
  (∀ p, p ∈ q → ∃ x, pkts w !! p = Some x ∧ isRequest (cmd x) = true) →
  ∃ k b e, drain_tlp Far mem_peer fuel w = Ok (tt, drained k q b e w).
Proof.
  induction q as [|p q IH]; intros fuel w Hq Hlen Hreq.
  { exists 0%nat, (tlpBlocked (far w)), (est (env w)). rewrite drained_0 by done.
    apply drain_tlp_stop. by left. }
  destruct (tlpBlocked (far w)) eqn:Hb.
  { exists 0%nat, (tlpBlocked (far w)), (est (env w)). rewrite drained_0 by done.
    apply drain_tlp_stop. by right. }
  destruct fuel as [|fuel]; [cbn in Hlen; lia|].
  destruct (Hreq p) as (x & Hx & Hr); [by left|].
  destruct (mem_recvTimingReq p (est (env w))) as [[] e] eqn:Hm;
    rewrite (drain_tlp_step fuel w p q x _ e Hq Hb Hx Hr Hm).
  - destruct (IH fuel (drained 1 (p :: q) false e w)) as (k & b & e' & ->).
    + done.
    + cbn in Hlen. lia.
    + intros p' Hp'. apply Hreq. by right.
    + exists (S k), b, e'. do 2 f_equal. apply world_ext; try done.
      unfold drained. ws. destruct (env w). wx. cbn. by rewrite <- app_assoc.
  - by exists 0%nat, true, e.
Qed.

(** *** Receiving a flit *)

(** Counting an arrival. *)
Definition arrive (l : UcieLink) : UcieLink :=
  l <| stats ::= λ t, t <| totalFlitsReceived ::= Z.add 1 |> |>
    <| rxBitsReceived ::= λ b, u64 (b + UCIE_FLIT_SIZE_BYTES * 8) |>.

(** The receiver fields every arrival may change. *)
Definition touch (st : UcieStats) (bits next : Z) (wait : bool) (l : UcieLink) : UcieLink :=
  l <| stats := st |> <| rxBitsReceived := bits |> <| nextErrorAtBits := next |>
    <| rxWaitingForRetry := wait |>.

(** The world once the receiver is known to be open. *)
Definition opened (w : W) : W :=
  w <| far := touch (stats (arrive (far w))) (rxBitsReceived (arrive (far w)))
                (nextErrorAtBits (far w)) false (far w) |>.

Lemma open_run {A} (w : W) (k : unit → M W A) :
  (when_ (rxWaitingForRetry (far w)) (upd_link Far (λ l, l <| rxWaitingForRetry := false |>))
     ≫= k) (set_link Far arrive w) = k tt (opened w).
Proof.
  erewrite bind_run; [done|]. destruct (rxWaitingForRetry (far w)) eqn:Hw; cbn [when_].
  - by apply ok_ext, world_ext.
  - apply ok_ext, world_ext; try reflexivity. apply link_ext; try reflexivity. exact Hw.
Qed.

Lemma recvFlit_dropped w f x :
  flits w !! f = Some x → crc_error (arrive (far w)) x = false →
  rxWaitingForRetry (far w) = true → isRetransmission x = false →
  ∃ st b n, far_recvTimingReq (FlitPtr f) w =
    Ok (true, w <| far ::= touch st b n true |> <| flits ::= base.delete f |>).
Proof.
  intros Hx Hcrc Hwait Hre. unfold far_recvTimingReq, recvTimingReq, recvFlit, getl.
  erewrite bind_run by (by apply deref_flit_run).
  erewrite bind_run by done. erewrite bind_run by done. cbv [id].
  change (link_of Far _) with (arrive (far w)). rewrite Hcrc. ws.
  change (rxWaitingForRetry (arrive (far w))) with (rxWaitingForRetry (far w)).
  rewrite Hwait, Hre. cbn [andb negb].
  erewrite bind_run by (by apply delete_flit_run; exists x).
  eexists (stats (arrive (far w))), (rxBitsReceived (arrive (far w))), (nextErrorAtBits (far w)).
  apply ok_ext, world_ext; try reflexivity. apply link_ext; try reflexivity. exact Hwait.
Qed.

Lemma recvFlit_naked w f x d :
  flits w !! f = Some x → f ∉ retryBuffer (near w) → flits w !! nextFlit w = None →
  crc_error (arrive (far w)) x = true → errorThreshold (errorRate (params (far w))) = Some d →
  nak_ready w (timestamp x) →
  ∃ st b n c t, far_recvTimingReq (FlitPtr f) w =
    Ok (true, (nak_world (retryBuffer (near w)) w c t) <| nextFlit := S (nextFlit w) |>
                <| far ::= touch st b n true |> <| flits ::= base.delete f |>) ∧
    clockPeriod c = clockPeriod (clk (near w)) ∧
    (∀ now, curTick w ≤ now → clock_ok now c) ∧ curTick w < t.
Proof.
  intros Hx Hf Hfresh Hcrc Hd Hready. unfold far_recvTimingReq, recvTimingReq, recvFlit, getl.
  erewrite bind_run by (by apply deref_flit_run).
  erewrite bind_run by done. erewrite bind_run by done. cbv [id].
  change (link_of Far _) with (arrive (far w)). rewrite Hcrc.
  change (params (arrive (far w))) with (params (far w)). rewrite Hd.
  erewrite bind_run by done. erewrite bind_run by done.
  edestruct sendNak_run as (c & t & Hs & Hrest); [| |erewrite bind_run by exact Hs]; try done.
  erewrite bind_run.
  2:{ apply delete_flit_run. unfold nak_world. ws. rewrite del_all_lookup, decide_False by done.
      by exists x. }
  match goal with |- context [mret true ?w'] => set (w1 := w') end.
  exists (stats (far w1)), (rxBitsReceived (far w1)), (nextErrorAtBits (far w1)), c, t.
  split; [|done]. by apply ok_ext, world_ext.
Qed.

Lemma recvFlit_duplicate w f x dead live timer :
  flits w !! f = Some x → f ∉ dead → flits w !! nextFlit w = None →
  crc_error (arrive (far w)) x = false →
  (rxWaitingForRetry (far w) = false ∨ isRetransmission x = true) →
  0 < rxFlitCounter (far w) → timestamp x ≤ lastProcessedTimestamp (far w) →
  ack_ready w (lastProcessedTimestamp (far w)) dead live timer →
  ∃ st b n, far_recvTimingReq (FlitPtr f) w =
    Ok (true, (ack_world (lastProcessedTimestamp (far w)) dead live timer w)
                <| nextFlit := S (nextFlit w) |>
                <| far ::= touch st b n false |> <| flits ::= base.delete f |>).
Proof.
  intros Hx Hf Hfresh Hcrc Hopen Hcnt Hts Hready.
  unfold far_recvTimingReq, recvTimingReq, recvFlit, getl.
  erewrite bind_run by (by apply deref_flit_run).
  erewrite bind_run by done. erewrite bind_run by done. cbv [id].
  change (link_of Far _) with (arrive (far w)). rewrite Hcrc.
  change (rxWaitingForRetry (arrive (far w))) with (rxWaitingForRetry (far w)).
  change (rxFlitCounter (arrive (far w))) with (rxFlitCounter (far w)).
  change (lastProcessedTimestamp (arrive (far w))) with (lastProcessedTimestamp (far w)).
  replace (rxWaitingForRetry (far w) && negb (isRetransmission x)) with false
    by (destruct Hopen as [-> | ->]; [done|by rewrite andb_false_r]).
  replace ((0 <? rxFlitCounter (far w)) && (timestamp x <=? lastProcessedTimestamp (far w)))
    with true by lia.
  rewrite open_run by done. set (w1 := opened w).
  erewrite bind_run.
  2:{ apply (sendAck_run w1 _ dead live timer); [|done].
      eapply ack_ready_ext; [| | |exact Hready]; done. }
  erewrite bind_run.
  2:{ apply delete_flit_run. unfold ack_world. ws.
      rewrite del_all_lookup, decide_False by done. by exists x. }
  match goal with |- context [mret true ?w'] => set (w2 := w') end.
  exists (stats (far w2)), (rxBitsReceived (far w2)), (nextErrorAtBits (far w2)).
  by apply ok_ext, world_ext.
Qed.

Lemma recvFlit_accepted w f x dead live timer :
  flits w !! f = Some x → f ∉ dead → flits w !! nextFlit w = None →
  crc_error (arrive (far w)) x = false →
  (rxWaitingForRetry (far w) = false ∨ isRetransmission x = true) →
  (rxFlitCounter (far w) ≤ 0 ∨ lastProcessedTimestamp (far w) < timestamp x) →
  ack_ready w (timestamp x) dead live timer →
  NoDup (originalPackets x) →
  (∀ p, p ∈ originalPackets x →
        (p ∉ tlpSendQueue (far w)) ∧
        ∃ y, pkts w !! p = Some y ∧ timed y ∧ isRequest (cmd y) = true) →
  (∀ p, p ∈ tlpSendQueue (far w) → ∃ y, pkts w !! p = Some y ∧ isRequest (cmd y) = true) →
  ∃ st b n k blk e, far_recvTimingReq (FlitPtr f) w =
    Ok (true, (ack_world (timestamp x) dead live timer w)
                <| nextFlit := S (nextFlit w) |>
                <| far ::= λ l, (touch st b n false l)
                     <| lastProcessedTimestamp := timestamp x |>
                     <| rxFlitCounter ::= λ c, u64 (c + 1) |>
                     <| tlpSendQueue ::= λ q, drop k (q ++ originalPackets x) |>
                     <| tlpBlocked := blk |> |>
                <| pkts ::= pop_all (originalPackets x) |>
                <| env ::= λ v, v <| est := e |>
                     <| received ::= λ r, r ++ take k (tlpSendQueue (far w) ++ originalPackets x) |> |>
                <| flits ::= base.delete f |>).
Proof.
  intros Hx Hf Hfresh Hcrc Hopen Hnew Hready Hnd Hps Hq.
  unfold far_recvTimingReq, recvTimingReq, recvFlit, getl.
  erewrite bind_run by (by apply deref_flit_run).
  erewrite bind_run by done. erewrite bind_run by done. cbv [id].
  change (link_of Far _) with (arrive (far w)). rewrite Hcrc.
  change (rxWaitingForRetry (arrive (far w))) with (rxWaitingForRetry (far w)).
  change (rxFlitCounter (arrive (far w))) with (rxFlitCounter (far w)).
  change (lastProcessedTimestamp (arrive (far w))) with (lastProcessedTimestamp (far w)).
  replace (rxWaitingForRetry (far w) && negb (isRetransmission x)) with false
    by (destruct Hopen as [-> | ->]; [done|by rewrite andb_false_r]).
  replace ((0 <? rxFlitCounter (far w)) && (timestamp x <=? lastProcessedTimestamp (far w)))
    with false by lia.
  rewrite open_run by done. set (w1 := opened w).
  erewrite bind_run by done.
  destruct (deliver_run (originalPackets x) (set_link Far (λ l, l <| lastProcessedTimestamp := timestamp x |>
                     <| rxFlitCounter ::= λ c, u64 (c + 1) |>) w1)) as (st & Hdel); [done| |].
  { intros p Hp. destruct (Hps p Hp) as (_ & y & Hy & Ht & _). by exists y. }
  erewrite bind_run by exact Hdel. set (w2 := _ <| pkts ::= _ |>) in *.
  destruct (drain_tlp_run (tlpSendQueue (far w) ++ originalPackets x)
    (length (tlpSendQueue (far w2))) w2) as (k & blk & e & Hdr); [done|done| |].
  { change (pkts w2) with (pop_all (originalPackets x) (pkts w)). intros p Hp. apply elem_of_app in Hp as [Hp|Hp].
    - rewrite pop_all_other; [by apply Hq|]. intros Hp'. by apply (Hps p Hp').
    - destruct (Hps p Hp) as (_ & y & Hy & _ & Hr). rewrite pop_all_in, Hy by done.
      by exists (pop_state y). }
  unfold drainTlpSendQueue, getl. erewrite bind_run.
  2:{ erewrite bind_run by done. exact Hdr. }
  erewrite bind_run.
  2:{ apply (sendAck_run _ _ dead live timer); [|done].
      eapply ack_ready_ext; [| | |exact Hready]; done. }
  erewrite bind_run.
  2:{ apply delete_flit_run. unfold ack_world. ws.
      rewrite del_all_lookup, decide_False by done. by exists x. }
  match goal with |- context [mret true ?w'] => set (w4 := w') end.
  exists (stats (far w4)), (rxBitsReceived (far w4)), (nextErrorAtBits (far w4)), k, blk, e.
  by apply ok_ext, world_ext.
Qed.

End FarRuns.
(** ** The sending side *)

Section NearRuns.
Context {E : Type} `{EnvE : Environment E}.
Abbreviation W := (World (Bench E)).
Implicit Types w : W.

(** The clone of [x] that travels. *)
Definition wire (x : UcieFlitPacket) (retrans : bool) : UcieFlitPacket :=
  mkFlit (flit_base UCIE_PAYLOAD_SIZE_BYTES WriteReq) (flitType x) PCIE (timestamp x)
    (payloadBytes x) retrans (originalPackets x) true true false.

Definition with_flit (f : FlitId) (x : UcieFlitPacket) (w : W) : W :=
  w <| flits ::= <[f := x]> |>.

Lemma wire_flit_run w x b :
  wire_flit x b w =
    Ok (nextFlit w, (with_flit (nextFlit w) (wire x b) w) <| nextFlit := S (nextFlit w) |>).
Proof.
  unfold wire_flit. erewrite bind_run; [|unfold lift_res; rewrite flit_ctor_ok by auto; done].
  by rewrite new_flit_run.
Qed.

Lemma sendReq_flit w (recv : PacketPtr → M W bool) f x :
  flits w !! f = Some x → cmd (base x) = WriteReq →
  sendReq recv (FlitPtr f) w = recv (FlitPtr f) w.
Proof.
  intros Hf Hc. unfold sendReq, ptr_cmd. erewrite bind_run.
  2:{ erewrite bind_run; [done|]. by apply deref_flit_run. }
  rewrite Hc. by erewrite bind_run by done.
Qed.

(** The events a transmission leaves: the next one, one tick later, when flits
    remain, and the timer. *)
Definition sent_events (now delay : Z) (more : bool) (q : Abs.queue) : Abs.queue :=
  add_event retryTimeoutEvent (now + delay)
    (if more then add_event sendFlitEvent (now + 1) q else q).

Definition sent_world (f : FlitId) (q : list FlitId) (st : UcieStats) (start : Z) (w : W) : W :=
  w <| near ::= λ l, l <| txSendQueue := q |> <| retryBuffer ::= λ b, b ++ [f] |>
         <| txCredits ::= λ c, c - 1 |> <| simStartTick := start |>
         <| simLastTick := curTick w |> <| stats := st |> |>
    <| events ::= sent_events (curTick w) (retryTimeoutDelay (params (near w)))
                    (negb (bool_decide (q = []))) |>.

Lemma flit_sent_run w f q x :
  txSendQueue (near w) = f :: q → flits w !! f = Some x →
  0 < txCredits (near w) < 2 ^ 32 → 0 ≤ curTick w < 2 ^ 62 →
  0 ≤ retryTimeoutDelay (params (near w)) < 2 ^ 62 →
  ∃ st start, flit_sent Near f w = Ok (tt, sent_world f q st start w).
Proof.
  intros Hq Hx Hc Hnow Hd. unfold flit_sent, getl.
  erewrite bind_run by done. erewrite bind_run by done. erewrite bind_run by done.
  erewrite bind_run by done. erewrite bind_run by (by apply deref_flit_run).
  erewrite bind_run by done. erewrite bind_run by done. cbv [id].
  match goal with |- context [bool_decide (txSendQueue (link_of Near ?w') = [])] =>
    set (w1 := w') end.
  assert (near w1 = (near w) <| txSendQueue := q |> <| retryBuffer ::= λ b, b ++ [f] |>
            <| txCredits ::= λ c, c - 1 |> <| simStartTick := simStartTick (near w1) |>
            <| simLastTick := curTick w |> <| stats := stats (near w1) |>) as Hn.
  { subst w1. cbn [link_of near set_link set_field]. ws.
    destruct (simStartTick (near w) =? 0); apply link_ext; try reflexivity; ws; try (by rewrite Hq);
    rewrite u32_id; try reflexivity; unfold is_u32; lia. }
  assert (far w1 = far w ∧ pkts w1 = pkts w ∧ flits w1 = flits w ∧ nextFlit w1 = nextFlit w ∧
          curTick w1 = curTick w ∧ events w1 = events w ∧ env w1 = env w)
    as (Hf1 & Hp1 & Hfl1 & Hnf1 & Hct1 & Hev1 & Henv1) by done.
  clearbody w1. cbn [link_of].
  exists (stats (near w1)), (simStartTick (near w1)).
  set (w' := sent_world f q (stats (near w1)) (simStartTick (near w1)) w).
  assert (near w' = near w1 ∧ far w' = far w ∧ pkts w' = pkts w ∧ flits w' = flits w ∧
          nextFlit w' = nextFlit w ∧ curTick w' = curTick w ∧ env w' = env w ∧
          events w' = sent_events (curTick w) (retryTimeoutDelay (params (near w)))
                        (negb (bool_decide (q = []))) (events w))
    as (Hn' & Hf' & Hp' & Hfl' & Hnf' & Hct' & Henv' & Hev').
  { repeat split. by rewrite Hn. }
  clearbody w'.
  replace (txSendQueue (near w1)) with q by (by rewrite Hn).
  replace (params (near w1)) with (params (near w)) by (by rewrite Hn).
  rewrite !u64_id by (unfold is_u64; lia). unfold sent_events in Hev'.
  case_bool_decide; cbn [negb when_] in *.
  - erewrite bind_run by done. rewrite schedule_unless_run by lia.
    apply ok_ext, world_ext; ws; congruence.
  - erewrite bind_run by (apply schedule_unless_run; lia).
    rewrite schedule_unless_run by (ws; lia). apply ok_ext, world_ext; ws; congruence.
Qed.

(** The world in which the clone of the head of the queue is offered. *)
Definition offer_world (f : FlitId) (x : UcieFlitPacket) (w : W) : W :=
  (with_flit (nextFlit w) (wire x false) (with_flit f x w)) <| nextFlit := S (nextFlit w) |>.

Lemma processSendFlit_step w f q x w2 :
  txSendQueue (near w) = f :: q → txBlocked (near w) = false → txCredits (near w) ≠ 0 →
  flits w !! f = Some x → isRetransmission x = false →
  far_recvTimingReq (FlitPtr (nextFlit w))
    (offer_world f (x <| timestamp := curTick w |>) w) = Ok (true, w2) →
  processSendFlit Near far_recvTimingReq w = flit_sent Near f w2.
Proof.
  intros Hq Hb Hc Hx Hre Hrecv. unfold processSendFlit, getl. erewrite bind_run by done.
  cbn [link_of id]. rewrite Hq, Hb. destruct (Z.eqb_spec (txCredits (near w)) 0); [done|].
  erewrite bind_run by done. erewrite bind_run by (by apply deref_flit_run).
  rewrite Hre. cbn [negb when_]. erewrite bind_run by (by apply upd_flit_run).
  erewrite bind_run; [|apply deref_flit_run; ws; apply lookup_insert_eq].
  cbn [isRetransmission set_field]. rewrite Hre.
  erewrite bind_run by apply wire_flit_run. rewrite (bind_run _ _ _ true w2); [done|].
  erewrite sendReq_flit; [exact Hrecv|ws; apply lookup_insert_eq|done].
Qed.

Lemma processSendFlit_idle w :
  txSendQueue (near w) = [] ∨ txBlocked (near w) = true →
  processSendFlit Near far_recvTimingReq w = Ok (tt, w).
Proof.
  intros Hs. unfold processSendFlit, getl. erewrite bind_run by done. cbn [link_of id].
  destruct (txSendQueue (near w)) as [|f q] eqn:Hq; [done|].
  destruct Hs as [?| ->]; [congruence|done].
Qed.

Lemma processSendFlit_stall w :
  txSendQueue (near w) ≠ [] → txBlocked (near w) = false → txCredits (near w) = 0 →
  processSendFlit Near far_recvTimingReq w =
    Ok (tt, w <| near ::= λ l, l <| txBlocked := true |> |>).
Proof.
  intros Hs Hb Hc. unfold processSendFlit, getl. erewrite bind_run by done. cbn [link_of id].
  destruct (txSendQueue (near w)) as [|f q]; [done|]. by rewrite Hb, Hc.
Qed.

(** The world in which the probe [y] is offered. *)
Definition probe_world (y : UcieFlitPacket) (c : Clocked) (w : W) : W :=
  (with_flit (nextFlit w) y w) <| nextFlit := S (nextFlit w) |>
    <| near ::= λ l, l <| clk := c |> |>.

Definition is_probe (x y : UcieFlitPacket) : Prop :=
  timestamp y = timestamp x ∧ flitType y = flitType x ∧ originalPackets y = originalPackets x ∧
  isRetransmission y = true ∧ cmd (base y) = WriteReq.

Lemma processRetryTimeout_probe w f buf x :
  retryBuffer (near w) = f :: buf → txBlocked (near w) = false →
  flits w !! f = Some x → f ≠ nextFlit w →
  0 ≤ timestamp x → 0 ≤ retryTimeoutDelay (params (near w)) < 2 ^ 62 →
  timestamp x + retryTimeoutDelay (params (near w)) ≤ curTick w < 2 ^ 62 →
  clock_ok (curTick w) (clk (near w)) → clockPeriod (clk (near w)) < 2 ^ 58 →
  ∃ y c, is_probe x y ∧ clockPeriod c = clockPeriod (clk (near w)) ∧
    (∀ now, curTick w ≤ now → clock_ok now c) ∧
    ∀ w2, far_recvTimingReq (FlitPtr (nextFlit w)) (probe_world y c w) = Ok (true, w2) →
      curTick w2 = curTick w →
      ∃ st, processRetryTimeout Near far_recvTimingReq w =
        Ok (tt, w2 <| near ::= λ l, l <| stats := st |> |>
                   <| events ::= add_event retryTimeoutEvent
                        (curTick w + retryTimeoutDelay (params (near w))) |>).
Proof.
  intros Hbuf Hb Hx Hne H0 Hd Hnow Hck Hper.
  set (w1 := (with_flit (nextFlit w) (wire x true) w) <| nextFlit := S (nextFlit w) |>).
  pose proof Hck as (Hpos & _).
  assert (curTick w1 = curTick w ∧ clk (near w1) = clk (near w)) as [Ht1 Hk1] by done.
  destruct (clock_edge_run w1 8) as (c & Hedge & Hp & Hlater);
    [by rewrite Ht1, Hk1|rewrite ?Ht1, ?Hk1; lia..|].
  set (t := (edge (curTick w1) (clockPeriod (clk (near w1))) + 8) * clockPeriod (clk (near w1))) in *.
  set (y := (wire x true) <| base ::= λ p,
              p <| headerDelay := u32 (headerDelay p + u64 (t - curTick w)) |> |>).
  exists y, c. split; [by repeat split|]. split; [done|]. split; [done|].
  intros w2 Hrecv Hct. exists ((stats (near w2)) <| totalRetransmissions ::= Z.add 1 |>).
  unfold processRetryTimeout, getl. erewrite bind_run by done. erewrite bind_run by done.
  cbn [link_of id]. rewrite Hb, Hbuf. erewrite bind_run by (by apply deref_flit_run).
  rewrite !u64_id by (unfold is_u64; lia).
  destruct (Z.leb_spec (timestamp x + retryTimeoutDelay (params (near w))) (curTick w)); [|lia].
  erewrite bind_run by apply wire_flit_run. erewrite bind_run by exact Hedge.
  erewrite bind_run.
  2:{ apply upd_flit_run. ws. apply lookup_insert_eq. }
  erewrite bind_run.
  2:{ erewrite sendReq_flit; [|ws; apply lookup_insert_eq|reflexivity].
      erewrite <- Hrecv. f_equal. apply world_ext; try reflexivity.
      ws. apply insert_insert_eq. }
  cbv beta iota. erewrite bind_run by done. apply schedule_unless_run. ws. lia.
Qed.

Lemma processRetryTimeout_blocked w :
  txBlocked (near w) = true → 0 ≤ retryTimeoutDelay (params (near w)) < 2 ^ 62 →
  0 ≤ curTick w < 2 ^ 62 →
  processRetryTimeout Near far_recvTimingReq w =
    Ok (tt, w <| events ::= add_event retryTimeoutEvent
                 (curTick w + retryTimeoutDelay (params (near w))) |>).
Proof.
  intros Hb Hd Hnow. unfold processRetryTimeout, getl. erewrite bind_run by done.
  erewrite bind_run by done. cbn [link_of id]. rewrite Hb, u64_id by (unfold is_u64; lia).
  apply schedule_unless_run. lia.
Qed.

Lemma processRetryTimeout_empty w :
  txBlocked (near w) = false → retryBuffer (near w) = [] →
  processRetryTimeout Near far_recvTimingReq w = Ok (tt, w).
Proof.
  intros Hb Hbuf. unfold processRetryTimeout, getl. erewrite bind_run by done.
  erewrite bind_run by done. cbn [link_of id]. by rewrite Hb, Hbuf.
Qed.

Lemma processRetryTimeout_early w f buf x :
  txBlocked (near w) = false → retryBuffer (near w) = f :: buf → flits w !! f = Some x →
  0 ≤ curTick w < timestamp x + retryTimeoutDelay (params (near w)) →
  timestamp x + retryTimeoutDelay (params (near w)) < 2 ^ 64 →
  processRetryTimeout Near far_recvTimingReq w =
    Ok (tt, w <| events ::= add_event retryTimeoutEvent
                 (timestamp x + retryTimeoutDelay (params (near w))) |>).
Proof.
  intros Hb Hbuf Hx Hnow Hlim. unfold processRetryTimeout, getl. erewrite bind_run by done.
  erewrite bind_run by done. cbn [link_of id]. rewrite Hb, Hbuf.
  erewrite bind_run by (by apply deref_flit_run). rewrite !u64_id by (unfold is_u64; lia).
  destruct (Z.leb_spec (timestamp x + retryTimeoutDelay (params (near w))) (curTick w)); [lia|].
  apply schedule_unless_run. lia.
Qed.

(** *** Packing *)

(** The world after new flits [ids] were queued: the packer, the store and the
    allocator change, and the transmit event is pending. *)
Definition queued_world (k : FlitPacker) (ids : list FlitId) (fl : gmap FlitId UcieFlitPacket)
    (nx : FlitId) (t : Z) (w : W) : W :=
  w <| near ::= λ l, l <| txPacker := k |> <| txSendQueue ::= λ q, q ++ ids |> |>
    <| flits := fl |> <| nextFlit := nx |>
    <| events ::= λ q, if bool_decide (ids = []) then q else add_event sendFlitEvent t q |>.

(** The new flits [ids] carry the TLP groups [Ps] and disturb nothing else. *)
Record new_flits (now : Z) (w : W) (ids : list FlitId) (Ps : list (list PktId))
    (fl : gmap FlitId UcieFlitPacket) (nx : FlitId) : Prop := {
  nf_content : Forall2 (λ f ps, ∃ n, fl !! f = Some (protocol_flit now n ps)) ids Ps;
  nf_ids : ids = seq (nextFlit w) (length ids);
  nf_next : nx = (nextFlit w + length ids)%nat;
  nf_other : ∀ f, f ∉ ids → fl !! f = flits w !! f;
}.

Lemma new_flits_cons now w w1 n ps ids Ps fl nx :
  nextFlit w1 = S (nextFlit w) → flits w1 = <[nextFlit w := protocol_flit now n ps]> (flits w) →
  new_flits now w1 ids Ps fl nx → new_flits now w (nextFlit w :: ids) (ps :: Ps) fl nx.
Proof.
  intros Hn Hf [Hcont Hids Hnx Hoth]. rewrite Hn in Hids, Hnx. rewrite Hf in Hoth.
  assert (nextFlit w ∉ ids) as Hni by (rewrite Hids, elem_of_seq; lia).
  split; cbn [length]; [|by rewrite Hids at 1|lia|].
  - constructor; [|done]. exists n. rewrite Hoth by done. apply lookup_insert_eq.
  - intros f Hf'. rewrite Hoth by set_solver. apply lookup_insert_ne. set_solver.
Qed.

Lemma queued_nil w : queued_world (txPacker (near w)) [] (flits w) (nextFlit w) 0 w = w.
Proof.
  destruct w as [n]. destruct n. unfold queued_world. wx. cbn. by rewrite app_nil_r.
Qed.

Lemma processPackTlp_run w :
  packer_ok (txPacker (near w)) → currentBytes (txPacker (near w)) < 236 →
  ∃ ids Ps k fl nx,
    processPackTlp Near w = Ok (tt, queued_world k ids fl nx (curTick w) w) ∧
    new_flits (curTick w) w ids Ps fl nx ∧
    packer_ok k ∧ currentBytes k = 0 ∧ concat Ps ++ staged k = staged (txPacker (near w)) ∧
    length ids = if currentBytes (txPacker (near w)) =? 0 then 0%nat else 1%nat.
Proof.
  intros Hok Hlt. pose proof Hok as (Hpos & Hcur & Hu). unfold is_u32 in Hu.
  unfold processPackTlp, getl. erewrite bind_run by done. erewrite bind_run by done.
  cbn [link_of]. unfold forceFlush, hasData, lift_res.
  destruct (Z.ltb_spec 0 (currentBytes (txPacker (near w)))) as [Hgt|Hle].
  - destruct (assembleFlit_ok (curTick w) _ Hok) as (ps & k & Ha & Hok' & Hc' & Hs & _); [lia|].
    unfold UCIE_PAYLOAD_SIZE_BYTES in *. rewrite Z.min_l in * by lia.
    erewrite bind_run by (by rewrite Ha). cbv beta iota. erewrite bind_run by done.
    erewrite bind_run by apply new_flit_run. erewrite bind_run by done.
    rewrite schedule_unless_run by (ws; lia).
    exists [nextFlit w], [ps], k,
      (<[nextFlit w := protocol_flit (curTick w) (currentBytes (txPacker (near w))) ps]> (flits w)),
      (S (nextFlit w)).
    split; [by apply ok_ext, world_ext|]. split; [|split; [done|split; [lia|split]]].
    + split; cbn; [|done|lia|].
      * constructor; [|constructor]. eexists. apply lookup_insert_eq.
      * intros f Hf. rewrite lookup_insert_ne; [done|]. set_solver.
    + cbn. by rewrite app_nil_r.
    + by destruct (Z.eqb_spec (currentBytes (txPacker (near w))) 0); [lia|].
  - erewrite bind_run by done. cbv beta iota. erewrite bind_run by done.
    exists [], [], (txPacker (near w)), (flits w), (nextFlit w).
    split; [|split; [|split; [done|split; [lia|split; [done|]]]]].
    3:{ by destruct (Z.eqb_spec (currentBytes (txPacker (near w))) 0); [|lia]. }
    + apply ok_ext, world_ext; try reflexivity. apply link_ext; try reflexivity.
      unfold queued_world. ws. by rewrite app_nil_r.
    + split; cbn; [constructor|done|lia|done].
Qed.

Lemma assemble_loop_run fuel : ∀ w d,
  packer_ok (txPacker (near w)) → 0 ≤ d < 2 ^ 62 → 0 ≤ curTick w < 2 ^ 62 →
  (Z.to_nat (currentBytes (txPacker (near w)) / 236) ≤ fuel)%nat →
  ∃ ids Ps k fl nx,
    assemble_loop Near fuel d w = Ok (tt, queued_world k ids fl nx (curTick w + d) w) ∧
    new_flits (curTick w) w ids Ps fl nx ∧
    packer_ok k ∧ currentBytes k = currentBytes (txPacker (near w)) mod 236 ∧
    concat Ps ++ staged k = staged (txPacker (near w)).
Proof.
  induction fuel as [|fuel IH]; intros w d Hok Hd Hnow Hf; pose proof Hok as (_ & _ & Hu);
    unfold is_u32 in Hu; cbn [assemble_loop]; unfold getl; erewrite bind_run by done;
    cbn [link_of]; unfold stagedBytes, UCIE_PAYLOAD_SIZE_BYTES;
    destruct (Z.leb_spec 236 (currentBytes (txPacker (near w)))) as [Hge|Hlt].
  1: exfalso; assert (1 ≤ currentBytes (txPacker (near w)) / 236) by lia_div; lia.
  1,3: exists [], [], (txPacker (near w)), (flits w), (nextFlit w);
    (split; [apply ok_ext; symmetry; apply queued_nil|]);
    (split; [split; cbn; [constructor|done|lia|done]|]);
    rewrite Z.mod_small by lia; done.
  destruct (assembleFlit_ok (curTick w) _ Hok) as (ps & k1 & Ha & Hok1 & Hc1 & Hs1 & _); [lia|].
  unfold UCIE_PAYLOAD_SIZE_BYTES in *. rewrite Z.min_r in * by lia.
  erewrite bind_run by done. unfold lift_res. erewrite bind_run by (by rewrite Ha).
  cbv beta iota. erewrite bind_run by done. erewrite bind_run by done.
  erewrite bind_run by apply new_flit_run. erewrite bind_run by done.
  rewrite (u64_id (_ + d)) by (unfold is_u64; lia).
  erewrite bind_run by (apply schedule_unless_run; ws; lia).
  match goal with |- context [assemble_loop Near fuel d ?w'] => set (w1 := w') end.
  assert (txPacker (near w1) = k1 ∧ curTick w1 = curTick w ∧ nextFlit w1 = S (nextFlit w))
    as (Hk1 & Ht1 & Hn1) by done.
  assert (currentBytes (txPacker (near w)) = currentBytes k1 + 1 * 236) as Hk by lia.
  assert (currentBytes (txPacker (near w)) / 236 = currentBytes k1 / 236 + 1) as Hdiv
    by (rewrite Hk, Z.div_add by lia; done).
  destruct (IH w1 d) as (ids & Ps & k & fl & nx & Hrun & Hnf & Hok' & Hc & Hcat);
    rewrite ?Hk1, ?Ht1; try done.
  { destruct Hok1 as (_ & _ & ?). unfold is_u32 in *.
    assert (0 ≤ currentBytes k1 / 236) by (apply Z.div_pos; lia). lia. }
  rewrite Ht1 in *.
  exists (nextFlit w :: ids), (ps :: Ps), k, fl, nx.
  split; [|split; [|split; [done|split; [by rewrite Hc, Hk, Z.mod_add by lia|]]]].
  - rewrite Hrun. apply ok_ext, world_ext; try reflexivity.
    + apply link_ext; try reflexivity. unfold queued_world. ws.
      change (txSendQueue (near w1)) with (txSendQueue (near w) ++ [nextFlit w]).
      by rewrite <- app_assoc.
    + unfold queued_world. ws. rewrite (bool_decide_false (nextFlit w :: ids = [])) by done.
      change (events w1) with (add_event sendFlitEvent (curTick w + d) (events w)).
      case_bool_decide; [done|]. apply add_event_pending. unfold add_event.
      case_decide as Hd'; [done|]. rewrite Abs.insert_ids. by left.
  - by apply (new_flits_cons _ w w1 236).
  - rewrite Hk1 in Hcat. cbn. by rewrite <- Hs1, <- Hcat, app_assoc.
Qed.

(** A TLP the near link can take: its size fits and the latency formula is
    defined on it. *)
Definition acceptable (prm : UcieLinkParams) (x : Packet) (sz d : Z) : Prop :=
  getSize x = Ok sz ∧ 0 ≤ sz < 2 ^ 31 ∧
  startDelayTicks (dataRate prm) (numLanes prm) (sz + 16) = Some d ∧ 0 ≤ d < 2 ^ 61.

Definition accepted_world (p : PktId) (x : Packet) (st : UcieStats) (t : Z) (w : W) : W :=
  w <| near ::= λ l, l <| stats := st |> |>
    <| pkts ::= <[p := x]> |>
    <| events ::= λ q, if currentBytes (txPacker (near w)) =? 0 then q
                       else add_event packTlpEvent t q |>.

(** The pack event is pending whenever bytes are staged. *)
Lemma pack_event_run w n t :
  0 ≤ n → curTick w ≤ t →
  when_ (negb (bool_decide (event_id Near packTlpEvent ∈ Abs.ids (events w))) && (0 <? n))
    (schedule Near packTlpEvent t) w
  = Ok (tt, w <| events ::= λ q, if n =? 0 then q else add_event packTlpEvent t q |>).
Proof.
  intros Hn Ht. destruct (Z.eqb_spec n 0) as [->|H0].
  - rewrite andb_false_r. by apply ok_ext, world_ext.
  - rewrite (proj2 (Z.ltb_lt 0 n)), andb_true_r by lia. case_bool_decide as Hi; cbn [negb when_].
    + apply ok_ext, world_ext; try done. ws. by rewrite add_event_pending.
    + rewrite schedule_run by done. apply ok_ext, world_ext; try done. ws. by rewrite add_event_new.
Qed.

Lemma recvTLP_run w p x sz d :
  linkState (near w) ≠ RETRAIN → pkts w !! p = Some x →
  acceptable (params (near w)) x sz d →
  packer_ok (txPacker (near w)) → currentBytes (txPacker (near w)) < 236 →
  0 ≤ curTick w < 2 ^ 62 →
  ∃ ids Ps k fl nx st,
    recvTLP Near p w =
      Ok (true, accepted_world p (pushSenderState (UcieTimerState (curTick w)) x) st (curTick w + d)
                  (queued_world k ids fl nx (curTick w + d) w)) ∧
    new_flits (curTick w) w ids Ps fl nx ∧
    packer_ok k ∧ currentBytes k = (currentBytes (txPacker (near w)) + sz + 16) mod 236 ∧
    concat Ps ++ staged k = staged (txPacker (near w)) ++ [p].
Proof.
  intros Hst Hx (Hsz & Hb & Hdel & Hd) Hok Hlt Hnow. pose proof Hok as (_ & _ & Hu).
  unfold is_u32 in Hu.
  unfold recvTLP, getl. erewrite bind_run by done. cbn [link_of id].
  rewrite bool_decide_false by done. erewrite bind_run by done. erewrite bind_run by done.
  erewrite bind_run by (by apply deref_pkt_run). erewrite bind_run by done.
  unfold lift_res at 1. erewrite bind_run by (by rewrite Hsz). unfold TLP_HEADER_BYTES.
  rewrite (u32_id (sz + 16)), Hdel by (unfold is_u32; lia). erewrite bind_run by done.
  erewrite bind_run; [|apply deref_pkt_run; ws; apply lookup_insert_eq].
  destruct (processIncomingTLP_ok p (pushSenderState (UcieTimerState (curTick w)) x)
              (txPacker (near w)) sz) as (k0 & Hk0 & Hok0 & Hc0 & Hs0); [done|done|lia|lia|].
  unfold lift_res. erewrite bind_run by (by rewrite Hk0). erewrite bind_run by done.
  match goal with |- context [(assemble_loop _ _ _ ≫= _) ?w'] => set (w1 := w') end.
  assert (txPacker (near w1) = k0 ∧ curTick w1 = curTick w ∧ nextFlit w1 = nextFlit w ∧
          flits w1 = flits w ∧ events w1 = events w)
    as (Hk1 & Ht1 & Hn1 & Hf1 & He1) by done.
  destruct (assemble_loop_run (Z.to_nat (stagedBytes k0 / UCIE_PAYLOAD_SIZE_BYTES)) w1 d)
    as (ids & Ps & k & fl & nx & Hrun & [Hc1 Hc2 Hc3 Hc4] & Hok' & Hc & Hcat);
    rewrite ?Hk1, ?Ht1; [done|lia|lia|done|].
  rewrite Hk1, Ht1, Hn1, Hf1, Hc0, Hs0 in *.
  exists ids, Ps, k, fl, nx, (stats (near w1)).
  split; [|split; [by split|split; [done|split; [done|done]]]].
  erewrite bind_run by exact Hrun.
  rewrite (u64_id (_ + d)) by (unfold is_u64; lia).
  set (w2 := queued_world k ids fl nx (curTick w + d) w1).
  set (w' := accepted_world _ _ _ _ _).
  assert (curTick w2 = curTick w ∧ txPacker (near w2) = k) as [Ht2 Hk2] by done.
  assert (near w' = near w2 ∧ far w' = far w2 ∧ pkts w' = pkts w2 ∧ flits w' = flits w2 ∧
          nextFlit w' = nextFlit w2 ∧ curTick w' = curTick w2 ∧ env w' = env w2 ∧
          events w' = if currentBytes k =? 0 then events w2
                      else add_event packTlpEvent (curTick w + d) (events w2))
    as (Hn' & Hf' & Hp' & Hfl' & Hnf' & Hct' & Henv' & Hev') by done.
  clearbody w2 w'. destruct Hok' as (_ & _ & Hu'). unfold is_u32 in Hu'.
  unfold scheduled. erewrite bind_run by done. erewrite bind_run by done. cbn [link_of].
  rewrite Hk2. unfold stagedBytes.
  erewrite bind_run by (apply pack_event_run; lia). apply ok_ext, world_ext; ws; congruence.
Qed.

End NearRuns.
