(* ===== verification/UcieInv.v ===== *)
(** * The link invariant

    What every state of the two-link system satisfies, component by component,
    and how each component evolves. *)

From Stdlib Require Import SpecFloat.
From S2P Require Import Prelude MemCmd Packet Clocked EventQueue EventQueueSpec FlitPacker Latency UcieLink UcieSystem UcieRuns.
#[local] Open Scope Z_scope.

(** ** Event queues *)

(** The events of this system: all three of the near link, and the far link's
    transmit event (its queue is always empty, the event is harmless). *)
Definition known (i : EvId) : Prop :=
  i = event_id Near packTlpEvent ∨ i = event_id Near sendFlitEvent ∨
  i = event_id Near retryTimeoutEvent ∨ i = event_id Far sendFlitEvent.

Record ev_ok (now : Z) (q : Abs.queue) : Prop := {
  ev_sorted : Abs.sorted q;
  ev_nodup : NoDup (Abs.ids q);
  ev_future : ∀ k i, (k, i) ∈ q → now ≤ k.1;
  ev_known : ∀ k i, (k, i) ∈ q → known i;
}.

Lemma in_insert k i (q : Abs.queue) x : x ∈ Abs.insert k i q ↔ x = (k, i) ∨ x ∈ q.
Proof. by rewrite Abs.insert_perm, elem_of_cons. Qed.

Lemma in_remove i (q : Abs.queue) x : x ∈ Abs.remove i q ↔ x ∈ q ∧ x.2 ≠ i.
Proof. unfold Abs.remove. rewrite list_elem_of_filter. tauto. Qed.

Lemma in_ids i (q : Abs.queue) : i ∈ Abs.ids q ↔ ∃ k, (k, i) ∈ q.
Proof.
  unfold Abs.ids. rewrite list_elem_of_fmap. split.
  - intros ([k j] & -> & Hx). eauto.
  - intros [k Hk]. by exists (k, i).
Qed.

Lemma in_ids_insert j k i (q : Abs.queue) :
  j ∈ Abs.ids (Abs.insert k i q) ↔ j = i ∨ j ∈ Abs.ids q.
Proof. by rewrite Abs.insert_ids, elem_of_cons. Qed.

Lemma in_ids_remove j i (q : Abs.queue) :
  j ∈ Abs.ids (Abs.remove i q) ↔ j ≠ i ∧ j ∈ Abs.ids q.
Proof.
  rewrite !in_ids. setoid_rewrite in_remove. cbn. naive_solver.
Qed.

Lemma ev_insert now k i (q : Abs.queue) :
  ev_ok now q → now ≤ k.1 → known i → i ∉ Abs.ids q → ev_ok now (Abs.insert k i q).
Proof.
  intros [Hs Hn Hf Hk] Hle Hki Hi. split.
  - by apply Abs.insert_sorted.
  - rewrite Abs.insert_ids. by constructor.
  - intros k' j [[= -> ->]|Hx]%in_insert; eauto.
  - intros k' j [[= -> ->]|Hx]%in_insert; eauto.
Qed.

Lemma ev_remove now i (q : Abs.queue) : ev_ok now q → ev_ok now (Abs.remove i q).
Proof.
  intros [Hs Hn Hf Hk]. split.
  - by apply Abs.remove_sorted.
  - unfold Abs.ids, Abs.remove. clear -Hn. unfold Abs.ids in Hn.
    induction q as [|[k j] q IH]; [constructor|]. cbn in Hn. apply NoDup_cons in Hn as [Hj Hn].
    rewrite filter_cons. case_decide; cbn; [|by apply IH]. constructor; [|by apply IH].
    intros Hin. apply Hj. rewrite list_elem_of_fmap in *. destruct Hin as (x & -> & Hx).
    apply list_elem_of_filter in Hx as [_ Hx]. eauto.
  - intros k j [Hx _]%in_remove. eauto.
  - intros k j [Hx _]%in_remove. eauto.
Qed.

Lemma known_near k : known (event_id Near k).
Proof. unfold known. destruct k; auto. Qed.

Lemma ev_add now k t (q : Abs.queue) : ev_ok now q → now ≤ t → ev_ok now (add_event k t q).
Proof.
  intros Hq Ht. unfold add_event. case_decide; [done|]. apply ev_insert; try done.
  apply known_near.
Qed.

Lemma in_add_event k t (q : Abs.queue) x :
  x ∈ add_event k t q ↔
  x ∈ q ∨ (x = ((t, Default_Pri), event_id Near k) ∧ event_id Near k ∉ Abs.ids q).
Proof. unfold add_event. case_decide; rewrite ?in_insert; naive_solver. Qed.

Lemma in_ids_add j k t (q : Abs.queue) :
  j ∈ Abs.ids (add_event k t q) ↔ j = event_id Near k ∨ j ∈ Abs.ids q.
Proof. unfold add_event. case_decide; rewrite ?in_ids_insert; naive_solver. Qed.

Lemma ev_later now now' (q : Abs.queue) :
  ev_ok now q → (∀ k i, (k, i) ∈ q → now' ≤ k.1) → ev_ok now' q.
Proof. by intros [] ?. Qed.

Lemma ev_pop now k i (q : Abs.queue) :
  ev_ok now ((k, i) :: q) → ev_ok k.1 q ∧ (i ∉ Abs.ids q) ∧ now ≤ k.1 ∧ known i.
Proof.
  intros [Hs Hn Hf Hk]. cbn in Hn. apply NoDup_cons in Hn as [Hi Hn].
  apply StronglySorted_inv in Hs as [Hs Hall]. rewrite Forall_forall in Hall.
  split; [split|]; try done.
  - intros k' j Hx. specialize (Hall _ Hx). cbn in Hall. unfold key_le in Hall. lia.
  - intros k' j Hx. apply (Hk k'). by right.
  - split; [done|]. split; [apply (Hf k i)|apply (Hk k i)]; by left.
Qed.

(** ** Sequences of transmitted flits *)

(** A transmitted flit: its timestamp and the TLPs it completes. *)
Abbreviation Entry := (Z * list PktId)%type.
Definition before (a b : Entry) : Prop := a.1 < b.1.
Definition not_after (a b : Entry) : Prop := a.1 ≤ b.1.
Definition tlps (L : list Entry) : list PktId := concat (L.*2).

Lemma tlps_app L1 L2 : tlps (L1 ++ L2) = tlps L1 ++ tlps L2.
Proof. unfold tlps. by rewrite fmap_app, concat_app. Qed.

Lemma tlps_sublist A L : A `sublist_of` L → tlps A `sublist_of` tlps L.
Proof.
  induction 1 as [|e A L _ IH|e A L _ IH]; [constructor| |].
  - cbn. by apply sublist_app.
  - cbn. by apply sublist_inserts_l.
Qed.

Lemma sublist_snoc A L e :
  StronglySorted not_after L → A `sublist_of` L → e ∈ L → Forall (λ a, before a e) A →
  A ++ [e] `sublist_of` L.
Proof.
  intros Hs Hsub. induction Hsub as [|a A L Hsub IH|a A L Hsub IH]; intros He Hall.
  - by apply elem_of_nil in He.
  - apply StronglySorted_inv in Hs as [Hs Ha]. apply Forall_cons in Hall as [Hae Hall].
    apply elem_of_cons in He as [->|He]; [unfold before in Hae; lia|].
    cbn. apply sublist_skip. by apply IH.
  - apply StronglySorted_inv in Hs as [Hs Ha]. apply elem_of_cons in He as [->|He].
    + destruct A as [|b A]; [cbn; apply sublist_skip, sublist_nil_l|].
      exfalso. apply Forall_cons in Hall as [Hba _]. rewrite Forall_forall in Ha.
      assert (b ∈ L) as Hb by (eapply elem_of_sublist; [by left|exact Hsub]).
      specialize (Ha _ Hb). unfold before, not_after in *. lia.
    + apply sublist_cons. by apply IH.
Qed.

Lemma sorted_snoc (R : Entry → Entry → Prop) L e :
  StronglySorted R L → Forall (λ a, R a e) L → StronglySorted R (L ++ [e]).
Proof.
  induction 1 as [|a L Hs IH Ha]; intros Hall; cbn; [by repeat constructor|].
  apply Forall_cons in Hall as [Hae Hall]. constructor; [by apply IH|].
  apply Forall_app. split; [done|by constructor].
Qed.

Lemma sorted_sublist (R : Entry → Entry → Prop) A L : A `sublist_of` L → StronglySorted R L → StronglySorted R A.
Proof.
  induction 1 as [|a A L Hsub IH|a A L Hsub IH]; intros Hs; [done| |].
  - apply StronglySorted_inv in Hs as [Hs Ha]. constructor; [by apply IH|].
    rewrite Forall_forall in *. intros b Hb. apply Ha. by eapply elem_of_sublist.
  - apply StronglySorted_inv in Hs as [Hs _]. by apply IH.
Qed.

(** Distinct ticks from [m] to [n] are at most [n - m + 1]. *)
Lemma count_bound L n : ∀ m,
  StronglySorted before L → m ≤ n + 1 → Forall (λ e, m ≤ e.1 ≤ n) L →
  Z.of_nat (length L) ≤ n - m + 1.
Proof.
  induction L as [|e L IH]; intros m Hs Hm Hall; [cbn; lia|].
  apply StronglySorted_inv in Hs as [Hs He]. apply Forall_cons in Hall as [Hme Hall].
  specialize (IH (e.1 + 1) Hs ltac:(lia)). cbn [length]. rewrite Nat2Z.inj_succ.
  enough (Z.of_nat (length L) ≤ n - (e.1 + 1) + 1) by lia. apply IH.
  apply Forall_forall. intros a Ha. rewrite Forall_forall in He, Hall.
  specialize (He a Ha). specialize (Hall a Ha). unfold before in He. cbn in *. lia.
Qed.

(** Split a sorted sequence at a timestamp. *)
Lemma sorted_split B t :
  StronglySorted before B →
  ∃ B1 B2, B = B1 ++ B2 ∧ Forall (λ e, e.1 ≤ t) B1 ∧ Forall (λ e, t < e.1) B2.
Proof.
  induction 1 as [|e B Hs (B1 & B2 & -> & H1 & H2) He]; [by exists [], []|].
  destruct (Z.le_gt_cases e.1 t) as [Hle|Hgt].
  - exists (e :: B1), B2. split; [done|]. split; [by constructor|done].
  - exists [], (e :: B1 ++ B2). split; [done|]. split; [constructor|]. constructor; [done|].
    eapply Forall_impl; [exact He|]. unfold before. intros; lia.
Qed.

(** ** The invariant, by component *)

Definition queue_rel (fl : gmap FlitId UcieFlitPacket) (f : FlitId) (ps : list PktId) : Prop :=
  ∃ x, fl !! f = Some x ∧ isRetransmission x = false ∧ originalPackets x = ps.
Definition retry_rel (fl : gmap FlitId UcieFlitPacket) (f : FlitId) (e : Entry) : Prop :=
  ∃ x, fl !! f = Some x ∧ timestamp x = e.1 ∧ originalPackets x = e.2.

(** The flit store holds exactly the flits of the transmit queue [tq] (carrying
    [P]) and of the retry buffer [rb] (transmitted as [B]). *)
Record flits_ok (fl : gmap FlitId UcieFlitPacket) (nx : FlitId) (tq rb : list FlitId)
    (P : list (list PktId)) (B : list Entry) : Prop := {
  fo_tx : Forall2 (queue_rel fl) tq P;
  fo_retry : Forall2 (retry_rel fl) rb B;
  fo_nodup : NoDup (tq ++ rb);
  fo_dom : ∀ f, is_Some (fl !! f) ↔ f ∈ tq ++ rb;
  fo_next : ∀ f, f ∈ tq ++ rb → (f < nx)%nat;
}.

(** Transmissions [L] have timestamps in order up to [last]; the receiver took the
    subsequence [A] and the retry buffer is the subsequence [B], both of different
    ticks. *)
Record seq_ok (last now : Z) (L A B : list Entry) (counter proc : Z) : Prop := {
  so_sorted : StronglySorted not_after L;
  so_A_sorted : StronglySorted before A;
  so_B_sorted : StronglySorted before B;
  so_bound : Forall (λ e, 0 ≤ e.1 ≤ last) L;
  so_last : 0 ≤ last ≤ now;
  so_A : A `sublist_of` L;
  so_B : B `sublist_of` L;
  so_count : counter = Z.of_nat (length A);
  so_proc : Forall (λ e, e.1 ≤ proc) A;
  so_proc_last : A ≠ [] → proc ≤ last;
}.

(** Every TLP the requestor handed over is in exactly one place, in order. *)
Record data_ok (snt rcv tq : list PktId) (pk : gmap PktId Packet) (L A : list Entry)
    (P : list (list PktId)) (k : FlitPacker) : Prop := {
  do_sent : tlps L ++ concat P ++ staged k = snt;
  do_recv : tlps A = rcv ++ tq;
  do_nodup : NoDup snt;
  do_flight : ∀ p, p ∈ snt → p ∉ tlps A →
    ∃ x, pk !! p = Some x ∧ timed x ∧ isRequest (cmd x) = true;
  do_queue : ∀ p, p ∈ tq → ∃ x, pk !! p = Some x ∧ isRequest (cmd x) = true;
}.

Record credit_ok (pool credits : Z) (blocked : bool) (B : list Entry) : Prop := {
  co_nonneg : 0 ≤ credits;
  co_bound : credits + Z.of_nat (length B) ≤ pool;
  co_blocked : blocked = true → credits = 0;
}.

Abbreviation packId := (event_id Near packTlpEvent).
Abbreviation sendId := (event_id Near sendFlitEvent).
Abbreviation timerId := (event_id Near retryTimeoutEvent).

(** No wake-up is missing: work that waits has its event pending, except for
    the event kind [busy] that is being serviced. *)
Record live_ok (busy : option EventKind) (delay now : Z) (blocked : bool) (staged : Z)
    (q : Abs.queue) (P : list (list PktId)) (B : list Entry) : Prop := {
  lo_timer : busy ≠ Some retryTimeoutEvent → blocked = false →
    ∀ e B', B = e :: B' → ∃ k, (k, timerId) ∈ q ∧ k.1 ≤ e.1 + delay;
  lo_timer_bound : ∀ k, (k, timerId) ∈ q → k.1 ≤ now + delay;
  lo_send : busy ≠ Some sendFlitEvent → blocked = false → P ≠ [] → sendId ∈ Abs.ids q;
  lo_pack : busy ≠ Some packTlpEvent → staged ≠ 0 → packId ∈ Abs.ids q;
}.

Section Inv.
Context {E : Type} `{EnvE : Environment E} (pn pf : UcieLinkParams).
(** Every transmission so far had a tick of its own. *)
Context (apart : Prop).
Abbreviation W := (World (Bench E)).
Implicit Types w : W.

(** Parameters for which no 64-bit tick can overflow before tick 2^62. *)
Record params_ok : Prop := {
  pk_pool : 0 < creditPool pn < 2 ^ 31;
  pk_delay : 0 ≤ retryTimeoutDelay pn < 2 ^ 60;
  pk_clk : 0 < clk_period pn < 2 ^ 58;
  pk_clk_far : 0 < clk_period pf < 2 ^ 58;
  pk_err_near : dgt (errorRate pn) (S754_zero false) = true →
                is_Some (errorThreshold (errorRate pn));
  pk_err : dgt (errorRate pf) (S754_zero false) = true →
           is_Some (errorThreshold (errorRate pf));
}.

Definition error_free : Prop := dgt (errorRate pf) (S754_zero false) = false.

Definition link_time (prm : UcieLinkParams) (now : Z) (l : UcieLink) : Prop :=
  params l = prm ∧ clock_ok now (clk l) ∧ clockPeriod (clk l) = clk_period prm.

(** Without injected errors the receiver has seen the last transmission, the
    sender is never in recovery, and all credits are accounted for; when all
    transmissions had ticks of their own the receiver took them all. *)
Definition clean (n f : UcieLink) (L A B : list Entry) : Prop :=
  (apart → A = L) ∧ (L ≠ [] → A ≠ [] ∧ lastProcessedTimestamp f = simLastTick n) ∧
  rxWaitingForRetry f = false ∧ linkState n ≠ RETRAIN ∧
  txCredits n + Z.of_nat (length B) = creditPool pn ∧ (length B ≤ 1)%nat.

Record Inv_at (busy : option EventKind) (L A B : list Entry) (P : list (list PktId)) (w : W) :
    Prop := {
  iv_now : 0 ≤ curTick w < 2 ^ 62;
  iv_near : link_time pn (curTick w) (near w);
  iv_far : link_time pf (curTick w) (far w);
  iv_ev : ev_ok (curTick w) (events w);
  iv_busy : ∀ k, busy = Some k → event_id Near k ∉ Abs.ids (events w);
  iv_packer : packer_ok (txPacker (near w));
  iv_packer_lt : currentBytes (txPacker (near w)) < 236;
  iv_near_tlp : tlpSendQueue (near w) = [];
  iv_far_tx : txSendQueue (far w) = [];
  iv_flits : flits_ok (flits w) (nextFlit w) (txSendQueue (near w)) (retryBuffer (near w)) P B;
  iv_seq : seq_ok (simLastTick (near w)) (curTick w) L A B (rxFlitCounter (far w))
             (lastProcessedTimestamp (far w));
  iv_data : data_ok (sent (env w)) (received (env w)) (tlpSendQueue (far w)) (pkts w) L A P
              (txPacker (near w));
  iv_credit : credit_ok (creditPool pn) (txCredits (near w)) (txBlocked (near w)) B;
  iv_live : live_ok busy (retryTimeoutDelay pn) (curTick w) (txBlocked (near w))
              (currentBytes (txPacker (near w))) (events w) P B;
  iv_clean : error_free → clean (near w) (far w) L A B;
}.

Definition Inv (w : W) : Prop := ∃ L A B P, Inv_at None L A B P w.
Definition Inv_with (P : list (list PktId)) (w : W) : Prop := ∃ L A B, Inv_at None L A B P w.
End Inv.

Section Views.
Context {E : Type} `{EnvE : Environment E} (pn pf : UcieLinkParams) (apart : Prop).
Abbreviation W := (World (Bench E)).
Implicit Types w : W.

Lemma Inv_with_Inv P w : Inv_with pn pf apart P w → Inv pn pf apart w.
Proof. intros (L & A & B & H). by exists L, A, B, P. Qed.

(** TLPs that have crossed the link. *)
Definition crossed (w : W) : list PktId := received (env w) ++ tlpSendQueue (far w).

(** The credits the sender has or can get back. *)
Definition pool (w : W) : Z := txCredits (near w) + Z.of_nat (length (retryBuffer (near w))).

(** The TLPs of the flits that wait for their first transmission. *)
Definition waiting (w : W) : list PktId :=
  concat ((λ f, match flits w !! f with Some x => originalPackets x | None => [] end)
            <$> txSendQueue (near w)).

Lemma waiting_spec busy L A B P w : Inv_at pn pf apart busy L A B P w → waiting w = concat P.
Proof.
  intros HI. destruct (iv_flits _ _ _ _ _ _ _ _ _ HI) as [Htx _ _ _ _]. unfold waiting. f_equal. clear -Htx.
  induction Htx as [|f ps tq P (x & Hx & _ & Hps) _ IH]; [done|]. cbn. rewrite Hx, Hps. by f_equal.
Qed.
End Views.

(** ** How the components evolve *)

(** Removing the retired flits [dead]. *)
Lemma flits_retire fl fl' nx nx' tq dead live P Bd Bl :
  flits_ok fl nx tq (dead ++ live) P (Bd ++ Bl) → length dead = length Bd → (nx ≤ nx')%nat →
  (∀ g, fl' !! g = if decide (g ∈ dead) then None else fl !! g) →
  flits_ok fl' nx' tq live P Bl.
Proof.
  intros [Htx Hre Hnd Hdom Hnx] Hlen Hle Hfl. apply Forall2_app_inv in Hre as [_ Hre]; [|done].
  assert (∀ g, g ∈ tq ++ live → g ∉ dead) as Hdisj.
  { intros g Hg Hd. rewrite (Permutation_app_comm dead live), app_assoc in Hnd.
    apply NoDup_app in Hnd as (_ & Hnd & _). by apply (Hnd g). }
  assert (∀ g, g ∈ tq ++ live → fl' !! g = fl !! g) as Hsame.
  { intros g Hg. rewrite Hfl, decide_False; auto. }
  split.
  - eapply Forall2_in; [exact Htx|]. intros g ps Hg (x & Hx & ?). exists x.
    rewrite Hsame by (apply elem_of_app; auto). done.
  - eapply Forall2_in; [exact Hre|]. intros g e Hg (x & Hx & ?). exists x.
    rewrite Hsame by (apply elem_of_app; auto). done.
  - rewrite (Permutation_app_comm dead live), app_assoc in Hnd.
    by apply NoDup_app in Hnd as (? & _ & _).
  - intros g. rewrite Hfl. case_decide as Hd.
    + split; [by intros []|]. intros Hg. by destruct (Hdisj g Hg).
    + rewrite Hdom. rewrite !elem_of_app. tauto.
  - intros g Hg. specialize (Hnx g). rewrite !elem_of_app in *. lia || (assert (g < nx)%nat by tauto; lia).
Qed.

(** Moving the head of the transmit queue to the retry buffer while [dead] is
    retired. *)
Lemma flits_send fl fl' nx nx' f q dead live ps P Bd Bl x t :
  flits_ok fl nx (f :: q) (dead ++ live) (ps :: P) (Bd ++ Bl) → length dead = length Bd →
  (nx ≤ nx')%nat → timestamp x = t → originalPackets x = ps →
  (∀ g, fl' !! g = if decide (g = f) then Some x else if decide (g ∈ dead) then None else fl !! g) →
  flits_ok fl' nx' q (live ++ [f]) P (Bl ++ [(t, ps)]).
Proof.
  intros Hok Hlen Hle Ht Hps Hfl.
  assert (∀ g, base.delete f fl' !! g = if decide (g ∈ dead) then None else base.delete f fl !! g) as Hdel.
  { intros g. destruct (decide (g = f)) as [->|Hne].
    - rewrite !lookup_delete_eq. by case_decide.
    - rewrite !lookup_delete_ne by done. rewrite Hfl, decide_False by done. done. }
  assert (flits_ok (base.delete f fl) nx q (dead ++ live) P (Bd ++ Bl)) as Hok0.
  { destruct Hok as [Htx Hre Hnd Hdom Hnx]. apply Forall2_cons in Htx as [_ Htx].
    cbn in Hnd. apply NoDup_cons in Hnd as [Hf Hnd].
    split; [| |done| |].
    - eapply Forall2_in; [exact Htx|]. intros g p Hg (y & Hy & ?). exists y.
      rewrite lookup_delete_ne; [done|]. intros <-. apply Hf, elem_of_app. auto.
    - eapply Forall2_in; [exact Hre|]. intros g e Hg (y & Hy & ?). exists y.
      rewrite lookup_delete_ne; [done|]. intros <-. apply Hf, elem_of_app. auto.
    - intros g. destruct (decide (g = f)) as [->|Hne].
      + rewrite lookup_delete_eq. split; [by intros []|done].
      + rewrite lookup_delete_ne, Hdom by done. cbn. rewrite elem_of_cons. tauto.
    - intros g Hg. apply Hnx. by right. }
  pose proof (flits_retire _ _ _ nx' _ _ _ _ _ _ Hok0 Hlen Hle Hdel) as [Htx Hre Hnd Hdom Hnx].
  assert (f ∉ q ++ live) as Hfn.
  { intros Hin. apply Hdom in Hin as [y Hy]. by rewrite lookup_delete_eq in Hy. }
  assert (fl' !! f = Some x) as Hff by (rewrite Hfl; by rewrite decide_True).
  split.
  - eapply Forall2_in; [exact Htx|]. intros g p Hg (y & Hy & ?). exists y.
    rewrite lookup_delete_ne in Hy; [done|]. intros <-. apply Hfn, elem_of_app. auto.
  - apply Forall2_app; [|repeat constructor; by exists x].
    eapply Forall2_in; [exact Hre|]. intros g e Hg (y & Hy & ?). exists y.
    rewrite lookup_delete_ne in Hy; [done|]. intros <-. apply Hfn, elem_of_app. auto.
  - rewrite app_assoc. apply NoDup_app. split; [done|]. split; [|apply NoDup_singleton].
    intros g Hg ->%list_elem_of_singleton. done.
  - intros g. rewrite app_assoc, elem_of_app, list_elem_of_singleton.
    destruct (decide (g = f)) as [->|Hne]; [rewrite Hff; split; eauto|].
    rewrite <- Hdom, lookup_delete_ne by done. naive_solver.
  - intros g. rewrite app_assoc, elem_of_app, list_elem_of_singleton.
    intros [Hg| ->]; [by apply Hnx|]. destruct Hok as [_ _ _ _ Hnx0].
    specialize (Hnx0 f). assert (f < nx)%nat by (apply Hnx0; by left). lia.
Qed.

(** Appending the new flits [ids]. *)
Lemma flits_enqueue {E} now (w : World (Bench E)) tq rb P B ids Ps fl nx :
  flits_ok (flits w) (nextFlit w) tq rb P B → new_flits now w ids Ps fl nx →
  flits_ok fl nx (tq ++ ids) rb (P ++ Ps) B.
Proof.
  intros [Htx Hre Hnd Hdom Hnx] [Hc Hids Hn Ho].
  assert (∀ g, g ∈ ids → (nextFlit w ≤ g < nx)%nat) as Hge.
  { intros g Hg. rewrite Hids, elem_of_seq in Hg. lia. }
  assert (∀ g, g ∈ tq ++ rb → g ∉ ids) as Hdisj.
  { intros g Hg Hg'. specialize (Hnx g Hg). specialize (Hge g Hg'). lia. }
  split.
  - apply Forall2_app.
    + eapply Forall2_in; [exact Htx|]. intros g p Hg (y & Hy & ?). exists y.
      rewrite Ho; [done|]. apply Hdisj, elem_of_app. auto.
    + eapply Forall2_in; [exact Hc|]. intros g p Hg (n & Hy). eexists. split; [exact Hy|done].
  - eapply Forall2_in; [exact Hre|]. intros g p Hg (y & Hy & ?). exists y.
    rewrite Ho; [done|]. apply Hdisj, elem_of_app. auto.
  - rewrite <- app_assoc, (Permutation_app_comm ids), app_assoc. apply NoDup_app.
    split; [done|]. split; [done|]. rewrite Hids. apply NoDup_seq.
  - intros g. rewrite <- app_assoc, (Permutation_app_comm ids), app_assoc, elem_of_app, <- Hdom.
    destruct (decide (g ∈ ids)) as [Hg|Hg].
    + split; [tauto|]. intros _. apply list_elem_of_lookup in Hg as [i Hi].
      destruct (Forall2_lookup_l _ _ _ _ _ Hc Hi) as (p & _ & n & Hp). by exists (protocol_flit now n p).
    + rewrite Ho by done. tauto.
  - intros g. rewrite <- app_assoc, (Permutation_app_comm ids), app_assoc, elem_of_app.
    intros [Hg|Hg]; [specialize (Hnx g Hg); lia|by apply Hge].
Qed.

Lemma seq_append last now L A B B' c p e :
  seq_ok last now L A B c p → last ≤ e.1 ≤ now → B' `sublist_of` L ++ [e] → StronglySorted before B' →
  seq_ok e.1 now (L ++ [e]) A B' c p.
Proof.
  intros [Hs HsA HsB Hb Hl HA HB Hc Hp Hpl] He HB' HsB'.
  assert (Forall (λ a, not_after a e) L) as Hbe.
  { eapply Forall_impl; [exact Hb|]. unfold not_after. intros a Ha. cbn in Ha. lia. }
  split; try done.
  - by apply sorted_snoc.
  - apply Forall_app. split; [|constructor; [lia|constructor]].
    eapply Forall_impl; [exact Hb|]. intros a Ha. cbn in *. lia.
  - lia.
  - by apply sublist_inserts_r.
  - intros HAn. specialize (Hpl HAn). lia.
Qed.

Lemma seq_accept last now L A B B' c p e :
  seq_ok last now L A B c p → e ∈ L → (c ≤ 0 ∨ p < e.1) → B' `sublist_of` L → StronglySorted before B' →
  now < 2 ^ 62 → seq_ok last now L (A ++ [e]) B' (u64 (c + 1)) e.1.
Proof.
  intros [Hs HsA HsB Hb Hl HA HB Hc Hp Hpl] He Hnew HB' HsB' Hnow.
  assert (Forall (λ a, before a e) A) as Hbe.
  { destruct Hnew as [Hc0|Hlt].
    - destruct A; [constructor|cbn in Hc; lia].
    - eapply Forall_impl; [exact Hp|]. unfold before. intros a Ha. cbn in *. lia. }
  rewrite Forall_forall in Hb. pose proof (Hb _ He) as Hbe'. cbn in Hbe'.
  assert (A ++ [e] `sublist_of` L) as HA' by (by apply sublist_snoc).
  assert (StronglySorted before (A ++ [e])) as HsA' by (by apply sorted_snoc).
  assert (Z.of_nat (length (A ++ [e])) ≤ now + 1) as Hlen.
  { etransitivity; [apply (count_bound _ now 0)|lia]; [done|lia|].
    rewrite Forall_forall. intros a Ha.
    specialize (Hb a (elem_of_sublist _ _ _ Ha HA')). lia. }
  rewrite length_app in Hlen. cbn in Hlen.
  split; try done.
  - by rewrite Forall_forall.
  - rewrite u64_id, length_app; cbn; [lia|]. unfold is_u64. lia.
  - apply Forall_app. split; [|by repeat constructor].
    eapply Forall_impl; [exact Hbe|]. unfold before. intros a Ha. cbn in *. lia.
  - lia.
Qed.

Lemma seq_later last now now' L A B c p :
  seq_ok last now L A B c p → now ≤ now' → seq_ok last now' L A B c p.
Proof. intros [] ?. split; try done. lia. Qed.

Lemma seq_retire last now L A B B' c p :
  seq_ok last now L A B c p → B' `sublist_of` B → seq_ok last now L A B' c p.
Proof. intros [] ?. split; try done; [by eapply sorted_sublist|by etransitivity]. Qed.

Lemma tlps_in_sent snt rcv tq pk L A P k A' :
  data_ok snt rcv tq pk L A P k → A' `sublist_of` L → ∀ p, p ∈ tlps A' → p ∈ snt.
Proof.
  intros [Hs _ _ _ _] HA p Hp. subst snt. apply elem_of_app. left.
  eapply elem_of_sublist; [exact Hp|]. by apply tlps_sublist.
Qed.

Lemma tlps_snoc A e : tlps (A ++ [e]) = tlps A ++ e.2.
Proof. rewrite tlps_app. unfold tlps at 2. cbn. by rewrite app_nil_r. Qed.

Lemma data_entry snt rcv tq pk L A P k e :
  data_ok snt rcv tq pk L A P k → A ++ [e] `sublist_of` L →
  NoDup e.2 ∧ (∀ p, p ∈ e.2 → (p ∉ tlps A) ∧ (p ∉ tq) ∧
    ∃ y, pk !! p = Some y ∧ timed y ∧ isRequest (cmd y) = true).
Proof.
  intros Hd HA. pose proof Hd as [Hs Hr Hnd Hfl Hq].
  assert (NoDup (tlps (A ++ [e]))) as HndA.
  { eapply sublist_NoDup; [|by apply tlps_sublist]. subst snt.
    by apply NoDup_app in Hnd as (? & _ & _). }
  rewrite tlps_snoc in HndA.
  apply NoDup_app in HndA as (_ & Hdisj & Hnde). split; [done|]. intros p Hp.
  assert (p ∉ tlps A) as HpA by (intros HpA; by apply (Hdisj p)).
  split; [done|]. split; [rewrite Hr, elem_of_app in HpA; tauto|]. apply Hfl; [|done].
  eapply tlps_in_sent; [exact Hd|exact HA|]. rewrite tlps_snoc. apply elem_of_app. auto.
Qed.

Lemma data_accept snt rcv tq pk L A P k e n :
  data_ok snt rcv tq pk L A P k → A ++ [e] `sublist_of` L →
  data_ok snt (rcv ++ take n (tq ++ e.2)) (drop n (tq ++ e.2)) (pop_all e.2 pk) L (A ++ [e]) P k.
Proof.
  intros Hd HA. destruct (data_entry _ _ _ _ _ _ _ _ _ Hd HA) as [Hnde He].
  destruct Hd as [Hs Hr Hnd Hfl Hq]. split; try done.
  - rewrite tlps_snoc, Hr, <- !app_assoc, take_drop. done.
  - intros p Hp. rewrite tlps_snoc, elem_of_app. intros Hn.
    rewrite pop_all_other by tauto. apply Hfl; tauto.
  - intros p Hp. assert (p ∈ tq ++ e.2) as Hin.
    { rewrite <- (take_drop n (tq ++ e.2)). apply elem_of_app. auto. }
    apply elem_of_app in Hin as [Hin|Hin].
    + rewrite pop_all_other; [auto|]. intros Hpe. destruct (He p Hpe) as (_ & ? & _). done.
    + destruct (He p Hin) as (_ & _ & y & Hy & _ & Hreq). exists (pop_state y).
      by rewrite pop_all_in, Hy.
Qed.

Lemma data_move snt rcv tq pk L A ps P k t :
  data_ok snt rcv tq pk L A (ps :: P) k → data_ok snt rcv tq pk (L ++ [(t, ps)]) A P k.
Proof.
  intros [Hs Hr Hnd Hfl Hq]. split; try done. rewrite tlps_snoc. cbn in *.
  by rewrite <- Hs, <- !app_assoc.
Qed.

Lemma data_pack snt rcv tq pk L A P k Ps k' :
  data_ok snt rcv tq pk L A P k → concat Ps ++ staged k' = staged k →
  data_ok snt rcv tq pk L A (P ++ Ps) k'.
Proof.
  intros [Hs Hr Hnd Hfl Hq] Hk. split; try done.
  by rewrite concat_app, <- app_assoc, Hk.
Qed.

Lemma data_new snt rcv tq pk L A P k Ps k' p x :
  data_ok snt rcv tq pk L A P k → A `sublist_of` L → concat Ps ++ staged k' = staged k ++ [p] →
  p ∉ snt → timed x → isRequest (cmd x) = true →
  data_ok (snt ++ [p]) rcv tq (<[p := x]> pk) L A (P ++ Ps) k'.
Proof.
  intros Hd HA Hk Hp Hx Hreq. pose proof (tlps_in_sent _ _ _ _ _ _ _ _ A Hd HA) as HAs.
  destruct Hd as [Hs Hr Hnd Hfl Hq]. split; try done.
  - rewrite concat_app, <- app_assoc, Hk, <- Hs, <- !app_assoc. done.
  - apply NoDup_app. split; [done|]. split; [|apply NoDup_singleton].
    intros q Hq' ->%list_elem_of_singleton. done.
  - intros q Hq' HqA. destruct (decide (q = p)) as [->|Hne].
    + exists x. by rewrite lookup_insert_eq.
    + rewrite lookup_insert_ne by done. apply Hfl; [|done].
      apply elem_of_app in Hq' as [?|?%list_elem_of_singleton]; done.
  - intros q Hq'. rewrite lookup_insert_ne; [by apply Hq|]. intros <-. apply Hp, HAs.
    rewrite Hr. apply elem_of_app. auto.
Qed.

(** Packets outside the links may change: those not handed over yet, and those
    the memory has taken. *)
Lemma data_other snt rcv tq pk L A P k p x :
  data_ok snt rcv tq pk L A P k → A `sublist_of` L → p ∉ snt ∨ p ∈ rcv →
  data_ok snt rcv tq (<[p := x]> pk) L A P k.
Proof.
  intros Hd HA Hp. pose proof (tlps_in_sent _ _ _ _ _ _ _ _ A Hd HA) as HAs.
  destruct Hd as [Hs Hr Hnd Hfl Hq].
  assert (NoDup (rcv ++ tq)) as Hnrt.
  { rewrite <- Hr. eapply sublist_NoDup; [|by apply tlps_sublist]. subst snt.
    by apply NoDup_app in Hnd as (? & _ & _). }
  apply NoDup_app in Hnrt as (_ & Hdisj & _).
  split; try done.
  - intros q Hq' HqA. rewrite lookup_insert_ne; [by apply Hfl|]. intros <-.
    destruct Hp as [Hp|Hp]; [done|]. apply HqA. rewrite Hr. apply elem_of_app. auto.
  - intros q Hq'. rewrite lookup_insert_ne; [by apply Hq|]. intros <-.
    destruct Hp as [Hp|Hp]; [|by apply (Hdisj p)]. apply Hp, HAs. rewrite Hr. apply elem_of_app. auto.
Qed.

(** The memory takes TLPs of the far queue. *)
Lemma data_drain snt rcv tq pk L A P k n :
  data_ok snt rcv tq pk L A P k → data_ok snt (rcv ++ take n tq) (drop n tq) pk L A P k.
Proof.
  intros [Hs Hr Hnd Hfl Hq]. split; try done.
  - by rewrite <- app_assoc, take_drop.
  - intros p Hp. apply Hq. rewrite <- (take_drop n tq). apply elem_of_app. auto.
Qed.

(** *** Wake-ups *)

Lemma event_ids_ne : packId ≠ sendId ∧ packId ≠ timerId ∧ sendId ≠ timerId.
Proof. done. Qed.

(** After a transmission: [e] is the oldest flit in the retry buffer. *)
Lemma live_sent delay now staged q (P : list (list PktId)) e B more :
  0 ≤ delay → more = negb (bool_decide (P = [])) →
  (e.1 = now ∨ ∃ k, (k, timerId) ∈ q ∧ k.1 ≤ e.1 + delay) →
  (∀ k, (k, timerId) ∈ q → k.1 ≤ now + delay) →
  (staged ≠ 0 → packId ∈ Abs.ids q) →
  live_ok None delay now false staged (sent_events now delay more q) P (e :: B).
Proof.
  intros Hdel -> Ht Hb Hp. unfold sent_events.
  set (q1 := if negb _ then _ else q).
  assert (∀ k, (k, timerId) ∈ q1 ↔ (k, timerId) ∈ q) as Ht1.
  { intros k. subst q1. case_bool_decide; cbn [negb]; [done|]. rewrite in_add_event.
    split; [|auto]. intros [?|[[= _ Heq] _]]; done. }
  assert (∀ i, i ∈ Abs.ids q → i ∈ Abs.ids q1) as Hi1.
  { intros i Hi. subst q1. case_bool_decide; cbn [negb]; [done|]. rewrite in_ids_add. auto. }
  split.
  - intros _ _ e' B' [= <- <-]. destruct Ht as [He|(k & Hk & Hle)].
    + destruct (decide (timerId ∈ Abs.ids q1)) as [Hin|Hin].
      * apply in_ids in Hin as [k Hk]. exists k. rewrite in_add_event. split; [auto|].
        rewrite He. apply Hb. by apply Ht1.
      * exists (now + delay, Default_Pri). rewrite in_add_event. cbn. split; [auto|lia].
    + exists k. rewrite in_add_event, Ht1. auto.
  - intros k. rewrite in_add_event, Ht1. intros [Hk|[[= ->] _]]; [auto|cbn; lia].
  - intros _ _ HP. rewrite in_ids_add. right. subst q1. rewrite bool_decide_false by done.
    cbn [negb]. rewrite in_ids_add. auto.
  - intros _ Hs. rewrite in_ids_add. right. auto.
Qed.
