(* ===== verification/UcieSend.v ===== *)
(** * Transmission keeps the invariant

    [processSendFlit] on the head of the transmit queue: the receiver accepts
    the flit, drops it while it waits for a retransmission, or rejects it with a
    NAK.  In each case the handler runs to completion and the invariant of
    UcieInv.v holds of the world it leaves. *)

From Stdlib Require Import SpecFloat.
From S2P Require Import Prelude MemCmd Packet Clocked EventQueue EventQueueSpec FlitPacker Latency UcieLink UcieSystem UcieRuns UcieInv.
#[local] Open Scope Z_scope.

Section Safety.
Context {E : Type} `{EnvE : Environment E} (pn pf : UcieLinkParams) (apart : Prop).
Context (Hprm : params_ok pn pf).
Abbreviation W := (World (Bench E)).
Implicit Types w : W.
Abbreviation Inv_at := (Inv_at pn pf apart).
Abbreviation Inv_with := (Inv_with pn pf apart).
Abbreviation Inv := (Inv pn pf apart).

(** ** Transmission *)

Lemma link_time_ext prm now l l' :
  params l' = params l → clk l' = clk l → link_time prm now l → link_time prm now l'.
Proof. intros Hp Hc (? & ? & ?). unfold link_time. by rewrite Hp, Hc. Qed.

(** The state a transmission leaves, from what the receiver's answer [w2] is. *)
Lemma send_finish w w2 f q x dead live Bd Bl L A P ps st start :
  flits_ok (flits w) (nextFlit w) (f :: q) (dead ++ live) (ps :: P) (Bd ++ Bl) →
  length dead = length Bd →
  (∀ g, flits w2 !! g = if decide (g = f) then Some x
                        else if decide (g ∈ dead) then None else flits w !! g) →
  (nextFlit w ≤ nextFlit w2)%nat → timestamp x = curTick w2 → originalPackets x = ps →
  0 ≤ curTick w2 < 2 ^ 62 →
  link_time pn (curTick w2) (near w2) → link_time pf (curTick w2) (far w2) →
  packer_ok (txPacker (near w2)) → currentBytes (txPacker (near w2)) < 236 →
  tlpSendQueue (near w2) = [] → txSendQueue (far w2) = [] →
  retryBuffer (near w2) = live → txBlocked (near w2) = false →
  ev_ok (curTick w2) (events w2) →
  seq_ok (curTick w2) (curTick w2) L A (Bl ++ [(curTick w2, ps)]) (rxFlitCounter (far w2))
    (lastProcessedTimestamp (far w2)) →
  data_ok (sent (env w2)) (received (env w2)) (tlpSendQueue (far w2)) (pkts w2) L A P
    (txPacker (near w2)) →
  0 < txCredits (near w2) → txCredits (near w2) + Z.of_nat (length Bl) ≤ creditPool pn →
  (Bl = [] ∨ ∃ e B' k, Bl = e :: B' ∧ (k, timerId) ∈ events w2 ∧ k.1 ≤ e.1 + retryTimeoutDelay pn) →
  (∀ k, (k, timerId) ∈ events w2 → k.1 ≤ curTick w2 + retryTimeoutDelay pn) →
  (currentBytes (txPacker (near w2)) ≠ 0 → packId ∈ Abs.ids (events w2)) →
  (error_free pf → (apart → A = L) ∧ (A ≠ [] ∧ lastProcessedTimestamp (far w2) = curTick w2) ∧
     rxWaitingForRetry (far w2) = false ∧ linkState (near w2) ≠ RETRAIN ∧
     Bl = [] ∧ txCredits (near w2) = creditPool pn) →
  Inv_with P (sent_world f q st start w2).
Proof.
  intros Hfl Hlen Hlk Hnx Hts Hps Hnow Hn Hf Hpk Hlt Hnt Hft Hrb Hblk Hev Hseq Hdata Hc0 Hcb
    Htim Htb Hpack Hclean.
  pose proof Hn as (Hpn & _). pose proof Hprm as [_ [Hd _] _ _ _ _].
  exists L, A, (Bl ++ [(curTick w2, ps)]).
  assert ((q = []) ↔ (P = [])) as HqP.
  { destruct Hfl as [Htx _ _ _ _]. apply Forall2_cons in Htx as [_ Htx].
    destruct Htx; split; done. }
  split; unfold sent_world; ws; rewrite ?Hpn, ?Hrb; try done.
  - unfold sent_events. apply ev_add; [|lia]. case_bool_decide; cbn [negb]; [done|].
    apply ev_add; [done|lia].
  - eapply flits_send; eauto.
  - split; [lia| |by rewrite Hblk]. rewrite length_app. cbn. lia.
  - rewrite Hblk. rewrite (bool_decide_ext _ _ HqP).
    destruct Htim as [->|(e & B' & k & -> & Hk & Hle)]; cbn [app]; apply live_sent; eauto.
  - intros He. destruct (Hclean He) as (Ha & Hlp & Hw & Hs & -> & Hc). unfold clean. ws. cbn.
    split; [done|]. split; [done|]. repeat split; try done; lia.
Qed.

(** The world in which the clone is on the wire. *)
Section Offer.
Context (w : W) (f : FlitId) (q rb : list FlitId) (x : UcieFlitPacket)
  (ps : list PktId) (P : list (list PktId)) (B : list Entry).
Context (Hfl : flits_ok (flits w) (nextFlit w) (f :: q) rb (ps :: P) B).
Let x' : UcieFlitPacket := x <| timestamp := curTick w |>.
Let w1 : W := offer_world f x' w.

Lemma offer_ids : nextFlit w ≠ f ∧ (nextFlit w ∉ rb) ∧ (f ∉ rb) ∧ NoDup rb.
Proof.
  destruct Hfl as [_ _ Hnd _ Hnx]. cbn in Hnd. apply NoDup_cons in Hnd as [Hf Hnd].
  apply NoDup_app in Hnd as (_ & _ & Hnd). split.
  { intros Heq. assert (f < nextFlit w)%nat by (apply Hnx; by left). lia. }
  split; [|split; [|done]].
  - intros Hi. assert (nextFlit w < nextFlit w)%nat; [|lia].
    apply Hnx. cbn. rewrite elem_of_cons, elem_of_app. auto.
  - intros Hi. apply Hf. apply elem_of_app. auto.
Qed.

Lemma offer_wire : flits w1 !! nextFlit w = Some (wire x' false).
Proof. apply lookup_insert_eq. Qed.

Lemma offer_none g : (nextFlit w ≤ g)%nat → flits w !! g = None.
Proof.
  intros Hg. destruct (flits w !! g) eqn:Hx; [|done]. destruct Hfl as [_ _ _ Hdom Hnx].
  assert (g < nextFlit w)%nat; [|lia]. apply Hnx, Hdom. by eexists.
Qed.

Lemma offer_fresh : flits w1 !! nextFlit w1 = None.
Proof.
  change (<[nextFlit w := wire x' false]> (<[f := x']> (flits w)) !! S (nextFlit w) = None).
  pose proof (offer_none (S (nextFlit w))) as Hn. destruct Hfl as [_ _ _ _ Hnx].
  assert (f < nextFlit w)%nat by (apply Hnx; by left).
  rewrite !lookup_insert_ne by lia. apply Hn. lia.
Qed.

Lemma offer_retry g : g ∈ rb → flits w1 !! g = flits w !! g.
Proof.
  intros Hg. destruct offer_ids as (_ & Hi & Hf & _).
  change (<[nextFlit w := wire x' false]> (<[f := x']> (flits w)) !! g = flits w !! g).
  rewrite !lookup_insert_ne; [done|set_solver..].
Qed.

Lemma offer_after dead g : (∀ h, h ∈ dead → h ∈ rb) →
  base.delete (nextFlit w) (del_all dead (flits w1)) !! g =
  if decide (g = f) then Some x' else if decide (g ∈ dead) then None else flits w !! g.
Proof.
  intros Hdead. destruct offer_ids as (Hne & Hi & Hf & _).
  change (flits w1) with (<[nextFlit w := wire x' false]> (<[f := x']> (flits w))).
  destruct (decide (g = nextFlit w)) as [->|Hg].
  - rewrite lookup_delete_eq, decide_False by done.
    case_decide; [done|]. symmetry. by apply offer_none.
  - rewrite lookup_delete_ne, del_all_lookup by done. case_decide as Hd.
    + rewrite decide_False; [done|]. intros ->. by apply Hf, Hdead.
    + rewrite lookup_insert_ne by done. case_decide as Hgf.
      * subst g. apply lookup_insert_eq.
      * by rewrite lookup_insert_ne.
Qed.
End Offer.

(** What a transmission leaves alone, and the queue it leaves. *)
Definition moved (q : list FlitId) (w w' : W) : Prop :=
  txSendQueue (near w') = q ∧ txPacker (near w') = txPacker (near w) ∧
  sent (env w') = sent (env w).

(** The transmit handler moves the head of the queue on, the TLPs [ps] cross, and
    no credits appear. *)
Definition transmits (q : list FlitId) (ps : list PktId) (P : list (list PktId)) (w w' : W) : Prop :=
  processSendFlit Near far_recvTimingReq w = Ok (tt, w') ∧ Inv_with P w' ∧ moved q w w' ∧
  crossed w' = crossed w ++ ps ∧ pool w' ≤ pool w.

(** The head of the queue is about to be transmitted for the first time. *)
Section Fresh.
Context (L A B : list Entry) (P : list (list PktId)) (w : W) (f : FlitId) (q : list FlitId)
  (x : UcieFlitPacket).
Let ps : list PktId := originalPackets x.
Let e : Entry := (curTick w, ps).
Let x' : UcieFlitPacket := x <| timestamp := curTick w |>.
Let w1 : W := offer_world f x' w.
Let rb : list FlitId := retryBuffer (near w).
Context (HI : Inv_at (Some sendFlitEvent) L A B (ps :: P) w).
Context (Hq : txSendQueue (near w) = f :: q) (Hblk : txBlocked (near w) = false)
  (Hcr : txCredits (near w) ≠ 0)
  (Hx : flits w !! f = Some x) (Hre : isRetransmission x = false).

Lemma fresh_flits : flits_ok (flits w) (nextFlit w) (f :: q) rb (ps :: P) B.
Proof. rewrite <- Hq. apply HI. Qed.

Lemma fresh_B : Forall (λ a : Entry, 0 ≤ a.1 ≤ simLastTick (near w)) B.
Proof.
  pose proof HI as []. destruct iv_seq. rewrite Forall_forall in *. intros a Ha. apply so_bound.
  by eapply elem_of_sublist.
Qed.

Lemma fresh_len : length rb = length B.
Proof. pose proof fresh_flits as [_ Hretry _ _ _]. by eapply Forall2_length. Qed.

Lemma fresh_old g : g ∈ rb → ∃ y, flits w1 !! g = Some y ∧ timestamp y ≤ simLastTick (near w).
Proof.
  intros Hg. destruct (proj1 (list_elem_of_lookup _ _) Hg) as [j Hj].
  pose proof fresh_flits as Hok. pose proof Hok as [_ Hretry _ _ _].
  destruct (Forall2_lookup_l _ _ _ _ _ Hretry Hj) as (b & Hb & y & Hy & Hty & _).
  exists y. unfold w1, x'. rewrite (offer_retry w f q rb x ps P B) by done. split; [done|].
  pose proof fresh_B as HB. rewrite Forall_lookup in HB. specialize (HB _ _ Hb). cbn in HB. lia.
Qed.

Lemma fresh_last : simLastTick (near w) ≤ curTick w.
Proof. pose proof HI as []. destruct iv_seq. lia. Qed.

Lemma fresh_seq B' : B' `sublist_of` L ++ [e] → StronglySorted before B' →
  seq_ok (curTick w) (curTick w) (L ++ [e]) A B' (rxFlitCounter (far w))
    (lastProcessedTimestamp (far w)).
Proof.
  intros HB' Hs. pose proof HI as []. pose proof fresh_last.
  eapply (seq_append _ _ _ _ _ _ _ _ e); [exact iv_seq|cbn; lia|done|done].
Qed.

(** In a tick of its own the flit is newer than all the receiver has seen. *)
Definition fresh_new : Prop := rxFlitCounter (far w) ≤ 0 ∨ lastProcessedTimestamp (far w) < curTick w.

Lemma later_new : simLastTick (near w) < curTick w → fresh_new.
Proof.
  intros Hlast. pose proof HI as []. destruct iv_seq. destruct A as [|a A']; [left; cbn in *; lia|]. right.
  specialize (so_proc_last ltac:(done)). lia.
Qed.

Lemma single_sorted : StronglySorted before [e].
Proof. by repeat constructor. Qed.

Lemma fresh_data :
  data_ok (sent (env w)) (received (env w)) (tlpSendQueue (far w)) (pkts w) (L ++ [e]) A P
    (txPacker (near w)).
Proof. apply data_move, HI. Qed.

Lemma fresh_params :
  params (near w) = pn ∧ 0 < creditPool pn < 2 ^ 31 ∧ 0 ≤ retryTimeoutDelay pn < 2 ^ 60 ∧
  0 < txCredits (near w) ∧ txCredits (near w) + Z.of_nat (length rb) ≤ creditPool pn.
Proof.
  rewrite fresh_len. pose proof HI as []. destruct iv_near, iv_credit. pose proof Hprm as []. repeat split; (done || lia).
Qed.

Lemma fresh_ack_ready : ack_ready w1 (curTick w) rb [] None.
Proof.
  destruct fresh_params as (Hpn & Hpool & Hdel & Hc0 & Hcb).
  split; change (near w1) with (near w); change (curTick w1) with (curTick w);
    rewrite ?Hpn; try done; try lia.
  - by rewrite app_nil_r.
  - by destruct (offer_ids w f q rb ps P B fresh_flits) as (_ & _ & _ & ?).
  - intros g Hg. destruct (fresh_old g Hg) as (y & Hy & Hlt). pose proof fresh_last. exists y. split; [done|lia].
  - unfold is_u32. lia.
  - apply HI.
Qed.

Lemma fresh_nak_ready : simLastTick (near w) < curTick w → nak_ready w1 (curTick w).
Proof.
  intros Hlast. pose proof HI as []. destruct iv_near as (_ & Hck & Hper). pose proof Hprm as [].
  split; [|split; [|split; [done|split]]].
  - by destruct (offer_ids w f q rb ps P B fresh_flits) as (_ & _ & _ & ?).
  - intros g Hg. destruct (fresh_old g Hg) as (y & Hy & Hlt). exists y. split; [done|lia].
  - change (0 ≤ curTick w). lia.
  - change (curTick w + 3 * clockPeriod (clk (near w)) < 2 ^ 64). lia.
Qed.

(** Once the receiver has answered with [w2], the sender commits. *)
Lemma fresh_commit w2 dead :
  far_recvTimingReq (FlitPtr (nextFlit w)) w1 = Ok (true, w2) → (∀ g, g ∈ dead → g ∈ rb) →
  flits w2 = base.delete (nextFlit w) (del_all dead (flits w1)) →
  txSendQueue (near w2) = f :: q → params (near w2) = pn → curTick w2 = curTick w →
  0 < txCredits (near w2) ≤ creditPool pn →
  ∃ st start, processSendFlit Near far_recvTimingReq w = Ok (tt, sent_world f q st start w2).
Proof.
  intros Hrecv Hdead Hfl Htq Hp Ht Hc.
  erewrite (processSendFlit_step w f q x) by done.
  destruct fresh_params as (_ & Hpool & Hdel & _). pose proof (iv_now _ _ _ _ _ _ _ _ _ HI) as Hnow.
  apply (flit_sent_run w2 f q x'); rewrite ?Hp, ?Ht; try done; try lia.
  rewrite Hfl. unfold w1, x'. rewrite (offer_after w f q rb x ps P B fresh_flits) by done.
  by rewrite decide_True.
Qed.

Lemma fresh_accept_seq : fresh_new →
  seq_ok (curTick w) (curTick w) (L ++ [e]) (A ++ [e]) ([] ++ [e]) (u64 (rxFlitCounter (far w) + 1)) (curTick w).
Proof.
  intros Hnew.
  eapply (seq_accept _ _ _ _ _ _ _ _ e); [apply (fresh_seq [e]); [by apply sublist_inserts_l|apply single_sorted]| |
    exact Hnew|by apply sublist_inserts_l|apply single_sorted|by apply HI].
  apply elem_of_app. right. by left.
Qed.

Lemma fresh_accepted :
  crc_error (arrive (far w)) (wire x' false) = false → rxWaitingForRetry (far w) = false → fresh_new →
  ∃ w', transmits q ps P w w'.
Proof.
  intros Hcrc Hwait Hnew. pose proof fresh_flits as Hfl.
  destruct fresh_params as (Hpn & Hpool & Hdel & Hc0 & Hcb).
  destruct (offer_ids w f q rb ps P B Hfl) as (Hne & Hi & Hf & Hnd).
  pose proof (fresh_accept_seq Hnew) as Hseq.
  assert (A ++ [e] `sublist_of` L ++ [e]) as HA by (by destruct Hseq).
  destruct (data_entry _ _ _ _ _ _ _ _ _ fresh_data HA) as [Hnde Hin].
  destruct (recvFlit_accepted w1 (nextFlit w) (wire x' false) rb [] None)
    as (st & b & n & k & blk & ee & Hrecv); try done.
  { apply offer_wire. }
  { by apply (offer_fresh w f q rb x ps P B). }
  { by left. }
  { exact fresh_ack_ready. }
  { intros p Hp. by destruct (Hin p Hp) as (_ & ? & ?). }
  { apply HI. }
  match type of Hrecv with _ = Ok (true, ?w') => set (w2 := w') in * end.
  destruct (fresh_commit w2 rb Hrecv) as (st' & start & Hs); try done.
  { change (0 < txCredits (near w) + Z.of_nat (length rb) ≤ creditPool pn). lia. }
  eexists. split; [exact Hs|]. split; [|split; [by repeat split|]].
  2:{ split; [unfold crossed, sent_world, w2; ws; by rewrite <- !app_assoc, take_drop|].
      change (txCredits (near w) + Z.of_nat (length rb) - 1 + 1 ≤ txCredits (near w) + Z.of_nat (length rb)). lia. }
  pose proof HI as [].
  eapply (send_finish w w2 f q x' rb [] B [] (L ++ [e]) (A ++ [e]) P ps);
    rewrite ?app_nil_r; try done.
  - apply fresh_len.
  - intros g. by apply (offer_after w f q rb x ps P B).
  - change (nextFlit w ≤ S (S (nextFlit w)))%nat. lia.
  - change (ev_ok (curTick w) (Abs.remove timerId (events w))). by apply ev_remove.
  - exact (data_accept _ _ _ _ _ _ _ _ _ k fresh_data HA).
  - change (0 < txCredits (near w) + Z.of_nat (length rb)). lia.
  - change (txCredits (near w) + Z.of_nat (length rb) + 0 ≤ creditPool pn). lia.
  - by left.
  - intros k0 Hk0. change ((k0, timerId) ∈ Abs.remove timerId (events w)) in Hk0.
    by apply in_remove in Hk0 as [_ ?].
  - intros H0. change (packId ∈ Abs.ids (Abs.remove timerId (events w))).
    rewrite in_ids_remove. split; [done|]. by apply iv_live.
  - intros He. pose proof fresh_len as Hlen.
    destruct (iv_clean He) as (HAL & _ & _ & Hs' & Hc & _). rewrite <- Hlen in Hc.
    split; [intros Ha; by rewrite (HAL Ha)|]. split; [split; [by destruct A|done]|]. split; [done|]. split; [|done].
    change (linkState (near w2)) with
      (if bool_decide (linkState (near w) = RETRAIN) then ACTIVE else linkState (near w)).
    by case_bool_decide.
Qed.

(** The last transmission was in the same tick: without errors the receiver takes
    the flit for a duplicate and acknowledges it. *)
Lemma fresh_duplicate :
  error_free pf → ¬ apart → ¬ fresh_new → ∃ w', transmits q [] P w w'.
Proof.
  intros Hef Hap Hold. pose proof fresh_flits as Hfl.
  destruct fresh_params as (Hpn & Hpool & Hdel & Hc0 & Hcb).
  destruct (offer_ids w f q rb ps P B Hfl) as (Hne & Hi & Hf & Hnd).
  pose proof fresh_last as Hlast. pose proof fresh_len as Hlen. pose proof HI as [].
  destruct (iv_clean Hef) as (_ & Hproc & Hwait & Hst & Hc & _).
  unfold fresh_new in Hold. assert (A ≠ []) as HAn by (destruct iv_seq; intros ->; cbn in *; lia).
  assert (L ≠ []) as HLn by (destruct iv_seq; intros ->; by apply sublist_nil_r in so_A).
  destruct (Hproc HLn) as [_ Hp].
  assert (lastProcessedTimestamp (far w) = curTick w) as Hpt by lia.
  assert (crc_error (arrive (far w)) (wire x' false) = false) as Hcrc.
  { unfold crc_error. change (params (arrive (far w))) with (params (far w)).
    rewrite (proj1 iv_far). unfold error_free in Hef. by rewrite Hef. }
  destruct (recvFlit_duplicate w1 (nextFlit w) (wire x' false) rb [] None) as (st & b & n & Hrecv); try done.
  { apply offer_wire. }
  { by apply (offer_fresh w f q rb x ps P B). }
  { by left. }
  { change (0 < rxFlitCounter (far w)). lia. }
  { change (curTick w ≤ lastProcessedTimestamp (far w)). lia. }
  { change (lastProcessedTimestamp (far w1)) with (lastProcessedTimestamp (far w)). rewrite Hpt. exact fresh_ack_ready. }
  match type of Hrecv with _ = Ok (true, ?w') => set (w2 := w') in * end.
  destruct (fresh_commit w2 rb Hrecv) as (st' & start & Hs); try done.
  { change (0 < txCredits (near w) + Z.of_nat (length rb) ≤ creditPool pn). lia. }
  eexists. split; [exact Hs|]. split; [|split; [by repeat split|split; [by rewrite app_nil_r|]]].
  2:{ change (txCredits (near w) + Z.of_nat (length rb) - 1 + 1 ≤ txCredits (near w) + Z.of_nat (length rb)). lia. }
  eapply (send_finish w w2 f q x' rb [] B [] (L ++ [e]) A P ps); rewrite ?app_nil_r; try done.
  - intros g. by apply (offer_after w f q rb x ps P B).
  - change (nextFlit w ≤ S (S (nextFlit w)))%nat. lia.
  - change (ev_ok (curTick w) (Abs.remove timerId (events w))). by apply ev_remove.
  - apply (fresh_seq [e]); [by apply sublist_inserts_l|apply single_sorted].
  - exact fresh_data.
  - change (0 < txCredits (near w) + Z.of_nat (length rb)). lia.
  - change (txCredits (near w) + Z.of_nat (length rb) + 0 ≤ creditPool pn). lia.
  - by left.
  - intros k0 Hk0. change ((k0, timerId) ∈ Abs.remove timerId (events w)) in Hk0.
    by apply in_remove in Hk0 as [_ ?].
  - intros H0. change (packId ∈ Abs.ids (Abs.remove timerId (events w))).
    rewrite in_ids_remove. split; [done|]. by apply iv_live.
  - intros _. rewrite <- Hlen in Hc. split; [done|]. split; [done|]. split; [done|]. split; [|done].
    change (linkState (near w2)) with
      (if bool_decide (linkState (near w) = RETRAIN) then ACTIVE else linkState (near w)).
    by case_bool_decide.
Qed.

Lemma fresh_dropped :
  crc_error (arrive (far w)) (wire x' false) = false → rxWaitingForRetry (far w) = true →
  simLastTick (near w) < curTick w → ∃ w', transmits q [] P w w'.
Proof.
  intros Hcrc Hwait Hlast. pose proof fresh_flits as Hfl.
  destruct fresh_params as (Hpn & Hpool & Hdel & Hc0 & Hcb).
  destruct (recvFlit_dropped w1 (nextFlit w) (wire x' false)) as (st & b & n & Hrecv); try done.
  { apply offer_wire. }
  match type of Hrecv with _ = Ok (true, ?w') => set (w2 := w') in * end.
  destruct (fresh_commit w2 [] Hrecv) as (st' & start & Hs); try done.
  { intros g Hg. by apply not_elem_of_nil in Hg. }
  { change (0 < txCredits (near w) ≤ creditPool pn). lia. }
  eexists. split; [exact Hs|]. split; [|split; [by repeat split|split; [by rewrite app_nil_r|]]].
  2:{ change (txCredits (near w) - 1 + Z.of_nat (length (rb ++ [f])) ≤ txCredits (near w) + Z.of_nat (length rb)).
      rewrite length_app. cbn. lia. }
  pose proof fresh_B as HB. pose proof fresh_len as Hlen.
  pose proof HI as []. pose proof iv_seq as Hseq0. destruct Hseq0.
  eapply (send_finish w w2 f q x' [] rb [] B (L ++ [e]) A P ps); try done.
  - intros g. apply (offer_after w f q rb x ps P B fresh_flits []).
    intros h Hh. by apply not_elem_of_nil in Hh.
  - change (nextFlit w ≤ S (nextFlit w))%nat. lia.
  - apply fresh_seq; [by apply sublist_app|]. apply sorted_snoc; [done|].
    eapply Forall_impl; [exact HB|]. unfold before. cbn. intros; lia.
  - exact fresh_data.
  - change (txCredits (near w) + Z.of_nat (length B) ≤ creditPool pn). lia.
  - destruct B as [|e' B'] eqn:HBe; [by left|right]. destruct iv_live.
    destruct (lo_timer ltac:(done) Hblk e' B' eq_refl) as (k & Hk & Hle). eauto 10.
  - apply iv_live.
  - intros H0. by apply iv_live.
  - intros He. destruct (iv_clean He) as (_ & _ & Hw & _). congruence.
Qed.

Lemma fresh_naked :
  crc_error (arrive (far w)) (wire x' false) = true → simLastTick (near w) < curTick w →
  ∃ w', transmits q [] P w w' ∧ pool w' = txCredits (near w).
Proof.
  intros Hcrc Hlast. pose proof fresh_flits as Hfl.
  destruct fresh_params as (Hpn & Hpool & Hdel & Hc0 & Hcb).
  destruct (offer_ids w f q rb ps P B Hfl) as (Hne & Hi & Hf & Hnd).
  assert (params (far w) = pf) as Hpf by apply HI.
  assert (dgt (errorRate pf) (S754_zero false) = true) as Herr.
  { unfold crc_error in Hcrc. change (params (arrive (far w))) with (params (far w)) in Hcrc.
    rewrite Hpf in Hcrc. by destruct (dgt (errorRate pf) (S754_zero false)). }
  destruct (pk_err _ _ Hprm Herr) as [d Hd].
  destruct (recvFlit_naked w1 (nextFlit w) (wire x' false) d)
    as (st & b & n & c & t & Hrecv & Hpc & Hlater & Ht); try done.
  { apply offer_wire. }
  { by apply (offer_fresh w f q rb x ps P B). }
  { change (params (far w1)) with (params (far w)). by rewrite Hpf. }
  { by apply fresh_nak_ready. }
  match type of Hrecv with _ = Ok (true, ?w') => set (w2 := w') in * end.
  destruct (fresh_commit w2 rb Hrecv) as (st' & start & Hs); try done.
  { change (0 < txCredits (near w) ≤ creditPool pn). lia. }
  match goal with |- ∃ w', _ => exists (sent_world f q st' start w2) end.
  assert (pool (sent_world f q st' start w2) = txCredits (near w)) as Hpw.
  { change (txCredits (near w) - 1 + 1 = txCredits (near w)). lia. }
  split; [|exact Hpw]. split; [exact Hs|]. split; [|split; [by repeat split|split; [by rewrite app_nil_r|]]].
  2:{ rewrite Hpw. unfold pool. lia. }
  pose proof HI as [].
  assert (events w2 = add_event sendFlitEvent t (Abs.remove timerId (events w))) as Hev by done.
  eapply (send_finish w w2 f q x' rb [] B [] (L ++ [e]) A P ps);
    rewrite ?app_nil_r, ?Hev; try done.
  - apply fresh_len.
  - intros g. by apply (offer_after w f q rb x ps P B).
  - change (nextFlit w ≤ S (S (nextFlit w)))%nat. lia.
  - destruct iv_near as (? & _ & Hper). split; [done|]. split.
    + change (clock_ok (curTick w) c). apply Hlater. change (curTick w1) with (curTick w). lia.
    + change (clockPeriod c = clk_period pn). by rewrite Hpc.
  - change (curTick w2) with (curTick w). apply ev_add; [by apply ev_remove|].
    change (curTick w1) with (curTick w) in Ht. lia.
  - apply (fresh_seq [e]); [by apply sublist_inserts_l|apply single_sorted].
  - exact fresh_data.
  - change (txCredits (near w) + 0 ≤ creditPool pn). lia.
  - by left.
  - intros k0 [Hk0|[[=] _]]%in_add_event. by apply in_remove in Hk0 as [_ ?].
  - intros H0. rewrite in_ids_add, in_ids_remove. right. split; [done|]. by apply iv_live.
  - intros He. unfold error_free in He. congruence.
Qed.
End Fresh.

(** The transmission that comes next has a tick of its own, or there are no errors
    and nothing is claimed of the ticks. *)
Definition in_turn (w : W) : Prop :=
  simLastTick (near w) < curTick w ∨ error_free pf ∧ ¬ apart.

(** The transmit handler on a queue it can serve: one flit moves on, and its TLPs
    cross or are lost. *)
Lemma send_step L A B P w f q x :
  Inv_at (Some sendFlitEvent) L A B P w → txSendQueue (near w) = f :: q →
  txBlocked (near w) = false → txCredits (near w) ≠ 0 → in_turn w → flits w !! f = Some x →
  ∃ P' w', P = originalPackets x :: P' ∧
    (transmits q (originalPackets x) P' w w' ∨ transmits q [] P' w w').
Proof.
  intros HI Hq Hblk Hcr Hturn Hx.
  pose proof (iv_flits _ _ _ _ _ _ _ _ _ HI) as [Htx _ _ _ _]. rewrite Hq in Htx.
  inversion Htx as [|? ps ? P' (y & Hy & Hre & <-) HP]; subst. rewrite Hx in Hy. injection Hy as <-. exists P'.
  destruct (crc_error (arrive (far w)) (wire (x <| timestamp := curTick w |>) false)) eqn:Hcrc.
  - destruct Hturn as [Hlast|[He _]].
    + destruct (fresh_naked L A B P' w f q x) as (w' & ? & _); try done. exists w'. auto.
    + exfalso. unfold crc_error in Hcrc. change (params (arrive (far w))) with (params (far w)) in Hcrc.
      rewrite (proj1 (iv_far _ _ _ _ _ _ _ _ _ HI)) in Hcrc. unfold error_free in He. by rewrite He in Hcrc.
  - destruct (rxWaitingForRetry (far w)) eqn:Hwait.
    + destruct Hturn as [Hlast|[He _]].
      * destruct (fresh_dropped L A B P' w f q x) as (w' & ?); try done. exists w'. auto.
      * destruct (iv_clean _ _ _ _ _ _ _ _ _ HI He) as (_ & _ & ? & _). congruence.
    + destruct (decide (rxFlitCounter (far w) ≤ 0 ∨ lastProcessedTimestamp (far w) < curTick w)) as [Hnew|Hold].
      * destruct (fresh_accepted L A B P' w f q x) as (w' & ?); try done. exists w'. auto.
      * destruct Hturn as [Hlast|[He Ha]].
        { destruct Hold. by eapply (later_new L A B P' w x). }
        destruct (fresh_duplicate L A B P' w f q x) as (w' & ?); try done. exists w'. auto.
Qed.

(** The transmit handler, on every state in which its queue is empty, stalled, or
    served in turn. *)
Lemma send_inv L A B P w :
  Inv_at (Some sendFlitEvent) L A B P w →
  (txSendQueue (near w) = [] ∨ txBlocked (near w) = true ∨ txCredits (near w) = 0 ∨ in_turn w) →
  ∃ w', processSendFlit Near far_recvTimingReq w = Ok (tt, w') ∧ Inv w'.
Proof.
  intros HI Hlast. destruct (txSendQueue (near w)) as [|f q] eqn:Hq.
  { exists w. split; [apply processSendFlit_idle; by left|]. exists L, A, B, P.
    pose proof HI as []. assert (P = []) as ->.
    { destruct iv_flits as [Htx _ _ _ _]. rewrite Hq in Htx. by inversion Htx. }
    split; try done. destruct iv_live.
    split; [intros _; by apply lo_timer|done|done|intros _; by apply lo_pack]. }
  destruct (txBlocked (near w)) eqn:Hblk.
  { exists w. split; [apply processSendFlit_idle; by right|]. exists L, A, B, P.
    pose proof HI as []. split; try done. destruct iv_live.
    split; [by rewrite Hblk|done|by rewrite Hblk|intros _; by apply lo_pack]. }
  destruct (Z.eq_dec (txCredits (near w)) 0) as [Hcr|Hcr].
  { eexists. split; [apply processSendFlit_stall; congruence|]. exists L, A, B, P.
    pose proof HI as []. split; ws; try done.
    - by destruct iv_credit.
    - destruct iv_live. split; [done|done|done|intros _; by apply lo_pack]. }
  destruct Hlast as [?|[?|[?|Hlast]]]; try done.
  pose proof (iv_flits _ _ _ _ _ _ _ _ _ HI) as [Htx _ _ _ _]. rewrite Hq in Htx.
  inversion Htx as [|? ps ? P0 (x & Hx & _)]; subst.
  destruct (send_step L A B (ps :: P0) w f q x) as (P' & w' & _ & [Ht|Ht]); try done;
    destruct Ht as (Hr & Hi & _); exists w'; (split; [done|by eapply Inv_with_Inv]).
Qed.

End Safety.
