(* ===== verification/UcieProbe.v ===== *)
(** * The retry timer keeps the invariant

    [processRetryTimeout] resends the oldest unacknowledged flit as a probe.
    The receiver re-acknowledges it when it is a duplicate and takes it when it
    had been dropped; either way the answer retires a prefix of the buffer. *)

From Stdlib Require Import SpecFloat.
From S2P Require Import Prelude MemCmd Packet Clocked EventQueue EventQueueSpec FlitPacker Latency UcieLink UcieSystem UcieRuns UcieInv UcieSend.
#[local] Open Scope Z_scope.

Section Probe.
Context {E : Type} `{EnvE : Environment E} (pn pf : UcieLinkParams) (apart : Prop).
Context (Hprm : params_ok pn pf).
Abbreviation W := (World (Bench E)).
Implicit Types w : W.
Abbreviation Inv_at := (Inv_at pn pf apart).
Abbreviation Inv_with := (Inv_with pn pf apart).
Abbreviation Inv := (Inv pn pf apart).

(** The timer an acknowledgement leaves, from the oldest live flit. *)
Definition next_timer (delay : Z) (Bl : list Entry) : option Z :=
  match Bl with [] => None | e :: _ => Some (e.1 + delay) end.

(** *** Events after an acknowledgement and the rearmed timer *)

Definition probed_events (delay now : Z) (Bl : list Entry) (q : Abs.queue) : Abs.queue :=
  add_event retryTimeoutEvent (now + delay) (ack_events (next_timer delay Bl) q).

Lemma in_ack_events k i timer (q : Abs.queue) :
  (k, i) ∈ ack_events timer q ↔
  ((k, i) ∈ q ∧ i ≠ timerId) ∨ (∃ t, timer = Some t ∧ k = (t, Default_Pri) ∧ i = timerId).
Proof.
  unfold ack_events. destruct timer as [t|].
  - rewrite in_insert, in_remove. cbn. naive_solver.
  - rewrite in_remove. cbn. naive_solver.
Qed.

Lemma probed_ok delay now Bl q :
  ev_ok now q → 0 ≤ delay → (∀ e B', Bl = e :: B' → now ≤ e.1 + delay) →
  ev_ok now (probed_events delay now Bl q).
Proof.
  intros Hq Hd HB. unfold probed_events. apply ev_add; [|lia]. unfold ack_events.
  destruct Bl as [|e B']; cbn [next_timer]; [by apply ev_remove|].
  apply ev_insert; [by apply ev_remove|cbn; eauto|apply (known_near retryTimeoutEvent)|apply remove_not_in].
Qed.

Lemma probed_other delay now Bl q i :
  i ≠ timerId → i ∈ Abs.ids (probed_events delay now Bl q) ↔ i ∈ Abs.ids q.
Proof.
  intros Hi. unfold probed_events. rewrite in_ids_add, !in_ids.
  setoid_rewrite in_ack_events. naive_solver.
Qed.

Lemma probed_timer delay now Bl q k :
  (k, timerId) ∈ probed_events delay now Bl q ↔
  match Bl with
  | [] => k = (now + delay, Default_Pri)
  | e :: _ => k = (e.1 + delay, Default_Pri)
  end.
Proof.
  unfold probed_events. rewrite in_add_event, in_ids.
  setoid_rewrite in_ack_events. destruct Bl as [|e Bl]; cbn; naive_solver.
Qed.

Lemma probed_length delay now Bl q :
  timerId ∉ Abs.ids q → length (probed_events delay now Bl q) = S (length q).
Proof.
  intros Hq. unfold probed_events, ack_events. rewrite remove_absent by done.
  destruct Bl as [|e B']; cbn [next_timer].
  - rewrite add_event_new by done. by rewrite Abs.insert_perm.
  - rewrite add_event_pending by (rewrite Abs.insert_ids; by left). by rewrite Abs.insert_perm.
Qed.

Lemma probed_live delay now staged q P B Bl :
  live_ok (Some retryTimeoutEvent) delay now false staged q P B →
  (∀ e B', Bl = e :: B' → e.1 ≤ now) →
  live_ok None delay now false staged (probed_events delay now Bl q) P Bl.
Proof.
  intros [_ _ Hs Hp] HB. destruct event_ids_ne as (_ & Hpt & Hst). split.
  - intros _ _ e B' ->. exists (e.1 + delay, Default_Pri). rewrite probed_timer. done.
  - intros k. rewrite probed_timer. destruct Bl as [|e B']; intros ->; cbn; [lia|].
    specialize (HB e B' eq_refl). lia.
  - intros _ _ HP. rewrite probed_other by done. by apply Hs.
  - intros _ Hst'. rewrite probed_other by done. by apply Hp.
Qed.

(** The world an acknowledged probe leaves. *)
Lemma ack_finish L A A' Bd Bl P w w2 dead live c acked st :
  Inv_at (Some retryTimeoutEvent) L A (Bd ++ Bl) P w → txBlocked (near w) = false →
  retryBuffer (near w) = dead ++ live → length dead = length Bd →
  (∀ e B', Bl = e :: B' → curTick w ≤ e.1 + retryTimeoutDelay pn) →
  near w2 = (near w) <| clk := c |> <| lastAckedTimestamp := acked |>
              <| retryBuffer := live |> <| txCredits ::= λ n, n + Z.of_nat (length dead) |>
              <| linkState ::= λ s, if bool_decide (live = []) && bool_decide (s = RETRAIN)
                                    then ACTIVE else s |> →
  clockPeriod c = clockPeriod (clk (near w)) → clock_ok (curTick w) c →
  params (far w2) = params (far w) → clk (far w2) = clk (far w) →
  txSendQueue (far w2) = txSendQueue (far w) →
  (∀ g, flits w2 !! g = if decide (g ∈ dead) then None else flits w !! g) →
  (nextFlit w ≤ nextFlit w2)%nat → curTick w2 = curTick w →
  events w2 = ack_events (next_timer (retryTimeoutDelay pn) Bl) (events w) →
  seq_ok (simLastTick (near w)) (curTick w) L A' Bl (rxFlitCounter (far w2))
    (lastProcessedTimestamp (far w2)) →
  data_ok (sent (env w2)) (received (env w2)) (tlpSendQueue (far w2)) (pkts w2) L A' P
    (txPacker (near w)) →
  (error_free pf → A' = A ∧ lastProcessedTimestamp (far w2) = lastProcessedTimestamp (far w) ∧
     rxWaitingForRetry (far w2) = false) →
  Inv_with P (w2 <| near ::= λ l, l <| stats := st |> |>
          <| events ::= add_event retryTimeoutEvent
               (curTick w + retryTimeoutDelay (params (near w))) |>).
Proof.
  intros HI Hblk Hrb Hlen Hdue Hn Hcp Hck Hpf Hcf Htf Hfl Hnx Hct Hev Hseq Hdata Hclean.
  pose proof HI as []. destruct iv_near as (Hpn & _ & Hper). pose proof Hprm as [_ [Hd _] _ _ _ _].
  assert (Forall (λ e : Entry, e.1 ≤ curTick w) Bl) as HBl.
  { destruct Hseq. apply Forall_forall. intros e He. rewrite Forall_forall in so_bound.
    specialize (so_bound e (elem_of_sublist _ _ _ He so_B)). lia. }
  assert (flits_ok (flits w2) (nextFlit w2) (txSendQueue (near w)) live P Bl) as Hflits.
  { rewrite Hrb in iv_flits. by eapply flits_retire. }
  exists L, A', Bl. split; ws; rewrite ?Hn, ?Hct, ?Hpn, ?Hev; ws; try done.
  - split; [done|]. split; [done|]. cbn. by rewrite Hcp.
  - destruct iv_far as (? & ? & ?). unfold link_time. by rewrite Hpf, Hcf.
  - by apply probed_ok.
  - by rewrite Htf.
  - destruct iv_credit. split; [lia| |by rewrite Hblk]. rewrite length_app in co_bound. lia.
  - rewrite Hblk in *. eapply probed_live; [exact iv_live|]. intros e B' ->.
    by apply Forall_cons in HBl as [? _].
  - intros He. destruct (iv_clean He) as (HA & Hlp & _ & Hs & Hc & Hb). destruct (Hclean He) as (-> & Hlp' & Hw).
    rewrite length_app in Hc, Hb. unfold clean. ws. rewrite ?Hn. ws.
    split; [done|]. split; [by rewrite Hlp'|]. split; [done|]. split; [|lia]. by rewrite (bool_decide_false (_ = RETRAIN)), andb_false_r.
Qed.

(** The timer has fired exactly when the oldest flit [f] is due, and the probe
    [y] is on the wire. *)
Section AtProbe.
Context (L A B' : list Entry) (P : list (list PktId)) (w : W) (f : FlitId) (buf : list FlitId)
  (x y : UcieFlitPacket) (e : Entry) (c : Clocked).
Context (HI : Inv_at (Some retryTimeoutEvent) L A (e :: B') P w).
Context (Hblk : txBlocked (near w) = false) (Hrb : retryBuffer (near w) = f :: buf)
  (Hx : flits w !! f = Some x) (Hts : timestamp x = e.1) (Hps : originalPackets x = e.2)
  (Hdue : curTick w = e.1 + retryTimeoutDelay pn).
Context (Hy : is_probe x y) (Hcp : clockPeriod c = clockPeriod (clk (near w)))
  (Hck : ∀ now, curTick w ≤ now → clock_ok now c).
Let w1 : W := probe_world y c w.
Let rb : list FlitId := retryBuffer (near w).

Lemma probe_flits : flits_ok (flits w) (nextFlit w) (txSendQueue (near w)) rb P (e :: B').
Proof. apply HI. Qed.

Lemma probe_none g : (nextFlit w ≤ g)%nat → flits w !! g = None.
Proof.
  intros Hg. destruct (flits w !! g) eqn:Hfg; [|done]. destruct probe_flits as [_ _ _ Hdom Hnx].
  assert (g < nextFlit w)%nat; [|lia]. apply Hnx, Hdom. by eexists.
Qed.

Lemma probe_wire : flits w1 !! nextFlit w = Some y.
Proof. apply lookup_insert_eq. Qed.

Lemma probe_fresh : flits w1 !! nextFlit w1 = None.
Proof.
  change (<[nextFlit w := y]> (flits w) !! S (nextFlit w) = None).
  rewrite lookup_insert_ne by lia. apply probe_none. lia.
Qed.

Lemma probe_old g : g ∈ rb → (g < nextFlit w)%nat ∧ flits w1 !! g = flits w !! g.
Proof.
  intros Hg. destruct probe_flits as [_ _ _ _ Hnx].
  assert (g < nextFlit w)%nat as Hlt by (apply Hnx, elem_of_app; auto). split; [done|].
  change (<[nextFlit w := y]> (flits w) !! g = flits w !! g). rewrite lookup_insert_ne; [done|lia].
Qed.

Lemma probe_after dead g : (∀ h, h ∈ dead → h ∈ rb) →
  base.delete (nextFlit w) (del_all dead (flits w1)) !! g =
  if decide (g ∈ dead) then None else flits w !! g.
Proof.
  intros Hdead. change (flits w1) with (<[nextFlit w := y]> (flits w)).
  destruct (decide (g = nextFlit w)) as [->|Hg].
  - rewrite lookup_delete_eq. case_decide; [done|]. symmetry. by apply probe_none.
  - by rewrite lookup_delete_ne, del_all_lookup, lookup_insert_ne by done.
Qed.

Lemma probe_ack_ready p dead live Bd Bl :
  rb = dead ++ live → e :: B' = Bd ++ Bl → length dead = length Bd →
  Forall (λ a : Entry, a.1 ≤ p) Bd → Forall (λ a : Entry, p < a.1) Bl → e.1 ≤ p →
  ack_ready w1 p dead live (next_timer (retryTimeoutDelay pn) Bl).
Proof.
  intros Hdl HB Hlen HBd HBl Hep. pose proof probe_flits as [_ Hre Hnd _ _].
  apply NoDup_app in Hnd as (_ & _ & Hnd). rewrite Hdl in Hre, Hnd.
  assert (Forall (λ a : Entry, a.1 ≤ curTick w) (e :: B')) as Hpast.
  { destruct (iv_seq _ _ _ _ _ _ _ _ _ HI). rewrite Forall_forall in *. intros a Ha.
    specialize (so_bound a (elem_of_sublist _ _ _ Ha so_B)). lia. }
  rewrite HB in Hre, Hpast. apply Forall_app in Hpast as [_ Hpast].
  apply Forall2_app_inv in Hre as [Hred Hrel]; [|done].
  pose proof HI as []. destruct iv_near as (Hpn & _). destruct iv_credit. pose proof Hprm as [].
  assert (Z.of_nat (length dead) ≤ Z.of_nat (length (e :: B'))) as Hle.
  { rewrite HB, length_app. lia. }
  split; change (near w1) with ((near w) <| clk := c |>); change (curTick w1) with (curTick w);
    ws; rewrite ?Hpn; try done; try lia; try (unfold is_u32; lia).
  - by apply NoDup_app in Hnd as (? & _ & _).
  - intros g Hg. destruct (probe_old g) as [_ ->]; [rewrite Hdl; set_solver|].
    apply list_elem_of_lookup in Hg as [j Hj].
    destruct (Forall2_lookup_l _ _ _ _ _ Hred Hj) as (a & Ha & z & Hz & Htz & _).
    exists z. split; [done|]. rewrite Htz. rewrite Forall_lookup in HBd. by apply (HBd j).
  - destruct Hrel as [|g a live' Bl' (z & Hz & Htz & _) Hrel']; [done|].
    apply Forall_cons in HBl as [Ha _]. apply Forall_cons in Hpast as [Hpa _].
    apply NoDup_app in Hnd as (_ & Hdis & _). split.
    { intros Hg. apply (Hdis g Hg). by left. }
    exists z. destruct (probe_old g) as [_ ->]; [rewrite Hdl; set_solver|].
    cbn. rewrite Htz. cbn in *. repeat split; (done || lia).
Qed.

(** The link commits once the receiver has answered. *)
Context (Hfin : ∀ w2, far_recvTimingReq (FlitPtr (nextFlit w)) w1 = Ok (true, w2) →
  curTick w2 = curTick w →
  ∃ st, processRetryTimeout Near far_recvTimingReq w =
    Ok (tt, w2 <| near ::= λ l, l <| stats := st |> |>
               <| events ::= add_event retryTimeoutEvent
                    (curTick w + retryTimeoutDelay (params (near w))) |>)).

Lemma probe_crc : crc_error (arrive (far w)) y = false.
Proof. destruct Hy as (_ & _ & _ & Hre & _). unfold crc_error. by rewrite Hre, andb_false_r. Qed.

Lemma probe_not_in dead live : rb = dead ++ live → nextFlit w ∉ dead.
Proof. intros Hdl Hin. destruct (probe_old (nextFlit w)); [rewrite Hdl; set_solver|lia]. Qed.

(** What the answered probe leaves. *)
Definition answered (w' : W) : Prop :=
  processRetryTimeout Near far_recvTimingReq w = Ok (tt, w') ∧ Inv_with P w' ∧
  moved (txSendQueue (near w)) w w' ∧ pool w' = pool w ∧ length (events w') = S (length (events w)) ∧
  (error_free pf → retryBuffer (near w') = [] ∧ crossed w' = crossed w).

(** Without errors the receiver has everything the sender has sent. *)
Lemma probe_error_free a :
  error_free pf → a ∈ e :: B' →
  0 < rxFlitCounter (far w) ∧ a.1 ≤ lastProcessedTimestamp (far w).
Proof.
  intros He Ha. pose proof HI as []. destruct (iv_clean He) as (_ & Hlp & _). destruct iv_seq.
  assert (a ∈ L) as HaL by (by eapply elem_of_sublist).
  destruct Hlp as [HAn ->]; [by intros ->; apply elem_of_nil in HaL|].
  rewrite Forall_forall in so_bound. specialize (so_bound _ HaL). cbn in so_bound.
  split; [|lia]. destruct A; [done|]. cbn in so_count. lia.
Qed.

Lemma probe_busy : timerId ∉ Abs.ids (events w).
Proof. by apply (iv_busy _ _ _ _ _ _ _ _ _ HI retryTimeoutEvent). Qed.

Lemma probe_duplicate :
  0 < rxFlitCounter (far w) → e.1 ≤ lastProcessedTimestamp (far w) →
  ∃ w', answered w'.
Proof.
  intros Hcnt Hle. pose proof HI as []. set (p := lastProcessedTimestamp (far w)) in *.
  assert (StronglySorted before (e :: B')) as HsB by (by destruct iv_seq).
  destruct (sorted_split _ p HsB) as (Bd & Bl & HB & HBd & HBl).
  set (dead := take (length Bd) rb). set (live := drop (length Bd) rb).
  assert (rb = dead ++ live) as Hdl by (symmetry; apply take_drop).
  assert (length rb = length (e :: B')) as Hrl.
  { destruct probe_flits as [_ Hre _ _ _]. by eapply Forall2_length. }
  assert (length dead = length Bd) as Hlen.
  { unfold dead. rewrite length_take, Hrl, HB, length_app. lia. }
  destruct Hy as (Hyt & _ & Hyp & Hyr & _).
  destruct (recvFlit_duplicate w1 (nextFlit w) y dead live
              (next_timer (retryTimeoutDelay pn) Bl)) as (st & b & n & Hrecv).
  { apply probe_wire. } { by apply (probe_not_in dead live). } { apply probe_fresh. } { apply probe_crc. }
  { by right. } { exact Hcnt. } { rewrite Hyt, Hts. exact Hle. }
  { by eapply probe_ack_ready. }
  match type of Hrecv with _ = Ok (true, ?w') => set (w2 := w') in * end.
  destruct (Hfin w2 Hrecv eq_refl) as (st' & Hrun). eexists. split; [exact Hrun|].
  split; [|split; [by repeat split|split; [|split]]].
  2:{ change (txCredits (near w) + Z.of_nat (length dead) + Z.of_nat (length live) = pool w).
      unfold pool. fold rb. rewrite Hdl, length_app. lia. }
  2:{ rewrite (proj1 iv_near). apply probed_length, probe_busy. }
  2:{ intros He. split; [|done]. change (live = []). apply length_zero_iff_nil. apply (f_equal length) in Hdl.
      destruct Bl as [|a Bl]; [rewrite length_app, Hrl, HB, app_nil_r, Hlen in Hdl; lia|].
      apply Forall_cons in HBl as [Ha _]. destruct (probe_error_free a He) as [_ ?]; [|unfold p in *; lia].
      rewrite HB. apply elem_of_app. right. by left. }
  eapply (ack_finish L A A Bd Bl P w w2 dead live c); try done.
  - by rewrite <- HB.
  - intros e' B'' ->. assert (e.1 ≤ e'.1); [|lia].
    apply Forall_cons in HBl as [? _]. unfold p in *. lia.
  - apply Hck. lia.
  - intros g. apply probe_after. intros h Hh. rewrite Hdl. set_solver.
  - change (nextFlit w ≤ S (S (nextFlit w)))%nat. lia.
  - eapply seq_retire; [exact iv_seq|]. rewrite HB. by apply sublist_inserts_l.
Qed.

Lemma probe_accepted :
  rxFlitCounter (far w) ≤ 0 ∨ lastProcessedTimestamp (far w) < e.1 →
  ∃ w', answered w'.
Proof.
  intros Hnew. pose proof HI as []. pose proof iv_seq as Hseq0. destruct Hseq0.
  apply StronglySorted_inv in so_B_sorted as [HsB Hlater].
  assert (e ∈ L) as HeL by (eapply elem_of_sublist; [by left|done]).
  assert (seq_ok (simLastTick (near w)) (curTick w) L (A ++ [e]) B'
            (u64 (rxFlitCounter (far w) + 1)) e.1) as Hseq.
  { eapply seq_accept; [exact iv_seq|done|done| |done|lia].
    etransitivity; [|exact so_B]. by apply sublist_cons. }
  assert (A ++ [e] `sublist_of` L) as HA by (by destruct Hseq).
  destruct (data_entry _ _ _ _ _ _ _ _ _ iv_data HA) as [Hnde Hin].
  destruct Hy as (Hyt & _ & Hyp & Hyr & _).
  destruct (recvFlit_accepted w1 (nextFlit w) y [f] buf
              (next_timer (retryTimeoutDelay pn) B')) as (st & b & n & k & blk & ee & Hrecv).
  { apply probe_wire. } { by apply (probe_not_in [f] buf). } { apply probe_fresh. } { apply probe_crc. }
  { by right. } { by rewrite Hyt, Hts. }
  { rewrite Hyt, Hts. eapply (probe_ack_ready _ [f] buf [e] B'); try done.
    by repeat constructor. }
  { by rewrite Hyp, Hps. }
  { rewrite Hyp, Hps. intros p Hp. by destruct (Hin p Hp) as (_ & ? & ?). }
  { apply iv_data. }
  rewrite Hyt, Hyp, Hts, Hps in Hrecv.
  match type of Hrecv with _ = Ok (true, ?w') => set (w2 := w') in * end.
  destruct (Hfin w2 Hrecv eq_refl) as (st' & Hrun). eexists. split; [exact Hrun|].
  assert (¬ error_free pf) as Hnf.
  { intros He. destruct (probe_error_free e He) as [? ?]; [by left|]. lia. }
  split; [|split; [by repeat split|split; [|split; [|done]]]].
  2:{ change (txCredits (near w) + 1 + Z.of_nat (length buf) = pool w). unfold pool. rewrite Hrb. cbn [length]. lia. }
  2:{ rewrite (proj1 iv_near). apply probed_length, probe_busy. }
  eapply (ack_finish L A (A ++ [e]) [e] B' P w w2 [f] buf c); try done.
  - intros e' B'' ->. apply Forall_cons in Hlater as [? _]. unfold before in *. lia.
  - apply Hck. lia.
  - intros g. apply probe_after. intros h ->%list_elem_of_singleton. unfold rb. rewrite Hrb. by left.
  - change (nextFlit w ≤ S (S (nextFlit w)))%nat. lia.
  - exact (data_accept _ _ _ _ _ _ _ _ _ k iv_data HA).
Qed.
End AtProbe.

(** The oldest flit is due: the probe. *)
Lemma timeout_probe L A B P w f buf e B' :
  Inv_at (Some retryTimeoutEvent) L A B P w → txBlocked (near w) = false →
  retryBuffer (near w) = f :: buf → B = e :: B' → curTick w = e.1 + retryTimeoutDelay pn →
  ∃ w', answered P w w'.
Proof.
  intros HI Hblk Hrb -> Hdue. pose proof HI as []. pose proof iv_near as (Hpn & Hck & Hper).
  pose proof Hprm as []. pose proof iv_flits as [_ Hre _ _ Hnx]. rewrite Hrb in Hre, Hnx.
  apply Forall2_cons in Hre as [(x & Hx & Hts & Hps) _].
  assert (0 ≤ e.1) as He.
  { destruct iv_seq. rewrite Forall_forall in so_bound.
    apply (so_bound e). eapply elem_of_sublist; [by left|done]. }
  destruct (processRetryTimeout_probe w f buf x) as (y & c & Hy & Hcp & Hlater & Hfin);
    rewrite ?Hpn, ?Hper; try done; try lia.
  { assert (f < nextFlit w)%nat; [|lia]. apply Hnx, elem_of_app. right. by left. }
  destruct (decide (0 < rxFlitCounter (far w) ∧ e.1 ≤ lastProcessedTimestamp (far w))) as [[? ?]|Hn].
  - by eapply (probe_duplicate L A B' P w f buf x y e c).
  - by eapply (probe_accepted L A B' P w f buf x y e c); try done; lia.
Qed.

(** The world after a false alarm: the timer is set for the oldest flit. *)
Definition rearmed (t : Z) (w : W) : W := w <| events ::= add_event retryTimeoutEvent t |>.

Lemma timeout_early L A B P w f buf e B' :
  Inv_at (Some retryTimeoutEvent) L A B P w → txBlocked (near w) = false →
  retryBuffer (near w) = f :: buf → B = e :: B' → curTick w < e.1 + retryTimeoutDelay pn →
  processRetryTimeout Near far_recvTimingReq w =
    Ok (tt, rearmed (e.1 + retryTimeoutDelay pn) w) ∧
  Inv_with P (rearmed (e.1 + retryTimeoutDelay pn) w).
Proof.
  intros HI Hblk Hrb -> Hlt. pose proof HI as []. pose proof iv_near as (Hpn & Hck & Hper).
  pose proof Hprm as []. pose proof iv_flits as [_ Hre _ _ Hnx]. rewrite Hrb in Hre.
  apply Forall2_cons in Hre as [(x & Hx & Hts & Hps) _].
  assert (0 ≤ e.1 ≤ curTick w) as He.
  { destruct iv_seq. rewrite Forall_forall in so_bound.
    specialize (so_bound e (elem_of_sublist _ _ _ ltac:(by left) so_B)). lia. }
  split; [rewrite <- Hts, <- Hpn; eapply processRetryTimeout_early; rewrite ?Hpn; (done || lia)|].
  exists L, A, (e :: B'). split; unfold rearmed; ws; try done.
  - apply ev_add; [done|lia].
  - destruct iv_live. rewrite Hblk in *. split.
    + intros _ _ e' B'' [= <- <-]. exists (e.1 + retryTimeoutDelay pn, Default_Pri).
      rewrite in_add_event. cbn. split; [|lia]. right. split; [done|].
      by apply (iv_busy retryTimeoutEvent).
    + intros k [Hk|[[= ->] _]]%in_add_event; [by apply lo_timer_bound|cbn; lia].
    + intros _ _ HP. rewrite in_ids_add. right. by apply lo_send.
    + intros _ Hst. rewrite in_ids_add. right. by apply lo_pack.
Qed.

(** The timer handler, when no flit is overdue: the timer was armed for the
    oldest one. *)
Lemma timeout_inv L A B P w :
  Inv_at (Some retryTimeoutEvent) L A B P w →
  (txBlocked (near w) = false → ∀ e B', B = e :: B' → curTick w ≤ e.1 + retryTimeoutDelay pn) →
  ∃ w', processRetryTimeout Near far_recvTimingReq w = Ok (tt, w') ∧ Inv w'.
Proof.
  intros HI Htimer. pose proof (iv_near _ _ _ _ _ _ _ _ _ HI) as (Hpn & Hck & Hper).
  pose proof (iv_now _ _ _ _ _ _ _ _ _ HI) as Hnow. pose proof Hprm as [].
  destruct (txBlocked (near w)) eqn:Hblk.
  { pose proof HI as []. eexists. split; [apply processRetryTimeout_blocked; rewrite ?Hpn; (done || lia)|].
    exists L, A, B, P. split; ws; rewrite ?Hpn; try done.
    - apply ev_add; [done|lia].
    - rewrite Hblk. destruct iv_live. split; [done| |done|].
      + intros k [Hk|[[= ->] _]]%in_add_event; [by apply lo_timer_bound|cbn; lia].
      + intros _ Hst. rewrite in_ids_add. right. by apply lo_pack. }
  destruct (retryBuffer (near w)) as [|f buf] eqn:Hrb; pose proof HI as [].
  { exists w. split; [by apply processRetryTimeout_empty|]. exists L, A, B, P.
    split; try done. assert (B = []) as ->.
    { destruct iv_flits as [_ Hre _ _ _]. rewrite Hrb in Hre. by inversion Hre. }
    destruct iv_live. split; [done|done|intros _; by apply lo_send|intros _; by apply lo_pack]. }
  destruct B as [|e B'].
  { destruct iv_flits as [_ Hre _ _ _]. rewrite Hrb in Hre. by inversion Hre. }
  specialize (Htimer eq_refl e B' eq_refl).
  destruct (Z.lt_ge_cases (curTick w) (e.1 + retryTimeoutDelay pn)) as [Hlt|Hge].
  - destruct (timeout_early L A (e :: B') P w f buf e B') as [Hr Hi]; try done.
    eexists. split; [exact Hr|by eapply Inv_with_Inv].
  - destruct (timeout_probe L A (e :: B') P w f buf e B') as (w' & Hr & Hi & _); try done; [lia|].
    exists w'. split; [done|by eapply Inv_with_Inv].
Qed.

End Probe.
