(* ===== verification/UcieSteps.v ===== *)
(** * Every step of the system keeps the invariant *)

From Stdlib Require Import SpecFloat.
From S2P Require Import Prelude MemCmd Packet Clocked EventQueue EventQueueSpec FlitPacker Latency UcieLink UcieSystem UcieRuns UcieInv UcieSend UcieProbe.
#[local] Open Scope Z_scope.

Section Steps.
Context {E : Type} `{EnvE : Environment E} (pn pf : UcieLinkParams).
Context (Hprm : params_ok pn pf).
Abbreviation W := (World (Bench E)).
Implicit Types w : W.

Section Handlers.
Context (apart : Prop).
Abbreviation Inv_at := (Inv_at pn pf apart).
Abbreviation Inv_with := (Inv_with pn pf apart).
Abbreviation Inv := (Inv pn pf apart).

(** ** Packing *)

(** Queueing new flits keeps every wake-up, and arms the transmit event. *)
Lemma queued_live busy delay now b st st' q P (ids : list FlitId) (Ps : list (list PktId)) B t :
  live_ok busy delay now b st q P B → length ids = length Ps →
  (busy = Some packTlpEvent → st' = 0) → (st' ≠ 0 → st ≠ 0) → busy ≠ Some sendFlitEvent →
  busy ≠ Some retryTimeoutEvent →
  live_ok None delay now b st' (if bool_decide (ids = []) then q else add_event sendFlitEvent t q)
    (P ++ Ps) B.
Proof.
  intros [Ht Hb Hs Hp] Hlen Hst Hst' Hbs Hbt. destruct event_ids_ne as (Hps & _ & Hst2).
  case_bool_decide as Hids.
  - subst ids. destruct Ps; [|done]. rewrite app_nil_r. split; try done.
    + intros _. by apply Ht.
    + intros _. by apply Hs.
    + intros _ H0. apply Hp; [|by auto]. intros Hbusy. by rewrite Hst in H0.
  - split.
    + intros _ Hb0 e B' HB. destruct (Ht ltac:(done) Hb0 e B' HB) as (k & Hk & Hle).
      exists k. rewrite in_add_event. auto.
    + intros k [Hk|[[=] _]]%in_add_event. by apply Hb.
    + intros _ _ _. rewrite in_ids_add. auto.
    + intros _ H0. rewrite in_ids_add. right. apply Hp; [|by auto].
      intros Hbusy. by rewrite Hst in H0.
Qed.

Lemma new_flits_length now w ids Ps fl nx :
  new_flits now w ids Ps fl nx → length ids = length Ps.
Proof. intros []. by eapply Forall2_length. Qed.

Lemma pack_step L A B P w :
  Inv_at (Some packTlpEvent) L A B P w →
  ∃ Ps w', processPackTlp Near w = Ok (tt, w') ∧ Inv_with (P ++ Ps) w' ∧
    concat Ps ++ staged (txPacker (near w')) = staged (txPacker (near w)) ∧
    crossed w' = crossed w ∧ sent (env w') = sent (env w).
Proof.
  intros HI. pose proof HI as [].
  destruct (processPackTlp_run w iv_packer iv_packer_lt)
    as (ids & Ps & k & fl & nx & Hrun & Hnf & Hok & Hc & Hcat & _).
  pose proof (new_flits_length _ _ _ _ _ _ Hnf) as Hlen.
  exists Ps. eexists. split; [exact Hrun|]. split; [|done]. exists L, A, B.
  split; unfold queued_world; ws; try done.
  - case_bool_decide; [done|]. by apply ev_add.
  - lia.
  - by eapply flits_enqueue.
  - by eapply data_pack.
  - rewrite Hc. by eapply queued_live.
Qed.

Lemma pack_inv L A B P w :
  Inv_at (Some packTlpEvent) L A B P w →
  ∃ w', processPackTlp Near w = Ok (tt, w') ∧ Inv w'.
Proof. intros HI. destruct (pack_step L A B P w HI) as (Ps & w' & ? & ?%Inv_with_Inv & _). by exists w'. Qed.

(** ** The requestor *)

Lemma accept_inv L A B P w p x sz d :
  Inv_at None L A B P w → linkState (near w) ≠ RETRAIN → pkts w !! p = Some x →
  isRequest (cmd x) = true → p ∉ sent (env w) → acceptable pn x sz d →
  ∃ Ps w', recvTLP Near p w = Ok (true, w') ∧
    Inv_with (P ++ Ps) (w' <| env ::= λ b, b <| sent ::= λ l, l ++ [p] |> |>) ∧
    concat Ps ++ staged (txPacker (near w')) = staged (txPacker (near w)) ++ [p] ∧
    crossed w' = crossed w ∧ sent (env w') = sent (env w).
Proof.
  intros HI Hst Hx Hreq Hp Hacc. pose proof HI as []. pose proof iv_near as (Hpn & _).
  destruct (recvTLP_run w p x sz d) as (ids & Ps & k & fl & nx & st & Hrun & Hnf & Hok & Hc & Hcat);
    rewrite ?Hpn; try done.
  pose proof (new_flits_length _ _ _ _ _ _ Hnf) as Hlen.
  destruct Hacc as (_ & _ & _ & Hd).
  exists Ps. eexists. split; [exact Hrun|]. split; [|done]. exists L, A, B.
  assert (0 ≤ currentBytes k < 236) as Hk by (rewrite Hc; apply Z.mod_pos_bound; lia).
  split; unfold accepted_world, queued_world; ws; try done.
  - set (q := if bool_decide _ then _ else _).
    assert (ev_ok (curTick w) q) as Hq.
    { subst q. case_bool_decide; [done|]. apply ev_add; [done|lia]. }
    destruct (_ =? 0); [done|]. apply ev_add; [done|lia].
  - lia.
  - by eapply flits_enqueue.
  - eapply data_new; try done.
    + by destruct iv_seq.
    + by eexists _, _.
  - assert (live_ok None (retryTimeoutDelay pn) (curTick w) (txBlocked (near w)) 0
      (if bool_decide (ids = []) then events w else add_event sendFlitEvent (curTick w + d) (events w))
      (P ++ Ps) B) as Hl by (by eapply queued_live).
    destruct Hl as [H1 H2 H3 _]. destruct (Z.eqb_spec (currentBytes k) 0) as [H0|H0].
    + rewrite H0. by split.
    + split.
      * intros Hb0 Hb e B' HB. destruct (H1 Hb0 Hb e B' HB) as (k0 & Hk0 & Hle).
        exists k0. rewrite in_add_event. auto.
      * intros k0 [Hk0|[[=] _]]%in_add_event. by apply H2.
      * intros Hb0 Hb HP. rewrite in_ids_add. right. by apply H3.
      * intros _ _. rewrite in_ids_add. auto.
Qed.

(** ** The memory and the environment *)

(** A retry from the memory also wakes the far transmitter, which has nothing
    to send. *)
Lemma drainTxSendQueue_far w :
  link_time pf (curTick w) (far w) → 0 ≤ curTick w < 2 ^ 62 → ev_ok (curTick w) (events w) →
  ∃ c q, drainTxSendQueue Far w =
      Ok (tt, w <| far ::= λ l, l <| clk := c |> |> <| events := q |>) ∧
    clock_ok (curTick w) c ∧ clockPeriod c = clk_period pf ∧ ev_ok (curTick w) q ∧
    (∀ k i, known i → i ≠ event_id Far sendFlitEvent → (k, i) ∈ q ↔ (k, i) ∈ events w).
Proof.
  intros (Hpf & Hck & Hper) Hnow Hev. pose proof Hprm as [].
  unfold drainTxSendQueue, scheduled. erewrite bind_run by done.
  destruct (decide (event_id Far sendFlitEvent ∈ Abs.ids (events w))) as [Hi|Hi].
  - rewrite bool_decide_true by done. exists (clk (far w)), (events w).
    split; [|done]. apply ok_ext, world_ext; try done. by apply link_ext.
  - rewrite bool_decide_false by done. cbn [negb when_].
    destruct (clockEdge_run (curTick w) 1 (clk (far w))) as (c & Hc & Hp & Hl); [done|lia|lia|lia|].
    pose proof (edge_future (curTick w) (clockPeriod (clk (far w))) 1 ltac:(lia)) as Hf.
    set (t := (edge (curTick w) (clockPeriod (clk (far w))) + 1) * clockPeriod (clk (far w))) in *.
    exists c, (Abs.insert (t, Default_Pri) (event_id Far sendFlitEvent) (events w)).
    split; [|split; [apply Hl; lia|split; [congruence|split]]].
    + erewrite bind_run.
      2:{ unfold clock_edge, getl, lift_res. erewrite bind_run by done. erewrite bind_run by done.
          erewrite bind_run; [|cbn [link_of]; by rewrite Hc]. done. }
      rewrite schedule_run; [done|ws; lia|done].
    + apply ev_insert; [done|cbn; lia|unfold known; auto|done].
    + intros k i Hk Hne. rewrite in_insert. naive_solver.
Qed.

Lemma live_far delay now b st q q' P B :
  live_ok None delay now b st q P B →
  (∀ k i, known i → i ≠ event_id Far sendFlitEvent → (k, i) ∈ q' ↔ (k, i) ∈ q) →
  live_ok None delay now b st q' P B.
Proof.
  intros [Ht Hb Hs Hp] Hq.
  assert (∀ x k, (k, event_id Near x) ∈ q' ↔ (k, event_id Near x) ∈ q) as Hn.
  { intros x k. apply Hq; [apply known_near|by destruct x]. }
  split.
  - intros H1 H2 e B' HB. destruct (Ht H1 H2 e B' HB) as (k & Hk & Hle). exists k. by rewrite Hn.
  - intros k. rewrite Hn. apply Hb.
  - intros H1 H2 H3. specialize (Hs H1 H2 H3). rewrite in_ids in *. destruct Hs as [k Hk].
    exists k. by rewrite Hn.
  - intros H1 H2. specialize (Hp H1 H2). rewrite in_ids in *. destruct Hp as [k Hk].
    exists k. by rewrite Hn.
Qed.

Lemma memretry_run L A B P w :
  Inv_at None L A B P w →
  ∃ c q k b e, recvReqRetry Far mem_peer w =
      Ok (tt, drained k (tlpSendQueue (far w)) b e
                (w <| far ::= λ l, l <| txBlocked := false |> <| tlpBlocked := false |>
                                     <| clk := c |> |> <| events := q |>)) ∧
    clock_ok (curTick w) c ∧ clockPeriod c = clk_period pf ∧ ev_ok (curTick w) q ∧
    (∀ k i, known i → i ≠ event_id Far sendFlitEvent → (k, i) ∈ q ↔ (k, i) ∈ events w).
Proof.
  intros HI. pose proof HI as [].
  set (w0 := w <| far ::= λ l, l <| txBlocked := false |> <| tlpBlocked := false |> |>).
  destruct (drainTxSendQueue_far w0) as (c & q & Hd & Hck & Hper & Hq & Hin); [done|done|done|].
  set (w1 := w0 <| far ::= λ l, l <| clk := c |> |> <| events := q |>).
  destruct (drain_tlp_run (tlpSendQueue (far w)) (length (tlpSendQueue (far w))) w1)
    as (k & b & e & Hdr); [done|done|by apply iv_data|].
  exists c, q, k, b, e. split; [|done].
  unfold recvReqRetry. erewrite bind_run by done. erewrite bind_run by exact Hd.
  unfold drainTlpSendQueue, getl. erewrite bind_run by done. exact Hdr.
Qed.

Lemma memretry_inv L A B P w :
  Inv_at None L A B P w →
  ∃ w', recvReqRetry Far mem_peer w = Ok (tt, w') ∧ Inv w'.
Proof.
  intros HI. destruct (memretry_run L A B P w HI)
    as (c & q & k & b & e & Hrun & Hck & Hper & Hq & Hin). pose proof HI as [].
  eexists. split; [exact Hrun|].
  exists L, A, B, P. split; unfold drained; ws; try done.
  - destruct iv_far as (Hpf & _). done.
  - by apply data_drain.
  - by eapply live_far.
Qed.

Lemma cpuretry_run w :
  tlpSendQueue (near w) = [] →
  recvRespRetry Near far_recvTimingReq w =
    Ok (tt, w <| near ::= λ l, l <| tlpBlocked := false |> |>).
Proof.
  intros Hq. unfold recvRespRetry, drainTlpSendQueue, getl. erewrite bind_run by done.
  erewrite bind_run by done. ws. rewrite Hq. cbn [length drain_tlp].
  unfold getl. erewrite bind_run by done. cbn [link_of id]. ws. by rewrite Hq.
Qed.

(** A response passes both links and reaches the requestor. *)
Lemma memresp_run w p x :
  isResponse (cmd x) = true →
  ∃ e, (set_pkt p x;; sendResp (recvTimingResp Far near_recvTimingResp) (TlpPtr p);; mret tt) w =
    Ok (tt, w <| pkts ::= <[p := x]> |> <| env ::= λ b, b <| est := e |> |>).
Proof.
  intros Hr.
  assert (∀ (w : W) recv, pkts w !! p = Some x → sendResp recv (TlpPtr p) w = recv (TlpPtr p) w)
    as Hsend.
  { intros w0 recv Hx. unfold sendResp, ptr_cmd. erewrite bind_run.
    2:{ erewrite bind_run; [done|]. by apply deref_pkt_run. }
    rewrite Hr. by erewrite bind_run by done. }
  set (w0 := w <| pkts ::= <[p := x]> |>).
  assert (pkts w0 !! p = Some x) as Hx by apply lookup_insert_eq.
  destruct (cpu_recvTimingResp p (est (env w0))) as [ok e] eqn:Hcpu. exists e.
  erewrite bind_run by done. erewrite (bind_run _ _ _ ok); [done|].
  rewrite (Hsend w0) by done. cbn [recvTimingResp]. unfold near_recvTimingResp.
  rewrite (Hsend w0) by done. cbn [recvTimingResp]. rewrite (Hsend w0) by done.
  unfold cpu_peer. rewrite Hcpu. reflexivity.
Qed.

(** A TLP offered to the near link: rejected in [RETRAIN], else accepted. *)
Lemma cpureq_run w p x :
  pkts w !! p = Some x → isRequest (cmd x) = true →
  exec (CpuReq p) w =
    if bool_decide (linkState (near w) = RETRAIN) then Ok w
    else snd <$> (ok ← recvTLP Near p;
                  when_ ok (modify (λ w, w <| env ::= λ b, b <| sent ::= λ l, l ++ [p] |> |>))) w.
Proof.
  intros Hx Hr. unfold exec.
  assert (∀ recv, sendReq recv (TlpPtr p) w = recv (TlpPtr p) w) as Hsend.
  { intros recv. unfold sendReq, ptr_cmd. erewrite bind_run.
    2:{ erewrite bind_run; [done|]. by apply deref_pkt_run. }
    rewrite Hr. by erewrite bind_run by done. }
  case_bool_decide as Hst.
  - erewrite (bind_run _ _ _ false w); [done|]. rewrite Hsend. cbn [recvTimingReq].
    unfold recvTLP, getl. erewrite bind_run by done. cbn [link_of id]. by rewrite bool_decide_true.
  - unfold mbind, M_bind. by rewrite Hsend.
Qed.

(** ** Taking the next event *)

Definition popped (k : key) (rest : Abs.queue) (w : W) : W :=
  w <| events := rest |> <| curTick := k.1 |>.

Lemma live_pop busy k i now delay b st q P B :
  live_ok None delay now b st ((k, i) :: q) P B → now ≤ k.1 →
  (∀ x, i = event_id Near x → busy = Some x) →
  live_ok busy delay k.1 b st q P B.
Proof.
  intros [Ht Hb Hs Hp] Hk Hi.
  assert (∀ x, busy ≠ Some x → event_id Near x ∈ Abs.ids ((k, i) :: q) →
    event_id Near x ∈ Abs.ids q) as Hin.
  { intros x Hx. cbn. intros [Heq|?]%elem_of_cons; [|done]. by destruct Hx; apply Hi. }
  split.
  - intros Hbz Hb0 e B' HB. destruct (Ht ltac:(done) Hb0 e B' HB) as (k0 & Hk0 & Hle).
    exists k0. split; [|done]. apply elem_of_cons in Hk0 as [[= -> Heq]|?]; [|done].
    by destruct Hbz; apply Hi.
  - intros k0 Hk0. assert (k0.1 ≤ now + delay) by (apply Hb; by right). lia.
  - intros Hbz Hb0 HP. apply Hin; [done|]. by apply Hs.
  - intros Hbz Hst. apply Hin; [done|]. by apply Hp.
Qed.

Lemma pop_at busy L A B P w k i rest :
  Inv_at None L A B P w → events w = (k, i) :: rest → k.1 < 2 ^ 62 →
  (∀ x, i = event_id Near x ↔ busy = Some x) →
  Inv_at busy L A B P (popped k rest w).
Proof.
  intros HI Hev Hk Hi. pose proof HI as []. rewrite Hev in *.
  destruct (ev_pop _ _ _ _ iv_ev) as (Hq & Hni & Hle & Hkn).
  split; unfold popped; ws; try done.
  - lia.
  - destruct iv_near as (? & ? & ?). split; [done|]. split; [by eapply clock_later|done].
  - destruct iv_far as (? & ? & ?). split; [done|]. split; [by eapply clock_later|done].
  - intros x ->. by rewrite <- (proj2 (Hi x) eq_refl).
  - by eapply seq_later.
  - eapply live_pop; [exact iv_live|done|]. intros x. by apply Hi.
Qed.

(** A timer that fires is not later than the oldest flit is due. *)
Lemma timer_due L A B P w k rest :
  Inv_at None L A B P w → events w = (k, timerId) :: rest →
  txBlocked (near (popped k rest w)) = false → ∀ e B', B = e :: B' →
  curTick (popped k rest w) ≤ e.1 + retryTimeoutDelay pn.
Proof.
  intros HI Hev Hb e B' ->. pose proof HI as []. destruct iv_live, iv_ev.
  destruct (lo_timer ltac:(done) Hb e B' eq_refl) as (k0 & Hk0 & Hle). rewrite Hev in *.
  apply elem_of_cons in Hk0 as [[= ->]|Hk0]; [done|].
  cbn in ev_nodup. apply NoDup_cons in ev_nodup as [Hn _]. destruct Hn. apply in_ids. eauto.
Qed.
End Handlers.

(** ** The requestor's and the simulator's side of the contract

    [Service] is the next event.  Time stays below 2^62.  Packets are handed over
    once and answered once the memory has them. *)
Definition enabled (a : Action (E := E)) (w : W) : Prop :=
  match a with
  | Service => ∀ k i rest, events w = (k, i) :: rest → k.1 < 2 ^ 62
  | Advance t => curTick w ≤ t < 2 ^ 62 ∧ ∀ k i, (k, i) ∈ events w → t ≤ k.1
  | NewPacket p x => (p ∉ sent (env w))
  | CpuReq p => (p ∉ sent (env w)) ∧
      ∃ x sz d, pkts w !! p = Some x ∧ isRequest (cmd x) = true ∧ acceptable pn x sz d
  | MemResp p x => p ∈ received (env w) ∧ isResponse (cmd x) = true
  | MemRetry | CpuRetry | EnvStep _ => True
  end.

(** A constraint on runs that the simulator does not enforce: an event that
    transmits a flit is in a later tick than the last transmission. *)
Definition spaced (a : Action (E := E)) (w : W) : Prop :=
  match a with
  | Service => ∀ k rest, events w = (k, sendId) :: rest →
      txSendQueue (near w) = [] ∨ txBlocked (near w) = true ∨ txCredits (near w) = 0 ∨
      simLastTick (near w) < k.1
  | _ => True
  end.

Lemma exec_service w k rest s kind :
  events w = (k, event_id s kind) :: rest →
  exec Service w = snd <$> process s (tx_peer s) kind (popped k rest w).
Proof.
  intros Hev. unfold exec. rewrite Hev.
  by replace (event_of (event_id s kind)) with (Some (s, kind)) by (by destruct s, kind).
Qed.

Section Preserved.
Context (apart : Prop).
Abbreviation Inv_at := (Inv_at pn pf apart).
Abbreviation Inv_with := (Inv_with pn pf apart).
Abbreviation Inv := (Inv pn pf apart).

(** The runs on which the invariant holds: spaced ones, and those without errors,
    of which nothing is claimed about ticks. *)
Definition admitted (a : Action (E := E)) (w : W) : Prop := spaced a w ∨ error_free pf ∧ ¬ apart.

Lemma admitted_turn k rest w :
  admitted Service w → events w = (k, sendId) :: rest →
  txSendQueue (near w) = [] ∨ txBlocked (near w) = true ∨ txCredits (near w) = 0 ∨
  in_turn pf apart (popped k rest w).
Proof.
  intros [Hs|He] Hev; [|right; right; right; by right].
  destruct (Hs k rest Hev) as [?|[?|[?|?]]]; [tauto..|right; right; right; by left].
Qed.

(** The five cases of servicing the next event; the far transmitter has nothing to
    send. *)
Lemma service_cases (Q : res W → Prop) w :
  Inv w → enabled Service w →
  (events w = [] → Q (Ok w)) →
  (∀ L A B P k rest, Inv_at None L A B P w → events w = (k, packId) :: rest →
     Inv_at (Some packTlpEvent) L A B P (popped k rest w) →
     Q (snd <$> processPackTlp Near (popped k rest w))) →
  (∀ L A B P k rest, Inv_at None L A B P w → events w = (k, sendId) :: rest →
     Inv_at (Some sendFlitEvent) L A B P (popped k rest w) →
     Q (snd <$> processSendFlit Near far_recvTimingReq (popped k rest w))) →
  (∀ L A B P k rest, Inv_at None L A B P w → events w = (k, timerId) :: rest →
     Inv_at (Some retryTimeoutEvent) L A B P (popped k rest w) →
     (txBlocked (near w) = false → ∀ e B', B = e :: B' → k.1 ≤ e.1 + retryTimeoutDelay pn) →
     Q (snd <$> processRetryTimeout Near far_recvTimingReq (popped k rest w))) →
  (∀ L A B P k rest, Inv_at None L A B P (popped k rest w) → Q (Ok (popped k rest w))) →
  Q (exec Service w).
Proof.
  intros (L & A & B & P & HI) Hen Hnil Hpack Hsend Htimer Hfar. unfold enabled in Hen.
  destruct (events w) as [|[k i] rest] eqn:Hev.
  { unfold exec. rewrite Hev. by apply Hnil. }
  pose proof (Hen k i rest eq_refl) as Hk.
  assert (known i) as Hkn.
  { pose proof HI as []. rewrite Hev in iv_ev. by apply ev_pop in iv_ev as (_ & _ & _ & ?). }
  pose proof (λ b, pop_at apart b _ _ _ _ _ _ _ _ HI Hev Hk) as Hpop.
  destruct Hkn as [->|[->|[->| ->]]]; rewrite (exec_service _ _ _ _ _ Hev); cbn [process tx_peer].
  - eapply Hpack; [done|done|]. apply Hpop. by intros [].
  - eapply Hsend; [done|done|]. apply Hpop. by intros [].
  - eapply Htimer; [done|done|apply Hpop; by intros []|]. by eapply timer_due.
  - replace (processSendFlit Far mem_peer (popped k rest w)) with (Ok (tt, popped k rest w)).
    + eapply (Hfar L A B P). apply Hpop. by intros [].
    + unfold processSendFlit, getl. erewrite bind_run by done. cbn [link_of id].
      by rewrite (iv_far_tx _ _ _ _ _ _ _ _ _ HI : txSendQueue (far (popped k rest w)) = []).
Qed.

Lemma service_inv w :
  Inv w → enabled Service w → admitted Service w → ∃ w', exec Service w = Ok w' ∧ Inv w'.
Proof.
  intros Hi Hen Had. apply (service_cases (λ r, ∃ w', r = Ok w' ∧ Inv w')); [done|done|by exists w|..].
  - intros L A B P k rest _ _ HI. destruct (pack_inv apart L A B P _ HI) as (w' & -> & ?). by exists w'.
  - intros L A B P k rest _ Hev HI. destruct (send_inv pn pf apart Hprm L A B P _ HI) as (w' & -> & ?);
      [exact (admitted_turn k rest w Had Hev)|by exists w'].
  - intros L A B P k rest _ _ HI Hdue. destruct (timeout_inv pn pf apart Hprm L A B P _ HI Hdue) as (w' & -> & ?). by exists w'.
  - intros L A B P k rest HI. eexists. split; [done|]. by exists L, A, B, P.
Qed.

(** Every enabled action runs to completion and keeps the invariant. *)
Lemma step_inv a w : Inv w → enabled a w → admitted a w → ∃ w', exec a w = Ok w' ∧ Inv w'.
Proof.
  intros Hw Hen Had. destruct a; [by apply service_inv| | | | | | |];
    destruct Hw as (L & A & B & P & HI); pose proof HI as []; cbn [enabled] in Hen.
  - destruct Hen as [Ht Hnext]. exists (w <| curTick := t |>). split; [reflexivity|]. exists L, A, B, P.
    split; ws; try done; try lia.
    + destruct iv_near as (? & ? & ?). split; [done|]. split; [eapply clock_later; [done|lia]|done].
    + destruct iv_far as (? & ? & ?). split; [done|]. split; [eapply clock_later; [done|lia]|done].
    + by eapply ev_later.
    + eapply seq_later; [done|lia].
    + destruct iv_live. split; try done. intros k Hk. specialize (lo_timer_bound k Hk). lia.
  - exists (w <| pkts ::= <[p := x]> |>). split; [reflexivity|]. exists L, A, B, P. split; ws; try done.
    apply data_other; [done|by destruct iv_seq|by left].
  - destruct Hen as (Hp & x & sz & d & Hx & Hr & Hacc).
    rewrite (cpureq_run w p x Hx Hr). case_bool_decide as Hst.
    + exists w. split; [done|]. by exists L, A, B, P.
    + destruct (accept_inv apart L A B P w p x sz d) as (Ps & w' & Hrun & Hi%Inv_with_Inv & _); try done.
      eexists. split; [|exact Hi]. by erewrite (bind_run _ _ _ true w').
  - destruct Hen as [Hp Hr]. destruct (memresp_run w p x Hr) as (e & Hrun).
    eexists. split; [unfold exec; cbn [rx_peer]; by rewrite Hrun|].
    exists L, A, B, P. split; ws; try done.
    apply data_other; [done|by destruct iv_seq|by right].
  - destruct (memretry_inv apart L A B P w) as (w' & Hrun & Hi); [done|].
    exists w'. split; [|done]. unfold exec. cbn [tx_peer]. by rewrite Hrun.
  - eexists. split; [unfold exec; cbn [tx_peer]; by rewrite cpuretry_run|].
    exists L, A, B, P. by split.
  - exists (w <| env ::= λ b, b <| est := e |> |>). split; [reflexivity|]. exists L, A, B, P. by split.
Qed.

(** ** Reset *)

Lemma init_run s w :
  (dgt (errorRate (params (link_of s w))) (S754_zero false) = true →
   is_Some (errorThreshold (errorRate (params (link_of s w))))) →
  ∃ d, init s true w =
    Ok (tt, set_link s (λ l, l <| txCredits := u32 (creditPool (params l)) |>
                               <| nextErrorAtBits := d |> <| linkState := ACTIVE |>) w).
Proof.
  intros Hd. unfold init, getl. erewrite bind_run by done. erewrite bind_run by done.
  erewrite bind_run by done. cbv [id].
  replace (params (link_of s (set_link s (λ l, l <| txCredits := u32 (creditPool (params l)) |>) w)))
    with (params (link_of s w)) by (by destruct s).
  destruct (dgt _ _).
  - destruct (Hd eq_refl) as [d ->]. exists d. erewrite bind_run by done. by destruct s.
  - exists (nextErrorAtBits (link_of s w)). erewrite bind_run by done.
    apply ok_ext. destruct s; apply world_ext; try done; by apply link_ext.
Qed.

Lemma boot_inv e : ∃ w, boot pn pf e = Ok w ∧ Inv w.
Proof.
  pose proof Hprm as [Hpool Hdel Hc1 Hc2 Hen Hef].
  set (w0 := mkWorld (UcieLink_ctor pn) (UcieLink_ctor pf) ∅ ∅ 0%nat 0 [] (mkBench e [] [])).
  destruct (init_run Near w0) as (dn & Hn); [done|].
  destruct (init_run Far (set_link Near (λ l, l <| txCredits := u32 (creditPool (params l)) |>
    <| nextErrorAtBits := dn |> <| linkState := ACTIVE |>) w0)) as (df & Hf); [done|].
  eexists. split; [unfold boot; erewrite bind_run by exact Hn; by rewrite Hf|].
  exists [], [], [], []. assert (u32 (creditPool pn) = creditPool pn) as Hu.
  { apply u32_id. unfold is_u32. lia. }
  split; ws; cbn; try done; try lia.
  - by split; [|split; [unfold clock_ok; cbn; lia|]].
  - by split; [|split; [unfold clock_ok; cbn; lia|]].
  - split; [constructor|constructor|by intros ?? ?%elem_of_nil..].
  - split; try by constructor.
    + intros f. rewrite lookup_empty. split; [by intros []|by intros ?%elem_of_nil].
    + by intros f ?%elem_of_nil.
  - split; cbn; (done || constructor || lia || idtac).
  - split; cbn; try done; [constructor|by intros p ?%elem_of_nil..].
  - rewrite Hu. split; cbn; [lia|lia|done].
  - split; try done. by intros k ?%elem_of_nil.
  - intros _. unfold clean. ws. cbn. rewrite Hu. repeat split; (done || lia).
Qed.

End Preserved.

(** ** Runs from reset *)

(** The states of every enabled run. *)
Inductive reachable : W → Prop :=
  | reach_boot e w : boot pn pf e = Ok w → reachable w
  | reach_step a w w' : reachable w → enabled a w → exec a w = Ok w' → reachable w'.

(** The states of the runs in which no two flits are transmitted in one tick. *)
Inductive reachable_spaced : W → Prop :=
  | spaced_boot e w : boot pn pf e = Ok w → reachable_spaced w
  | spaced_step a w w' :
      reachable_spaced w → enabled a w → spaced a w → exec a w = Ok w' → reachable_spaced w'.

Lemma spaced_reachable w : reachable_spaced w → reachable w.
Proof. induction 1; [by eapply reach_boot|by eapply reach_step]. Qed.

Lemma spaced_inv apart w : reachable_spaced w → Inv pn pf apart w.
Proof.
  induction 1 as [e w Hb|a w w' _ IH Hen Hs Hex].
  - destruct (boot_inv apart e) as (w' & Hb' & Hi). congruence.
  - destruct (step_inv apart a w IH Hen) as (w2 & Hex' & Hi); [by left|congruence].
Qed.

Lemma clean_inv w : error_free pf → reachable w → Inv pn pf False w.
Proof.
  intros He. induction 1 as [e w Hb|a w w' _ IH Hen Hex].
  - destruct (boot_inv False e) as (w' & Hb' & Hi). congruence.
  - destruct (step_inv False a w IH Hen) as (w2 & Hex' & Hi); [right; by split; [|intros []]|congruence].
Qed.

End Steps.
