(* ===== verification/UcieProgress.v ===== *)
(** * Progress of the error-free link

    Without injected errors and with at least two credits, the pending events
    run out: every serviced event strictly decreases a rank, and a state without
    events has handed every TLP to the far side. *)

From Stdlib Require Import SpecFloat.
From S2P Require Import Prelude MemCmd Packet Clocked EventQueue EventQueueSpec FlitPacker Latency UcieLink UcieSystem UcieRuns UcieInv UcieSend UcieProbe UcieSteps.
#[local] Open Scope Z_scope.

Section Progress.
Context {E : Type} `{EnvE : Environment E} (pn pf : UcieLinkParams) (apart : Prop).
Context (Hprm : params_ok pn pf) (Herr : error_free pf) (Hpool : 2 ≤ creditPool pn).
Abbreviation W := (World (Bench E)).
Implicit Types w : W.
Abbreviation Inv_at := (Inv_at pn pf apart).
Abbreviation Inv := (Inv pn pf apart).

(** The timer is pending for an earlier tick than the oldest flit's deadline:
    it will fire once without effect. *)
Definition early (w : W) : bool :=
  match retryBuffer (near w) with
  | [] => false
  | f :: _ =>
      match flits w !! f with
      | None => false
      | Some x => existsb (λ '(k, i), bool_decide (i = timerId) &&
                    (k.1 <? timestamp x + retryTimeoutDelay pn)) (events w)
      end
  end.

Definition rank (w : W) : nat :=
  (32 * (if (currentBytes (txPacker (near w)) =? 0)%Z then 0 else 1) +
   16 * length (txSendQueue (near w)) +
   (4 * length (retryBuffer (near w)) + length (events w) + Nat.b2n (early w)))%nat.

Lemma early_pop w k i rest :
  events w = (k, i) :: rest → i ≠ timerId → early (popped k rest w) = early w.
Proof.
  intros Hev Hi. unfold early, popped. ws. rewrite Hev.
  destruct (retryBuffer (near w)); [done|]. destruct (flits w !! _); [|done]. cbn [existsb].
  by rewrite bool_decide_false.
Qed.

Lemma ev_length now (q : Abs.queue) : ev_ok now q → (length q ≤ 4)%nat.
Proof.
  intros [_ Hn _ Hk]. rewrite <- (length_fmap snd q).
  change 4%nat with (length [packId; sendId; timerId; event_id Far sendFlitEvent]).
  apply submseteq_length, NoDup_submseteq; [done|]. intros i Hi.
  apply in_ids in Hi as [k Hi]. specialize (Hk _ _ Hi). unfold known in Hk.
  rewrite !elem_of_cons. tauto.
Qed.

Lemma retry_length busy L A B P w :
  Inv_at busy L A B P w → (length (retryBuffer (near w)) ≤ 1)%nat.
Proof.
  intros []. destruct (iv_clean Herr) as (_ & _ & _ & _ & _ & Hb).
  destruct iv_flits as [_ Hre _ _ _]. apply Forall2_length in Hre. lia.
Qed.

Lemma not_blocked busy L A B P w :
  Inv_at busy L A B P w → txBlocked (near w) = false ∧ txCredits (near w) ≠ 0.
Proof.
  intros []. destruct (iv_clean Herr) as (_ & _ & _ & _ & Hc & Hb). destruct iv_credit.
  destruct (txBlocked (near w)); [specialize (co_blocked eq_refl)|]; split; (done || lia).
Qed.

Lemma small_rank w :
  Inv w → (4 * length (retryBuffer (near w)) + length (events w) + Nat.b2n (early w) ≤ 9)%nat.
Proof.
  intros (L & A & B & P & HI). pose proof (retry_length _ _ _ _ _ _ HI).
  pose proof (ev_length _ _ (iv_ev _ _ _ _ _ _ _ _ _ HI)). destruct (early w); cbn; lia.
Qed.

(** A step that only takes an event off the queue. *)
Lemma rank_pop w k i rest :
  events w = (k, i) :: rest → i ≠ timerId → (rank (popped k rest w) < rank w)%nat.
Proof.
  intros Hev Hi. unfold rank. rewrite (early_pop w k i rest) by done.
  unfold popped. ws. rewrite Hev. cbn [length]. lia.
Qed.

Lemma progress_pack L A B P w k rest :
  Inv_at None L A B P w → events w = (k, packId) :: rest → k.1 < 2 ^ 62 →
  ∃ w', exec Service w = Ok w' ∧ Inv w' ∧ sent (env w') = sent (env w) ∧ (rank w' < rank w)%nat.
Proof.
  intros HI Hev Hk. rewrite (exec_service _ _ _ Near packTlpEvent Hev). cbn [process].
  assert (Inv_at (Some packTlpEvent) L A B P (popped k rest w)) as HI'.
  { eapply pop_at; try done. by intros []. }
  pose proof HI' as []. destruct (processPackTlp_run (popped k rest w) iv_packer iv_packer_lt)
    as (ids & Ps & k' & fl & nx & Hrun & Hnf & Hok & Hc & Hcat & Hlen).
  destruct (pack_inv pn pf apart L A B P (popped k rest w) HI') as (w' & Hrun' & Hinv).
  rewrite Hrun in Hrun'. injection Hrun' as Hw'.
  rewrite Hrun. exists w'. rewrite <- Hw'. split; [done|]. rewrite Hw'. split; [done|].
  split; [by rewrite <- Hw'|]. pose proof (small_rank w' Hinv) as Hs.
  change (txPacker (near (popped k rest w))) with (txPacker (near w)) in Hlen.
  destruct (Z.eqb_spec (currentBytes (txPacker (near w))) 0) as [H0|H0].
  - pose proof (rank_pop w k packId rest Hev ltac:(done)) as Hr.
    assert (rank w' = rank (popped k rest w)) as ->; [|done].
    assert (ids = []) as -> by (by apply length_zero_iff_nil).
    assert (early w' = early (popped k rest w)) as He.
    { subst w'. unfold early, queued_world. ws. destruct (retryBuffer _); [done|].
      destruct Hnf as [_ _ _ Hoth]. rewrite Hoth by apply not_elem_of_nil. done. }
    unfold rank. rewrite He. subst w'. unfold queued_world. ws. rewrite Hc, app_nil_r.
    unfold popped. ws. rewrite H0. done.
  - assert (txPacker (near w') = k' ∧
            length (txSendQueue (near w')) = S (length (txSendQueue (near w)))) as [Hk' Hq'].
    { subst w'. unfold queued_world. ws. rewrite length_app, Hlen. split; [done|].
      unfold popped. ws. lia. }
    unfold rank. rewrite Hk', Hq', Hc. cbn [Z.eqb].
    destruct (Z.eqb_spec (currentBytes (txPacker (near w))) 0); [done|]. rewrite Hev in *. cbn [length]. lia.
Qed.

Lemma progress_send L A B P w k rest :
  Inv_at None L A B P w → events w = (k, sendId) :: rest → k.1 < 2 ^ 62 → admitted pf apart Service w →
  ∃ w', exec Service w = Ok w' ∧ Inv w' ∧ sent (env w') = sent (env w) ∧ (rank w' < rank w)%nat.
Proof.
  intros HI Hev Hk Had. pose proof (admitted_turn pf apart k rest w Had Hev) as Hsp.
  rewrite (exec_service _ _ _ Near sendFlitEvent Hev). cbn [process tx_peer].
  assert (Inv_at (Some sendFlitEvent) L A B P (popped k rest w)) as HI'.
  { eapply pop_at; try done. by intros []. }
  destruct (not_blocked _ _ _ _ _ _ HI') as [Hb Hc].
  destruct (txSendQueue (near w)) as [|f q] eqn:Hq.
  - destruct (send_inv pn pf apart Hprm L A B P (popped k rest w) HI') as (w' & Hr & Hi); [by left|].
    rewrite processSendFlit_idle in Hr |- * by (by left). injection Hr as <-.
    exists (popped k rest w). split; [done|]. split; [done|]. split; [done|]. by eapply rank_pop.
  - change (txBlocked (near w) = false) in Hb. destruct Hsp as [?|[?|[?|Hturn]]]; [done|congruence|done|].
    pose proof (iv_flits _ _ _ _ _ _ _ _ _ HI) as [Htx _ _ _ _]. rewrite Hq in Htx.
    inversion Htx as [|? ps ? P0 (x & Hx & _)]; subst.
    assert (∃ ps P' w', transmits pn pf apart q ps P' (popped k rest w) w') as (ps' & P' & w' & Hr & Hi & (Hq' & Hp & Hs) & _).
    { destruct (send_step pn pf apart Hprm L A B (ps :: P0) (popped k rest w) f q x) as (P' & w' & _ & [Ht|Ht]); try done; eauto. }
    apply Inv_with_Inv in Hi.
    rewrite Hr. exists w'. split; [done|]. split; [done|]. split; [done|].
    pose proof (small_rank w' Hi). unfold rank. rewrite Hq', Hp, Hq, Hev.
    unfold popped. ws. cbn [length]. lia.
Qed.

(** After a false alarm the timer is exact. *)
Lemma rank_rearmed w k rest f buf x t :
  retryBuffer (near w) = f :: buf → flits w !! f = Some x →
  timerId ∉ Abs.ids rest → t = timestamp x + retryTimeoutDelay pn →
  rank (rearmed t (popped k rest w)) =
  (32 * (if (currentBytes (txPacker (near w)) =? 0)%Z then 0 else 1) +
   16 * length (txSendQueue (near w)) + (4 * S (length buf) + S (length rest)))%nat.
Proof.
  intros Hrb Hx Hni ->. unfold rank.
  replace (early _) with false.
  - unfold rearmed, popped. ws. rewrite Hrb, add_event_new by done. rewrite Abs.insert_perm.
    cbn [length Nat.b2n]. lia.
  - symmetry. unfold early, rearmed, popped. ws. rewrite Hrb, Hx, add_event_new by done.
    apply not_true_iff_false. intros ([k0 i] & Hin & Hb)%existsb_exists.
    apply andb_true_iff in Hb as [->%bool_decide_eq_true Hlt%Z.ltb_lt].
    apply list_elem_of_In, in_insert in Hin as [[= ->]|Hin]; [cbn in Hlt; lia|].
    apply Hni, in_ids. eauto.
Qed.

Lemma progress_timer L A B P w k rest :
  Inv_at None L A B P w → events w = (k, timerId) :: rest → k.1 < 2 ^ 62 →
  ∃ w', exec Service w = Ok w' ∧ Inv w' ∧ sent (env w') = sent (env w) ∧ (rank w' < rank w)%nat.
Proof.
  intros HI Hev Hk. rewrite (exec_service _ _ _ Near retryTimeoutEvent Hev). cbn [process tx_peer].
  assert (Inv_at (Some retryTimeoutEvent) L A B P (popped k rest w)) as HI'.
  { eapply pop_at; try done. by intros []. }
  pose proof (ev_nodup _ _ (iv_ev _ _ _ _ _ _ _ _ _ HI)) as Hni. rewrite Hev in Hni. cbn in Hni.
  apply NoDup_cons in Hni as [Hni _].
  assert (∀ k0, (k0, timerId) ∈ events w → k0 = k) as Huniq.
  { intros k0 Hk0. rewrite Hev in Hk0. apply elem_of_cons in Hk0 as [[= ->]|Hk0]; [done|]. destruct Hni. apply in_ids. eauto. }
  destruct (not_blocked _ _ _ _ _ _ HI') as [Hb Hc].
  destruct (not_blocked _ _ _ _ _ _ HI) as [Hb0 _].
  destruct (retryBuffer (near w)) as [|f buf] eqn:Hrb.
  { destruct (timeout_inv pn pf apart Hprm L A B P (popped k rest w) HI') as (w' & Hr & Hi).
    { intros _ e B' ->. destruct (iv_flits _ _ _ _ _ _ _ _ _ HI) as [_ Hre _ _ _].
      rewrite Hrb in Hre. by inversion Hre. }
    rewrite processRetryTimeout_empty in Hr |- * by done. injection Hr as <-.
    exists (popped k rest w). split; [done|]. split; [done|]. split; [done|].
    unfold rank, early, popped. ws. rewrite Hrb, Hev. cbn [length]. lia. }
  pose proof (iv_flits _ _ _ _ _ _ _ _ _ HI) as [_ Hre _ _ _]. rewrite Hrb in Hre.
  destruct B as [|e B']; [by inversion Hre|].
  apply Forall2_cons in Hre as [(x & Hx & Hts & _) _].
  destruct (lo_timer _ _ _ _ _ _ _ _ (iv_live _ _ _ _ _ _ _ _ _ HI) ltac:(done) Hb0 e B' eq_refl)
    as (k0 & Hk0 & Hle). rewrite (Huniq _ Hk0) in Hle.
  destruct (Z.eq_dec k.1 (e.1 + retryTimeoutDelay pn)) as [Heq|Hne].
  - destruct (timeout_probe pn pf apart Hprm L A (e :: B') P (popped k rest w) f buf e B')
      as (w' & Hr & Hi%Inv_with_Inv & (Hq' & Hp & Hs) & _ & Hl & He); try done.
    destruct (He Herr) as [He' _]. rewrite Hr. exists w'. split; [done|]. split; [done|]. split; [done|].
    unfold rank. rewrite Hq', Hp, He', Hl, Hrb, Hev. unfold early. rewrite He'.
    unfold popped. ws. cbn [length Nat.b2n]. lia.
  - destruct (timeout_early pn pf apart Hprm L A (e :: B') P (popped k rest w) f buf e B')
      as (Hr & Hi%Inv_with_Inv); try done; [change (k.1 < e.1 + retryTimeoutDelay pn); lia|].
    rewrite Hr. exists (rearmed (e.1 + retryTimeoutDelay pn) (popped k rest w)).
    split; [done|]. split; [done|]. split; [done|].
    set (t := e.1 + retryTimeoutDelay pn) in *.
    assert (early w = true) as Hearly.
    { unfold early. rewrite Hrb, Hx, Hts, Hev. cbn [existsb]. rewrite bool_decide_true by done.
      by rewrite (proj2 (Z.ltb_lt k.1 (e.1 + retryTimeoutDelay pn))) by lia. }
    rewrite (rank_rearmed w k rest f buf x t); try done; [|by rewrite Hts].
    unfold rank. rewrite Hearly, Hrb, Hev. cbn [length Nat.b2n]. lia.
Qed.

(** Every serviced event decreases the rank. *)
Lemma service_progress w :
  Inv w → enabled pn Service w → admitted pf apart Service w → events w ≠ [] →
  ∃ w', exec Service w = Ok w' ∧ Inv w' ∧ sent (env w') = sent (env w) ∧ (rank w' < rank w)%nat.
Proof.
  intros (L & A & B & P & HI) Hen Had Hne. unfold enabled in Hen.
  destruct (events w) as [|[k i] rest] eqn:Hev; [done|].
  pose proof (Hen k i rest eq_refl) as Hk.
  assert (known i) as Hkn.
  { pose proof HI as []. rewrite Hev in iv_ev. by apply ev_pop in iv_ev as (_ & _ & _ & ?). }
  destruct Hkn as [->|[->|[->| ->]]].
  - by eapply progress_pack.
  - by eapply progress_send.
  - by eapply progress_timer.
  - rewrite (exec_service _ _ _ Far sendFlitEvent Hev). cbn [process tx_peer].
    exists (popped k rest w). split; [|split; [|split; [done|by eapply rank_pop]]].
    + unfold processSendFlit, getl. erewrite bind_run by done. cbn [link_of id].
      by rewrite (iv_far_tx _ _ _ _ _ _ _ _ _ HI : txSendQueue (far (popped k rest w)) = []).
    + exists L, A, B, P. eapply pop_at; try done. by intros [].
Qed.

(** In a state without pending events nothing waits to be sent, and what the
    receiver took is all there is when every flit had a tick of its own. *)
Lemma quiescent w :
  Inv w → events w = [] →
  waiting w = [] ∧ staged (txPacker (near w)) = [] ∧ (apart → crossed w = sent (env w)).
Proof.
  intros (L & A & B & P & HI) Hev. destruct (not_blocked _ _ _ _ _ _ HI) as [Hb _].
  rewrite (waiting_spec _ _ _ _ _ _ _ _ _ HI).
  pose proof HI as []. rewrite Hev in iv_live. destruct iv_live.
  assert (P = []) as ->.
  { destruct P; [done|]. specialize (lo_send ltac:(done) Hb ltac:(done)). by apply elem_of_nil in lo_send. }
  assert (staged (txPacker (near w)) = []) as Hst.
  { destruct (Z.eq_dec (currentBytes (txPacker (near w))) 0) as [H0|H0].
    - destruct iv_packer as (Hpos & Hc & _). unfold staged.
      destruct (tlpQueue (txPacker (near w))) as [|t q]; [done|]. exfalso.
      apply Forall_cons in Hpos as [Ht Hq]. rewrite rem_sum_cons in Hc.
      pose proof (rem_sum_nonneg q Hq). lia.
    - specialize (lo_pack ltac:(done) H0). by apply elem_of_nil in lo_pack. }
  split; [done|]. split; [done|]. intros Ha.
  destruct (iv_clean Herr) as (HAL & _). destruct iv_data. unfold crossed.
  rewrite <- do_sent, <- do_recv, Hst, (HAL Ha). cbn. by rewrite app_nil_r.
Qed.

(** Servicing ends in one state. *)
Lemma service_end n n2 w w' w2 :
  run (replicate n Service) w = Ok w' → events w' = [] →
  run (replicate n2 Service) w = Ok w2 → events w2 = [] → w' = w2.
Proof.
  assert (∀ m (v u : W), events v = [] → run (replicate m Service) v = Ok u → u = v) as Hend.
  { induction m as [|m IH]; intros v u Hv; cbn [replicate run]; [by intros [= <-]|].
    unfold mbind, res_bind, exec. rewrite Hv. by apply IH. }
  revert w n2. induction n as [|n IH]; intros w n2 Hrun Hev Hrun2 Hev2.
  - injection Hrun as <-. symmetry. by eapply Hend.
  - destruct n2 as [|n2]; [injection Hrun2 as <-; by eapply (Hend (S n))|].
    cbn [replicate run] in Hrun, Hrun2. unfold mbind, res_bind in *.
    destruct (exec Service w) as [w1|]; [|done]. by eapply IH.
Qed.

(** Servicing events until none is left. *)
Lemma drains n : ∀ w,
  (rank w ≤ n)%nat → Inv w →
  (∀ m w', run (replicate m Service) w = Ok w' → enabled pn Service w' ∧ admitted pf apart Service w') →
  ∃ m w', run (replicate m Service) w = Ok w' ∧ events w' = [] ∧ Inv w' ∧
    sent (env w') = sent (env w).
Proof.
  induction n as [|n IH]; intros w Hr Hi Hen;
    (destruct (decide (events w = [])) as [Hev|Hev]; [by exists 0%nat, w|]);
    destruct (Hen 0%nat w eq_refl) as [Hen0 Had0];
    destruct (service_progress w Hi Hen0 Had0 Hev) as (w1 & Hex & Hi1 & Hs & Hlt);
    [lia|].
  destruct (IH w1) as (m & w' & Hrun & Hev' & Hi' & Hs'); [lia|done| |].
  { intros m w' Hrun. apply (Hen (S m)). cbn [replicate run]. unfold mbind, res_bind. by rewrite Hex. }
  exists (S m), w'. split; [cbn [replicate run]; unfold mbind, res_bind; by rewrite Hex|]. by rewrite Hs'.
Qed.
End Progress.
