(* ===== verification/UcieStall.v ===== *)
(** * The stalled link

    A sender that runs out of credits sets [txBlocked].  Only an acknowledgement
    clears it, an acknowledgement answers a transmission, and while [txBlocked]
    holds neither the transmit event nor the retry timer transmits: the stall is
    permanent. *)

From Stdlib Require Import SpecFloat.
From S2P Require Import Prelude MemCmd Packet Clocked EventQueue EventQueueSpec FlitPacker Latency UcieLink UcieSystem UcieRuns UcieInv UcieSend UcieProbe UcieSteps.
#[local] Open Scope Z_scope.

Section Stall.
Context {E : Type} `{EnvE : Environment E} (pn pf : UcieLinkParams).
Context (Hprm : params_ok pn pf).
Abbreviation W := (World (Bench E)).
Implicit Types w : W.
Abbreviation Inv := (Inv pn pf True).

Definition stalled (w w' : W) : Prop :=
  txBlocked (near w') = txBlocked (near w) ∧ crossed w' = crossed w.

Lemma stalled_service w :
  Inv w → enabled pn Service w → txBlocked (near w) = true →
  ∃ w', exec Service w = Ok w' ∧ stalled w w'.
Proof.
  intros Hi Hen Hb. apply (service_cases pn pf True (λ r, ∃ w', r = Ok w' ∧ stalled w w')); [done|done|by exists w|..].
  - intros L A B P k rest _ _ []. destruct (processPackTlp_run _ iv_packer iv_packer_lt)
      as (ids & Ps & k' & fl & nx & -> & _). by eexists.
  - intros L A B P k rest _ _ _. rewrite processSendFlit_idle by (by right). by eexists.
  - intros L A B P k rest _ _ [] _. pose proof Hprm as []. destruct iv_near as (Hpn & _).
    rewrite processRetryTimeout_blocked; [by eexists|done|rewrite Hpn; lia|lia].
  - intros L A B P k rest _. by eexists.
Qed.

Lemma stalled_step a w :
  Inv w → enabled pn a w → txBlocked (near w) = true →
  ∃ w', exec a w = Ok w' ∧ stalled w w'.
Proof.
  intros Hw Hen Hb. destruct a; [by apply stalled_service| | | | | | |];
    destruct Hw as (L & A & B & P & HI); pose proof HI as []; cbn [enabled] in Hen.
  - by eexists.
  - by eexists.
  - destruct Hen as (Hp & x & sz & d & Hx & Hr & Hacc).
    rewrite (cpureq_run w p x Hx Hr). case_bool_decide as Hst; [by exists w|].
    destruct iv_near as (Hpn & _).
    destruct (recvTLP_run w p x sz d) as (ids & Ps & k & fl & nx & st & Hrun & _);
      rewrite ?Hpn; try done.
    erewrite bind_run by exact Hrun. by eexists.
  - destruct Hen as [Hp Hr]. destruct (memresp_run w p x Hr) as (e & Hrun).
    eexists. split; [unfold exec; cbn [rx_peer]; by rewrite Hrun|done].
  - destruct (memretry_run pn pf Hprm True L A B P w HI) as (c & q & k & b & e & Hrun & _).
    eexists. split; [unfold exec; cbn [tx_peer]; by rewrite Hrun|]. split; [done|].
    cbn [snd]. unfold crossed, drained. ws. by rewrite <- app_assoc, take_drop.
  - eexists. split; [unfold exec; cbn [tx_peer]; by rewrite cpuretry_run|done].
  - by eexists.
Qed.
End Stall.
