(* ===== verification/UcieLoss.v ===== *)
(** * What an error-free link loses

    Timestamps are ticks.  A flit that is transmitted in the tick of the previous
    one looks like a duplicate to the receiver, which acknowledges and discards
    it.  Nothing brings its TLPs back: in a run without injected errors a TLP that
    is in no queue on the way to the memory never comes back to one. *)

From Stdlib Require Import SpecFloat.
From S2P Require Import Prelude MemCmd Packet Clocked EventQueue EventQueueSpec FlitPacker Latency UcieLink UcieSystem UcieRuns UcieInv UcieSend UcieProbe UcieSteps.
#[local] Open Scope Z_scope.

Section Loss.
Context {E : Type} `{EnvE : Environment E} (pn pf : UcieLinkParams).
Context (Hprm : params_ok pn pf) (Herr : error_free pf).
Abbreviation W := (World (Bench E)).
Implicit Types w : W.
Abbreviation Inv_at := (Inv_at pn pf False).
Abbreviation Inv_with := (Inv_with pn pf False).
Abbreviation Inv := (Inv pn pf False).

(** The TLPs that have crossed or are still on their way. *)
Definition held (w : W) : list PktId := crossed w ++ waiting w ++ staged (txPacker (near w)).

(** No TLP handed over before comes back, and none is handed over. *)
Definition keeps (w w' : W) : Prop := sent (env w') = sent (env w) ∧ held w' ⊆ held w.

Lemma held_with P w :
  Inv_with P w → held w = crossed w ++ concat P ++ staged (txPacker (near w)).
Proof. intros (L & A & B & HI). unfold held. by rewrite (waiting_spec _ _ _ _ _ _ _ _ _ HI). Qed.

Lemma held_at busy L A B P w :
  Inv_at busy L A B P w → held w = crossed w ++ concat P ++ staged (txPacker (near w)).
Proof. intros HI. unfold held. by rewrite (waiting_spec _ _ _ _ _ _ _ _ _ HI). Qed.

Lemma unspaced a w : admitted pf False a w.
Proof. right. by split; [|intros []]. Qed.

Lemma keeps_send L A B P w :
  Inv_at (Some sendFlitEvent) L A B P w →
  ∃ w', processSendFlit Near far_recvTimingReq w = Ok (tt, w') ∧ keeps w w'.
Proof.
  intros HI. destruct (txSendQueue (near w)) as [|f q] eqn:Hq.
  { exists w. split; [apply processSendFlit_idle; by left|done]. }
  destruct (txBlocked (near w)) eqn:Hb.
  { exists w. split; [apply processSendFlit_idle; by right|done]. }
  destruct (Z.eq_dec (txCredits (near w)) 0) as [Hc|Hc].
  { eexists. split; [apply processSendFlit_stall; congruence|done]. }
  pose proof (iv_flits _ _ _ _ _ _ _ _ _ HI) as [Htx _ _ _ _]. rewrite Hq in Htx.
  inversion Htx as [|? ps ? P0 (x & Hx & _)]; subst.
  destruct (send_step pn pf False Hprm L A B (ps :: P0) w f q x) as (P' & w' & [= -> <-] & Ht); try done.
  { right. by split; [|intros []]. }
  assert (∃ l, transmits pn pf False q l P0 w w' ∧ l ⊆ originalPackets x) as (l & (Hr & Hi & (_ & Hp & Hs) & Hcr & _) & Hl).
  { destruct Ht as [Ht|Ht]; eexists; (split; [exact Ht|]); [done|set_solver]. }
  exists w'. split; [done|]. split; [done|].
  rewrite (held_with _ _ Hi), (held_at _ _ _ _ _ _ HI), Hcr, Hp. cbn [concat]. set_solver.
Qed.

Lemma keeps_timer L A B P w :
  Inv_at (Some retryTimeoutEvent) L A B P w →
  (txBlocked (near w) = false → ∀ e B', B = e :: B' → curTick w ≤ e.1 + retryTimeoutDelay pn) →
  ∃ w', processRetryTimeout Near far_recvTimingReq w = Ok (tt, w') ∧ keeps w w'.
Proof.
  intros HI Hdue. pose proof (iv_near _ _ _ _ _ _ _ _ _ HI) as (Hpn & _).
  pose proof (iv_now _ _ _ _ _ _ _ _ _ HI). pose proof Hprm as [].
  destruct (txBlocked (near w)) eqn:Hb.
  { eexists. split; [apply processRetryTimeout_blocked; rewrite ?Hpn; (done || lia)|done]. }
  destruct (retryBuffer (near w)) as [|f buf] eqn:Hrb.
  { exists w. split; [by apply processRetryTimeout_empty|done]. }
  pose proof (iv_flits _ _ _ _ _ _ _ _ _ HI) as [_ Hre _ _ _]. rewrite Hrb in Hre.
  destruct B as [|e B']; [by inversion Hre|]. specialize (Hdue eq_refl e B' eq_refl).
  destruct (Z.lt_ge_cases (curTick w) (e.1 + retryTimeoutDelay pn)) as [Hlt|Hge].
  - destruct (timeout_early pn pf False Hprm L A (e :: B') P w f buf e B') as [Hr _]; try done.
    eexists. split; [exact Hr|done].
  - destruct (timeout_probe pn pf False Hprm L A (e :: B') P w f buf e B')
      as (w' & Hr & Hi & (_ & Hp & Hs) & _ & _ & Hcr); try done; [lia|].
    destruct (Hcr Herr) as [_ Hcr']. exists w'. split; [done|]. split; [done|].
    by rewrite (held_with _ _ Hi), (held_at _ _ _ _ _ _ HI), Hcr', Hp.
Qed.

Lemma keeps_pop k rest w w' : keeps (popped k rest w) w' → keeps w w'.
Proof. done. Qed.

Lemma keeps_service w : Inv w → enabled pn Service w → ∃ w', exec Service w = Ok w' ∧ keeps w w'.
Proof.
  intros Hi Hen. apply (service_cases pn pf False (λ r, ∃ w', r = Ok w' ∧ keeps w w')); [done|done|by exists w|..].
  - intros L A B P k rest _ _ HI. destruct (pack_step pn pf False L A B P _ HI) as (Ps & w' & -> & Hw & Hst & Hcr & Hs).
    exists w'. split; [done|]. apply (keeps_pop k rest). split; [done|].
    by rewrite (held_with _ _ Hw), (held_at _ _ _ _ _ _ HI), Hcr, concat_app, <- app_assoc, Hst.
  - intros L A B P k rest _ _ HI. destruct (keeps_send L A B P _ HI) as (w' & -> & ?). by exists w'.
  - intros L A B P k rest _ _ HI Hdue. destruct (keeps_timer L A B P _ HI Hdue) as (w' & -> & ?). by exists w'.
  - intros L A B P k rest _. by eexists.
Qed.

(** ** Every action *)

Definition lost (p : PktId) (w : W) : Prop := p ∈ sent (env w) ∧ p ∉ held w.

Lemma keeps_lost p w w' : keeps w w' → lost p w → lost p w'.
Proof. intros [Hs Hh] [Hp Hn]. split; [by rewrite Hs|set_solver]. Qed.

Lemma lost_accept L A B P w p q x sz d :
  Inv_at None L A B P w → linkState (near w) ≠ RETRAIN → pkts w !! q = Some x →
  isRequest (cmd x) = true → q ∉ sent (env w) → acceptable pn x sz d → lost p w →
  ∃ w', recvTLP Near q w = Ok (true, w') ∧ lost p (w' <| env ::= λ b, b <| sent ::= λ l, l ++ [q] |> |>).
Proof.
  intros HI Hst Hx Hr Hq Hacc [Hp Hn].
  destruct (accept_inv pn pf False L A B P w q x sz d) as (Ps & w' & Hrun & Hi & Hk & Hcr & Hs); try done.
  exists w'. split; [done|]. split; [cbn; rewrite Hs; set_solver|].
  rewrite (held_with _ _ Hi). change (crossed _) with (crossed w'). cbn [near].
  change (near (w' <| env ::= _ |>)) with (near w'). rewrite Hcr, concat_app, <- app_assoc, Hk.
  rewrite (held_at _ _ _ _ _ _ HI) in Hn. set_solver.
Qed.

Lemma lost_step p a w :
  Inv w → enabled pn a w → lost p w → ∃ w', exec a w = Ok w' ∧ lost p w'.
Proof.
  intros Hw Hen Hl. destruct a.
  { destruct (keeps_service w Hw Hen) as (w' & ? & ?). exists w'. split; [done|by eapply keeps_lost]. }
  all: destruct Hw as (L & A & B & P & HI); pose proof HI as []; cbn [enabled] in Hen.
  - by eexists.
  - by eexists.
  - destruct Hen as (Hp & x & sz & d & Hx & Hr & Hacc).
    rewrite (cpureq_run w p0 x Hx Hr). case_bool_decide as Hst; [by exists w|].
    destruct (lost_accept L A B P w p p0 x sz d) as (w' & Hrun & Hl'); try done.
    eexists. split; [by erewrite (bind_run _ _ _ true w')|done].
  - destruct Hen as [Hp Hr]. destruct (memresp_run w p0 x Hr) as (e & Hrun).
    eexists. split; [unfold exec; cbn [rx_peer]; by rewrite Hrun|done].
  - destruct (memretry_run pn pf Hprm False L A B P w HI) as (c & q & k & b & e & Hrun & _).
    eexists. split; [unfold exec; cbn [tx_peer]; by rewrite Hrun|]. destruct Hl as [Hs Hn]. split; [done|].
    cbn [snd]. replace (held _) with (held w); [done|].
    unfold held, crossed, drained. ws. by rewrite <- !app_assoc, (app_assoc (take k _)), take_drop.
  - eexists. split; [unfold exec; cbn [tx_peer]; by rewrite cpuretry_run|done].
  - by eexists.
Qed.

Definition step (w w' : W) : Prop := ∃ a, enabled pn a w ∧ exec a w = Ok w'.

Lemma lost_forever p w w' : Inv w → rtc step w w' → lost p w → lost p w'.
Proof.
  intros Hi. induction 1 as [|w w1 w' (a & Hen & Hex) _ IH]; [done|]. intros Hl.
  destruct (step_inv pn pf Hprm False a w Hi Hen (unspaced a w)) as (w2 & Hex2 & Hi2).
  destruct (lost_step p a w Hi Hen Hl) as (w3 & Hex3 & Hl3).
  rewrite Hex in Hex2, Hex3. injection Hex2 as <-. injection Hex3 as <-. by apply IH.
Qed.

(** ** A second flit in one tick *)

Lemma same_tick_step L A B P w k rest f q x :
  Inv_at None L A B P w → events w = (k, sendId) :: rest → k.1 < 2 ^ 62 →
  simLastTick (near w) = k.1 → 0 < rxFlitCounter (far w) →
  txSendQueue (near w) = f :: q → flits w !! f = Some x →
  txBlocked (near w) = false → txCredits (near w) ≠ 0 →
  ∃ w', exec Service w = Ok w' ∧ Inv w' ∧ txSendQueue (near w') = q ∧ crossed w' = crossed w ∧
    ∀ p, p ∈ originalPackets x → lost p w'.
Proof.
  intros HI Hev Hk Hlast Hcnt Hq Hx Hb Hc.
  assert (Inv_at (Some sendFlitEvent) L A B P (popped k rest w)) as HI'.
  { eapply pop_at; try done. by intros []. }
  pose proof (iv_flits _ _ _ _ _ _ _ _ _ HI) as [Htx _ _ _ _]. rewrite Hq in Htx.
  inversion Htx as [|? ps ? P0 (y & Hy & Hre & <-) _]; subst. rewrite Hx in Hy. injection Hy as <-.
  destruct (fresh_duplicate pn pf False Hprm L A B P0 (popped k rest w) f q x)
    as (w' & Hr & Hi & (Hq' & Hp & Hs) & Hcr & _); try done; [by intros []| |].
  { pose proof HI as []. destruct (iv_clean Herr) as (_ & Hlp & _). destruct iv_seq.
    assert (A ≠ []) as HA by (intros ->; cbn in *; lia).
    destruct Hlp as [_ Hlp]; [intros ->; by apply sublist_nil_r in so_A|].
    unfold fresh_new. change (¬ (rxFlitCounter (far w) ≤ 0 ∨ lastProcessedTimestamp (far w) < k.1)). lia. }
  rewrite app_nil_r in Hcr. rewrite (exec_service _ _ _ Near sendFlitEvent Hev). cbn [process tx_peer].
  rewrite Hr. exists w'. split; [done|]. split; [by eapply Inv_with_Inv|]. split; [done|]. split; [done|].
  intros p Hin. pose proof HI as []. destruct iv_data as [Hsent Hrecv Hnd _ _]. destruct iv_seq. split.
  - rewrite Hs. change (sent (env (popped k rest w))) with (sent (env w)). rewrite <- Hsent. set_solver.
  - rewrite (held_with _ _ Hi), Hcr, Hp. change (crossed (popped k rest w)) with (crossed w).
    unfold crossed. rewrite <- Hrecv. rewrite <- Hsent in Hnd. cbn [concat] in Hnd.
    apply NoDup_app in Hnd as (_ & H1 & Hnd). rewrite <- app_assoc in Hnd. apply NoDup_app in Hnd as (_ & H2 & _).
    rewrite !elem_of_app. intros [Ha|[Ha|Ha]].
    + apply (H1 p); [by eapply elem_of_sublist, tlps_sublist|set_solver].
    + apply (H2 p Hin). set_solver.
    + apply (H2 p Hin). set_solver.
Qed.
End Loss.

(** ** Credits that a rejection costs

    A NAK deletes the flits that wait for their acknowledgement and returns none of
    their credits; nothing else creates credits. *)

Section Credits.
Context {E : Type} `{EnvE : Environment E} (pn pf : UcieLinkParams).
Context (Hprm : params_ok pn pf).
Abbreviation W := (World (Bench E)).
Implicit Types w : W.
Abbreviation Inv_at := (Inv_at pn pf True).
Abbreviation Inv := (Inv pn pf True).

Lemma pool_send L A B P w :
  Inv_at (Some sendFlitEvent) L A B P w →
  (txSendQueue (near w) = [] ∨ txBlocked (near w) = true ∨ txCredits (near w) = 0 ∨
   simLastTick (near w) < curTick w) →
  ∃ w', processSendFlit Near far_recvTimingReq w = Ok (tt, w') ∧ pool w' ≤ pool w.
Proof.
  intros HI Hsp. destruct (txSendQueue (near w)) as [|f q] eqn:Hq.
  { exists w. split; [apply processSendFlit_idle; by left|done]. }
  destruct (txBlocked (near w)) eqn:Hb.
  { exists w. split; [apply processSendFlit_idle; by right|done]. }
  destruct (Z.eq_dec (txCredits (near w)) 0) as [Hc|Hc].
  { eexists. split; [apply processSendFlit_stall; congruence|done]. }
  destruct Hsp as [?|[?|[?|Hlast]]]; try done.
  pose proof (iv_flits _ _ _ _ _ _ _ _ _ HI) as [Htx _ _ _ _]. rewrite Hq in Htx.
  inversion Htx as [|? ps ? P0 (x & Hx & _)]; subst.
  destruct (send_step pn pf True Hprm L A B (ps :: P0) w f q x)
    as (P' & w' & _ & [(Hr & _ & _ & _ & Hp)|(Hr & _ & _ & _ & Hp)]); try done; by (left || exists w').
Qed.

Lemma pool_timer L A B P w :
  Inv_at (Some retryTimeoutEvent) L A B P w →
  (txBlocked (near w) = false → ∀ e B', B = e :: B' → curTick w ≤ e.1 + retryTimeoutDelay pn) →
  ∃ w', processRetryTimeout Near far_recvTimingReq w = Ok (tt, w') ∧ pool w' = pool w.
Proof.
  intros HI Hdue. pose proof (iv_near _ _ _ _ _ _ _ _ _ HI) as (Hpn & _).
  pose proof (iv_now _ _ _ _ _ _ _ _ _ HI). pose proof Hprm as [].
  destruct (txBlocked (near w)) eqn:Hb.
  { eexists. split; [apply processRetryTimeout_blocked; rewrite ?Hpn; (done || lia)|done]. }
  destruct (retryBuffer (near w)) as [|f buf] eqn:Hrb.
  { exists w. split; [by apply processRetryTimeout_empty|done]. }
  pose proof (iv_flits _ _ _ _ _ _ _ _ _ HI) as [_ Hre _ _ _]. rewrite Hrb in Hre.
  destruct B as [|e B']; [by inversion Hre|]. specialize (Hdue eq_refl e B' eq_refl).
  destruct (Z.lt_ge_cases (curTick w) (e.1 + retryTimeoutDelay pn)) as [Hlt|Hge].
  - destruct (timeout_early pn pf True Hprm L A (e :: B') P w f buf e B') as [Hr _]; try done.
    eexists. split; [exact Hr|done].
  - destruct (timeout_probe pn pf True Hprm L A (e :: B') P w f buf e B')
      as (w' & Hr & _ & _ & Hp & _); try done; [lia|]. by exists w'.
Qed.

Lemma pool_service w :
  Inv w → enabled pn Service w → spaced Service w → ∃ w', exec Service w = Ok w' ∧ pool w' ≤ pool w.
Proof.
  intros Hi Hen Hsp. apply (service_cases pn pf True (λ r, ∃ w', r = Ok w' ∧ pool w' ≤ pool w)); [done|done|by exists w|..].
  - intros L A B P k rest _ _ []. destruct (processPackTlp_run _ iv_packer iv_packer_lt)
      as (ids & Ps & k' & fl & nx & -> & _). by eexists.
  - intros L A B P k rest _ Hev HI. destruct (pool_send L A B P _ HI (Hsp k rest Hev)) as (w' & -> & ?). by exists w'.
  - intros L A B P k rest _ _ HI Hdue. destruct (pool_timer L A B P _ HI Hdue) as (w' & -> & Hp).
    exists w'. split; [done|]. by rewrite Hp.
  - intros L A B P k rest _. by eexists.
Qed.

Lemma pool_step a w :
  Inv w → enabled pn a w → spaced a w → ∃ w', exec a w = Ok w' ∧ pool w' ≤ pool w.
Proof.
  intros Hw Hen Hsp. destruct a; [by apply pool_service| | | | | | |];
    destruct Hw as (L & A & B & P & HI); pose proof HI as []; cbn [enabled] in Hen.
  - by eexists.
  - by eexists.
  - destruct Hen as (Hp & x & sz & d & Hx & Hr & Hacc).
    rewrite (cpureq_run w p x Hx Hr). case_bool_decide as Hst; [by exists w|].
    destruct iv_near as (Hpn & _).
    destruct (recvTLP_run w p x sz d) as (ids & Ps & k & fl & nx & st & Hrun & _);
      rewrite ?Hpn; try done.
    erewrite bind_run by exact Hrun. by eexists.
  - destruct Hen as [Hp Hr]. destruct (memresp_run w p x Hr) as (e & Hrun).
    eexists. split; [unfold exec; cbn [rx_peer]; by rewrite Hrun|done].
  - destruct (memretry_run pn pf Hprm True L A B P w HI) as (c & q & k & b & e & Hrun & _).
    eexists. split; [unfold exec; cbn [tx_peer]; by rewrite Hrun|done].
  - eexists. split; [unfold exec; cbn [tx_peer]; by rewrite cpuretry_run|done].
  - by eexists.
Qed.

Definition spaced_run (w w' : W) : Prop := ∃ a, enabled pn a w ∧ spaced a w ∧ exec a w = Ok w'.

Lemma pool_falls w w' : Inv w → rtc spaced_run w w' → pool w' ≤ pool w.
Proof.
  intros Hi. induction 1 as [|w w1 w' (a & Hen & Hsp & Hex) _ IH]; [done|].
  destruct (step_inv pn pf Hprm True a w Hi Hen ltac:(by left)) as (w2 & Hex2 & Hi2).
  destruct (pool_step a w Hi Hen Hsp) as (w3 & Hex3 & Hp).
  rewrite Hex in Hex2, Hex3. injection Hex2 as <-. injection Hex3 as <-. specialize (IH Hi2). lia.
Qed.

Lemma naked_step L A B P w k rest f q x :
  Inv_at None L A B P w → events w = (k, sendId) :: rest → k.1 < 2 ^ 62 →
  simLastTick (near w) < k.1 → txSendQueue (near w) = f :: q → flits w !! f = Some x →
  txBlocked (near w) = false → txCredits (near w) ≠ 0 →
  crc_error (arrive (far w)) (wire (x <| timestamp := k.1 |>) false) = true →
  ∃ w', exec Service w = Ok w' ∧ Inv w' ∧ pool w' = txCredits (near w).
Proof.
  intros HI Hev Hk Hlast Hq Hx Hb Hc Hcrc.
  assert (Inv_at (Some sendFlitEvent) L A B P (popped k rest w)) as HI'.
  { eapply pop_at; try done. by intros []. }
  pose proof (iv_flits _ _ _ _ _ _ _ _ _ HI) as [Htx _ _ _ _]. rewrite Hq in Htx.
  inversion Htx as [|? ps ? P0 (y & Hy & Hre & <-) _]; subst. rewrite Hx in Hy. injection Hy as <-.
  destruct (fresh_naked pn pf True Hprm L A B P0 (popped k rest w) f q x)
    as (w' & (Hr & Hi & _) & Hp); try done.
  rewrite (exec_service _ _ _ Near sendFlitEvent Hev). cbn [process tx_peer].
  rewrite Hr. exists w'. split; [done|]. split; [by eapply Inv_with_Inv|done].
Qed.
End Credits.
