(* ===== verification/UcieTheorems.v ===== *)
(** * What the link guarantees

    The theorems about the states that the two-link system reaches (UcieSteps.v),
    each with a concrete run on which it is applied.  The simulator may transmit
    two flits in one tick.  Without injected errors most guarantees hold all the
    same; with errors, and for losslessness, they need runs in which every
    transmission has a tick of its own ([reachable_spaced]), and [same_tick_loss]
    shows what happens otherwise. *)

From Stdlib Require Import SpecFloat.
From S2P Require Import Prelude MemCmd Packet Clocked EventQueue EventQueueSpec FlitPacker Latency UcieLink UcieSystem UcieRuns UcieInv UcieSend UcieProbe UcieSteps UcieProgress UcieStall UcieLoss.
#[local] Open Scope Z_scope.

(** ** Deciding that a run is enabled *)

Section Decide.
Context {E : Type} `{EnvE : Environment E} (pn pf : UcieLinkParams).
Abbreviation W := (World (Bench E)).

Definition acceptable_b (x : Packet) : bool :=
  match getSize x with
  | Ok sz =>
      (0 <=? sz) && (sz <? 2 ^ 31) &&
      match startDelayTicks (dataRate pn) (numLanes pn) (sz + 16) with
      | Some d => (0 <=? d) && (d <? 2 ^ 61)
      | None => false
      end
  | Abort _ => false
  end.

Definition enabled_b (a : Action (E := E)) (w : W) : bool :=
  match a with
  | Service =>
      match events w with
      | [] => true
      | (k, i) :: _ => k.1 <? 2 ^ 62
      end
  | Advance t =>
      (curTick w <=? t) && (t <? 2 ^ 62) && forallb (λ x, t <=? x.1.1) (events w)
  | NewPacket p x => bool_decide (p ∉ sent (env w))
  | CpuReq p =>
      bool_decide (p ∉ sent (env w)) &&
      match pkts w !! p with
      | Some x => isRequest (cmd x) && acceptable_b x
      | None => false
      end
  | MemResp p x => bool_decide (p ∈ received (env w)) && isResponse (cmd x)
  | MemRetry | CpuRetry | EnvStep _ => true
  end.

Definition spaced_b (a : Action (E := E)) (w : W) : bool :=
  match a with
  | Service =>
      match events w with
      | [] => true
      | (k, i) :: _ =>
          negb (bool_decide (i = sendId)) || bool_decide (txSendQueue (near w) = []) ||
          txBlocked (near w) || (txCredits (near w) =? 0) || (simLastTick (near w) <? k.1)
      end
  | _ => true
  end.

Lemma spaced_b_sound a w : spaced_b a w = true → spaced a w.
Proof.
  destruct a; cbn [spaced_b spaced]; try done. intros H k rest Hev. rewrite Hev in H.
  rewrite bool_decide_true in H by done. cbn [negb orb] in H.
  destruct (bool_decide_reflect (txSendQueue (near w) = [])); [by left|]. right.
  destruct (txBlocked (near w)); [by left|]. right. cbn [orb] in H.
  destruct (Z.eqb_spec (txCredits (near w)) 0); [by left|]. right. cbn in H. lia.
Qed.

Lemma acceptable_b_sound x : acceptable_b x = true → ∃ sz d, acceptable pn x sz d.
Proof.
  unfold acceptable_b, acceptable. destruct (getSize x) as [sz|]; [|done].
  destruct (startDelayTicks _ _ _) as [d|] eqn:Hd; [|by rewrite andb_false_r].
  intros H. exists sz, d. repeat split; (done || lia).
Qed.

Lemma enabled_b_sound a w : enabled_b a w = true → enabled pn a w.
Proof.
  destruct a; cbn [enabled_b enabled]; try done.
  - destruct (events w) as [|[k i] rest]; [done|]. intros H k' i' rest' [= <- <- <-]. lia.
  - intros H. apply andb_true_iff in H as [H Hall]. split; [lia|].
    rewrite forallb_forall in Hall. intros k i Hk%list_elem_of_In. specialize (Hall _ Hk).
    cbn in Hall. lia.
  - apply bool_decide_eq_true.
  - intros [Hp H]%andb_true_iff. apply bool_decide_eq_true in Hp. split; [done|].
    destruct (pkts w !! p) as [x|]; [|done]. apply andb_true_iff in H as [Hr Ha].
    destruct (acceptable_b_sound x Ha) as (sz & d & Hacc). by exists x, sz, d.
  - intros [Hp H]%andb_true_iff. by apply bool_decide_eq_true in Hp.
Qed.

(** Run a list of actions, checking each; [sp] also asks for spaced transmissions. *)
Fixpoint checked (sp : bool) (l : list Action) (w : W) : option W :=
  match l with
  | [] => Some w
  | a :: l =>
      if enabled_b a w && (negb sp || spaced_b a w) then
        match exec a w with Ok w' => checked sp l w' | Abort _ => None end
      else None
  end.

Definition checked_run (sp : bool) (e : E) (l : list Action) : option W :=
  match boot pn pf e with Ok w => checked sp l w | Abort _ => None end.

Lemma checked_reachable e l w : checked_run false e l = Some w → reachable pn pf w.
Proof.
  unfold checked_run. destruct (boot pn pf e) as [w0|] eqn:Hb; [|done].
  assert (reachable pn pf w0) as Hr by (by econstructor). clear Hb. revert w0 Hr.
  induction l as [|a l IH]; intros w0 Hr; cbn [checked]; [by intros [= <-]|].
  destruct (enabled_b a w0) eqn:Hen; [|done]. cbn. destruct (exec a w0) eqn:Hex; [|done].
  apply IH. eapply reach_step; [done|by apply enabled_b_sound|done].
Qed.

Lemma checked_spaced e l w : checked_run true e l = Some w → reachable_spaced pn pf w.
Proof.
  unfold checked_run. destruct (boot pn pf e) as [w0|] eqn:Hb; [|done].
  assert (reachable_spaced pn pf w0) as Hr by (by econstructor). clear Hb. revert w0 Hr.
  induction l as [|a l IH]; intros w0 Hr; cbn [checked]; [by intros [= <-]|].
  destruct (enabled_b a w0) eqn:Hen; [|done]. destruct (spaced_b a w0) eqn:Hsp; [|done]. cbn.
  destruct (exec a w0) eqn:Hex; [|done].
  apply IH. eapply spaced_step; [done|by apply enabled_b_sound|by apply spaced_b_sound|done].
Qed.
End Decide.

(** ** A bench for the examples

    Default parameters, no injected errors, peers that always accept. *)

#[local] Instance willing : Environment unit :=
  {| mem_recvTimingReq := λ _ e, (true, e); cpu_recvTimingResp := λ _ e, (true, e) |}.

Definition default_params : UcieLinkParams :=
  mkParams default_data_rate default_num_lanes 2000 32 (S754_zero false) 25000 500.

Lemma default_params_ok : params_ok default_params default_params.
Proof. split; cbn; (lia || done). Qed.

(** A write TLP of [sz] data bytes. *)
Definition tlp (sz : Z) : Packet :=
  match Packet_ctor (Request.phys 4096 sz 0 1) WriteReq with
  | Ok p => p | Abort _ => flit_base sz WriteReq
  end.

(** Two TLPs: the first flit is out, the second TLP is still staged. *)
Definition demo_actions : list (Action (E := unit)) :=
  [NewPacket 1 (tlp 64); NewPacket 2 (tlp 200); CpuReq 1; Service; Service; CpuReq 2].

Definition demo : option (World (Bench unit)) :=
  checked_run default_params default_params true tt demo_actions.

Lemma demo_run : ∃ w, demo = Some w ∧ reachable_spaced default_params default_params w.
Proof.
  destruct demo as [w|] eqn:Hd; [|by vm_compute in Hd].
  exists w. split; [done|]. by eapply checked_spaced.
Qed.

(** ** The guarantees *)

Section Guarantees.
Context {E : Type} `{EnvE : Environment E} (pn pf : UcieLinkParams).
Context (Hprm : params_ok pn pf).
Abbreviation W := (World (Bench E)).
Implicit Types w : W.

(** Runs in which every transmission has a tick of its own, and all runs without
    injected errors. *)
Definition orderly (w : W) : Prop :=
  reachable_spaced pn pf w ∨ error_free pf ∧ reachable pn pf w.

Lemma orderly_inv w : orderly w → Inv pn pf False w.
Proof. intros [H|[He H]]; [by apply spaced_inv|by apply clean_inv]. Qed.

(** C4.  No assertion fires, no event is scheduled in the past or twice, no freed
    flit is touched and no loop runs out of fuel: every enabled action runs to
    completion, in every state and for every action of a run without injected
    errors, and in runs with errors as long as no two flits are transmitted in one
    tick. *)
Theorem never_aborts w a :
  reachable_spaced pn pf w ∧ spaced a w ∨ error_free pf ∧ reachable pn pf w →
  enabled pn a w → ∃ w', exec a w = Ok w'.
Proof.
  intros Hr Hen. destruct (step_inv pn pf Hprm False a w) as (w' & Hex & _); [|done| |by exists w'].
  - apply orderly_inv. destruct Hr as [[]|]; [by left|by right].
  - destruct Hr as [[]|[]]; [by left|by right; split; [|intros []]].
Qed.

(** C1.  Lost flits and retransmissions never duplicate or reorder: what has
    crossed the link is a subsequence of what the requestor sent, and the
    requestor's TLPs are pairwise different.  This holds of every run without
    injected errors, and with errors of the runs in which no two flits are
    transmitted in one tick. *)
Theorem in_order_at_most_once w :
  orderly w →
  NoDup (sent (env w)) ∧ received (env w) ++ tlpSendQueue (far w) `sublist_of` sent (env w).
Proof.
  intros Hr. destruct (orderly_inv w Hr) as (L & A & B & P & []).
  destruct iv_data, iv_seq. split; [done|]. rewrite <- do_recv, <- do_sent.
  apply sublist_inserts_r. by apply tlps_sublist.
Qed.

(** C2.  Without injected errors, and as long as no two flits are transmitted in
    one tick, nothing is lost: at any moment the TLPs sent are, in order, those the
    memory took, those queued before it, those of the flits not yet transmitted and
    those still in the packer. *)
Theorem lossless_when_error_free w :
  error_free pf → reachable_spaced pn pf w →
  sent (env w) = received (env w) ++ tlpSendQueue (far w) ++ waiting w ++ staged (txPacker (near w)).
Proof.
  intros He Hr. destruct (spaced_inv pn pf Hprm True w Hr) as (L & A & B & P & HI).
  rewrite (waiting_spec _ _ _ _ _ _ _ _ _ HI). destruct HI. destruct (iv_clean He) as (HAL & _).
  destruct iv_data. by rewrite <- do_sent, (app_assoc (received _)), <- do_recv, (HAL I).
Qed.

(** C14.  Flow control: the credits and the unacknowledged flits never exceed the
    pool, in every run without injected errors and in every run in which no two
    flits are transmitted in one tick; without errors they add up to the pool
    exactly, at most one flit is unacknowledged, and the sender never enters
    [RETRAIN]. *)
Theorem credits_bounded w :
  orderly w →
  0 ≤ txCredits (near w) ∧
  txCredits (near w) + Z.of_nat (length (retryBuffer (near w))) ≤ creditPool pn ∧
  (error_free pf →
     txCredits (near w) + Z.of_nat (length (retryBuffer (near w))) = creditPool pn ∧
     (length (retryBuffer (near w)) ≤ 1)%nat ∧ linkState (near w) ≠ RETRAIN).
Proof.
  intros Hr. destruct (orderly_inv w Hr) as (L & A & B & P & []).
  destruct iv_credit. destruct iv_flits as [_ Hre _ _ _]. apply Forall2_length in Hre.
  rewrite Hre. split; [done|]. split; [done|]. intros He.
  by destruct (iv_clean He) as (_ & _ & _ & ? & ? & ?).
Qed.

(** C15.  Every flit in memory is owned by exactly one queue entry of the sender:
    clones and control flits are always freed, nothing leaks and nothing is freed
    twice.  This holds of every run without injected errors, and with errors of
    the runs in which no two flits are transmitted in one tick. *)
Theorem flits_owned w f :
  orderly w →
  NoDup (txSendQueue (near w) ++ retryBuffer (near w)) ∧
  (is_Some (flits w !! f) ↔ f ∈ txSendQueue (near w) ++ retryBuffer (near w)).
Proof.
  intros Hr. destruct (orderly_inv w Hr) as (L & A & B & P & []).
  destruct iv_flits. by split.
Qed.

(** The services that follow [w] until no event is left are enabled. *)
Definition services (Q : W → Prop) (w : W) : Prop :=
  ∀ n w', run (replicate n Service) w = Ok w' → Q w'.

(** C3.  Without errors and with at least two credits, servicing events
    terminates before tick 2^62, and then nothing waits to be sent: no wake-up is
    ever missing.  If moreover no two flits were or are transmitted in one tick,
    every TLP sent is then with the memory or queued before it. *)
Theorem eventually_delivered w :
  error_free pf → 2 ≤ creditPool pn → reachable pn pf w → services (enabled pn Service) w →
  ∃ n w', run (replicate n Service) w = Ok w' ∧ events w' = [] ∧ sent (env w') = sent (env w) ∧
    waiting w' = [] ∧ staged (txPacker (near w')) = [] ∧
    (reachable_spaced pn pf w → services (spaced Service) w →
     received (env w') ++ tlpSendQueue (far w') = sent (env w)).
Proof.
  intros He Hpool Hr Hen.
  destruct (drains pn pf False Hprm He Hpool _ w (le_n _) (clean_inv pn pf Hprm w He Hr))
    as (n & w' & Hrun & Hev & Hi & Hs).
  { intros m w' Hm. split; [by eapply Hen|right; by split; [|intros []]]. }
  destruct (quiescent pn pf False He Hpool w' Hi Hev) as (Hw & Hst & _).
  exists n, w'. split_and!; try done. intros Hsr Hsp.
  destruct (drains pn pf True Hprm He Hpool _ w (le_n _) (spaced_inv pn pf Hprm True w Hsr))
    as (n2 & w2 & Hrun2 & Hev2 & Hi2 & Hs2).
  { intros m w2 Hm. split; [by eapply Hen|left; by eapply Hsp]. }
  rewrite (service_end n n2 w w' w2 Hrun Hev Hrun2 Hev2), <- Hs2.
  by apply (quiescent pn pf True He Hpool w2 Hi2 Hev2).
Qed.

(** C24.  A sender that ran out of credits, in a run without two flits in one tick,
    never sends again: along every enabled run from there it stays blocked and no
    further TLP crosses the link. *)
Theorem stall_is_permanent w w' :
  reachable_spaced pn pf w → txBlocked (near w) = true → rtc (step pn) w w' →
  txBlocked (near w') = true ∧
  received (env w') ++ tlpSendQueue (far w') = received (env w) ++ tlpSendQueue (far w).
Proof.
  intros Hr Hb Hrun. pose proof (spaced_inv pn pf Hprm True w Hr) as Hi. clear Hr. revert Hi Hb.
  induction Hrun as [w|w w1 w' (a & Hen & Hex) _ IH]; intros Hi Hb; [done|].
  destruct (step_inv pn pf Hprm True a w Hi Hen) as (w2 & Hex2 & Hi2).
  { left. destruct a; try done. intros k rest _. by right; left. }
  destruct (stalled_step pn pf Hprm a w Hi Hen Hb) as (w3 & Hex3 & Hb3 & Hc3).
  rewrite Hex in Hex2, Hex3. injection Hex2 as <-. injection Hex3 as <-.
  destruct (IH Hi2) as [Hb' Hc']; [congruence|]. split; [done|].
  unfold crossed in Hc3. congruence.
Qed.


End Guarantees.

(** ** The guarantees on concrete runs *)

Section Service.
Context {E : Type} `{EnvE : Environment E} (pn : UcieLinkParams).
Abbreviation W := (World (Bench E)).

(** All services up to the last event satisfy [ok]; [fuel] bounds their number. *)
Fixpoint services_ok (ok : W → bool) (fuel : nat) (w : W) : bool :=
  ok w &&
  (bool_decide (events w = []) ||
   match fuel, exec Service w with
   | S fuel, Ok w' => services_ok ok fuel w'
   | _, _ => false
   end).

Lemma services_sound ok (Q : W → Prop) fuel w :
  (∀ w, ok w = true → Q w) → services_ok ok fuel w = true → services Q w.
Proof.
  intros Hok. unfold services. revert w. induction fuel as [|fuel IH]; intros w [Hen Hs]%andb_true_iff n w';
    apply Hok in Hen; apply orb_true_iff in Hs as [Hev|Hs]; try done.
  1,2: apply bool_decide_eq_true in Hev; induction n as [|n IHn]; [by intros [= <-]|];
    cbn [replicate run]; unfold mbind, res_bind, exec; rewrite Hev; exact IHn.
  destruct n as [|n]; [by intros [= <-]|]. cbn [replicate run]. unfold mbind, res_bind.
  destruct (exec Service w) as [w1|] eqn:Hex; [|done]. intros Hrun. by eapply IH.
Qed.
End Service.

Lemma demo_services w :
  demo = Some w → services (enabled default_params Service) w ∧ services (spaced Service) w.
Proof.
  intros Hd. split.
  - apply (services_sound (enabled_b default_params Service) _ 12); [apply enabled_b_sound|].
    vm_compute in Hd. injection Hd as <-. by vm_compute.
  - apply (services_sound (spaced_b Service) _ 12); [apply spaced_b_sound|].
    vm_compute in Hd. injection Hd as <-. by vm_compute.
Qed.

Lemma demo_sent w : demo = Some w → sent (env w) = [1%nat; 2%nat].
Proof. intros Hd. vm_compute in Hd. injection Hd as <-. reflexivity. Qed.

Lemma never_aborts_witness : ∃ w w', demo = Some w ∧ exec Service w = Ok w'.
Proof.
  destruct demo_run as (w & Hd & Hr). destruct (demo_services w Hd) as [Hen Hsp].
  destruct (never_aborts default_params default_params default_params_ok w Service) as (w' & Hex).
  - left. split; [exact Hr|exact (Hsp 0%nat w eq_refl)].
  - exact (Hen 0%nat w eq_refl).
  - exists w, w'. split; assumption.
Defined.

Lemma in_order_witness :
  ∃ w, demo = Some w ∧ received (env w) ++ tlpSendQueue (far w) `sublist_of` [1%nat; 2%nat].
Proof.
  destruct demo_run as (w & Hd & Hr). exists w. split; [exact Hd|].
  destruct (in_order_at_most_once default_params default_params default_params_ok w (or_introl Hr)) as [_ Hs].
  rewrite (demo_sent w Hd) in Hs. exact Hs.
Defined.

Lemma lossless_witness :
  ∃ w, demo = Some w ∧ [1%nat; 2%nat] = received (env w) ++ tlpSendQueue (far w) ++
                         waiting w ++ staged (txPacker (near w)).
Proof.
  destruct demo_run as (w & Hd & Hr). exists w. split; [exact Hd|].
  rewrite <- (demo_sent w Hd).
  apply (lossless_when_error_free default_params default_params default_params_ok w);
    [reflexivity|exact Hr].
Defined.

Lemma credits_witness :
  ∃ w, demo = Some w ∧ txCredits (near w) + Z.of_nat (length (retryBuffer (near w))) = 32.
Proof.
  destruct demo_run as (w & Hd & Hr). exists w. split; [exact Hd|].
  apply (credits_bounded default_params default_params default_params_ok w (or_introl Hr)). reflexivity.
Defined.

Lemma flits_owned_witness :
  ∃ w, demo = Some w ∧ NoDup (txSendQueue (near w) ++ retryBuffer (near w)).
Proof.
  destruct demo_run as (w & Hd & Hr). exists w. split; [exact Hd|].
  apply (flits_owned default_params default_params default_params_ok w 0%nat (or_introl Hr)).
Defined.

Lemma eventually_delivered_witness :
  ∃ w n w', demo = Some w ∧ run (replicate n Service) w = Ok w' ∧ events w' = [] ∧
    received (env w') ++ tlpSendQueue (far w') = [1%nat; 2%nat].
Proof.
  destruct demo_run as (w & Hd & Hr). destruct (demo_services w Hd) as [Hen Hsp].
  destruct (eventually_delivered default_params default_params default_params_ok w)
    as (n & w' & Hrun & Hev & _ & _ & _ & Hall);
    [reflexivity|cbn; lia|by apply spaced_reachable|exact Hen|].
  exists w, n, w'. specialize (Hall Hr Hsp). rewrite (demo_sent w Hd) in Hall. repeat split; assumption.
Defined.

(** One credit and a TLP of two flits. *)
Definition one_credit : UcieLinkParams :=
  mkParams default_data_rate default_num_lanes 2000 1 (S754_zero false) 25000 500.

Lemma one_credit_ok : params_ok one_credit one_credit.
Proof. split; cbn; (lia || done). Qed.

Definition stalled_demo : option (World (Bench unit)) :=
  checked_run one_credit one_credit true tt
    [NewPacket 1 (tlp 300); CpuReq 1; Service; Service; Service].

Definition after_service (w : World (Bench unit)) : World (Bench unit) :=
  match exec Service w with Ok w' => w' | Abort _ => w end.

Lemma stall_is_permanent_witness :
  ∃ w, stalled_demo = Some w ∧ txBlocked (near (after_service w)) = true ∧
    received (env (after_service w)) ++ tlpSendQueue (far (after_service w)) = [].
Proof.
  destruct stalled_demo as [w|] eqn:Hd; [|by vm_compute in Hd]. exists w. split; [done|].
  assert (reachable_spaced one_credit one_credit w) as Hr by (by eapply checked_spaced).
  destruct (stall_is_permanent one_credit one_credit one_credit_ok w (after_service w) Hr) as [Hb Hn];
    [vm_compute in Hd; injection Hd as <-; reflexivity| |].
  - apply rtc_once. exists Service. split; [apply enabled_b_sound|]; vm_compute in Hd; injection Hd as <-; by vm_compute.
  - split; [exact Hb|]. rewrite Hn. vm_compute in Hd. injection Hd as <-. reflexivity.
Defined.

(** ** What it does not guarantee

    What an observer at the ports sees of a run: the TLPs sent and received,
    the TLPs and flits inside the links, the pending events and the credits. *)
Definition observe (w : World (Bench unit)) :=
  (sent (env w), received (env w), tlpSendQueue (far w), txSendQueue (near w),
   retryBuffer (near w), events w, txCredits (near w)).

Definition outcome (p : UcieLinkParams) (l : list (Action (E := unit))) :=
  observe <$> (w ← boot p p tt; run l w).

(** Two flits in one tick, error-free and with the default parameters: a TLP that
    enters 23 ns after the first is packed in the tick in which the first is
    transmitted. *)
Definition same_tick_actions : list (Action (E := unit)) :=
  [NewPacket 1 (tlp 200); NewPacket 2 (tlp 16); CpuReq 1; Advance 23000; CpuReq 2].

(** The first flit has just been sent, the second is next. *)
Definition same_tick_demo : option (World (Bench unit)) :=
  checked_run default_params default_params false tt (same_tick_actions ++ replicate 2 Service).


(** An error on every second flit. *)
Definition noisy : UcieLinkParams :=
  mkParams default_data_rate default_num_lanes 2000 32 (d_of 1 (-1)) 25000 500.

(** A NAK in the tick of the previous transmission replays that
    flit at the front of the queue, from where [processSendFlit] then removes it
    in place of the failed flit; the failed flit is left in both queues and is
    used after it has been freed. *)
Example same_tick_nak_use_after_free :
  outcome noisy (same_tick_actions ++ replicate 6 Service) = Abort UndefinedBehavior.
Proof. vm_compute. reflexivity. Qed.

(** A three-flit TLP whose second flit is rejected and whose third is dropped
    while the receiver waits; a second TLP is packed just after the probe of the
    second flit has reopened the receiver. *)
Definition overtaking_actions : list (Action (E := unit)) :=
  [NewPacket 1 (tlp 692); NewPacket 2 (tlp 52); CpuReq 1; Service; Advance 105001; CpuReq 2] ++
  replicate 9 Service.

(** Even when no two flits share a tick, recovery can lose a
    TLP: the acknowledgement of a fresh flit retires the older flits that the
    waiting receiver had dropped.  The NAK also costs credits that never come
    back: the link is idle with 30 of 32. *)
Example recovery_loses_tlp :
  observe <$> checked_run noisy noisy true tt overtaking_actions =
  Some ([1%nat; 2%nat], [2%nat], [], [], [], [], 30).
Proof. vm_compute. reflexivity. Qed.

(** The first flit waits for its acknowledgement when the second meets an error:
    one of the 32 credits is gone. *)
Definition leak_demo : option (World (Bench unit)) :=
  checked_run noisy noisy true tt (take 5 overtaking_actions).

Lemma noisy_ok : params_ok noisy noisy.
Proof. split; cbn; (lia || by eexists). Qed.

