(* ===== verification/UcieAccess.v ===== *)
(** * Atomic and functional accesses through the link, and its metrics

    What UcieRxPort and UcieTxPort of src/gem5/src/mem/ucie/ucie_link.cc do outside
    timing mode: they hand the access to the port's peer.  Also the formulas of
    UcieStats.  The link holds packets but does not search them for a functional
    access, as the bridge does. *)

From Stdlib Require Import SpecFloat String.
From S2P Require Import Prelude AddrRanges MemCmd Packet Clocked PacketQueues AbstractMem EventQueue EventQueueSpec FlitPacker Latency.
From S2P Require Import UcieLink UcieSystem UcieSteps UcieTheorems.
From S2P Require Import Bridge.
#[local] Open Scope Z_scope.

(** ** The forwarding methods *)

Section Forwarding.
Context {S : Type}.
(** The peer of the [tx_port]. *)
Context (sendAtomic : Packet → M S (Packet * Tick)) (sendFunctional : Packet → M S Packet).
Context (peer_ranges : list AddrRange.t) (sendRangeChange : M S unit).

Definition recvAtomic (p : Packet) : M S (Packet * Tick) := sendAtomic p.
Definition recvFunctional (p : Packet) : M S Packet := sendFunctional p.
Definition getAddrRanges : list AddrRange.t := peer_ranges.
Definition recvRangeChange : M S unit := sendRangeChange.
End Forwarding.

(** [base] is the look-up of ClockedObject. *)
Definition getPort {P} (base : string → res P) (txPort rxPort : P) (if_name : string) : res P :=
  if String.eqb if_name "tx_port" then Ok txPort
  else if String.eqb if_name "rx_port" then Ok rxPort
  else base if_name.

(** ** The derived metrics *)

Definition payloadEfficiency (t : UcieStats) : double :=
  ddiv (d_of_Z (totalPayloadBytes t)) (dmul (d_of_Z (totalFlitsSent t)) (d_of_Z UCIE_FLIT_SIZE_BYTES)).
Definition retransmissionRate (t : UcieStats) : double :=
  ddiv (d_of_Z (totalRetransmissions t)) (d_of_Z (totalFlitsSent t)).
Definition crcErrorRate (t : UcieStats) : double :=
  ddiv (d_of_Z (totalCrcErrors t)) (d_of_Z (totalFlitsReceived t)).
Definition throughputGbps (t : UcieStats) : double :=
  ddiv (dmul (d_of_Z (totalPayloadBytes t)) (d_of_Z 8000)) (d_of_Z (simDurationTicks t)).

(** ** A functional read does not see a write the link holds

    The requestor's write has been accepted and its TLP is staged; the memory has
    not seen it.  A functional read of the same bytes passes both links and returns
    what the memory holds.  The bridge, in the same situation, answers from its
    queue. *)

#[local] Instance behind : Environment AbstractMemory.t :=
  {| mem_recvTimingReq := λ _ m, (true, m); cpu_recvTimingResp := λ _ m, (true, m) |}.

Definition access_write : Packet := AbstractMemory.packet_at WriteReq 0x1020 [1; 2; 3; 4] None.
Definition access_read : Packet := AbstractMemory.packet_at ReadReq 0x1020 [0; 0; 0; 0] None.

Definition held : option (World (Bench AbstractMemory.t)) :=
  checked_run default_params default_params false (AbstractMemory.small [])
    [NewPacket 1 access_write; CpuReq 1].

Abbreviation LM := (M (World (Bench AbstractMemory.t))).

Definition memory_functional (p : Packet) : LM Packet :=
  w ← get_state;
  '(p, m) ← lift_res (AbstractMemory.functionalAccess p (est (env w)));
  modify (λ w, w <| env ::= λ b, b <| est := m |> |>);; mret p.

(** The requestor's access: the near link, the far link, the memory. *)
Definition functional_through (p : Packet) : LM Packet :=
  recvFunctional (recvFunctional memory_functional) p.

Definition read_bytes {S} (r : res (Packet * S)) : option (list Z) :=
  match r with Ok (p, _) => Some (data p) | Abort _ => None end.

Example functional_read_stale : ∃ w,
  held = Some w ∧ reachable default_params default_params w ∧
  sent (env w) = [1%nat] ∧ received (env w) = [] ∧
  read_bytes (functional_through access_read w) = Some [0; 0; 0; 0].
Proof.
  destruct held as [w|] eqn:Hh; [|by vm_compute in Hh].
  exists w. split; [done|]. split; [by eapply checked_reachable|].
  vm_compute in Hh. injection Hh as <-. by vm_compute.
Qed.

Example bridge_answers_from_queue :
  read_bytes (Bridge.recvFunctional (λ p, mret p) access_read
    (Bridge.outcome (Bridge.Request access_write) Bridge.demo_start)) = Some [1; 2; 3; 4].
Proof. by vm_compute. Qed.
