(* ===== verification/Rtl.v ===== *)
(** * Register-transfer modules (src/Logical PHY/RTL)

    What the SystemVerilog modules of the Logical PHY share: bit vectors as
    [Z] values in [0, 2^w), part selects and concatenations, unpacked arrays
    of lanes as lists, and synchronous modules as circuits.  Signals are
    two-valued: a run starts from the reset values, so no register is [X]. *)

From S2P Require Import Prelude.
#[local] Open Scope Z_scope.

(** ** Bit vectors *)

(** Assignment to a [w]-bit vector. *)
Definition trunc (w x : Z) : Z := x mod 2 ^ w.

(** [x[hi:lo]]. *)
Definition slice (hi lo x : Z) : Z := Z.shiftr x lo mod 2 ^ (hi - lo + 1).

(** [{a, b, c}] with the width of each part, the first most significant. *)
Definition width (fs : list (Z * Z)) : Z := sumZ (fst <$> fs).
Fixpoint concat (fs : list (Z * Z)) : Z :=
  match fs with
  | [] => 0
  | (w, x) :: r => trunc w x * 2 ^ width r + concat r
  end.

(** A bit vector of width [w]. *)
Definition bv (w x : Z) : Prop := 0 ≤ x < 2 ^ w.

#[export] Instance bv_dec w x : Decision (bv w x).
Proof. unfold bv. apply _. Defined.

(** Reduction [^x] of a [w]-bit vector. *)
Fixpoint xor_bits (n : nat) (x : Z) : bool :=
  match n with O => false | S n' => xorb (Z.testbit x (Z.of_nat n')) (xor_bits n' x) end.

(** ** Lanes *)

(** [for (int i = 0; i < n; i++) a[i] = f(i)]. *)
Definition lanes {A} (n : Z) (f : Z → A) : list A := f <$> seqZ 0 n.

(** [a[i]] inside the array's bounds. *)
Definition lane (a : list Z) (i : Z) : Z := a !!! Z.to_nat i.

(** Beats one after the other. *)
Fixpoint joined {A} (l : list (list A)) : list A :=
  match l with [] => [] | x :: l' => x ++ joined l' end.

(** ** Circuits

    One clock, registers reset asynchronously by [rst_n]: the value of the
    registers after reset, the outputs as a function of inputs and registers,
    and the registers after a clock edge. *)

Record circuit (I S O : Type) := Circuit {
  reset : S;
  out : I → S → O;
  tick : I → S → S
}.
Arguments Circuit {I S O} _ _ _.
Arguments reset {I S O} _.
Arguments out {I S O} _ _ _.
Arguments tick {I S O} _ _ _.

Section Runs.
Context {I S O : Type} (m : circuit I S O).

(** [always_ff @(posedge clk or negedge rst_n)]. *)
Definition edge (rst_n : bool) (i : I) (s : S) : S := if rst_n then tick m i s else reset m.

(** The registers after a sequence of cycles, and the outputs during it. *)
Definition run (s : S) (ins : list I) : S := foldl (λ s i, tick m i s) s ins.
Fixpoint trace (s : S) (ins : list I) : list O :=
  match ins with [] => [] | i :: ins' => out m i s :: trace (tick m i s) ins' end.

Lemma run_cons s i ins : run s (i :: ins) = run (tick m i s) ins.
Proof. done. Qed.
Lemma run_app s ins js : run s (ins ++ js) = run (run s ins) js.
Proof. apply foldl_app. Qed.
Lemma run_snoc s ins i : run s (ins ++ [i]) = tick m i (run s ins).
Proof. apply run_app. Qed.
Lemma trace_app s ins js : trace s (ins ++ js) = trace s ins ++ trace (run s ins) js.
Proof. revert s. induction ins as [|i ins IH]; intros s; [done|]. cbn. by rewrite IH. Qed.
Lemma trace_length s ins : length (trace s ins) = length ins.
Proof. revert s. induction ins as [|i ins IH]; intros s; [done|]. cbn. by rewrite IH. Qed.

(** An invariant of every cycle holds along every run. *)
Lemma run_invariant (P : S → Prop) (ok : I → Prop) s ins :
  (∀ i s, ok i → P s → P (tick m i s)) → Forall ok ins → P s → P (run s ins).
Proof.
  intros Hstep Hok. revert s. induction Hok as [|i ins Hi _ IH]; intros s Hs; [done|].
  cbn. apply IH. by apply Hstep.
Qed.
End Runs.

(** ** Lemmas *)

Lemma trunc_bv w x : 0 ≤ w → bv w (trunc w x).
Proof. intros Hw. apply Z.mod_pos_bound. lia. Qed.
Lemma trunc_fits w x : bv w x → trunc w x = x.
Proof. apply Z.mod_small. Qed.

Lemma width_nonneg fs : Forall (λ f, 0 ≤ fst f) fs → 0 ≤ width fs.
Proof. induction 1 as [|f fs Hf _ IH]; [done|]. unfold width in *. cbn. lia. Qed.

Lemma concat_bv fs : Forall (λ f, 0 ≤ fst f) fs → bv (width fs) (concat fs).
Proof.
  induction 1 as [|[w x] fs Hw Hfs IH]; [by split|]. cbn in Hw.
  pose proof (width_nonneg fs Hfs) as Hn. pose proof (trunc_bv w x Hw) as Ht.
  unfold bv in *. change (width ((w, x) :: fs)) with (w + width fs). cbn [concat].
  rewrite Z.pow_add_r by lia. nia.
Qed.

(** A part select of a concatenation is the part. *)
Lemma slice_concat l w x r hi lo :
  Forall (λ f, 0 ≤ fst f) l → 0 ≤ w → Forall (λ f, 0 ≤ fst f) r →
  lo = width r → hi = lo + w - 1 →
  slice hi lo (concat (l ++ (w, x) :: r)) = trunc w x.
Proof.
  intros Hl Hw Hr -> ->. pose proof (width_nonneg r Hr) as Hn.
  pose proof (concat_bv r Hr) as Hc. pose proof (trunc_bv w x Hw) as Ht. unfold bv in *.
  assert (∃ k, concat (l ++ (w, x) :: r) = (k * 2 ^ w + trunc w x) * 2 ^ width r + concat r) as [k ->].
  { induction Hl as [|[v y] l Hv Hl IH]; [exists 0; cbn [app concat]; lia|]. destruct IH as [k IH].
    cbn [app concat]. exists (trunc v y * 2 ^ width l + k). rewrite IH.
    assert (width (l ++ (w, x) :: r) = width l + w + width r) as ->
      by (unfold width; rewrite fmap_app, sumZ_app; cbn; lia).
    pose proof (width_nonneg l Hl). rewrite !Z.pow_add_r by lia. ring. }
  unfold slice. rewrite Z.shiftr_div_pow2 by lia. rewrite Z.div_add_l by lia.
  rewrite (Z.div_small (concat r)) by lia. rewrite Z.add_0_r.
  replace (width r + w - 1 - width r + 1) with w by lia.
  rewrite Z.add_comm, Z.mod_add by lia. by apply Z.mod_small.
Qed.

(** The same with the part named by its position. *)
Lemma slice_part (n : nat) fs w x hi lo :
  fs !! n = Some (w, x) → forallb (λ f, 0 <=? fst f) fs = true →
  lo = width (drop (S n) fs) → hi = lo + w - 1 → slice hi lo (concat fs) = trunc w x.
Proof.
  intros Hn Hf Hlo Hhi. rewrite <-(take_drop_middle fs n (w, x) Hn).
  assert (Forall (λ f, 0 ≤ fst f) fs) as Hall.
  { apply Forall_forall. intros f Hin. rewrite forallb_forall in Hf. apply Z.leb_le, Hf. by apply list_elem_of_In. }
  apply slice_concat; [by apply Forall_take| |by apply Forall_drop|done|done].
  by apply (Forall_lookup_1 _ _ _ _ Hall) in Hn.
Qed.

Lemma concat_fits w fs : forallb (λ f, 0 <=? fst f) fs = true → width fs = w → bv w (concat fs).
Proof.
  intros Hf <-. apply concat_bv. apply Forall_forall. intros f Hin. rewrite forallb_forall in Hf.
  apply Z.leb_le, Hf. by apply list_elem_of_In.
Qed.

Lemma slice_testbit hi lo x i :
  0 ≤ lo ≤ hi → 0 ≤ i ≤ hi - lo → Z.testbit (slice hi lo x) i = Z.testbit x (i + lo).
Proof. intros ??. unfold slice. rewrite Z.mod_pow2_bits_low by lia. by rewrite Z.shiftr_spec by lia. Qed.

Lemma slice_slice a b c d x : 0 ≤ b ≤ a → 0 ≤ d → a + d ≤ c → slice a b (slice c d x) = slice (a + d) (b + d) x.
Proof.
  intros Hb Hd Hc. apply Z.bits_inj'. intros i Hi. destruct (decide (i ≤ a - b)).
  - rewrite !slice_testbit by lia. f_equal. lia.
  - unfold slice. rewrite !Z.mod_pow2_bits_high by lia. done.
Qed.

Lemma slice_ext hi lo x y :
  0 ≤ lo ≤ hi → (∀ i, lo ≤ i ≤ hi → Z.testbit x i = Z.testbit y i) → slice hi lo x = slice hi lo y.
Proof.
  intros Hlo H. apply Z.bits_inj'. intros i Hi. destruct (decide (i ≤ hi - lo)).
  - rewrite !slice_testbit by lia. apply H. lia.
  - unfold slice. rewrite !Z.mod_pow2_bits_high by lia. done.
Qed.

Lemma bv_high w x i : bv w x → w ≤ i → Z.testbit x i = false.
Proof.
  intros [H0 H1] Hi. destruct (decide (x = 0)) as [->|Hx]; [apply Z.bits_0|].
  destruct (decide (i < 0)); [by apply Z.testbit_neg_r|].
  apply Z.bits_above_log2; [lia|]. destruct (decide (w < 0)); [rewrite Z.pow_neg_r in H1; lia|].
  apply Z.log2_lt_pow2 in H1; lia.
Qed.

Lemma bv_of_bits w x : 0 ≤ w → 0 ≤ x → (∀ i, w ≤ i → Z.testbit x i = false) → bv w x.
Proof.
  intros Hw Hx H. split; [done|]. destruct (decide (x = 0)) as [->|]; [lia|].
  apply Z.log2_lt_pow2; [lia|]. destruct (decide (Z.log2 x < w)) as [|Hge]; [done|].
  pose proof (H (Z.log2 x) ltac:(lia)) as Hb. rewrite Z.bit_log2 in Hb by lia. done.
Qed.

Lemma bv_lxor w x y : 0 ≤ w → bv w x → bv w y → bv w (Z.lxor x y).
Proof.
  intros Hw Hx Hy. apply bv_of_bits; [done|apply Z.lxor_nonneg; unfold bv in *; lia|].
  intros i Hi. rewrite Z.lxor_spec, (bv_high w x), (bv_high w y) by done. done.
Qed.

Lemma length_lanes {A} n (f : Z → A) : length (lanes n f) = Z.to_nat n.
Proof. unfold lanes. by rewrite length_fmap, length_seqZ. Qed.

Lemma lanes_lookup {A} n (f : Z → A) (k : nat) x :
  lanes n f !! k = Some x ↔ x = f (Z.of_nat k) ∧ Z.of_nat k < n.
Proof.
  unfold lanes. rewrite list_lookup_fmap, fmap_Some. setoid_rewrite lookup_seqZ. split.
  - intros (y & [-> ?] & ->). split; [f_equal|]; lia.
  - intros [-> ?]. exists (Z.of_nat k). split; [split; lia|done].
Qed.

Lemma lane_lanes n f i : 0 ≤ i < n → lane (lanes n f) i = f i.
Proof.
  intros Hi. unfold lane. apply list_lookup_total_correct. apply lanes_lookup.
  rewrite Z2Nat.id by lia. split; [done|lia].
Qed.

Lemma lanes_ext {A} n (f g : Z → A) : (∀ i, 0 ≤ i < n → f i = g i) → lanes n f = lanes n g.
Proof.
  intros H. apply list_eq. intros k. apply option_eq. intros x. rewrite !lanes_lookup.
  split; intros [-> ?]; (split; [|done]); [|symmetry]; apply H; lia.
Qed.

(** An array is its own tabulation. *)
Lemma lanes_lane n a : length a = Z.to_nat n → lanes n (lane a) = a.
Proof.
  intros Hl. apply list_eq. intros k. apply option_eq. intros x. rewrite lanes_lookup. unfold lane.
  rewrite Nat2Z.id. split.
  - intros [-> Hk]. apply list_lookup_lookup_total_lt. lia.
  - intros Hx. pose proof (lookup_lt_Some _ _ _ Hx). split; [|lia].
    symmetry. by apply list_lookup_total_correct.
Qed.

Lemma lane_eq n a b :
  length a = Z.to_nat n → length b = Z.to_nat n → (∀ i, 0 ≤ i < n → lane a i = lane b i) → a = b.
Proof. intros Ha Hb H. rewrite <-(lanes_lane n a), <-(lanes_lane n b) by done. by apply lanes_ext. Qed.

Create HintDb rtl.
#[export] Hint Resolve trunc_bv bv_lxor : rtl.
