(* ===== verification/PhyScramble.v ===== *)
(** * Scrambling (lphy_lfsr.sv, lphy_scrambler.sv, lphy_descrambler.sv)

    The 23-bit Galois LFSR, the byte scrambler and descrambler built on it and
    the per-lane seeds of ucie_lphy_top.sv. *)

From S2P Require Import Prelude Rtl.
#[local] Open Scope Z_scope.

(** ** lphy_lfsr *)

Module Lfsr.
Definition POLY : Z := 0x210125.

(** [next_lfsr]. *)
Definition next_lfsr (lfsr_reg : Z) : Z :=
  if Z.testbit lfsr_reg 22 then Z.lxor (trunc 23 (Z.shiftl lfsr_reg 1)) POLY
  else trunc 23 (Z.shiftl lfsr_reg 1).

Record inputs := mkInputs { enable : bool; load_seed : bool; seed_in : Z }.

Definition lphy_lfsr : circuit inputs Z Z := {|
  reset := 0x1DBFBC;
  out := λ _ lfsr_reg, lfsr_reg;
  tick := λ i lfsr_reg,
    if load_seed i then seed_in i else if enable i then next_lfsr lfsr_reg else lfsr_reg |}.
End Lfsr.

(** ** lphy_scrambler *)

Module Scrambler.
Record inputs := mkInputs {
  enable : bool; load_seed : bool; seed_in : Z; data_in : Z }.

(** The [always_comb] loop: eight steps of the register and the bits it
    shifted out, [i] the loop counter. *)
Fixpoint key_loop (n : nat) (i next_lfsr scramble_key : Z) : Z * Z :=
  match n with
  | O => (next_lfsr, scramble_key)
  | S n' =>
      let key := if Z.testbit next_lfsr 22 then Z.setbit scramble_key i else Z.clearbit scramble_key i in
      let nxt := if Z.testbit next_lfsr 22 then Z.lxor (trunc 23 (Z.shiftl next_lfsr 1)) 0x210125
                 else trunc 23 (Z.shiftl next_lfsr 1) in
      key_loop n' (i + 1) nxt key
  end.
Definition next_lfsr (lfsr_reg : Z) : Z := fst (key_loop 8 0 lfsr_reg 0).
Definition scramble_key (lfsr_reg : Z) : Z := snd (key_loop 8 0 lfsr_reg 0).

Definition lphy_scrambler : circuit inputs Z Z := {|
  reset := 0x1DBFBC;
  out := λ i lfsr_reg,
    if enable i then Z.lxor (data_in i) (scramble_key lfsr_reg) else data_in i;
  tick := λ i lfsr_reg,
    if load_seed i then seed_in i else if enable i then next_lfsr lfsr_reg else lfsr_reg |}.
End Scrambler.

(** ** lphy_descrambler *)

Module Descrambler.
Record inputs := mkInputs {
  enable : bool; load_seed : bool; seed_in : Z; data_in : Z }.

Fixpoint key_loop (n : nat) (i next_lfsr descramble_key : Z) : Z * Z :=
  match n with
  | O => (next_lfsr, descramble_key)
  | S n' =>
      let key := if Z.testbit next_lfsr 22 then Z.setbit descramble_key i else Z.clearbit descramble_key i in
      let nxt := if Z.testbit next_lfsr 22 then Z.lxor (trunc 23 (Z.shiftl next_lfsr 1)) 0x210125
                 else trunc 23 (Z.shiftl next_lfsr 1) in
      key_loop n' (i + 1) nxt key
  end.
Definition next_lfsr (lfsr_reg : Z) : Z := fst (key_loop 8 0 lfsr_reg 0).
Definition descramble_key (lfsr_reg : Z) : Z := snd (key_loop 8 0 lfsr_reg 0).

Definition lphy_descrambler : circuit inputs Z Z := {|
  reset := 0x1DBFBC;
  out := λ i lfsr_reg,
    if enable i then Z.lxor (data_in i) (descramble_key lfsr_reg) else data_in i;
  tick := λ i lfsr_reg,
    if load_seed i then seed_in i else if enable i then next_lfsr lfsr_reg else lfsr_reg |}.
End Descrambler.

#[global] Arguments Lfsr.next_lfsr : simpl never.
#[global] Arguments Scrambler.next_lfsr : simpl never.
#[global] Arguments Scrambler.scramble_key : simpl never.
#[global] Arguments Descrambler.next_lfsr : simpl never.
#[global] Arguments Descrambler.descramble_key : simpl never.

(** ** The seeds of ucie_lphy_top *)

Definition lane_seeds : list Z :=
  [
   0x1DBFBC; 0x1DBFC0; 0x1DBFC6; 0x0B7EF5; 0x05BF7B; 0x162FC2; 0x0B17E1; 0x058BF1;
   0x02C5F9; 0x016300; 0x00B180; 0x0058C1; 0x002C61; 0x001631; 0x000B19; 0x00058D;
   0x1002C7; 0x080164; 0x0400B2; 0x02005A; 0x01002D; 0x008017; 0x00400C; 0x002006;
   0x001003; 0x000802; 0x000401; 0x1FFC4B; 0x0FFE26; 0x07FF14; 0x03FF8B; 0x01FFC6;
   0x00FFE3; 0x007FF2; 0x003FFA; 0x001FFD; 0x000FFF; 0x000800; 0x000400; 0x000200;
   0x000100; 0x000080; 0x000040; 0x000020; 0x000010; 0x000008; 0x000004; 0x000002;
   0x000001; 0x1FFFC1; 0x0FFFE1; 0x07FFF1; 0x03FFF9; 0x01FFFD; 0x00FFFE; 0x007FFF;
   0x1C3FFF; 0x0E1FFF; 0x070FFF; 0x0387FF; 0x01C3FF; 0x00E1FF; 0x0070FF; 0x00387F].

(** ** The keystream *)

(** The register after [k] steps. *)
Definition steps (k : nat) (r : Z) : Z := Nat.iter k Lfsr.next_lfsr r.

Lemma steps_succ k r : steps (S k) r = Lfsr.next_lfsr (steps k r).
Proof. done. Qed.
Lemma steps_succ_r k r : steps (S k) r = steps k (Lfsr.next_lfsr r).
Proof. apply Nat.iter_succ_r. Qed.
Lemma steps_add j k r : steps (j + k) r = steps j (steps k r).
Proof. apply Nat.iter_add. Qed.

Lemma next_bv r : bv 23 (Lfsr.next_lfsr r).
Proof. unfold Lfsr.next_lfsr. case_match; [apply bv_lxor|]; try apply trunc_bv; try done; lia. Qed.
Lemma steps_bv k r : bv 23 r → bv 23 (steps k r).
Proof. intros H. destruct k; [done|]. apply next_bv. Qed.

(** The unrolled loop is the single-step register, clocked eight times; bit
    [j] of the key is the register's top bit after [j] steps. *)
Lemma key_loop_run n i r key :
  0 ≤ i → bv i key →
  fst (Scrambler.key_loop n i r key) = steps n r ∧
  (∀ j, 0 ≤ j < i → Z.testbit (snd (Scrambler.key_loop n i r key)) j = Z.testbit key j) ∧
  (∀ j, i ≤ j < i + Z.of_nat n →
    Z.testbit (snd (Scrambler.key_loop n i r key)) j = Z.testbit (steps (Z.to_nat (j - i)) r) 22) ∧
  bv (i + Z.of_nat n) (snd (Scrambler.key_loop n i r key)).
Proof.
  revert i r key. induction n as [|n IH]; intros i r key Hi Hk; cbn [Scrambler.key_loop].
  { cbn [fst snd]. split_and!; [done|done|lia|]. by rewrite Z.add_0_r. }
  set (key' := if Z.testbit r 22 then Z.setbit key i else _).
  assert (∀ j, Z.testbit key' j = if decide (j = i) then Z.testbit r 22 else Z.testbit key j) as Hb.
  { intros j. unfold key'. destruct (Z.testbit r 22); case_decide; subst.
    - by apply Z.setbit_eq.
    - by rewrite Z.setbit_neq by lia.
    - by apply Z.clearbit_eq.
    - by rewrite Z.clearbit_neq by lia. }
  assert (bv (i + 1) key') as Hk'.
  { apply bv_of_bits; [lia| |].
    - unfold key'. unfold bv in Hk. case_match.
      + unfold Z.setbit. rewrite Z.lor_nonneg, Z.shiftl_nonneg. lia.
      + unfold Z.clearbit. apply Z.ldiff_nonneg. lia.
    - intros j Hj. rewrite Hb. case_decide; [lia|]. apply (bv_high i); [done|lia]. }
  destruct (IH (i + 1) (Lfsr.next_lfsr r) key' ltac:(lia) Hk') as (Hf & Hlo & Hhi & Hbv).
  rewrite <-steps_succ_r in Hf. unfold Lfsr.next_lfsr, Lfsr.POLY in *. split_and!; [done|..].
  - intros j Hj. rewrite Hlo, Hb by lia. case_decide; [lia|done].
  - intros j Hj. destruct (decide (j = i)) as [->|Hne].
    + rewrite Hlo, Hb by lia. rewrite decide_True by done. by rewrite Z.sub_diag.
    + rewrite Hhi by lia. replace (Z.to_nat (j - i)) with (S (Z.to_nat (j - (i + 1)))) by lia.
      by rewrite steps_succ_r.
  - by replace (i + Z.of_nat (S n)) with (i + 1 + Z.of_nat n) by lia.
Qed.

Lemma descramble_same r :
  Descrambler.next_lfsr r = Scrambler.next_lfsr r ∧ Descrambler.descramble_key r = Scrambler.scramble_key r.
Proof.
  unfold Descrambler.next_lfsr, Descrambler.descramble_key, Scrambler.next_lfsr, Scrambler.scramble_key.
  assert (∀ n i r k, Descrambler.key_loop n i r k = Scrambler.key_loop n i r k) as ->; [|done].
  induction n as [|n IH]; intros; [done|]. cbn. apply IH.
Qed.

Lemma scrambler_next r : Scrambler.next_lfsr r = steps 8 r.
Proof. by destruct (key_loop_run 8 0 r 0) as (H & _). Qed.

Lemma scramble_key_bv r : bv 8 (Scrambler.scramble_key r).
Proof. by destruct (key_loop_run 8 0 r 0) as (_ & _ & _ & H). Qed.

(** ** Linear algebra over GF(2)

    A linear map on 23-bit vectors as the images of the 23 unit vectors. *)

Section Linear.

Definition apply_matrix (m : list Z) (r : Z) : Z :=
  foldr Z.lxor 0 (imap (λ j c, if Z.testbit r (Z.of_nat j) then c else 0) m).
Definition compose (m1 m2 : list Z) : list Z := apply_matrix m1 <$> m2.
Definition unit_vectors : list Z := lanes 23 (λ j, 2 ^ j).
Definition step_matrix : list Z := Lfsr.next_lfsr <$> unit_vectors.

(** [step_matrix] to the power [p], by repeated squaring. *)
Fixpoint matrix_pow (p : positive) : list Z :=
  match p with
  | xH => step_matrix
  | xO q => let h := matrix_pow q in compose h h
  | xI q => let h := matrix_pow q in compose step_matrix (compose h h)
  end.

Definition linear (f : Z → Z) : Prop := f 0 = 0 ∧ ∀ a b, f (Z.lxor a b) = Z.lxor (f a) (f b).

Lemma imap_xor (l : list Z) (k : nat) a b :
  foldr Z.lxor 0 (imap (λ j c, if Z.testbit (Z.lxor a b) (Z.of_nat (k + j)) then c else 0) l)
  = Z.lxor (foldr Z.lxor 0 (imap (λ j c, if Z.testbit a (Z.of_nat (k + j)) then c else 0) l))
           (foldr Z.lxor 0 (imap (λ j c, if Z.testbit b (Z.of_nat (k + j)) then c else 0) l)).
Proof.
  revert k. induction l as [|c l IH]; intros k; [done|]. cbn [imap foldr].
  assert (∀ x, foldr Z.lxor 0 (imap ((λ j c, if Z.testbit x (Z.of_nat (k + j)) then c else 0) ∘ S) l) =
    foldr Z.lxor 0 (imap (λ j c, if Z.testbit x (Z.of_nat (S k + j)) then c else 0) l)) as Hs.
  { intros x. f_equal. apply imap_ext. intros j y _. unfold compose. cbn. by rewrite Nat.add_succ_r. }
  rewrite !Hs, (IH (S k)), Z.lxor_spec.
  set (u := foldr _ _ _). set (v := foldr _ _ _).
  destruct (Z.testbit a _), (Z.testbit b _); cbn [xorb];
    apply Z.bits_inj'; intros i _; rewrite !Z.lxor_spec, ?Z.bits_0;
    destruct (Z.testbit c i), (Z.testbit u i), (Z.testbit v i); done.
Qed.

Lemma apply_linear m : linear (apply_matrix m).
Proof.
  split.
  - unfold apply_matrix. induction m as [|c m IH] using rev_ind; [done|].
    rewrite imap_app, foldr_app. cbn. rewrite Z.bits_0. apply IH.
  - intros a b. apply (imap_xor m 0).
Qed.

(** Linear maps that agree on the unit vectors agree on every vector. *)
Lemma linear_ext f g :
  linear f → linear g → (∀ j, 0 ≤ j < 23 → f (2 ^ j) = g (2 ^ j)) → ∀ r, bv 23 r → f r = g r.
Proof.
  intros [Hf0 Hf] [Hg0 Hg] Hu.
  assert (∀ n : nat, (n ≤ 23)%nat → ∀ r, bv (Z.of_nat n) r → f r = g r) as H; [|by apply (H 23%nat)].
  induction n as [|n IH]; intros Hn r Hr.
  { assert (r = 0) as -> by (unfold bv in Hr; cbn in Hr; lia). congruence. }
  destruct (Z.testbit r (Z.of_nat n)) eqn:Hb.
  - assert (r = Z.lxor (2 ^ Z.of_nat n) (Z.clearbit r (Z.of_nat n))) as ->.
    { apply Z.bits_inj'. intros i Hi. rewrite Z.lxor_spec, Z.clearbit_eqb, Z.pow2_bits_eqb by lia.
      destruct (Z.eqb_spec (Z.of_nat n) i) as [<-|]; [by rewrite Hb|]. cbn.
      by destruct (Z.testbit r i). }
    rewrite Hf, Hg, Hu by lia. f_equal. apply IH; [lia|].
    apply bv_of_bits; [lia|unfold Z.clearbit; apply Z.ldiff_nonneg; unfold bv in Hr; lia|].
    intros i Hi. rewrite Z.clearbit_eqb. destruct (Z.eqb_spec (Z.of_nat n) i); [by rewrite andb_false_r|].
    rewrite (bv_high (Z.of_nat (S n)) r) by (done || lia). done.
  - apply IH; [lia|]. apply bv_of_bits; [lia|unfold bv in Hr; lia|]. intros i Hi.
    destruct (decide (i = Z.of_nat n)) as [->|]; [done|]. apply (bv_high (Z.of_nat (S n))); [done|lia].
Qed.

Lemma next_linear : linear Lfsr.next_lfsr.
Proof.
  split; [done|]. intros a b. unfold Lfsr.next_lfsr. rewrite Z.lxor_spec.
  assert (trunc 23 (Z.shiftl (Z.lxor a b) 1) =
    Z.lxor (trunc 23 (Z.shiftl a 1)) (trunc 23 (Z.shiftl b 1))) as ->.
  { apply Z.bits_inj'. intros i Hi. unfold trunc. rewrite Z.lxor_spec. destruct (decide (i < 23)).
    - rewrite !Z.mod_pow2_bits_low, !Z.shiftl_spec, Z.lxor_spec by lia. done.
    - rewrite !Z.mod_pow2_bits_high by lia. done. }
  set (u := trunc _ _). set (v := trunc _ _).
  destruct (Z.testbit a 22), (Z.testbit b 22); cbn [xorb]; apply Z.bits_inj'; intros i _;
    rewrite !Z.lxor_spec; destruct (Z.testbit u i), (Z.testbit v i), (Z.testbit Lfsr.POLY i); done.
Qed.

Lemma steps_linear k : linear (steps k).
Proof.
  induction k as [|k [IH0 IH]]; [done|]. destruct next_linear as [N0 N]. split.
  - by rewrite steps_succ, IH0.
  - intros a b. by rewrite !steps_succ, IH, N.
Qed.
Lemma unit_in u : u ∈ unit_vectors → ∃ j, 0 ≤ j < 23 ∧ u = 2 ^ j.
Proof.
  unfold unit_vectors, lanes. rewrite list_elem_of_fmap. intros (j & -> & Hj).
  apply elem_of_seqZ in Hj. eauto.
Qed.

Lemma unit_bv j : 0 ≤ j < 23 → bv 23 (2 ^ j).
Proof. intros Hj. split; [lia|]. apply Z.pow_lt_mono_r; lia. Qed.

Lemma apply_unit m (j : nat) c : m !! j = Some c → apply_matrix m (2 ^ Z.of_nat j) = c.
Proof.
  intros Hm. assert (∀ (l : list Z) k, (j < k)%nat →
    foldr Z.lxor 0 (imap (λ i c, if Z.testbit (2 ^ Z.of_nat j) (Z.of_nat (k + i)) then c else 0) l) = 0) as Hz.
  { induction l as [|x l IH]; intros k Hk; [done|]. cbn [imap foldr].
    rewrite Z.pow2_bits_false, Z.lxor_0_l by lia. rewrite <-(IH (S k) ltac:(lia)) at 2. f_equal.
    apply imap_ext. intros i y _. cbn. by rewrite Nat.add_succ_r. }
  assert (∀ (l : list Z) k i, j = (k + i)%nat → l !! i = Some c →
    foldr Z.lxor 0 (imap (λ i c, if Z.testbit (2 ^ Z.of_nat j) (Z.of_nat (k + i)) then c else 0) l) = c) as H.
  { induction l as [|x l IH]; intros k i Hj Hl; [done|]. cbn [imap foldr].
    assert (imap ((λ i c, if Z.testbit (2 ^ Z.of_nat j) (Z.of_nat (k + i)) then c else 0) ∘ S) l =
      imap (λ i c, if Z.testbit (2 ^ Z.of_nat j) (Z.of_nat (S k + i)) then c else 0) l) as ->.
    { apply imap_ext. intros n y _. cbn. by rewrite Nat.add_succ_r. }
    destruct i as [|i].
    - injection Hl as ->. rewrite Hj, Z.pow2_bits_true by lia. rewrite <-Hj, Hz by lia. apply Z.lxor_0_r.
    - rewrite Z.pow2_bits_false, Z.lxor_0_l by lia. apply (IH (S k) i); [lia|done]. }
  apply (H m 0%nat j); done.
Qed.

(** A linear map is its matrix. *)
Lemma apply_units f r : linear f → bv 23 r → apply_matrix (f <$> unit_vectors) r = f r.
Proof.
  intros Hf Hr. apply (linear_ext (apply_matrix (f <$> unit_vectors)) f); [apply apply_linear|done| |done].
  intros j Hj. replace j with (Z.of_nat (Z.to_nat j)) at 1 by lia.
  apply apply_unit. rewrite list_lookup_fmap. unfold unit_vectors.
  assert (lanes 23 (λ j, 2 ^ j) !! Z.to_nat j = Some (2 ^ j)) as ->; [|done].
  apply lanes_lookup. rewrite Z2Nat.id by lia. split; [done|lia].
Qed.

Lemma compose_steps f k :
  linear f → compose (f <$> unit_vectors) (steps k <$> unit_vectors) = (λ u, f (steps k u)) <$> unit_vectors.
Proof.
  intros Hf. unfold compose. rewrite <-list_fmap_compose. apply list_fmap_ext. intros i u Hu.
  apply list_elem_of_lookup_2, unit_in in Hu as (j & Hj & ->). cbn. apply apply_units; [done|].
  by apply steps_bv, unit_bv.
Qed.

Lemma matrix_pow_steps p : matrix_pow p = steps (Pos.to_nat p) <$> unit_vectors.
Proof.
  induction p as [q IH|q IH|]; cbn [matrix_pow].
  - rewrite IH, (compose_steps (steps (Pos.to_nat q))) by apply steps_linear.
    assert ((λ u, steps (Pos.to_nat q) (steps (Pos.to_nat q) u)) <$> unit_vectors =
      steps (2 * Pos.to_nat q) <$> unit_vectors) as ->.
    { apply list_fmap_ext. intros i u _. rewrite <-steps_add. f_equal. lia. }
    unfold step_matrix. rewrite (compose_steps Lfsr.next_lfsr) by apply next_linear.
    apply list_fmap_ext. intros i u _. rewrite <-steps_succ. f_equal. lia.
  - rewrite IH, (compose_steps (steps (Pos.to_nat q))) by apply steps_linear.
    apply list_fmap_ext. intros i u _. rewrite <-steps_add. f_equal. lia.
  - done.
Qed.

Lemma apply_matrix_pow p r : bv 23 r → apply_matrix (matrix_pow p) r = steps (Pos.to_nat p) r.
Proof. intros Hr. rewrite matrix_pow_steps. apply apply_units; [apply steps_linear|done]. Qed.
End Linear.

(** ** The period of the LFSR *)

Definition period : positive := 8388607.

(** Left inverses of [step^d - 1] for the two prime factors of the period. *)
Definition inverse_47 : list Z :=
  [0x59c446; 0x1289a9; 0x251352; 0x4a26a4; 0x354c6d; 0x6a98da; 0x743091; 0x496007;
   0x33c12b; 0x678256; 0x6e0589; 0x7d0a37; 0x5b154b; 0x172bb3; 0x2e5766; 0x5caecc;
   0x185cbd; 0x30b97a; 0x6172f4; 0x63e4cd; 0x66c8bf; 0x6c905b; 0x782193].
Definition inverse_178481 : list Z :=
  [0x2bad86; 0x575b0c; 0x0fb73d; 0x1f6e7a; 0x3edcf4; 0x7db9e8; 0x5a72f5; 0x15e4cf;
   0x2bc99e; 0x57933c; 0x0e275d; 0x1c4eba; 0x389d74; 0x713ae8; 0x4374f5; 0x27e8cf;
   0x4fd19e; 0x3ea219; 0x7d4432; 0x5b8941; 0x1613a7; 0x2c274e; 0x584e9c].

(** [m - 1] over GF(2). *)
Definition minus_one (m : list Z) : list Z := zip_with Z.lxor m unit_vectors.

Lemma period_matrix : matrix_pow period = unit_vectors.
Proof. vm_compute. reflexivity. Qed.
Lemma inverse_47_ok : compose inverse_47 (minus_one (matrix_pow 47)) = unit_vectors.
Proof. vm_compute. reflexivity. Qed.
Lemma inverse_178481_ok : compose inverse_178481 (minus_one (matrix_pow 178481)) = unit_vectors.
Proof. vm_compute. reflexivity. Qed.

Lemma identity_matrix r : bv 23 r → apply_matrix unit_vectors r = r.
Proof.
  intros Hr. assert (unit_vectors = (λ u, u) <$> unit_vectors) as -> by (symmetry; apply list_fmap_id).
  by apply (apply_units (λ u, u)).
Qed.

(** When [step^d - 1] is invertible no register value but 0 repeats after [d] steps. *)
Lemma invertible_no_fixpoint inv d r :
  compose inv (minus_one (matrix_pow d)) = unit_vectors → bv 23 r →
  steps (Pos.to_nat d) r = r → r = 0.
Proof.
  intros Hi Hr Hs. rewrite <-(identity_matrix r Hr), <-Hi.
  assert (minus_one (matrix_pow d) = (λ u, Z.lxor (steps (Pos.to_nat d) u) u) <$> unit_vectors) as Hm.
  { unfold minus_one. rewrite matrix_pow_steps. generalize unit_vectors as l. clear. induction l as [|u l IH]; [done|]. cbn. f_equal. apply IH. }
  destruct (steps_linear (Pos.to_nat d)) as [S0 Sx]. destruct (apply_linear inv) as [I0 Ix].
  assert (linear (λ u, Z.lxor (steps (Pos.to_nat d) u) u)) as Hl.
  { split; [by rewrite S0|]. intros a b. rewrite Sx. apply Z.bits_inj'. intros i _. rewrite !Z.lxor_spec.
    destruct (Z.testbit (steps _ a) i), (Z.testbit (steps _ b) i), (Z.testbit a i), (Z.testbit b i); done. }
  rewrite Hm. unfold compose. rewrite <-list_fmap_compose.
  rewrite (apply_units (apply_matrix inv ∘ (λ u, Z.lxor (steps (Pos.to_nat d) u) u))).
  - cbn. by rewrite Hs, Z.lxor_nilpotent.
  - destruct Hl as [L0 Lx]. split; cbn in *.
    + by rewrite L0.
    + intros a b. by rewrite Lx, Ix.
  - done.
Qed.

Lemma divisors_of_period : ∀ g : Z, 0 < g → (g | 8388607) → g < 8388607 → (g | 47) ∨ (g | 178481).
Proof.
  assert (∀ d, 1 ≤ d ≤ 2896 → (d | 8388607) → d = 1 ∨ d = 47) as Hd.
  { assert (forallb (λ d, negb (8388607 mod d =? 0) || (d =? 1) || (d =? 47)) (seqZ 1 2896) = true) as H
      by (vm_compute; reflexivity).
    intros d Hd Hdiv. rewrite forallb_forall in H. specialize (H d).
    rewrite <-list_elem_of_In, elem_of_seqZ in H. specialize (H ltac:(lia)).
    apply Z.mod_divide in Hdiv; [|lia]. rewrite Hdiv in H. cbn in H.
    apply orb_prop in H as [H|H]; apply Z.eqb_eq in H; auto. }
  intros g Hg [q Hq] Hlt. destruct (decide (g ≤ 2896)).
  - left. destruct (Hd g ltac:(lia) (ex_intro _ q Hq)) as [->| ->]; [by exists 47|by exists 1].
  - right. destruct (Hd q ltac:(nia)) as [->| ->]; [exists g; lia|lia|]. exists 1. lia.
Qed.

Lemma period_steps r : bv 23 r → steps (Pos.to_nat period) r = r.
Proof. intros Hr. rewrite <-apply_matrix_pow, period_matrix by done. by apply identity_matrix. Qed.

Lemma steps_multiple k n r : steps k r = r → steps (n * k) r = r.
Proof. intros H. induction n as [|n IH]; [done|]. cbn [Nat.mul]. by rewrite steps_add, IH. Qed.

(** A number of steps after which [r] repeats may be replaced by its greatest
    common divisor with the period. *)
Lemma steps_gcd k r :
  (0 < k)%nat → bv 23 r → steps k r = r → steps (Nat.gcd k (Pos.to_nat period)) r = r.
Proof.
  intros Hk Hr Hs. pose proof (period_steps r Hr) as Hp. generalize dependent (Pos.to_nat period). intros P HP.
  destruct (Nat.gcd_bezout_pos k P Hk) as (a & b & Hab).
  pose proof (steps_multiple k a r Hs) as Ha. by rewrite Hab, steps_add, (steps_multiple P b r HP) in Ha.
Qed.

(** The scrambler's register has the maximal period: a
    non-zero value repeats after 2^23 - 1 steps and after no smaller number, so
    the register never reaches the all-zero value in which it would stop. *)
Theorem lfsr_maximal_period r :
  bv 23 r → r ≠ 0 →
  steps (Pos.to_nat period) r = r ∧
  ∀ k, (0 < k)%nat → Z.of_nat k < Z.pos period → steps k r ≠ r ∧ steps k r ≠ 0.
Proof.
  intros Hr H0. split; [by apply period_steps|]. intros k Hk Hlt.
  assert (steps k r ≠ r) as Hne.
  { intros Hs. apply H0. pose proof (steps_gcd k r Hk Hr Hs) as Hg.
    pose proof (Nat.gcd_divide_l k (Pos.to_nat period)) as [a Ha].
    pose proof (Nat.gcd_divide_r k (Pos.to_nat period)) as [b Hb].
    set (g := Nat.gcd k (Pos.to_nat period)) in *. clearbody g.
    assert (Z.of_nat b * Z.of_nat g = 8388607) as Hb' by (unfold period in Hb; lia).
    destruct (divisors_of_period (Z.of_nat g)) as [[c Hc]|[c Hc]].
    - nia.
    - exists (Z.of_nat b). lia.
    - unfold period in Hlt. assert (0 < a)%nat by (destruct a; lia). nia.
    - apply (invertible_no_fixpoint inverse_47 47 r inverse_47_ok Hr).
      replace (Pos.to_nat 47) with (Z.to_nat c * g)%nat by nia. by apply steps_multiple.
    - apply (invertible_no_fixpoint inverse_178481 178481 r inverse_178481_ok Hr).
      replace (Pos.to_nat 178481) with (Z.to_nat c * g)%nat by nia. by apply steps_multiple. }
  split; [done|]. intros Hz. apply H0. rewrite <-(period_steps r Hr).
  assert (Pos.to_nat period = (Pos.to_nat period - k) + k)%nat as -> by lia.
  rewrite steps_add, Hz. apply steps_linear.
Qed.

Lemma lfsr_maximal_period_witness : steps 1000 0x1DBFBC ≠ 0x1DBFBC ∧ steps 1000 0x1DBFBC ≠ 0.
Proof. apply (lfsr_maximal_period 0x1DBFBC); [by split|done|lia|done]. Defined.

(** C16.  The byte-wide key generator is the single-step register
    clocked eight times per byte: one enabled cycle of the scrambler leaves its
    register where eight enabled cycles of [lphy_lfsr] leave theirs, and bit [j]
    of the key is the top bit that register shows in cycle [j]. *)
Theorem key_is_serial_lfsr r seed :
  let serial := replicate 8 (Lfsr.mkInputs true false seed) in
  Scrambler.next_lfsr r = run Lfsr.lphy_lfsr r serial ∧
  ∀ j : nat, (j < 8)%nat →
    Z.testbit (Scrambler.scramble_key r) (Z.of_nat j)
    = Z.testbit (trace Lfsr.lphy_lfsr r serial !!! j) 22.
Proof.
  cbn zeta. split; [apply scrambler_next|]. intros j Hj.
  destruct (key_loop_run 8 0 r 0 ltac:(done) ltac:(done)) as (_ & _ & H & _).
  unfold Scrambler.scramble_key. rewrite H by lia. rewrite Z.sub_0_r, Nat2Z.id.
  do 8 (destruct j as [|j]; [done|]). lia.
Qed.

Lemma key_is_serial_witness :
  Z.testbit (Scrambler.scramble_key 0x1DBFBC) 3
  = Z.testbit (trace Lfsr.lphy_lfsr 0x1DBFBC (replicate 8 (Lfsr.mkInputs true false 0)) !!! 3%nat) 22.
Proof. apply (proj2 (key_is_serial_lfsr 0x1DBFBC 0) 3%nat). lia. Defined.

(** ** Scrambling and descrambling *)

(** What the descrambler receives when the scrambler's cycle was [i] and the
    byte on the wire is [d]. *)
Definition received (i : Scrambler.inputs) (d : Z) : Descrambler.inputs :=
  Descrambler.mkInputs (Scrambler.enable i) (Scrambler.load_seed i) (Scrambler.seed_in i) d.

Lemma descramble_byte i r :
  out Descrambler.lphy_descrambler (received i (out Scrambler.lphy_scrambler i r)) r = Scrambler.data_in i ∧
  tick Descrambler.lphy_descrambler (received i (out Scrambler.lphy_scrambler i r)) r
  = tick Scrambler.lphy_scrambler i r.
Proof.
  destruct (descramble_same r) as [Hn Hk]. split; cbn.
  - destruct (Scrambler.enable i); [|done]. rewrite Hk, Z.lxor_assoc, Z.lxor_nilpotent. apply Z.lxor_0_r.
  - by rewrite Hn.
Qed.

(** C17.  A descrambler that starts from the scrambler's register
    value and sees the same enable and seed signals returns every byte the
    scrambler was given, through reseeding and pauses. *)
Theorem descramble_scramble r ins :
  trace Descrambler.lphy_descrambler r
    (zip_with received ins (trace Scrambler.lphy_scrambler r ins))
  = Scrambler.data_in <$> ins.
Proof.
  revert r. induction ins as [|i ins IH]; intros r; [done|]. cbn [trace zip_with].
  destruct (descramble_byte i r) as [Ho Ht]. rewrite Ho, Ht, IH. done.
Qed.

(** ** The seeds *)

(** The 64 seeds are distinct, non-zero and 23 bits wide, so
    every lane's register runs.  They are not spaced as their comment says: no
    seed is the previous lane's register 23 steps later, and lanes 37 to 48 hold
    consecutive values of one sequence, each the next lane's register one step
    later. *)
Theorem seeds_running :
  NoDup lane_seeds ∧ Forall (λ s, bv 23 s ∧ s ≠ 0) lane_seeds ∧
  (∀ i, 0 ≤ i < 63 → lane lane_seeds (i + 1) ≠ steps 23 (lane lane_seeds i)) ∧
  (∀ i, 37 ≤ i < 48 → lane lane_seeds i = Lfsr.next_lfsr (lane lane_seeds (i + 1))).
Proof.
  split_and!.
  - apply (bool_decide_unpack _). vm_compute. done.
  - apply (bool_decide_unpack _). vm_compute. done.
  - assert (forallb (λ i, negb (lane lane_seeds (i + 1) =? steps 23 (lane lane_seeds i))) (seqZ 0 63) = true) as H
      by (vm_compute; reflexivity).
    intros i Hi. rewrite forallb_forall in H. specialize (H i). rewrite <-list_elem_of_In, elem_of_seqZ in H.
    specialize (H ltac:(lia)). by apply negb_true_iff, Z.eqb_neq in H.
  - assert (forallb (λ i, lane lane_seeds i =? Lfsr.next_lfsr (lane lane_seeds (i + 1))) (seqZ 37 11) = true) as H
      by (vm_compute; reflexivity).
    intros i Hi. rewrite forallb_forall in H. specialize (H i). rewrite <-list_elem_of_In, elem_of_seqZ in H.
    specialize (H ltac:(lia)). by apply Z.eqb_eq in H.
Qed.

Lemma seeds_running_witness : lane lane_seeds 40 = Lfsr.next_lfsr (lane lane_seeds 41).
Proof. apply seeds_running. lia. Defined.
