(* ===== verification/PhyLanes.v ===== *)
(** * Lane mapping, framing and repair

    lphy_byte_lane_map.sv, lphy_valid_framer.sv, lphy_valid_deframer.sv,
    lphy_pattern_gen.sv, lphy_repair_tx.sv, lphy_repair_rx.sv,
    lphy_width_degrade.sv, lphy_data_repair_ctrl.sv, lphy_valid_repair.sv and
    lphy_ck_track_repair.sv: how 64-byte words are spread over the lanes, how
    the valid lane is framed and how broken lanes are routed around. *)

From S2P Require Import Prelude Bitfield Rtl.
#[local] Open Scope Z_scope.

(** ** lphy_byte_lane_map *)

Module ByteLaneMap.
Record inputs := mkInputs {
  link_width : Z; lp_valid : bool; lp_irdy : bool; lp_data : Z }.
Record regs := mkRegs {
  buffer : Z; chunk_cnt : Z; busy : bool; lane_valid : bool; lane_data : list Z }.

Definition pl_trdy (s : regs) : bool := negb (busy s).

(** [x[i*8 +: 8]]. *)
Definition byte (x i : Z) : Z := slice (i * 8 + 7) (i * 8) x.

(** [for (i < n) lane_data[i] <= f(i)]; the other lanes keep their value. *)
Definition drive (n : Z) (f : Z → Z) (old : list Z) : list Z :=
  lanes 64 (λ i, if i <? n then f i else lane old i).

Definition accept (i : inputs) (s : regs) : regs :=
  let d := lp_data i in
  if link_width i =? 2 then
    mkRegs d (chunk_cnt s) false true (drive 64 (byte d) (lane_data s))
  else if link_width i =? 1 then
    mkRegs d 1 true true (drive 32 (byte d) (lane_data s))
  else
    mkRegs d 1 true true (drive 16 (byte d) (lane_data s)).

Definition continue (i : inputs) (s : regs) : regs :=
  if link_width i =? 1 then
    mkRegs (buffer s) (chunk_cnt s) false true
      (drive 32 (λ k, byte (buffer s) (k + 32)) (lane_data s))
  else
    let d := drive 16 (λ k, byte (buffer s) (k + chunk_cnt s * 16)) (lane_data s) in
    if chunk_cnt s =? 3 then mkRegs (buffer s) (chunk_cnt s) false true d
    else mkRegs (buffer s) (trunc 3 (chunk_cnt s + 1)) (busy s) true d.

Definition step (i : inputs) (s : regs) : regs :=
  if negb (busy s) && lp_valid i && pl_trdy s && lp_irdy i then accept i s
  else if busy s then continue i s
  else mkRegs (buffer s) (chunk_cnt s) (busy s) false (lane_data s).

Definition lphy_byte_lane_map : circuit inputs regs (bool * (bool * list Z)) := {|
  reset := mkRegs 0 0 false false (lanes 64 (λ _, 0));
  out := λ _ s, (pl_trdy s, (lane_valid s, lane_data s));
  tick := step |}.
End ByteLaneMap.

(** ** lphy_valid_framer, lphy_valid_deframer *)

Module ValidFramer.
Record inputs := mkInputs { lane_valid : bool; credit_return : bool }.

Definition frame (credit_return lane_valid : bool) : Z :=
  match credit_return, lane_valid with
  | true, true => 0xFF
  | false, true => 0x0F
  | true, false => 0xF0
  | false, false => 0x00
  end.

Definition lphy_valid_framer : circuit inputs Z Z := {|
  reset := 0x00;
  out := λ _ valid_frame_out, valid_frame_out;
  tick := λ i _, frame (credit_return i) (lane_valid i) |}.
End ValidFramer.

Module ValidDeframer.
Record regs := mkRegs { lane_valid : bool; credit_return : bool; framing_err : bool }.

Definition decode (valid_frame_in : Z) : regs :=
  if valid_frame_in =? 0xFF then mkRegs true true false
  else if valid_frame_in =? 0x0F then mkRegs true false false
  else if valid_frame_in =? 0xF0 then mkRegs false true false
  else if valid_frame_in =? 0x00 then mkRegs false false false
  else mkRegs false false true.

Definition lphy_valid_deframer : circuit Z regs regs := {|
  reset := mkRegs false false false;
  out := λ _ s, s;
  tick := λ valid_frame_in _, decode valid_frame_in |}.
End ValidDeframer.

(** ** lphy_pattern_gen *)

Definition pattern_out (lane_id : Z) (select_valtrain : bool) : Z :=
  let lane_id_pattern := concat [(4, 0xA); (8, lane_id); (4, 0xA)] in
  let valtrain_pattern := 0x0F0F in
  if select_valtrain then valtrain_pattern else lane_id_pattern.

(** ** lphy_repair_tx, lphy_repair_rx

    Both modules hold the same two [always_comb] blocks for the lower and the
    upper 32 lanes; [base] is 0 or 32 and [w] the width of the recorded
    indices, 5 or 6. *)

Module Repair.
(** The number of failed lanes, in two bits, and the first two of them. *)
Record scan := mkScan { fail_cnt : Z; f0 : Z; f1 : Z }.

Fixpoint scan_loop (w : Z) (lane_failed : Z) (n : nat) (i : Z) (st : scan) : scan :=
  match n with
  | O => st
  | S n' =>
      scan_loop w lane_failed n' (i + 1)
        (if Z.testbit lane_failed i then
           if fail_cnt st =? 0 then mkScan (trunc 2 (fail_cnt st + 1)) (trunc w i) (f1 st)
           else if fail_cnt st =? 1 then mkScan (trunc 2 (fail_cnt st + 1)) (f0 st) (trunc w i)
           else mkScan (trunc 2 (fail_cnt st + 1)) (f0 st) (f1 st)
         else st)
  end.
Definition scan_lower (lane_failed : Z) : scan := scan_loop 5 lane_failed 32 0 (mkScan 0 0 0).
Definition scan_upper (lane_failed : Z) : scan := scan_loop 6 lane_failed 32 32 (mkScan 0 0 0).

(** [tx_physical_data[i]] within a group. *)
Definition tx_lane (st : scan) (tx_logical_data : list Z) (i : Z) : Z :=
  if fail_cnt st =? 1 then
    if i <? f0 st then lane tx_logical_data (i + 1)
    else if i =? f0 st then 0
    else lane tx_logical_data i
  else if fail_cnt st =? 2 then
    if i <? f0 st then lane tx_logical_data (i + 1)
    else if (i =? f0 st) || (i =? f1 st) then 0
    else if f1 st <? i then lane tx_logical_data (i - 1)
    else lane tx_logical_data i
  else lane tx_logical_data i.

(** The two redundant pins of a group, for its lowest and its highest lane. *)
Definition tx_redundant (st : scan) (tx_logical_data : list Z) (base : Z) : list Z :=
  if fail_cnt st =? 1 then [lane tx_logical_data base; 0]
  else if fail_cnt st =? 2 then [lane tx_logical_data base; lane tx_logical_data (base + 31)]
  else [0; 0].

(** (tx_physical_data, tx_redundant_data). *)
Definition lphy_repair_tx (tx_logical_data : list Z) (lane_failed : Z) : list Z * list Z :=
  let lo := scan_lower lane_failed in
  let up := scan_upper lane_failed in
  (lanes 64 (λ i, tx_lane (if i <? 32 then lo else up) tx_logical_data i),
   tx_redundant lo tx_logical_data 0 ++ tx_redundant up tx_logical_data 32).

(** [rx_logical_data[i]] within the group at [base], whose redundant pins
    are [r] and [r + 1]. *)
Definition rx_lane (st : scan) (rx_physical_data rx_redundant_data : list Z) (base r i : Z) : Z :=
  if fail_cnt st =? 1 then
    if i =? base then lane rx_redundant_data r
    else if i <=? f0 st then lane rx_physical_data (i - 1)
    else lane rx_physical_data i
  else if fail_cnt st =? 2 then
    if i =? base then lane rx_redundant_data r
    else if i =? base + 31 then lane rx_redundant_data (r + 1)
    else if i <=? f0 st then lane rx_physical_data (i - 1)
    else if f1 st <=? i then lane rx_physical_data (i + 1)
    else lane rx_physical_data i
  else lane rx_physical_data i.

Definition lphy_repair_rx (rx_physical_data rx_redundant_data : list Z) (lane_failed : Z) : list Z :=
  let lo := scan_lower lane_failed in
  let up := scan_upper lane_failed in
  lanes 64 (λ i, if i <? 32 then rx_lane lo rx_physical_data rx_redundant_data 0 0 i
                 else rx_lane up rx_physical_data rx_redundant_data 32 2 i).
End Repair.

(** ** lphy_width_degrade *)

Module WidthDegrade.
Section WithLanes.
Context (NUM_LANES : Z).
Definition HALF_LANES : Z := NUM_LANES / 2.

Definition tx_physical_data (lane_map : Z) (tx_logical_data : list Z) : list Z :=
  lanes NUM_LANES (λ i,
    if lane_map =? 3 then lane tx_logical_data i
    else if lane_map =? 1 then if i <? HALF_LANES then lane tx_logical_data i else 0
    else if lane_map =? 2 then
      if (HALF_LANES <=? i) && (i <? HALF_LANES + HALF_LANES) then lane tx_logical_data (i - HALF_LANES) else 0
    else 0).

Definition rx_logical_data (lane_map : Z) (rx_physical_data : list Z) : list Z :=
  lanes NUM_LANES (λ i,
    if lane_map =? 3 then lane rx_physical_data i
    else if lane_map =? 1 then if i <? HALF_LANES then lane rx_physical_data i else 0
    else if lane_map =? 2 then if i <? HALF_LANES then lane rx_physical_data (i + HALF_LANES) else 0
    else 0).
End WithLanes.
End WidthDegrade.

(** ** lphy_data_repair_ctrl *)

Module DataRepair.
Record inputs := mkInputs { package_type : bool; lane_failed : Z; check_done : bool }.
Record regs := mkRegs { trd_repair_addr : list Z; lane_map : Z; is_unrepairable : bool }.

(** One analysis loop: an [int] count and the first two failed lanes in 8 bits. *)
Fixpoint analyse (lane_failed : Z) (n : nat) (i : Z) (st : Z * Z * Z) : Z * Z * Z :=
  match n with
  | O => st
  | S n' =>
      let '(cnt, f0, f1) := st in
      analyse lane_failed n' (i + 1)
        (if Z.testbit lane_failed i then
           (cnt + 1, if cnt =? 0 then trunc 8 i else f0,
            if cnt =? 0 then f1 else if cnt =? 1 then trunc 8 i else f1)
         else st)
  end.

Definition pin_addrs (st : Z * Z * Z) : list Z :=
  let '(cnt, f0, f1) := st in
  if cnt =? 1 then [f0; 0xFF] else if cnt =? 2 then [f0; f1] else [0xFF; 0xFF].

(** The Advanced Package block: (adv_trd_addr, adv_lane_map, adv_unrepairable). *)
Definition advanced (lane_failed : Z) : list Z * Z * bool :=
  let lo := analyse lane_failed 32 0 (0, 0xFF, 0xFF) in
  let up := analyse lane_failed 32 32 (0, 0xFF, 0xFF) in
  let lower_fatal := 2 <? fst (fst lo) in
  let upper_fatal := 2 <? fst (fst up) in
  let addrs := pin_addrs lo ++ pin_addrs up in
  if lower_fatal && upper_fatal then (addrs, 0, true)
  else if upper_fatal then (addrs, 1, false)
  else if lower_fatal then (addrs, 2, false)
  else (addrs, 3, false).

(** The Standard Package block: (std_lane_map, std_unrepairable). *)
Definition standard (lane_failed : Z) : Z * bool :=
  let lower_fail := negb (slice 7 0 lane_failed =? 0) in
  let upper_fail := negb (slice 15 8 lane_failed =? 0) in
  if lower_fail && upper_fail then (0, true)
  else if upper_fail then (1, false)
  else if lower_fail then (2, false)
  else (3, false).

Definition step (i : inputs) (s : regs) : regs :=
  if check_done i then
    if package_type i then
      let '(map, un) := standard (lane_failed i) in mkRegs [0xFF; 0xFF; 0xFF; 0xFF] map un
    else
      let '(addrs, map, un) := advanced (lane_failed i) in mkRegs addrs map un
  else s.

Definition lphy_data_repair_ctrl : circuit inputs regs regs := {|
  reset := mkRegs [0xFF; 0xFF; 0xFF; 0xFF] 3 false;
  out := λ _ s, s;
  tick := step |}.
End DataRepair.

(** ** lphy_valid_repair *)

Module ValidRepair.
(** (tvld_p, trdvld_p). *)
Definition tx (tx_repair_addr tvld_l trdvld_l : Z) : Z * Z :=
  if tx_repair_addr =? 0 then (0x00, tvld_l) else (tvld_l, trdvld_l).
(** (rvld_l, rrdvld_l). *)
Definition rx (rx_repair_addr rvld_p rrdvld_p : Z) : Z * Z :=
  if rx_repair_addr =? 0 then (rrdvld_p, 0x00) else (rvld_p, rrdvld_p).
End ValidRepair.

(** ** lphy_ck_track_repair *)

Module CkTrackRepair.
Record logical := mkLogical { ckp_l : bool; ckn_l : bool; trk_l : bool }.
Record pins := mkPins { ckp_p : bool; ckn_p : bool; trk_p : bool; rdck_p : bool }.

Definition tx (tx_repair_addr : Z) (l : logical) : pins :=
  if tx_repair_addr =? 0 then mkPins false (ckp_l l) (trk_l l) (ckn_l l)
  else if tx_repair_addr =? 1 then mkPins (ckp_l l) false (trk_l l) (ckn_l l)
  else if tx_repair_addr =? 2 then mkPins (ckp_l l) (ckn_l l) false (trk_l l)
  else mkPins (ckp_l l) (ckn_l l) (trk_l l) false.

Definition rx (rx_repair_addr : Z) (p : pins) : logical :=
  if rx_repair_addr =? 0 then mkLogical (ckn_p p) (rdck_p p) (trk_p p)
  else if rx_repair_addr =? 1 then mkLogical (ckp_p p) (rdck_p p) (trk_p p)
  else if rx_repair_addr =? 2 then mkLogical (ckp_p p) (ckn_p p) (rdck_p p)
  else mkLogical (ckp_p p) (ckn_p p) (trk_p p).
End CkTrackRepair.

(** ** Framing *)

(** The deframer returns the valid and credit signals the
    framer was given, and frames are far apart: flipping one, two or three bits
    of a frame is always reported as a framing error, with valid and credit
    low. *)
Theorem deframe_frame credit valid e :
  ValidDeframer.decode (ValidFramer.frame credit valid) = ValidDeframer.mkRegs valid credit false ∧
  (bv 8 e → 1 ≤ bit_count e ≤ 3 →
   ValidDeframer.decode (Z.lxor (ValidFramer.frame credit valid) e) = ValidDeframer.mkRegs false false true).
Proof.
  split; [by destruct credit, valid|]. intros He Hc.
  assert (forallb (λ e, (bit_count e <? 1) || (3 <? bit_count e) ||
    forallb (λ f, let d := ValidDeframer.decode (Z.lxor f e) in
      negb (ValidDeframer.lane_valid d) && negb (ValidDeframer.credit_return d) && ValidDeframer.framing_err d)
      [0xFF; 0x0F; 0xF0; 0x00]) (seqZ 0 256) = true) as H by (vm_compute; reflexivity).
  rewrite forallb_forall in H. specialize (H e). rewrite <-list_elem_of_In, elem_of_seqZ in H.
  specialize (H ltac:(unfold bv in He; lia)).
  assert ((bit_count e <? 1) = false) as E1 by (apply Z.ltb_ge; lia).
  assert ((3 <? bit_count e) = false) as E2 by (apply Z.ltb_ge; lia).
  rewrite E1, E2 in H. cbn [orb] in H. rewrite forallb_forall in H.
  specialize (H (ValidFramer.frame credit valid)). cbn zeta in H.
  destruct (ValidDeframer.decode _) as [[] [] []]; cbn in H;
    by (specialize (H ltac:(destruct credit, valid; cbn; auto 6))).
Qed.

Lemma deframe_witness :
  ValidDeframer.decode (Z.lxor (ValidFramer.frame true false) 0x81) = ValidDeframer.mkRegs false false true.
Proof. apply (deframe_frame true false 0x81); [by split|by vm_compute]. Defined.

(** ** Lane repair *)

(** The failed lanes of a group. *)
Definition failed_in (lane_failed base : Z) (n : nat) : list Z :=
  filter (λ i, Z.testbit lane_failed i = true) (seqZ base (Z.of_nat n)).

(** A group the redundant pins can repair. *)
Definition repairable (lane_failed base : Z) : Prop := (length (failed_in lane_failed base 32) ≤ 2)%nat.

#[export] Instance repairable_dec m b : Decision (repairable m b).
Proof. unfold repairable. apply _. Defined.

Definition describes (st : Repair.scan) (l : list Z) : Prop :=
  match l with
  | [] => Repair.fail_cnt st = 0
  | [a] => Repair.fail_cnt st = 1 ∧ Repair.f0 st = a
  | [a; b] => Repair.fail_cnt st = 2 ∧ Repair.f0 st = a ∧ Repair.f1 st = b
  | [_; _; _] => Repair.fail_cnt st = 3
  | _ => True
  end.

Lemma failed_in_succ m i n :
  failed_in m i (S n) = (if Z.testbit m i then [i] else []) ++ failed_in m (i + 1) n.
Proof.
  unfold failed_in. rewrite (seqZ_cons i) by lia.
  replace (Z.pred (Z.of_nat (S n))) with (Z.of_nat n) by lia. rewrite <-Z.add_1_r.
  rewrite filter_cons. destruct (Z.testbit m i); [by rewrite decide_True|by rewrite decide_False].
Qed.

Lemma elem_of_failed m base n i :
  i ∈ failed_in m base n ↔ base ≤ i < base + Z.of_nat n ∧ Z.testbit m i = true.
Proof. unfold failed_in. rewrite list_elem_of_filter, elem_of_seqZ. tauto. Qed.

Lemma failed_sorted m base n : StronglySorted Z.lt (failed_in m base n).
Proof.
  revert base. induction n as [|n IH]; intros base; [constructor|]. rewrite failed_in_succ.
  destruct (Z.testbit m base); cbn; [|apply IH]. constructor; [apply IH|].
  apply Forall_forall. intros x Hx. apply elem_of_failed in Hx. lia.
Qed.

Lemma scan_describes w m n i st l :
  0 ≤ i → i + Z.of_nat n ≤ 2 ^ w → describes st l →
  describes (Repair.scan_loop w m n i st) (l ++ failed_in m i n).
Proof.
  revert i st l. induction n as [|n IH]; intros i st l Hi Hw Hd; cbn [Repair.scan_loop].
  { unfold failed_in. cbn. by rewrite app_nil_r. }
  rewrite failed_in_succ. destruct (Z.testbit m i); [|apply IH; [lia|lia|done]].
  rewrite app_assoc. apply IH; [lia|lia|]. assert (trunc w i = i) as Ht by (apply Z.mod_small; lia).
  destruct l as [|a [|b [|c [|d l]]]]; cbn [describes app] in *.
  - rewrite Hd. by cbn.
  - destruct Hd as [-> ->]. by cbn.
  - destruct Hd as (-> & -> & ->). by cbn.
  - done.
  - by destruct l.
Qed.

Lemma scan_lower_describes m : describes (Repair.scan_lower m) (failed_in m 0 32).
Proof. apply (scan_describes 5 m 32 0 _ []); [lia..|done]. Qed.
Lemma scan_upper_describes m : describes (Repair.scan_upper m) (failed_in m 32 32).
Proof. apply (scan_describes 6 m 32 32 _ []); [lia..|done]. Qed.

(** Within one group, what the receiver reassembles from the working lanes and
    the redundant pins is what the sender spread over them. *)
Lemma group_repaired st m base r log phys red i :
  describes st (failed_in m base 32) → repairable m base → base ≤ i < base + 32 →
  (∀ j, base ≤ j < base + 32 → Z.testbit m j = false → lane phys j = Repair.tx_lane st log j) →
  lane red r = lane (Repair.tx_redundant st log base) 0 →
  lane red (r + 1) = lane (Repair.tx_redundant st log base) 1 →
  Repair.rx_lane st phys red base r i = lane log i.
Proof.
  unfold repairable. intros Hd Hn Hi Hp Hr0 Hr1.
  assert (∀ j, base ≤ j < base + 32 → j ∉ failed_in m base 32 → lane phys j = Repair.tx_lane st log j) as Hp'.
  { intros j Hj Hf. apply Hp; [done|]. destruct (Z.testbit m j) eqn:Hb; [|done].
    destruct Hf. apply elem_of_failed. split; [lia|done]. }
  assert (∀ j, j ∈ failed_in m base 32 → base ≤ j < base + 32) as Hb.
  { intros j Hj. apply elem_of_failed in Hj. lia. }
  pose proof (failed_sorted m base 32) as Hs. destruct (failed_in m base 32) as [|a [|b [|c l]]] eqn:Hf.
  - cbn in Hd. unfold Repair.rx_lane. rewrite Hd. cbn. rewrite Hp' by (done || set_solver).
    unfold Repair.tx_lane. by rewrite Hd.
  - destruct Hd as [Hc H0]. specialize (Hb a ltac:(set_solver)).
    unfold Repair.rx_lane, Repair.tx_lane, Repair.tx_redundant in *. rewrite Hc, H0 in *. cbn in *.
    destruct (Z.eqb_spec i base) as [->|]; [done|]. destruct (Z.leb_spec i a).
    + rewrite Hp' by (lia || (rewrite list_elem_of_singleton; lia)). destruct (Z.ltb_spec (i - 1) a); [|lia]. f_equal. lia.
    + rewrite Hp' by (lia || (rewrite list_elem_of_singleton; lia)).
      destruct (Z.ltb_spec i a); [lia|]. by destruct (Z.eqb_spec i a); [lia|].
  - destruct Hd as (Hc & H0 & H1). pose proof (Hb a ltac:(set_solver)). pose proof (Hb b ltac:(set_solver)).
    assert (a < b) by (inversion Hs as [|? ? ? Hl]; subst; by inversion Hl).
    assert (∀ j, j ≠ a → j ≠ b → j ∉ [a; b]) as Hne by set_solver.
    unfold Repair.rx_lane, Repair.tx_lane, Repair.tx_redundant in *. rewrite Hc, H0, H1 in *. cbn in *.
    destruct (Z.eqb_spec i base) as [->|]; [done|]. destruct (Z.eqb_spec i (base + 31)) as [->|]; [done|].
    destruct (Z.leb_spec i a); [|destruct (Z.leb_spec b i)].
    + rewrite Hp' by (lia || (apply Hne; lia)). destruct (Z.ltb_spec (i - 1) a); [|lia]. f_equal. lia.
    + rewrite Hp' by (lia || (apply Hne; lia)). destruct (Z.ltb_spec (i + 1) a); [lia|].
      destruct (Z.eqb_spec (i + 1) a); [lia|]. destruct (Z.eqb_spec (i + 1) b); [lia|]. cbn.
      destruct (Z.ltb_spec b (i + 1)); [|lia]. f_equal. lia.
    + rewrite Hp' by (lia || (apply Hne; lia)). destruct (Z.ltb_spec i a); [lia|].
      destruct (Z.eqb_spec i a); [lia|]. destruct (Z.eqb_spec i b); [lia|]. cbn.
      by destruct (Z.ltb_spec b i); [lia|].
  - cbn in Hn. lia.
Qed.

(** C10.  Lane repair hides broken lanes: with at most two failed
    lanes in each half, and both sides knowing them, the receiver reassembles the
    64 logical bytes whatever the failed lanes deliver. *)
Theorem repair_hides_failures log m phys :
  length log = 64%nat → repairable m 0 → repairable m 32 →
  (∀ i, 0 ≤ i < 64 → Z.testbit m i = false → lane phys i = lane (fst (Repair.lphy_repair_tx log m)) i) →
  Repair.lphy_repair_rx phys (snd (Repair.lphy_repair_tx log m)) m = log.
Proof.
  intros Hl H0 H1 Hp. apply (lane_eq 64); [apply length_lanes|done|]. intros i Hi.
  unfold Repair.lphy_repair_rx. rewrite lane_lanes by done.
  assert (∀ j, 0 ≤ j < 64 → Z.testbit m j = false → lane phys j =
    Repair.tx_lane (if j <? 32 then Repair.scan_lower m else Repair.scan_upper m) log j) as Hp'.
  { intros j Hj Hb. rewrite Hp by done. cbn [fst Repair.lphy_repair_tx]. by rewrite lane_lanes. }
  assert (∀ st b, ∃ x y, Repair.tx_redundant st log b = [x; y]) as Hred.
  { intros st b. unfold Repair.tx_redundant. repeat case_match; eauto. }
  destruct (Hred (Repair.scan_lower m) 0) as (x0 & y0 & E0).
  destruct (Hred (Repair.scan_upper m) 32) as (x1 & y1 & E1).
  destruct (Z.ltb_spec i 32).
  - apply (group_repaired _ m); [apply scan_lower_describes|done|lia| | |].
    + intros j Hj Hb. rewrite Hp' by (lia || done). by destruct (Z.ltb_spec j 32); [|lia].
    + unfold Repair.lphy_repair_tx. cbn [snd]. by rewrite E0.
    + unfold Repair.lphy_repair_tx. cbn [snd]. by rewrite E0.
  - apply (group_repaired _ m); [apply scan_upper_describes|done|lia| | |].
    + intros j Hj Hb. rewrite Hp' by (lia || done). by destruct (Z.ltb_spec j 32); [lia|].
    + unfold Repair.lphy_repair_tx. cbn [snd]. by rewrite E0, E1.
    + unfold Repair.lphy_repair_tx. cbn [snd]. by rewrite E0, E1.
Qed.

#[global] Arguments Repair.scan_lower : simpl never.
#[global] Arguments Repair.scan_upper : simpl never.

Definition demo_word : list Z := lanes 64 (λ i, i + 100).

(** Lanes 3, 17 and 40 broken and stuck at 255. *)
Definition demo_failures : Z := 2 ^ 3 + 2 ^ 17 + 2 ^ 40.

Lemma repair_witness :
  Repair.lphy_repair_rx
    (lanes 64 (λ i, if Z.testbit demo_failures i then 255
                    else lane (fst (Repair.lphy_repair_tx demo_word demo_failures)) i))
    (snd (Repair.lphy_repair_tx demo_word demo_failures)) demo_failures = demo_word.
Proof.
  apply (repair_hides_failures demo_word demo_failures).
  - reflexivity.
  - apply (bool_decide_unpack _). vm_compute. exact I.
  - apply (bool_decide_unpack _). vm_compute. exact I.
  - intros i Hi Hb. rewrite lane_lanes by done. by rewrite Hb.
Defined.

(** The analysis loop of the repair controller counts every failed lane. *)
Lemma analyse_run m n i cnt a b :
  0 ≤ i → i + Z.of_nat n ≤ 256 → 0 ≤ cnt →
  let l := failed_in m i n in
  DataRepair.analyse m n i (cnt, a, b) =
    (cnt + Z.of_nat (length l),
     if cnt =? 0 then default a (l !! 0%nat) else a,
     if cnt =? 0 then default b (l !! 1%nat) else if cnt =? 1 then default b (l !! 0%nat) else b).
Proof.
  revert i cnt a b. induction n as [|n IH]; intros i cnt a b Hi Hn Hc; cbn [DataRepair.analyse].
  { cbn. rewrite Z.add_0_r. by destruct (cnt =? 0), (cnt =? 1). }
  rewrite failed_in_succ. destruct (Z.testbit m i); [|apply (IH (i + 1)); lia].
  rewrite (IH (i + 1)) by lia. cbn [app length].
  assert (trunc 8 i = i) as -> by (apply Z.mod_small; lia).
  destruct (Z.eqb_spec (cnt + 1) 0); [lia|]. apply f_equal2; [apply f_equal2; [lia|]|].
  - by destruct (Z.eqb_spec cnt 0).
  - destruct (Z.eqb_spec cnt 0) as [->|]; [done|]. by destruct (Z.eqb_spec (cnt + 1) 1); [lia|].
Qed.

(** The two pin addresses of a group whose failed lanes are [l]. *)
Definition pins_for (l : list Z) : list Z :=
  if decide (length l ≤ 2)%nat then take 2 (l ++ [0xFF; 0xFF]) else [0xFF; 0xFF].

Lemma pin_addrs_run l :
  DataRepair.pin_addrs (0 + Z.of_nat (length l), default 0xFF (l !! 0%nat), default 0xFF (l !! 1%nat)) = pins_for l.
Proof.
  destruct l as [|a [|b [|c l]]]; [done..|]. unfold DataRepair.pin_addrs, pins_for.
  destruct (Z.eqb_spec (0 + Z.of_nat (length (a :: b :: c :: l))) 1) as [H|_]; [cbn in H; lia|].
  destruct (Z.eqb_spec (0 + Z.of_nat (length (a :: b :: c :: l))) 2) as [H|_]; [cbn in H; lia|].
  rewrite decide_False; [done|]. cbn. lia.
Qed.

Lemma repair_verdict_run s m :
  let lower := failed_in m 0 32 in
  let upper := failed_in m 32 32 in
  tick DataRepair.lphy_data_repair_ctrl (DataRepair.mkInputs false m true) s =
  DataRepair.mkRegs (pins_for lower ++ pins_for upper)
    ((if decide (repairable m 0) then 1 else 0) + (if decide (repairable m 32) then 2 else 0))
    (bool_decide (¬ repairable m 0 ∧ ¬ repairable m 32)).
Proof.
  cbn zeta. cbn [tick DataRepair.lphy_data_repair_ctrl]. unfold DataRepair.step.
  cbn [DataRepair.check_done DataRepair.package_type DataRepair.lane_failed].
  unfold DataRepair.advanced. rewrite !analyse_run by lia. cbn zeta. cbn [fst Z.eqb].
  rewrite !pin_addrs_run. unfold repairable.
  destruct (Z.ltb_spec 2 (0 + Z.of_nat (length (failed_in m 0 32)))),
    (Z.ltb_spec 2 (0 + Z.of_nat (length (failed_in m 32 32)))); cbn [andb];
    repeat (case_decide; try lia); f_equal; symmetry;
    first [apply bool_decide_eq_true | apply bool_decide_eq_false]; lia.
Qed.

Lemma repair_verdict_map s m :
  DataRepair.lane_map (tick DataRepair.lphy_data_repair_ctrl (DataRepair.mkInputs false m true) s)
  = (if decide (repairable m 0) then 1 else 0) + (if decide (repairable m 32) then 2 else 0).
Proof. by rewrite repair_verdict_run. Qed.

(** The repair controller's verdict on an Advanced Package:
    full width exactly when each half has at most two failed lanes, the better
    half when only the other has more, failure when both have; each repairable
    half's redundant pins are given the addresses of its failed lanes. *)
Theorem repair_verdict s m :
  let lower := failed_in m 0 32 in
  let upper := failed_in m 32 32 in
  tick DataRepair.lphy_data_repair_ctrl (DataRepair.mkInputs false m true) s =
  DataRepair.mkRegs (pins_for lower ++ pins_for upper)
    ((if decide (repairable m 0) then 1 else 0) + (if decide (repairable m 32) then 2 else 0))
    (bool_decide (¬ repairable m 0 ∧ ¬ repairable m 32)).
Proof. apply repair_verdict_run. Qed.

(** The clock and track pins: with one of the three logical signals rerouted
    over the redundant pin, the receiver sees all three whatever the broken pin
    delivers. *)
Definition broken_ck (addr : Z) (x : bool) (p : CkTrackRepair.pins) : CkTrackRepair.pins :=
  let '(CkTrackRepair.mkPins a b c d) := p in
  if addr =? 0 then CkTrackRepair.mkPins x b c d
  else if addr =? 1 then CkTrackRepair.mkPins a x c d
  else if addr =? 2 then CkTrackRepair.mkPins a b x d
  else p.

(** Clock, track and valid repair: for every repair address
    the receiver recovers the three clock signals and the valid byte, whatever
    the pin at that address delivers. *)
Theorem pin_repair_hides_failure addr l x vaddr tvld trdvld y :
  CkTrackRepair.rx addr (broken_ck addr x (CkTrackRepair.tx addr l)) = l ∧
  fst (let '(v, rd) := ValidRepair.tx vaddr tvld trdvld in
       ValidRepair.rx vaddr (if vaddr =? 0 then y else v) rd) = tvld.
Proof.
  split.
  - unfold CkTrackRepair.rx, CkTrackRepair.tx, broken_ck. destruct l.
    by destruct (addr =? 0), (addr =? 1), (addr =? 2).
  - unfold ValidRepair.tx, ValidRepair.rx. by destruct (vaddr =? 0).
Qed.

(** ** Byte-to-lane mapping *)

Module LaneMapSpec.
Import ByteLaneMap.

(** The lanes a width uses and the bytes of a word. *)
Definition lanes_of (w : Z) : nat := if w =? 2 then 64%nat else if w =? 1 then 32%nat else 16%nat.
Definition word_bytes (x : Z) : list Z := lanes 64 (byte x).

(** The bytes on the lanes in a cycle, and those of the captured word not yet
    driven. *)
Definition beat (w : Z) (o : bool * (bool * list Z)) : list Z :=
  if fst (snd o) then take (lanes_of w) (snd (snd o)) else [].
Definition pending (w : Z) (s : regs) : list Z :=
  if busy s then drop (Z.to_nat (chunk_cnt s) * lanes_of w) (word_bytes (buffer s)) else [].
Definition in_flight (w : Z) (s : regs) : list Z :=
  beat w (out lphy_byte_lane_map (mkInputs w false false 0) s) ++ pending w s.

(** The bytes the adapter has handed over: a word in every cycle in which
    valid, irdy and trdy are high. *)
Definition handed (i : inputs) (o : bool * (bool * list Z)) : list Z :=
  if lp_valid i && lp_irdy i && fst o then word_bytes (lp_data i) else [].

Definition wf (w : Z) (s : regs) : Prop :=
  length (lane_data s) = 64%nat ∧
  (busy s = true → w ≠ 2 ∧ if w =? 1 then chunk_cnt s = 1 else 1 ≤ chunk_cnt s ≤ 3).

Lemma take_drive n f old : 0 ≤ n ≤ 64 → take (Z.to_nat n) (drive n f old) = lanes n f.
Proof.
  intros Hn. unfold drive. apply list_eq. intros k. destruct (decide (Z.of_nat k < n)) as [Hk|Hk].
  - rewrite lookup_take_lt by lia. apply option_eq. intros x. rewrite !lanes_lookup.
    destruct (Z.ltb_spec (Z.of_nat k) n); [|lia]. split; intros [-> _]; (split; [done|lia]).
  - rewrite lookup_take_ge by lia. symmetry. apply lookup_ge_None_2. rewrite length_lanes. lia.
Qed.

Lemma lanes_drop {A} n (f : Z → A) (k : nat) :
  Z.of_nat k ≤ n → drop k (lanes n f) = lanes (n - Z.of_nat k) (λ i, f (i + Z.of_nat k)).
Proof.
  intros Hk. apply list_eq. intros j. rewrite lookup_drop. apply option_eq. intros x.
  rewrite !lanes_lookup. replace (Z.of_nat (k + j)) with (Z.of_nat j + Z.of_nat k) by lia.
  split; intros [-> ?]; (split; [done|lia]).
Qed.

Lemma lanes_take {A} n (f : Z → A) (k : nat) : Z.of_nat k ≤ n → take k (lanes n f) = lanes (Z.of_nat k) f.
Proof.
  intros Hk. apply list_eq. intros j. destruct (decide (j < k)%nat).
  - rewrite lookup_take_lt by lia. apply option_eq. intros x. rewrite !lanes_lookup.
    split; intros [-> ?]; (split; [done|lia]).
  - rewrite lookup_take_ge by lia. symmetry. apply lookup_ge_None_2. rewrite length_lanes. lia.
Qed.

(** A chunk followed by what is after it. *)
Lemma chunk_split x (c n : nat) :
  (c * n + n ≤ 64)%nat →
  lanes (Z.of_nat n) (λ k, byte x (k + Z.of_nat (c * n))) ++ drop (S c * n) (word_bytes x)
  = drop (c * n) (word_bytes x).
Proof.
  intros H. rewrite <-(take_drop n (drop (c * n) (word_bytes x))). rewrite drop_drop. f_equal.
  - unfold word_bytes. rewrite lanes_drop, lanes_take by lia. done.
  - f_equal. lia.
Qed.

Lemma first_chunk x (n : nat) :
  (n ≤ 64)%nat → lanes (Z.of_nat n) (byte x) ++ drop n (word_bytes x) = word_bytes x.
Proof.
  intros H. rewrite <-(take_drop n (word_bytes x)) at 2. f_equal. unfold word_bytes. by rewrite lanes_take by lia.
Qed.

Lemma accept_step w i s :
  link_width i = w → busy s = false → wf w (accept i s) ∧ in_flight w (accept i s) = word_bytes (lp_data i).
Proof.
  intros Hw Hb. unfold accept, wf, in_flight, pending, beat, lanes_of. cbn [out lphy_byte_lane_map fst snd].
  rewrite Hw. destruct (Z.eqb_spec w 2) as [->|H2]; [|destruct (Z.eqb_spec w 1) as [->|H1]];
    cbn [buffer chunk_cnt busy lane_valid lane_data].
  - split; [split; [apply length_lanes|done]|]. rewrite (take_drive 64) by lia. apply app_nil_r.
  - split; [split; [apply length_lanes|done]|]. rewrite (take_drive 32) by lia. by apply (first_chunk _ 32); lia.
  - split; [split; [apply length_lanes|]; intros _; split; [done|lia]|].
    rewrite (take_drive 16) by lia. apply (first_chunk _ 16); lia.
Qed.

Lemma continue_step w i s :
  link_width i = w → busy s = true → wf w s → wf w (continue i s) ∧ in_flight w (continue i s) = pending w s.
Proof.
  intros Hw Hb [Hl Hwf]. destruct (Hwf Hb) as [H2 Hc].
  unfold continue, wf, in_flight, pending, beat, lanes_of. cbn [out lphy_byte_lane_map fst snd].
  rewrite Hw, Hb. destruct (Z.eqb_spec w 2); [done|]. destruct (Z.eqb_spec w 1) as [->|H1].
  - cbn [buffer chunk_cnt busy lane_valid lane_data]. split; [split; [apply length_lanes|done]|].
    rewrite (take_drive 32), Hc by lia. rewrite app_nil_r. unfold word_bytes. by rewrite (lanes_drop 64 _ 32) by lia.
  - destruct (Z.eqb_spec (chunk_cnt s) 3) as [H3|H3];
      cbn [buffer chunk_cnt busy lane_valid lane_data].
    + split; [split; [apply length_lanes|done]|]. rewrite (take_drive 16), H3 by lia.
      rewrite app_nil_r. unfold word_bytes. by rewrite (lanes_drop 64 _ 48) by lia.
    + assert (trunc 3 (chunk_cnt s + 1) = chunk_cnt s + 1) as -> by (apply Z.mod_small; lia).
      split; [split; [apply length_lanes|]; intros _; split; [done|lia]|].
      rewrite (take_drive 16) by lia. replace (Z.to_nat (chunk_cnt s + 1)) with (S (Z.to_nat (chunk_cnt s))) by lia.
      rewrite <-(chunk_split _ (Z.to_nat (chunk_cnt s)) 16) by lia. f_equal. apply lanes_ext. intros k Hk. f_equal. lia.
Qed.

Lemma lane_map_step w i s :
  link_width i = w → wf w s →
  wf w (step i s) ∧ in_flight w (step i s) = pending w s ++ handed i (out lphy_byte_lane_map i s).
Proof.
  intros Hw Hs. unfold step, handed. cbn [out lphy_byte_lane_map fst]. unfold pl_trdy.
  destruct (busy s) eqn:Hb; cbn [negb andb].
  - rewrite !andb_false_r, app_nil_r. by apply continue_step.
  - rewrite !andb_true_r. assert (pending w s = []) as -> by (unfold pending; by rewrite Hb). destruct (lp_valid i && lp_irdy i) eqn:Hv.
    + rewrite app_nil_l. by apply accept_step.
    + split; [|by unfold in_flight, beat, pending].
      destruct Hs as [Hl _]. by split.
Qed.

(** C9.  The byte-to-lane mapper loses, duplicates and reorders
    nothing at any link width: at every moment the bytes driven on the lanes so
    far, followed by those of the captured word still to be driven, are the bytes
    of the words the adapter handed over, in order. *)
Theorem lane_map_lossless w ins :
  Forall (λ i, link_width i = w) ins →
  let os := trace lphy_byte_lane_map (reset lphy_byte_lane_map) ins in
  joined (beat w <$> os) ++ in_flight w (run lphy_byte_lane_map (reset lphy_byte_lane_map) ins)
  = joined (zip_with handed ins os).
Proof.
  intros Hw. cbn zeta. assert (wf w (reset lphy_byte_lane_map)) as Hwf by (split; [reflexivity|done]).
  assert (in_flight w (reset lphy_byte_lane_map) = []) as H0 by done.
  rewrite <-(app_nil_l (joined (zip_with handed _ _))), <-H0. clear H0. revert Hwf.
  generalize (reset lphy_byte_lane_map) as s. induction Hw as [|i ins Hi _ IH]; intros s Hs.
  { cbn [trace run foldl fmap list_fmap joined zip_with]. by rewrite app_nil_r. }
  cbn [trace zip_with]. rewrite fmap_cons. cbn [joined]. change (run _ s (i :: ins)) with
    (run lphy_byte_lane_map (step i s) ins). destruct (lane_map_step w i s Hi Hs) as [Hs' Hf].
  rewrite <-app_assoc. cbn [tick lphy_byte_lane_map]. rewrite (IH _ Hs'), Hf, app_assoc.
  unfold in_flight. by rewrite !app_assoc.
Qed.

(** The mapper never stays busy: whatever the adapter does, it
    is ready for the next word at most three cycles later. *)
Theorem lane_map_ready w s ins :
  wf w s → Forall (λ i, link_width i = w) ins → (3 ≤ length ins)%nat →
  ∃ k, (k ≤ 3)%nat ∧ pl_trdy (run lphy_byte_lane_map s (take k ins)) = true.
Proof.
  assert (∀ n : nat, ∀ s ins, wf w s → (busy s = true → 4 - chunk_cnt s ≤ Z.of_nat n) →
    Forall (λ i, link_width i = w) ins → (n ≤ length ins)%nat →
    ∃ k, (k ≤ n)%nat ∧ pl_trdy (run lphy_byte_lane_map s (take k ins)) = true) as H.
  { induction n as [|n IH]; intros t js Hw Hn Hj Hlen.
    - exists 0%nat. split; [done|]. rewrite take_0. unfold pl_trdy. cbn. destruct (busy t) eqn:Hb; [|done].
      destruct Hw as [_ Hw]. destruct (Hw Hb) as [_ Hc]. specialize (Hn eq_refl).
      destruct (w =? 1); lia.
    - destruct (busy t) eqn:Hb; [|exists 0%nat; split; [lia|]; rewrite take_0; unfold pl_trdy; cbn; by rewrite Hb].
      destruct js as [|i js]; [cbn in Hlen; lia|]. inversion_clear Hj as [|? ? Hi Hjs].
      destruct (lane_map_step w i t Hi Hw) as [Hw' _]. destruct (IH (step i t) js Hw') as (k & Hk & Hr).
      + destruct Hw as [_ Hw]. destruct (Hw Hb) as [_ Hc]. unfold step, continue, pl_trdy. rewrite Hb. cbn [negb andb].
        specialize (Hn eq_refl). rewrite Hi. destruct (w =? 1); [done|]. destruct (Z.eqb_spec (chunk_cnt t) 3); [done|].
        intros _. cbn [chunk_cnt]. unfold trunc. rewrite Z.mod_small by lia. lia.
      + done.
      + cbn in Hlen. lia.
      + exists (S k). split; [lia|]. done. }
  intros Hw Hi Hl. apply H; try done. intros Hb. destruct Hw as [_ Hw]. destruct (Hw Hb) as [_ Hc].
  destruct (w =? 1); lia.
Qed.

Definition demo_words : list inputs :=
  [mkInputs 0 true true 0x0102; mkInputs 0 false true 0; mkInputs 0 true true 0xFF; mkInputs 0 false true 0;
   mkInputs 0 true true 0xABCD].

Lemma lane_map_witness :
  joined (beat 0 <$> trace lphy_byte_lane_map (reset lphy_byte_lane_map) demo_words)
    ++ in_flight 0 (run lphy_byte_lane_map (reset lphy_byte_lane_map) demo_words)
  = joined (zip_with handed demo_words (trace lphy_byte_lane_map (reset lphy_byte_lane_map) demo_words)).
Proof. apply (lane_map_lossless 0 demo_words). repeat constructor. Defined.

Lemma lane_map_ready_witness :
  ∃ k, (k ≤ 3)%nat ∧
    pl_trdy (run lphy_byte_lane_map (step (mkInputs 0 true true 0x0102) (reset lphy_byte_lane_map))
      (take k (replicate 3 (mkInputs 0 false true 0)))) = true.
Proof.
  apply (lane_map_ready 0).
  - apply lane_map_step; [done|split; [reflexivity|done]].
  - repeat constructor.
  - done.
Defined.
End LaneMapSpec.
