(* ===== verification/PhyDetect.v ===== *)
(** * Lane detection (lphy_lane_id_detect.sv, lphy_lane_derotate.sv)

    The receiver's checks of the per-lane identifier patterns: which lanes
    fail, and whether the partner's lanes arrive in reversed order. *)

From S2P Require Import Prelude Rtl.
#[local] Open Scope Z_scope.

(** The two bytes of the pattern of lane [id]: 0101, the identifier, 0101. *)
Definition exp_b0 (id : Z) : Z := concat [(4, slice 3 0 id); (4, 0xA)].
Definition exp_b1 (id : Z) : Z := concat [(4, 0xA); (4, slice 7 4 id)].

Section Lanes.
Context (NUM_LANES : Z).
Definition norm_id (i : Z) : Z := trunc 8 i.
Definition rev_id (i : Z) : Z := trunc 8 (NUM_LANES - 1 - i).

(** [prev_byte[i] == exp_..._b0[i] && rx_lane_data_in[i] == exp_..._b1[i]]. *)
Definition is_normal (i prev cur : Z) : bool := (prev =? exp_b0 (norm_id i)) && (cur =? exp_b1 (norm_id i)).
Definition is_reverse (i prev cur : Z) : bool := (prev =? exp_b0 (rev_id i)) && (cur =? exp_b1 (rev_id i)).
End Lanes.

(** Unpacked arrays of single bits. *)
Definition flag (a : list bool) (i : Z) : bool := a !!! Z.to_nat i.

(** ** lphy_lane_id_detect *)

Module LaneIdDetect.
Record inputs := mkInputs {
  rx_lane_data_in : list Z; rx_lane_valid : bool; en_lane_check : bool; is_reversed : bool }.
Record regs := mkRegs {
  prev_byte : list Z; cycle_cnt : Z; consec_hits : list Z; lane_passed : list bool;
  lane_failed : list bool; check_done : bool }.

Section Detect.
Context (NUM_LANES : Z).

Definition matches (i : inputs) (s : regs) (k : Z) : bool :=
  if is_reversed i then is_reverse NUM_LANES k (lane (prev_byte s) k) (lane (rx_lane_data_in i) k)
  else is_normal k (lane (prev_byte s) k) (lane (rx_lane_data_in i) k).

Definition step_hits (i : inputs) (s : regs) (k : Z) : Z :=
  if cycle_cnt s mod 2 =? 1 then
    if matches i s k then
      if lane (consec_hits s) k <? 16 then trunc 5 (lane (consec_hits s) k + 1) else lane (consec_hits s) k
    else 0
  else lane (consec_hits s) k.

Definition step_passed (i : inputs) (s : regs) (k : Z) : bool :=
  if (cycle_cnt s mod 2 =? 1) && matches i s k && (lane (consec_hits s) k =? 15) then true
  else flag (lane_passed s) k.

Definition step (i : inputs) (s : regs) : regs :=
  if en_lane_check i && rx_lane_valid i then
    let done := cycle_cnt s =? 0xFF in
    mkRegs (lanes NUM_LANES (lane (rx_lane_data_in i))) (trunc 8 (cycle_cnt s + 1))
      (lanes NUM_LANES (step_hits i s)) (lanes NUM_LANES (step_passed i s))
      (if done then lanes NUM_LANES (λ k, negb (flag (lane_passed s) k)) else lane_failed s) done
  else if negb (en_lane_check i) then
    mkRegs (prev_byte s) 0 (lanes NUM_LANES (λ _, 0)) (lanes NUM_LANES (λ _, false))
      (lanes NUM_LANES (λ _, false)) false
  else
    mkRegs (prev_byte s) (cycle_cnt s) (consec_hits s) (lane_passed s) (lane_failed s) false.

Definition lphy_lane_id_detect : circuit inputs regs (list bool * bool) := {|
  reset := mkRegs (lanes NUM_LANES (λ _, 0)) 0 (lanes NUM_LANES (λ _, 0)) (lanes NUM_LANES (λ _, false))
             (lanes NUM_LANES (λ _, false)) false;
  out := λ _ s, (lane_failed s, check_done s);
  tick := step |}.
End Detect.
End LaneIdDetect.

(** ** lphy_lane_derotate *)

Module LaneDerotate.
Record inputs := mkInputs {
  rx_lane_data_in : list Z; rx_lane_valid : bool; en_reversal_check : bool }.
Record regs := mkRegs {
  rx_lane_data_out : list Z; prev_byte : list Z; cycle_cnt : Z; normal_hits : list Z;
  reversed_hits : list Z; reversal_detected : bool; reversal_check_done : bool }.

Section Derotate.
Context (NUM_LANES : Z).

(** The deskew buffer. *)
Definition derotated (i : inputs) (s : regs) : list Z :=
  if rx_lane_valid i then
    lanes NUM_LANES (λ k,
      if reversal_detected s then lane (rx_lane_data_in i) (NUM_LANES - 1 - k)
      else lane (rx_lane_data_in i) k)
  else rx_lane_data_out s.

(** The majority vote: the lanes with at least 16 hits, in 8 bits. *)
Definition total (hits : list Z) : Z :=
  foldl (λ acc k, if 16 <=? lane hits k then trunc 8 (acc + 1) else acc) 0 (seqZ 0 NUM_LANES).

Definition step_hits (check : Z → Z → Z → bool) (i : inputs) (s : regs) (hits : list Z) (k : Z) : Z :=
  if check k (lane (prev_byte s) k) (lane (rx_lane_data_in i) k) && (lane hits k <? 127)
  then trunc 7 (lane hits k + 1) else lane hits k.

Definition step (i : inputs) (s : regs) : regs :=
  if en_reversal_check i && rx_lane_valid i then
    let done := cycle_cnt s =? 0xFF in
    mkRegs (derotated i s) (lanes NUM_LANES (lane (rx_lane_data_in i))) (trunc 8 (cycle_cnt s + 1))
      (lanes NUM_LANES (step_hits is_normal i s (normal_hits s)))
      (lanes NUM_LANES (step_hits (is_reverse NUM_LANES) i s (reversed_hits s)))
      (if done then total (normal_hits s) <? total (reversed_hits s) else reversal_detected s) done
  else if negb (en_reversal_check i) then
    mkRegs (derotated i s) (prev_byte s) 0 (lanes NUM_LANES (λ _, 0)) (lanes NUM_LANES (λ _, 0))
      (reversal_detected s) false
  else
    mkRegs (derotated i s) (prev_byte s) (cycle_cnt s) (normal_hits s) (reversed_hits s)
      (reversal_detected s) false.

Definition lphy_lane_derotate : circuit inputs regs (list Z * bool * bool) := {|
  reset := mkRegs (lanes NUM_LANES (λ _, 0)) (lanes NUM_LANES (λ _, 0)) 0 (lanes NUM_LANES (λ _, 0))
             (lanes NUM_LANES (λ _, 0)) false false;
  out := λ _ s, (rx_lane_data_out s, reversal_detected s, reversal_check_done s);
  tick := step |}.
End Derotate.
End LaneDerotate.

Lemma flag_lanes n f i : 0 ≤ i < n → flag (lanes n f) i = f i.
Proof.
  intros Hi. unfold flag. apply list_lookup_total_correct. apply lanes_lookup.
  rewrite Z2Nat.id by lia. split; [done|lia].
Qed.

(** ** Iterations *)

(** The bytes two by two; an odd last byte is not part of an iteration. *)
Fixpoint pairs {A} (l : list A) : list (A * A) :=
  match l with
  | a :: b :: l' => (a, b) :: pairs l'
  | _ => []
  end.

Lemma pairs_app {A} (l r : list A) : Nat.Even (length l) → pairs (l ++ r) = pairs l ++ pairs r.
Proof.
  intros [n Hn]. revert l Hn. induction n as [|n IH]; intros l Hn.
  - by destruct l.
  - destruct l as [|a [|b l]]; cbn in Hn; [lia|lia|]. cbn. f_equal. apply IH. lia.
Qed.

(** The number of successes at the end of a list. *)
Definition streak (l : list bool) : Z := foldl (λ (c : Z) (b : bool), if b then c + 1 else 0) 0 l.

(** Somewhere [n] successes in a row. *)
Definition has_run (n : Z) (l : list bool) : Prop :=
  ∃ k, 0 ≤ k ∧ k + n ≤ Z.of_nat (length l) ∧ ∀ j, k ≤ j < k + n → l !! Z.to_nat j = Some true.

Lemma streak_snoc l b : streak (l ++ [b]) = if b then streak l + 1 else 0.
Proof. unfold streak. by rewrite foldl_app. Qed.

Lemma streak_nonneg l : 0 ≤ streak l.
Proof. induction l as [|b l IH] using rev_ind; [done|]. rewrite streak_snoc. destruct b; lia. Qed.

(** The last [streak] elements are successes and the one before is not. *)
Lemma streak_spec l m :
  0 ≤ m → (m ≤ streak l ↔ m ≤ Z.of_nat (length l) ∧
    ∀ j, Z.of_nat (length l) - m ≤ j < Z.of_nat (length l) → l !! Z.to_nat j = Some true).
Proof.
  revert m. induction l as [|b l IH] using rev_ind; intros m Hm.
  { cbn. split; [intros; split; lia|lia]. }
  rewrite streak_snoc, length_app. cbn [length]. destruct (decide (m = 0)) as [->|].
  { pose proof (streak_nonneg l). destruct b; (split; [intros; split; lia|lia]). }
  destruct b.
  - assert (m ≤ streak l + 1 ↔ m - 1 ≤ streak l) as -> by lia. rewrite IH by lia. split.
    + intros [Hl H]. split; [lia|]. intros j Hj. destruct (decide (j = Z.of_nat (length l))) as [->|].
      * rewrite Nat2Z.id. by apply list_lookup_middle.
      * rewrite lookup_app_l by lia. apply H. lia.
    + intros [Hl H]. split; [lia|]. intros j Hj. rewrite <-(H j) by lia. by rewrite lookup_app_l by lia.
  - split; [lia|]. intros [Hl H]. specialize (H (Z.of_nat (length l)) ltac:(lia)).
    rewrite Nat2Z.id, list_lookup_middle in H by done. done.
Qed.

Lemma has_run_snoc n l b :
  0 < n → (has_run n (l ++ [b]) ↔ has_run n l ∨ (b = true ∧ n - 1 ≤ streak l)).
Proof.
  intros Hn. split.
  - intros (k & Hk & Hl & H). rewrite length_app in Hl. cbn in Hl.
    destruct (decide (k + n ≤ Z.of_nat (length l))).
    + left. exists k. split_and!; [lia|lia|]. intros j Hj. rewrite <-(H j Hj). by rewrite lookup_app_l by lia.
    + right. split.
      * specialize (H (Z.of_nat (length l)) ltac:(lia)). rewrite Nat2Z.id, list_lookup_middle in H by done. congruence.
      * apply streak_spec; [lia|]. split; [lia|]. intros j Hj. rewrite <-(H j) by lia. by rewrite lookup_app_l by lia.
  - intros [(k & Hk & Hl & H)|[-> Hs]].
    + exists k. rewrite length_app. split_and!; [lia|lia|]. intros j Hj. rewrite lookup_app_l by lia. by apply H.
    + apply streak_spec in Hs as [Hl H]; [|lia]. exists (Z.of_nat (length l) - (n - 1)).
      rewrite length_app. cbn. split_and!; [lia|lia|]. intros j Hj.
      destruct (decide (j = Z.of_nat (length l))) as [->|].
      * rewrite Nat2Z.id. by apply list_lookup_middle.
      * rewrite lookup_app_l by lia. apply H. lia.
Qed.

Lemma long_streak_run n l : 0 < n → n ≤ streak l → has_run n l.
Proof.
  intros Hn Hs. apply streak_spec in Hs as [Hl H]; [|lia]. exists (Z.of_nat (length l) - n).
  split_and!; [lia|lia|]. intros j Hj. apply H. lia.
Qed.

(** ** The verdict on each lane *)

Module LaneIdSpec.
Import LaneIdDetect.
Section Spec.
Context (N : Z) (rev : bool).

(** Lane [k]'s pattern over two consecutive bytes. *)
Definition lane_hit (k : Z) (ab : list Z * list Z) : bool :=
  let '(a, b) := ab in
  if rev then is_reverse N k (lane a k) (lane b k) else is_normal k (lane a k) (lane b k).
Definition hits (k : Z) (ds : list (list Z)) : list bool := lane_hit k <$> pairs ds.

(** The valid beats of a sequence of cycles. *)
Definition seen (ins : list inputs) : list (list Z) :=
  rx_lane_data_in <$> filter (λ i, rx_lane_valid i = true) ins.

(** A cycle of the check. *)
Definition checking (i : inputs) : Prop := en_lane_check i = true ∧ is_reversed i = rev.

(** The registers at the start of a check, after any cycle without it. *)
Definition cleared (s : regs) : Prop :=
  cycle_cnt s = 0 ∧ consec_hits s = lanes N (λ _, 0) ∧ lane_passed s = lanes N (λ _, false).

Lemma disabled_clears i s : en_lane_check i = false → cleared (step N i s).
Proof. intros H. unfold step. by rewrite H. Qed.

(** What the registers hold after the beats [ds]. *)
Record tracked (ds : list (list Z)) (s : regs) : Prop := {
  tr_cnt : cycle_cnt s = Z.of_nat (length ds);
  tr_prev : ∀ k d, 0 ≤ k < N → last ds = Some d → lane (prev_byte s) k = lane d k;
  tr_hits : ∀ k, 0 ≤ k < N → lane (consec_hits s) k = Z.min 16 (streak (hits k ds));
  tr_passed : ∀ k, 0 ≤ k < N → (flag (lane_passed s) k = true ↔ has_run 16 (hits k ds))
}.

Lemma tracked_start s : cleared s → tracked [] s.
Proof.
  intros (Hc & Hh & Hp). split; [done|done| |].
  - intros k Hk. by rewrite Hh, lane_lanes.
  - intros k Hk. rewrite Hp, flag_lanes by done. split; [done|]. intros (j & Hj & Hl & _). cbn in Hl. lia.
Qed.

Lemma seen_snoc ins i : seen (ins ++ [i]) = seen ins ++ if rx_lane_valid i then [rx_lane_data_in i] else [].
Proof.
  unfold seen. rewrite filter_app, fmap_app. f_equal. rewrite filter_cons, filter_nil.
  destruct (rx_lane_valid i); [by rewrite decide_True|by rewrite decide_False].
Qed.

(** An even number of beats: the next one completes no iteration. *)
Lemma hits_even k ds d : Nat.Even (length ds) → hits k (ds ++ [d]) = hits k ds.
Proof. intros He. unfold hits. rewrite pairs_app by done. by rewrite app_nil_r. Qed.

(** An odd number of beats: the next one completes an iteration with the last. *)
Lemma hits_odd k ds d :
  Nat.Odd (length ds) → ∃ c, last ds = Some c ∧ hits k (ds ++ [d]) = hits k ds ++ [lane_hit k (c, d)].
Proof.
  intros Ho. destruct ds as [|c ds _] using rev_ind; [by destruct Ho; cbn in *; lia|]. exists c.
  rewrite last_snoc. split; [done|]. rewrite length_app in Ho. cbn in Ho.
  assert (Nat.Even (length ds)) as He by (destruct Ho as [m Hm]; exists m; lia).
  rewrite (hits_even k ds c) by done. unfold hits. rewrite <-app_assoc, pairs_app by done. by rewrite fmap_app.
Qed.

Lemma odd_beats (ds : list (list Z)) : (Z.of_nat (length ds) mod 2 =? 1) = true → Nat.Odd (length ds).
Proof. intros H. apply Z.eqb_eq in H. exists (Z.to_nat (Z.of_nat (length ds) / 2)). lia_div. Qed.
Lemma even_beats (ds : list (list Z)) : (Z.of_nat (length ds) mod 2 =? 1) = false → Nat.Even (length ds).
Proof. intros H. apply Z.eqb_neq in H. exists (Z.to_nat (Z.of_nat (length ds) / 2)). lia_div. Qed.

Lemma tracked_step ds s i :
  checking i → tracked ds s → Z.of_nat (length ds) < 255 → rx_lane_valid i = true →
  tracked (ds ++ [rx_lane_data_in i]) (step N i s).
Proof.
  intros [He Hr] [Hc Hp Hh Hpass] Hlen Hv. unfold step. rewrite He, Hv. cbn [andb].
  assert (∀ k, 0 ≤ k < N → Nat.Odd (length ds) →
    hits k (ds ++ [rx_lane_data_in i]) = hits k ds ++ [matches N i s k]) as Hm.
  { intros k Hk Ho. destruct (hits_odd k ds (rx_lane_data_in i) Ho) as (c & Hl & ->).
    unfold matches, lane_hit. rewrite Hr. by rewrite (Hp k c Hk Hl). }
  split; cbn [cycle_cnt prev_byte consec_hits lane_passed].
  - rewrite length_app, Hc. cbn. unfold trunc. rewrite Z.mod_small by lia. lia.
  - intros k d Hk. rewrite last_snoc. intros [= <-]. by rewrite lane_lanes.
  - intros k Hk. rewrite lane_lanes by done. unfold step_hits. rewrite Hc.
    destruct (Z.of_nat (length ds) mod 2 =? 1) eqn:Hpar.
    + apply odd_beats in Hpar. rewrite (Hm k Hk Hpar), streak_snoc. pose proof (streak_nonneg (hits k ds)).
      destruct (matches N i s k); [|done]. rewrite (Hh k Hk).
      destruct (Z.ltb_spec (Z.min 16 (streak (hits k ds))) 16); unfold trunc; [rewrite Z.mod_small by lia|]; lia.
    + apply even_beats in Hpar. by rewrite hits_even, Hh.
  - intros k Hk. rewrite flag_lanes by done. unfold step_passed. rewrite Hc.
    destruct (Z.of_nat (length ds) mod 2 =? 1) eqn:Hpar; cbn [andb].
    + apply odd_beats in Hpar. rewrite (Hm k Hk Hpar), has_run_snoc, <-(Hpass k Hk), (Hh k Hk) by lia.
      destruct (matches N i s k); cbn [andb]; [|intuition done].
      destruct (Z.eqb_spec (Z.min 16 (streak (hits k ds))) 15); [intuition lia|].
      rewrite (Hpass k Hk). split; [by left|]. intros [?|[_ ?]]; [done|]. apply long_streak_run; lia.
    + apply even_beats in Hpar. by rewrite hits_even, Hpass.
Qed.

Lemma tracked_run s ins :
  cleared s → Forall checking ins → Z.of_nat (length (seen ins)) ≤ 255 →
  tracked (seen ins) (run (lphy_lane_id_detect N) s ins).
Proof.
  intros Hs. induction ins as [|i ins IH] using rev_ind; intros Hc Hl; [by apply tracked_start|].
  apply Forall_app in Hc as [Hc Hi]. inversion_clear Hi as [|? ? Hi' _]. rewrite run_snoc, seen_snoc in *.
  rewrite length_app in Hl. specialize (IH Hc ltac:(lia)). cbn [tick lphy_lane_id_detect].
  destruct (rx_lane_valid i) eqn:Hv; cbn [length] in Hl.
  - apply tracked_step; [done|done|lia|done].
  - rewrite app_nil_r. destruct IH as [Hcn Hp Hh Hps]. destruct Hi' as [He _]. unfold step. rewrite He, Hv. by split.
Qed.

Lemma verdict_run s ins i :
  cleared s → Forall checking ins → length (seen ins) = 255%nat →
  checking i → rx_lane_valid i = true →
  let s' := run (lphy_lane_id_detect N) s (ins ++ [i]) in
  check_done s' = true ∧ length (lane_failed s') = Z.to_nat N ∧
  ∀ k, 0 ≤ k < N → (flag (lane_failed s') k = false ↔ has_run 16 (hits k (seen ins))).
Proof.
  intros Hs Hc Hl [He _] Hv. cbn zeta. rewrite run_snoc.
  destruct (tracked_run s ins Hs Hc ltac:(lia)) as [Hcn _ _ Hp].
  cbn [tick lphy_lane_id_detect]. unfold step. rewrite He, Hv, Hcn, Hl. cbn [andb].
  cbn [lane_failed]. change (Z.of_nat 255 =? 255) with true.
  cbv iota. split_and!; [done|apply length_lanes|]. intros k Hk. rewrite flag_lanes by done. rewrite <-(Hp k Hk). by destruct (flag _ k).
Qed.

(** The lane check: 256 valid beats after it starts, with any
    pauses between them, its result is ready, and a lane is reported good exactly
    when its identifier pattern was seen in 16 consecutive iterations among the
    first 127; the 128th iteration ends in the cycle that takes the verdict and is
    not counted. *)
Theorem lane_verdict s ins i :
  cleared s → Forall checking ins → length (seen ins) = 255%nat →
  checking i → rx_lane_valid i = true →
  let s' := run (lphy_lane_id_detect N) s (ins ++ [i]) in
  check_done s' = true ∧
  ∀ k, 0 ≤ k < N → (flag (lane_failed s') k = false ↔ has_run 16 (hits k (seen ins))).
Proof. intros Hs Hc Hl Hi Hv. by destruct (verdict_run s ins i Hs Hc Hl Hi Hv) as (? & _ & ?). Qed.
End Spec.

(** Two lanes, the first good and the second stuck at 0. *)
Definition demo_beats : list inputs :=
  lanes 255 (λ j, mkInputs [if j mod 2 =? 0 then exp_b0 0 else exp_b1 0; 0] true true false).

Lemma demo_checking : Forall (checking false) demo_beats.
Proof. apply Forall_forall. intros i Hi. apply list_elem_of_fmap in Hi as (j & -> & _). done. Qed.

Lemma lane_verdict_witness :
  flag (lane_failed (run (lphy_lane_id_detect 2) (reset (lphy_lane_id_detect 2))
    (demo_beats ++ [mkInputs [0; 0] true true false]))) 0 = false
  ↔ has_run 16 (hits 2 false 0 (seen demo_beats)).
Proof.
  apply (lane_verdict 2 false (reset (lphy_lane_id_detect 2)) demo_beats (mkInputs [0; 0] true true false)).
  - done.
  - apply demo_checking.
  - vm_compute. reflexivity.
  - done.
  - done.
  - lia.
Defined.
End LaneIdSpec.

(** ** Lane reversal *)

Module DerotateSpec.
Import LaneDerotate.
Section Spec.
Context (N : Z).

Definition seen (ins : list inputs) : list (list Z) :=
  rx_lane_data_in <$> filter (λ i, rx_lane_valid i = true) ins.
Definition checking (i : inputs) : Prop := en_reversal_check i = true.

(** How often the pattern [check] shows in consecutive beats of lane [k]. *)
Fixpoint pattern_count (check : Z → Z → Z → bool) (k : Z) (l : list (list Z)) : Z :=
  match l with
  | a :: (b :: _) as l' => pattern_count check k l' + if check k (lane a k) (lane b k) then 1 else 0
  | _ => 0
  end.

(** The lanes on which it shows at least 16 times. *)
Definition votes (check : Z → Z → Z → bool) (l : list (list Z)) : Z :=
  Z.of_nat (length (filter (λ k, 16 ≤ pattern_count check k l) (seqZ 0 N))).

Lemma pattern_count_snoc check k l a b :
  pattern_count check k (l ++ [a; b])
  = pattern_count check k (l ++ [a]) + if check k (lane a k) (lane b k) then 1 else 0.
Proof.
  induction l as [|x l IH]; [done|]. cbn [app]. destruct l as [|y l]; cbn [app] in *; cbn; [lia|].
  cbn in IH. rewrite IH. lia.
Qed.

Lemma pattern_count_nonneg check k l : 0 ≤ pattern_count check k l.
Proof. induction l as [|a [|b l] IH]; cbn in *; [lia|lia|]. destruct (check k _ _); lia. Qed.

(** What the registers hold after the beats [ds]; [p] is what [prev_byte] held. *)
Record tracked (p : list Z) (ds : list (list Z)) (s : regs) : Prop := {
  tr_cnt : cycle_cnt s = Z.of_nat (length ds);
  tr_prev : ∀ k d, 0 ≤ k < N → last (p :: ds) = Some d → lane (prev_byte s) k = lane d k;
  tr_normal : ∀ k, 0 ≤ k < N → lane (normal_hits s) k = Z.min 127 (pattern_count is_normal k (p :: ds));
  tr_reversed : ∀ k, 0 ≤ k < N →
    lane (reversed_hits s) k = Z.min 127 (pattern_count (is_reverse N) k (p :: ds))
}.

Definition cleared (s : regs) : Prop :=
  cycle_cnt s = 0 ∧ normal_hits s = lanes N (λ _, 0) ∧ reversed_hits s = lanes N (λ _, 0).

Lemma derotate_start s : cleared s → tracked (prev_byte s) [] s.
Proof.
  intros (Hc & Hn & Hr). split; [done|by intros k d Hk [= <-]|..]; intros k Hk.
  - by rewrite Hn, lane_lanes.
  - by rewrite Hr, lane_lanes.
Qed.

Lemma step_hits_run check i s p ds h k c :
  0 ≤ k < N → last (p :: ds) = Some c → lane (prev_byte s) k = lane c k →
  lane h k = Z.min 127 (pattern_count check k (p :: ds)) →
  step_hits check i s h k = Z.min 127 (pattern_count check k (p :: ds ++ [rx_lane_data_in i])).
Proof.
  intros Hk Hl Hp Hh. apply last_Some in Hl as [l' Hl'].
  change (p :: ds ++ [rx_lane_data_in i]) with ((p :: ds) ++ [rx_lane_data_in i]).
  rewrite Hl' in *. rewrite <-app_assoc. cbn [app]. rewrite pattern_count_snoc.
  pose proof (pattern_count_nonneg check k (l' ++ [c])). unfold step_hits. rewrite Hp, Hh.
  destruct (check k _ _); cbn [andb]; [|lia].
  destruct (Z.ltb_spec (Z.min 127 (pattern_count check k (l' ++ [c]))) 127); [|lia].
  unfold trunc. rewrite Z.mod_small by lia. lia.
Qed.

Lemma tracked_valid p ds s i :
  checking i → rx_lane_valid i = true → tracked p ds s → Z.of_nat (length ds) < 255 →
  tracked p (ds ++ [rx_lane_data_in i]) (step N i s).
Proof.
  intros He Hv [Hc Hp Hn Hr] Hl. unfold checking in He. unfold step. rewrite He, Hv. cbn [andb].
  destruct (last (p :: ds)) as [c|] eqn:Hlast; [|by apply last_None in Hlast].
  split; cbn [cycle_cnt prev_byte normal_hits reversed_hits].
  - rewrite length_app, Hc. cbn. unfold trunc. rewrite Z.mod_small by lia. lia.
  - intros k d Hk. rewrite app_comm_cons, last_snoc. intros [= <-]. by rewrite lane_lanes.
  - intros k Hk. rewrite lane_lanes by done. apply (step_hits_run _ _ _ _ _ _ _ c); auto.
  - intros k Hk. rewrite lane_lanes by done. apply (step_hits_run _ _ _ _ _ _ _ c); auto.
Qed.

Lemma derotate_seen ins i : seen (ins ++ [i]) = seen ins ++ if rx_lane_valid i then [rx_lane_data_in i] else [].
Proof.
  unfold seen. rewrite filter_app, fmap_app. f_equal. rewrite filter_cons, filter_nil.
  destruct (rx_lane_valid i); [by rewrite decide_True|by rewrite decide_False].
Qed.

Lemma derotate_tracked s ins :
  cleared s → Forall checking ins → Z.of_nat (length (seen ins)) ≤ 255 →
  tracked (prev_byte s) (seen ins) (run (lphy_lane_derotate N) s ins).
Proof.
  intros Hs. induction ins as [|i ins IH] using rev_ind; intros Hc Hl; [by apply derotate_start|].
  apply Forall_app in Hc as [Hc Hi]. inversion_clear Hi as [|? ? Hi' _]. rewrite run_snoc, derotate_seen in *.
  rewrite length_app in Hl. specialize (IH Hc ltac:(lia)). cbn [tick lphy_lane_derotate].
  destruct (rx_lane_valid i) eqn:Hv; cbn [length] in Hl.
  - apply tracked_valid; [done|done|done|lia].
  - rewrite app_nil_r. destruct IH as [Hcn Hp Hn Hr]. unfold checking in Hi'. unfold step. rewrite Hi', Hv. by split.
Qed.

Lemma total_votes check h l :
  0 ≤ N ≤ 255 → (∀ k, 0 ≤ k < N → lane h k = Z.min 127 (pattern_count check k l)) → total N h = votes check l.
Proof.
  intros HN Hh. unfold total, votes.
  assert (∀ ks : list Z, (∀ k, k ∈ ks → 0 ≤ k < N) → ∀ acc, 0 ≤ acc → acc + Z.of_nat (length ks) ≤ 255 →
    foldl (λ acc k, if 16 <=? lane h k then trunc 8 (acc + 1) else acc) acc ks
    = acc + Z.of_nat (length (filter (λ k, 16 ≤ pattern_count check k l) ks))) as H.
  { induction ks as [|k ks IH]; intros Hk acc Ha Hl; [cbn; lia|]. cbn [foldl length] in *.
    rewrite filter_cons, (Hh k) by (apply Hk; set_solver).
    destruct (Z.leb_spec 16 (Z.min 127 (pattern_count check k l))).
    - rewrite decide_True by lia. unfold trunc. rewrite Z.mod_small by lia.
      rewrite IH by (lia || set_solver). cbn [length]. lia.
    - rewrite decide_False by lia. apply IH; [set_solver|lia|lia]. }
  rewrite H; [done| |lia|rewrite length_seqZ; lia]. intros k. by rewrite elem_of_seqZ.
Qed.

(** The verdict of the check. *)
Lemma reversal_verdict s ins i :
  0 ≤ N ≤ 255 → cleared s → Forall checking ins → length (seen ins) = 255%nat →
  checking i → rx_lane_valid i = true →
  let s' := run (lphy_lane_derotate N) s (ins ++ [i]) in
  reversal_check_done s' = true ∧
  reversal_detected s' =
    (votes is_normal (prev_byte s :: seen ins) <? votes (is_reverse N) (prev_byte s :: seen ins)).
Proof.
  intros HN Hs Hc Hl He Hv. cbn zeta. rewrite run_snoc.
  destruct (derotate_tracked s ins Hs Hc ltac:(lia)) as [Hcn _ Hn Hr].
  cbn [tick lphy_lane_derotate]. unfold checking in He. unfold step. rewrite He, Hv, Hcn, Hl. cbn [andb].
  split; [done|]. cbn [reversal_detected]. change (Z.of_nat 255 =? 255) with true. cbv iota.
  by rewrite (total_votes is_normal _ _ HN Hn), (total_votes (is_reverse N) _ _ HN Hr).
Qed.

(** What the receiver sees in beat [j] when the partner sends the identifier
    patterns and its lanes are wired straight or reversed. *)
Definition wired (reversed : bool) (k : Z) : Z := if reversed then N - 1 - k else k.
Definition pattern_beat (reversed : bool) (j : Z) : list Z :=
  lanes N (λ k, if j mod 2 =? 0 then exp_b0 (trunc 8 (wired reversed k)) else exp_b1 (trunc 8 (wired reversed k))).

(** The check for the wiring. *)
Definition pattern_of (reversed : bool) : Z → Z → Z → bool := if reversed then is_reverse N else is_normal.

Lemma exp_b0_val id : exp_b0 id = id mod 16 * 16 + 10.
Proof.
  unfold exp_b0, concat, trunc, slice, width. cbn [fmap list_fmap fst sumZ]. rewrite Z.shiftr_0_r.
  change (2 ^ (3 - 0 + 1)) with 16. change (2 ^ (4 + 0)) with 16. change (2 ^ 4) with 16. change (2 ^ 0) with 1.
  change (10 mod 16) with 10. rewrite Zmod_mod. lia.
Qed.

Lemma exp_b1_val id : exp_b1 id = 160 + id / 16 mod 16.
Proof.
  unfold exp_b1, concat, trunc, slice, width. cbn [fmap list_fmap fst sumZ]. rewrite Z.shiftr_div_pow2 by lia.
  change (2 ^ (7 - 4 + 1)) with 16. change (2 ^ (4 + 0)) with 16. change (2 ^ 4) with 16. change (2 ^ 0) with 1.
  change (10 mod 16) with 10. rewrite Zmod_mod. lia.
Qed.

Lemma pattern_matches reversed k :
  pattern_of reversed k (exp_b0 (trunc 8 (wired reversed k))) (exp_b1 (trunc 8 (wired reversed k))) = true.
Proof. destruct reversed; cbn; unfold is_reverse, is_normal, rev_id, norm_id; by rewrite !Z.eqb_refl. Qed.

(** The pattern of the other wiring never shows, not even across beats. *)
Lemma other_pattern reversed k p x :
  2 ≤ N ≤ 128 → N mod 2 = 0 → 0 ≤ k < N →
  x = exp_b0 (trunc 8 (wired reversed k)) ∨
  (x = exp_b1 (trunc 8 (wired reversed k)) ∧ p = exp_b0 (trunc 8 (wired reversed k))) →
  pattern_of (negb reversed) k p x = false.
Proof.
  intros HN Heven Hk Hx. apply not_true_is_false. intros H.
  assert (∀ y, 0 ≤ y < 128 → trunc 8 y = y) as Ht by (intros y Hy; apply Z.mod_small; lia).
  assert (p = exp_b0 (trunc 8 (wired (negb reversed) k)) ∧ x = exp_b1 (trunc 8 (wired (negb reversed) k))) as [Hp Hq].
  { destruct reversed; cbn in H |- *; unfold is_reverse, is_normal, rev_id, norm_id in H;
      apply andb_prop in H as [H1 H2]; split; by apply Z.eqb_eq. }
  rewrite !Ht in * by (unfold wired; destruct reversed; cbn; lia).
  rewrite exp_b0_val, exp_b1_val in *. unfold wired in *. destruct reversed; cbn in *; lia_div.
Qed.

Lemma pattern_count_snoc_ge check k l y : pattern_count check k l ≤ pattern_count check k (l ++ [y]).
Proof.
  destruct l as [|x l _] using rev_ind; [cbn; lia|]. rewrite <-app_assoc. cbn [app].
  rewrite pattern_count_snoc. destruct (check k _ _); lia.
Qed.

Lemma pattern_count_app_ge check k a l b : pattern_count check k l ≤ pattern_count check k (a ++ l ++ b).
Proof.
  trans (pattern_count check k (l ++ b)).
  - induction b as [|y b IH] using rev_ind; [by rewrite app_nil_r|].
    rewrite app_assoc. pose proof (pattern_count_snoc_ge check k (l ++ b) y). lia.
  - induction a as [|x a IH]; [done|]. cbn [app]. destruct (a ++ l ++ b) as [|y r] eqn:Hr.
    + apply app_eq_nil in Hr as [_ Hr]. rewrite Hr in *. cbn. lia.
    + cbn [pattern_count] in *. destruct (check k _ _); lia.
Qed.

Lemma seqZ_beats_count (f : Z → list Z) check k n :
  (∀ j, 0 ≤ j → check k (lane (f (2 * j)) k) (lane (f (2 * j + 1)) k) = true) →
  Z.of_nat n ≤ pattern_count check k (lanes (2 * Z.of_nat n) f).
Proof.
  intros H. induction n as [|n IH]; [done|].
  assert (lanes (2 * Z.of_nat (S n)) f = lanes (2 * Z.of_nat n) f ++ [f (2 * Z.of_nat n); f (2 * Z.of_nat n + 1)]) as ->.
  { unfold lanes. replace (2 * Z.of_nat (S n)) with (2 * Z.of_nat n + 2) by lia.
    rewrite seqZ_app, fmap_app by lia. f_equal.
    rewrite (seqZ_cons _ 2), (seqZ_cons _ (Z.pred 2)) by lia. change (Z.pred (Z.pred 2)) with 0.
    rewrite seqZ_nil by done. rewrite Z.add_0_l, <-Z.add_1_r. done. }
  rewrite pattern_count_snoc, (H (Z.of_nat n)) by lia.
  pose proof (pattern_count_snoc_ge check k (lanes (2 * Z.of_nat n) f) (f (2 * Z.of_nat n))). lia.
Qed.

Lemma pattern_count_none check k p f (n : nat) :
  check k (lane p k) (lane (f 0) k) = false →
  (∀ j, 0 ≤ j → check k (lane (f j) k) (lane (f (j + 1)) k) = false) →
  pattern_count check k (p :: lanes (Z.of_nat n) f) = 0.
Proof.
  intros H0 H. destruct n as [|n]; [done|].
  assert (∀ m : nat, ∃ l, p :: lanes (Z.of_nat (S m)) f = l ++ [f (Z.of_nat m)] ∧
    pattern_count check k (l ++ [f (Z.of_nat m)]) = 0) as Hl; [|by destruct (Hl n) as (l & -> & ?)].
  induction m as [|m (l & IH & Hc)].
  - exists [p]. split; [done|]. cbn [app pattern_count]. change (Z.of_nat 0) with 0. by rewrite H0.
  - exists (l ++ [f (Z.of_nat m)]). split.
    + rewrite <-IH. unfold lanes. rewrite (Nat2Z.inj_succ (S m)), <-Z.add_1_r, seqZ_app, fmap_app by lia. done.
    + rewrite <-app_assoc. cbn [app]. rewrite pattern_count_snoc, Hc.
      replace (Z.of_nat (S m)) with (Z.of_nat m + 1) by lia. by rewrite H by lia.
Qed.

(** With the wiring [reversed] every lane votes for it and none against it. *)
Lemma wiring_votes reversed p :
  2 ≤ N ≤ 128 → N mod 2 = 0 →
  votes (pattern_of reversed) (p :: lanes 255 (pattern_beat reversed)) = N ∧
  votes (pattern_of (negb reversed)) (p :: lanes 255 (pattern_beat reversed)) = 0.
Proof.
  intros HN He.
  assert (∀ k j, 0 ≤ k < N → lane (pattern_beat reversed j) k =
    if j mod 2 =? 0 then exp_b0 (trunc 8 (wired reversed k)) else exp_b1 (trunc 8 (wired reversed k))) as Hb.
  { intros k j Hk. unfold pattern_beat. by rewrite lane_lanes. }
  assert (∀ j, 0 ≤ j → ((2 * j) mod 2 =? 0) = true) as Hev by (intros; apply Z.eqb_eq; lia_div).
  assert (∀ j, 0 ≤ j → ((2 * j + 1) mod 2 =? 0) = false) as Hod by (intros; apply Z.eqb_neq; lia_div).
  split; unfold votes.
  - assert (filter (λ k, 16 ≤ pattern_count (pattern_of reversed) k (p :: lanes 255 (pattern_beat reversed))) (seqZ 0 N)
      = seqZ 0 N) as ->; [|rewrite length_seqZ; lia].
    apply list_filter_id. intros k Hk. apply elem_of_seqZ in Hk.
    pose proof (seqZ_beats_count (λ j, pattern_beat reversed j) (pattern_of reversed) k 127) as Hc.
    assert (127 ≤ pattern_count (pattern_of reversed) k (lanes 254 (pattern_beat reversed))) as Hc'.
    { apply Hc. intros j Hj. rewrite !Hb by lia. rewrite Hev, Hod by done. apply pattern_matches. }
    assert (lanes 255 (pattern_beat reversed) = lanes 254 (pattern_beat reversed) ++ [pattern_beat reversed 254]) as -> by done.
    pose proof (pattern_count_app_ge (pattern_of reversed) k [p] (lanes 254 (pattern_beat reversed)) [pattern_beat reversed 254]).
    cbn [app] in *. lia.
  - assert (filter (λ k, 16 ≤ pattern_count (pattern_of (negb reversed)) k (p :: lanes 255 (pattern_beat reversed))) (seqZ 0 N)
      = []) as ->; [|done].
    apply list_filter_none. intros k Hk. apply elem_of_seqZ in Hk.
    rewrite (pattern_count_none _ k p (pattern_beat reversed) 255); [lia| |].
    + apply other_pattern; [done|done|lia|]. left. by rewrite Hb by lia.
    + intros j Hj. apply other_pattern; [done|done|lia|]. rewrite !Hb by lia.
      destruct (j mod 2 =? 0) eqn:Hj2.
      * right. assert (((j + 1) mod 2 =? 0) = false) as -> by (apply Z.eqb_neq; apply Z.eqb_eq in Hj2; lia_div). done.
      * left. assert (((j + 1) mod 2 =? 0) = true) as -> by (apply Z.eqb_eq; apply Z.eqb_neq in Hj2; lia_div). done.
Qed.

(** Lane reversal is found and undone: after 256 beats of the
    identifier patterns from a partner wired straight or reversed, with any pauses,
    the reversal flag says which, and every beat received from then on leaves the
    derotator with the lanes in the partner's order. *)
Theorem reversal_corrected reversed s ins i later :
  2 ≤ N ≤ 128 → N mod 2 = 0 → cleared s → Forall checking ins →
  seen ins = lanes 255 (pattern_beat reversed) → checking i → rx_lane_valid i = true →
  rx_lane_valid later = true →
  let s' := run (lphy_lane_derotate N) s (ins ++ [i]) in
  reversal_check_done s' = true ∧ reversal_detected s' = reversed ∧
  rx_lane_data_out (tick (lphy_lane_derotate N) later s')
  = lanes N (λ k, lane (rx_lane_data_in later) (wired reversed k)).
Proof.
  intros HN He Hs Hc Hl Hi Hv Hlater. cbn zeta.
  destruct (reversal_verdict s ins i ltac:(lia) Hs Hc) as [Hd Hr]; [by rewrite Hl|done|done|].
  assert (reversal_detected (run (lphy_lane_derotate N) s (ins ++ [i])) = reversed) as Hrev.
  { rewrite Hr, Hl. destruct (wiring_votes reversed (prev_byte s) HN He) as [H1 H2].
    destruct reversed; cbn in H1, H2; rewrite H1, H2.
    - apply Z.ltb_lt. lia.
    - apply Z.ltb_ge. lia. }
  split_and!; [done|done|]. revert Hrev. generalize (run (lphy_lane_derotate N) s (ins ++ [i])) as t. intros t Ht.
  assert (derotated N later t = lanes N (λ k, lane (rx_lane_data_in later) (wired reversed k))) as <-.
  { unfold derotated. rewrite Hlater, Ht. unfold wired. by destruct reversed. }
  cbn [tick lphy_lane_derotate]. unfold step. by repeat case_match.
Qed.
End Spec.

Lemma reversal_witness :
  reversal_detected (run (lphy_lane_derotate 4) (reset (lphy_lane_derotate 4))
    (lanes 255 (λ j, mkInputs (pattern_beat 4 true j) true true) ++ [mkInputs (pattern_beat 4 true 255) true true])) = true.
Proof.
  apply (reversal_corrected 4 true (reset (lphy_lane_derotate 4))
    (lanes 255 (λ j, mkInputs (pattern_beat 4 true j) true true)) (mkInputs (pattern_beat 4 true 255) true true)
    (mkInputs [1; 2; 3; 4] true false)); try done.
  apply Forall_forall. intros x Hx. apply list_elem_of_fmap in Hx as (j & -> & _). done.
Defined.
End DerotateSpec.
