(* ===== verification/PhyDatapath.v ===== *)
(** * The mainband datapath (lphy_tx_top.sv, lphy_rx_top.sv, ucie_lphy_top.sv)

    The transmit and receive pipelines with NUM_LANES = 64, and the mainband of
    one die as ucie_lphy_top connects it: TX pipeline, width degradation, valid
    repair, RX pipeline and the data repair controller. *)

From S2P Require Import Prelude Rtl PhyScramble PhyLanes PhyDetect.
#[local] Open Scope Z_scope.

Definition NUM_LANES : Z := 64.

(** ** lphy_tx_top *)

Module TxTop.
Record inputs := mkInputs {
  link_width : Z; free_run_mode : bool; select_valtrain : bool; txtrk_en : bool;
  scrambler_en : bool; load_seed : bool; seeds : list Z;
  repair_en : bool; ext_lane_failed_map : Z; tx_training_en : bool;
  lp_valid : bool; lp_irdy : bool; lp_data : Z; credit_return : bool }.
Record regs := mkRegs {
  byte_mapper : ByteLaneMap.regs;
  mapped_lane_data_q : list Z; mapped_lane_valid_q : bool;
  tx_valid_frame : Z;
  scramblers : list Z;
  TXVLD : Z; TXDATA : list Z; TXRD : list Z;
  tx_clock_en : bool; tx_track_en : bool; postamble_cnt : Z }.

Definition mapper_in (i : inputs) : ByteLaneMap.inputs :=
  ByteLaneMap.mkInputs (link_width i) (lp_valid i) (lp_irdy i) (lp_data i).

(** The training multiplexer. *)
Definition pre_scramble_data (i : inputs) (s : regs) : list Z :=
  lanes NUM_LANES (λ j,
    if tx_training_en i then slice 7 0 (pattern_out (trunc 8 j) (select_valtrain i))
    else lane (mapped_lane_data_q s) j).

Definition scrambler_in (i : inputs) (s : regs) (j : Z) : Scrambler.inputs :=
  Scrambler.mkInputs (scrambler_en i && mapped_lane_valid_q s) (load_seed i) (lane (seeds i) j)
    (lane (pre_scramble_data i s) j).
Definition scrambled_lane_data (i : inputs) (s : regs) : list Z :=
  lanes NUM_LANES (λ j, out Scrambler.lphy_scrambler (scrambler_in i s j) (lane (scramblers s) j)).

Definition tx_lane_failed_map (i : inputs) : Z := if repair_en i then ext_lane_failed_map i else 0.
Definition repaired (i : inputs) (s : regs) : list Z * list Z :=
  Repair.lphy_repair_tx (scrambled_lane_data i s) (tx_lane_failed_map i).

Definition step (i : inputs) (s : regs) : regs :=
  let m := byte_mapper s in
  mkRegs (ByteLaneMap.step (mapper_in i) m)
    (ByteLaneMap.lane_data m) (ByteLaneMap.lane_valid m)
    (tick ValidFramer.lphy_valid_framer
       (ValidFramer.mkInputs (ByteLaneMap.lane_valid m) (credit_return i)) (tx_valid_frame s))
    (lanes NUM_LANES (λ j, tick Scrambler.lphy_scrambler (scrambler_in i s j) (lane (scramblers s) j)))
    (tx_valid_frame s) (fst (repaired i s)) (snd (repaired i s))
    (if mapped_lane_valid_q s then true else if postamble_cnt s <? 2 then true else free_run_mode i)
    (txtrk_en i)
    (if mapped_lane_valid_q s then 0
     else if postamble_cnt s <? 2 then trunc 4 (postamble_cnt s + 1) else postamble_cnt s).

Record outputs := mkOutputs {
  pl_trdy : bool; o_TXDATA : list Z; o_TXVLD : Z; o_TXRD : list Z; o_clock_en : bool; o_track_en : bool }.

Definition lphy_tx_top : circuit inputs regs outputs := {|
  reset := mkRegs (reset ByteLaneMap.lphy_byte_lane_map) (lanes 64 (λ _, 0)) false
             (reset ValidFramer.lphy_valid_framer)
             (lanes NUM_LANES (λ _, reset Scrambler.lphy_scrambler))
             0 (lanes NUM_LANES (λ _, 0)) (lanes 4 (λ _, 0)) false false 2;
  out := λ _ s, mkOutputs (ByteLaneMap.pl_trdy (byte_mapper s)) (TXDATA s) (TXVLD s) (TXRD s)
                  (tx_clock_en s) (tx_track_en s);
  tick := step |}.
End TxTop.

(** ** lphy_clkgate_rx: the postamble counter and the enable of the gated clock *)

Module ClkGate.
Definition step (valid_in : bool) (postamble_cnt : Z) : Z :=
  if valid_in then 0 else if postamble_cnt <? 2 then trunc 4 (postamble_cnt + 1) else postamble_cnt.
Definition clk_en (free_run_mode valid_in : bool) (postamble_cnt : Z) : bool :=
  valid_in || (postamble_cnt <? 2) || free_run_mode.
End ClkGate.

(** ** lphy_rx_top *)

Module RxTop.
Record inputs := mkInputs {
  free_run_mode : bool; en_reversal_check : bool; descrambler_en : bool; load_seed : bool;
  seeds : list Z; repair_en : bool; en_lane_check : bool;
  RXDATA : list Z; RXVLD : Z; RXRD : list Z }.
Record regs := mkRegs {
  internal_lane_valid_q : bool;
  rx_valid_frame : Z; rx_lane_data_64 : list Z; rx_txrd_data_raw : list Z;
  lane_id_detect : LaneIdDetect.regs;
  rx_lane_data_q : list Z;
  valid_deframer : ValidDeframer.regs;
  pl_valid_reg : bool; pl_credit_return_reg : bool;
  lane_derotate : LaneDerotate.regs;
  descramblers : list Z;
  clkgate_rx : Z }.

(** A packed vector from its bits, bit 0 first. *)
Definition packed (l : list bool) : Z := foldr (λ b acc, Z.b2z b + 2 * acc) 0 l.
Definition detected_lane_failures (s : regs) : Z := packed (LaneIdDetect.lane_failed (lane_id_detect s)).
Definition rx_lane_failed_map (i : inputs) (s : regs) : Z :=
  if repair_en i then detected_lane_failures s else 0.
Definition rx_repaired_data_64 (i : inputs) (s : regs) : list Z :=
  Repair.lphy_repair_rx (rx_lane_data_64 s) (rx_txrd_data_raw s) (rx_lane_failed_map i s).

Definition internal_lane_valid (s : regs) : bool := ValidDeframer.lane_valid (valid_deframer s).

Definition descrambler_in (i : inputs) (s : regs) (j : Z) : Descrambler.inputs :=
  Descrambler.mkInputs (descrambler_en i && pl_valid_reg s) (load_seed i) (lane (seeds i) j)
    (lane (LaneDerotate.rx_lane_data_out (lane_derotate s)) j).

Definition step (i : inputs) (s : regs) : regs :=
  mkRegs (internal_lane_valid s)
    (RXVLD i) (lanes 64 (lane (RXDATA i))) (lanes 4 (lane (RXRD i)))
    (LaneIdDetect.step NUM_LANES
       (LaneIdDetect.mkInputs (rx_lane_data_64 s) (internal_lane_valid_q s) (en_lane_check i)
          (LaneDerotate.reversal_detected (lane_derotate s))) (lane_id_detect s))
    (lanes NUM_LANES (lane (rx_repaired_data_64 i s)))
    (ValidDeframer.decode (rx_valid_frame s))
    (internal_lane_valid s) (ValidDeframer.credit_return (valid_deframer s))
    (LaneDerotate.step NUM_LANES
       (LaneDerotate.mkInputs (rx_lane_data_q s) (internal_lane_valid s) (en_reversal_check i)) (lane_derotate s))
    (lanes NUM_LANES (λ j, tick Descrambler.lphy_descrambler (descrambler_in i s j) (lane (descramblers s) j)))
    (ClkGate.step (internal_lane_valid s) (clkgate_rx s)).

Record outputs := mkOutputs {
  pl_valid : bool; pl_data : list Z; credit_return : bool; framing_err : bool;
  lane_failures : Z; check_done : bool; reversal_detected : bool; reversal_check_done : bool;
  rx_clk_en : bool }.

Definition lphy_rx_top : circuit inputs regs outputs := {|
  reset := mkRegs false 0 (lanes 64 (λ _, 0)) (lanes 4 (λ _, 0))
             (reset (LaneIdDetect.lphy_lane_id_detect NUM_LANES)) (lanes NUM_LANES (λ _, 0))
             (reset ValidDeframer.lphy_valid_deframer) false false
             (reset (LaneDerotate.lphy_lane_derotate NUM_LANES))
             (lanes NUM_LANES (λ _, reset Descrambler.lphy_descrambler)) 2;
  out := λ i s, mkOutputs (pl_valid_reg s)
    (lanes NUM_LANES (λ j, out Descrambler.lphy_descrambler (descrambler_in i s j) (lane (descramblers s) j)))
    (pl_credit_return_reg s) (ValidDeframer.framing_err (valid_deframer s))
    (detected_lane_failures s) (LaneIdDetect.check_done (lane_id_detect s))
    (LaneDerotate.reversal_detected (lane_derotate s)) (LaneDerotate.reversal_check_done (lane_derotate s))
    (ClkGate.clk_en (free_run_mode i) (internal_lane_valid s) (clkgate_rx s));
  tick := step |}.
End RxTop.

(** ** The mainband of one die (sections 4, 5, 6 and 8 of ucie_lphy_top) *)

Module Mainband.
(** The LTSSM's controls and the adapter's signals. *)
Record inputs := mkInputs {
  tx_training_en : bool; scrambler_en : bool; lfsr_reset : bool; repair_en : bool;
  en_reversal_check : bool; select_valtrain : bool;
  lp_valid : bool; lp_irdy : bool; lp_data : Z }.
Record pins := mkPins { DATA : list Z; VLD : Z; RD : list Z; RDVLD : Z }.
Record regs := mkRegs { u_tx_top : TxTop.regs; u_rx_top : RxTop.regs; u_repair_ctrl : DataRepair.regs }.

(** [tx_vld_repair_addr], [rx_vld_repair_addr]. *)
Definition vld_repair_addr : Z := 3.

Definition tx_pins (s : regs) : pins :=
  let '(v, rdv) := ValidRepair.tx vld_repair_addr (TxTop.TXVLD (u_tx_top s)) 0x00 in
  mkPins (WidthDegrade.tx_physical_data NUM_LANES (DataRepair.lane_map (u_repair_ctrl s)) (TxTop.TXDATA (u_tx_top s)))
    v (TxTop.TXRD (u_tx_top s)) rdv.

Definition rx_in (i : inputs) (p : pins) (s : regs) : RxTop.inputs :=
  RxTop.mkInputs false (en_reversal_check i) (scrambler_en i) (lfsr_reset i) lane_seeds (repair_en i)
    (en_reversal_check i)
    (WidthDegrade.rx_logical_data NUM_LANES (DataRepair.lane_map (u_repair_ctrl s)) (DATA p))
    (fst (ValidRepair.rx vld_repair_addr (VLD p) (RDVLD p))) (RD p).

Definition rx_out (i : inputs) (p : pins) (s : regs) : RxTop.outputs :=
  out RxTop.lphy_rx_top (rx_in i p s) (u_rx_top s).

Definition tx_in (i : inputs) (p : pins) (s : regs) : TxTop.inputs :=
  let o := rx_out i p s in
  TxTop.mkInputs 2 false (select_valtrain i) false (scrambler_en i) (lfsr_reset i) lane_seeds
    (repair_en i) (RxTop.lane_failures o) (tx_training_en i) (lp_valid i) (lp_irdy i) (lp_data i)
    (RxTop.credit_return o).

Definition step (PACKAGE_TYPE : bool) (ip : inputs * pins) (s : regs) : regs :=
  let '(i, p) := ip in
  let o := rx_out i p s in
  mkRegs (TxTop.step (tx_in i p s) (u_tx_top s))
    (RxTop.step (rx_in i p s) (u_rx_top s))
    (DataRepair.step (DataRepair.mkInputs PACKAGE_TYPE (RxTop.lane_failures o) (RxTop.check_done o)) (u_repair_ctrl s)).

Definition mainband (PACKAGE_TYPE : bool) : circuit (inputs * pins) regs (pins * RxTop.outputs) := {|
  reset := mkRegs (reset TxTop.lphy_tx_top) (reset RxTop.lphy_rx_top) (reset DataRepair.lphy_data_repair_ctrl);
  out := λ ip s, (tx_pins s, rx_out (fst ip) (snd ip) s);
  tick := step PACKAGE_TYPE |}.
End Mainband.

(** ** Two dies, each die's TX pins wired to the other's RX pins *)

Module MainbandLink.
Import Mainband.
Definition link_step (i : inputs * inputs) (s : regs * regs) : regs * regs :=
  let '(ia, ib) := i in
  let '(a, b) := s in
  (step false (ia, tx_pins b) a, step false (ib, tx_pins a) b).

(** What the second die delivers to its adapter in a cycle. *)
Definition delivered (i : inputs * inputs) (s : regs * regs) : option (list Z) :=
  let o := rx_out (snd i) (tx_pins (fst s)) (snd s) in
  if RxTop.pl_valid o then Some (RxTop.pl_data o) else None.

Definition link : circuit (inputs * inputs) (regs * regs) (option (list Z)) := {|
  reset := (reset (mainband false), reset (mainband false));
  out := delivered;
  tick := link_step |}.

(** What the first die's adapter hands over in a cycle. *)
Definition offered (i : inputs) : option (list Z) :=
  if lp_valid i && lp_irdy i then Some (LaneMapSpec.word_bytes (lp_data i)) else None.

(** The ACTIVE state: scrambling on, no training, no checks, no reseeding. *)
Definition active (i : inputs) : Prop :=
  tx_training_en i = false ∧ scrambler_en i = true ∧ lfsr_reset i = false ∧ en_reversal_check i = false.
End MainbandLink.

(** ** With no failed lane the repair routing is the identity *)

Lemma no_failures base n : failed_in 0 base n = [].
Proof. apply list_filter_none. intros x _. by rewrite Z.bits_0. Qed.

Lemma repair_none log : length log = 64%nat → Repair.lphy_repair_tx log 0 = (log, [0; 0; 0; 0]).
Proof.
  intros Hl. pose proof (scan_lower_describes 0) as H0. pose proof (scan_upper_describes 0) as H1.
  rewrite no_failures in H0, H1. cbn in H0, H1. unfold Repair.lphy_repair_tx, Repair.tx_redundant. rewrite H0, H1.
  f_equal. trans (lanes 64 (lane log)); [|by apply lanes_lane]. apply lanes_ext. intros i Hi.
  unfold Repair.tx_lane. by destruct (i <? 32); rewrite ?H0, ?H1.
Qed.

Lemma repair_none_rx phys red : length phys = 64%nat → Repair.lphy_repair_rx phys red 0 = phys.
Proof.
  intros Hl. pose proof (scan_lower_describes 0) as H0. pose proof (scan_upper_describes 0) as H1.
  rewrite no_failures in H0, H1. cbn in H0, H1. unfold Repair.lphy_repair_rx.
  trans (lanes 64 (lane phys)); [|by apply lanes_lane]. apply lanes_ext. intros i Hi.
  unfold Repair.rx_lane. by destruct (i <? 32); rewrite ?H0, ?H1.
Qed.

(** ** The link is a delay line *)

Module DelayLine.
Import Mainband MainbandLink.

Definition present {A} (o : option A) : bool := match o with Some _ => true | None => false end.

(** The per-lane registers after the beat in a slot. *)
Definition after (L : list Z) (o : option (list Z)) : list Z :=
  match o with
  | Some _ => lanes NUM_LANES (λ j, Scrambler.next_lfsr (lane L j))
  | None => L
  end.
(** A stage holds the slot's word, scrambled with the keys of [L]. *)
Definition carries (L data : list Z) (o : option (list Z)) : Prop :=
  match o with
  | Some w => length w = 64%nat ∧
      ∀ j, 0 ≤ j < 64 → lane data j = Z.lxor (lane w j) (Scrambler.scramble_key (lane L j))
  | None => True
  end.
Definition framed (v : Z) (o : option (list Z)) : Prop := ∃ c, v = ValidFramer.frame c (present o).

(** A die whose checks are over: full width, no failure recorded. *)
Record healthy (s : regs) : Prop := {
  h_map : DataRepair.lane_map (u_repair_ctrl s) = 3;
  h_failed : LaneIdDetect.lane_failed (RxTop.lane_id_detect (u_rx_top s)) = lanes NUM_LANES (λ _, false);
  h_done : LaneIdDetect.check_done (RxTop.lane_id_detect (u_rx_top s)) = false
}.

(** The transmitter's three stages, newest first; [L] is for the third. *)
Record tx_stages (L : list Z) (o1 o2 o3 : option (list Z)) (t : TxTop.regs) : Prop := {
  s1_busy : ByteLaneMap.busy (TxTop.byte_mapper t) = false;
  s1_valid : ByteLaneMap.lane_valid (TxTop.byte_mapper t) = present o1;
  s1_data : ∀ w, o1 = Some w → length w = 64%nat ∧ ByteLaneMap.lane_data (TxTop.byte_mapper t) = w;
  s2_valid : TxTop.mapped_lane_valid_q t = present o2;
  s2_frame : framed (TxTop.tx_valid_frame t) o2;
  s2_data : ∀ w, o2 = Some w → length w = 64%nat ∧ TxTop.mapped_lane_data_q t = w;
  s2_keys : TxTop.scramblers t = after L o3;
  s3_valid : framed (TxTop.TXVLD t) o3;
  s3_data : carries L (TxTop.TXDATA t) o3;
  s3_len : length (TxTop.TXDATA t) = 64%nat
}.

(** The receiver's three stages; [L] is for the sixth. *)
Record rx_stages (L : list Z) (o4 o5 o6 : option (list Z)) (r : RxTop.regs) : Prop := {
  s4_valid : framed (RxTop.rx_valid_frame r) o4;
  s4_data : carries (after (after L o6) o5) (RxTop.rx_lane_data_64 r) o4;
  s4_len : length (RxTop.rx_lane_data_64 r) = 64%nat;
  s5_valid : RxTop.internal_lane_valid r = present o5;
  s5_data : carries (after L o6) (RxTop.rx_lane_data_q r) o5;
  s6_valid : RxTop.pl_valid_reg r = present o6;
  s6_data : carries L (LaneDerotate.rx_lane_data_out (RxTop.lane_derotate r)) o6;
  s6_keys : RxTop.descramblers r = L;
  s6_len : length L = 64%nat;
  straight : LaneDerotate.reversal_detected (RxTop.lane_derotate r) = false
}.

Record pipeline (o1 o2 o3 o4 o5 o6 : option (list Z)) (s : regs * regs) : Prop := {
  p_first : healthy (fst s);
  p_second : healthy (snd s);
  p_keys : ∃ L, rx_stages L o4 o5 o6 (u_rx_top (snd s)) ∧
    tx_stages (after (after (after L o6) o5) o4) o1 o2 o3 (u_tx_top (fst s))
}.

Lemma packed_none n : RxTop.packed (lanes n (λ _, false)) = 0.
Proof.
  unfold RxTop.packed, lanes. induction (seqZ 0 n) as [|x l IH]; [done|]. rewrite fmap_cons. cbn [foldr]. by rewrite IH.
Qed.

Lemma after_length L o : length L = 64%nat → length (after L o) = 64%nat.
Proof. intros HL. destruct o; [apply length_lanes|done]. Qed.

Lemma healthy_step ip s : en_reversal_check (fst ip) = false → healthy s → healthy (step false ip s).
Proof.
  intros He [Hm Hf Hd]. destruct ip as [i p]. cbn [fst] in He. split; cbn [u_repair_ctrl u_rx_top step].
  - unfold DataRepair.step. cbn [DataRepair.check_done rx_out out RxTop.lphy_rx_top RxTop.check_done]. by rewrite Hd.
  - cbn [RxTop.lane_id_detect RxTop.step]. unfold LaneIdDetect.step. cbn [LaneIdDetect.en_lane_check].
    cbn [rx_in RxTop.en_lane_check]. by rewrite He.
  - cbn [RxTop.lane_id_detect RxTop.step]. unfold LaneIdDetect.step. cbn [LaneIdDetect.en_lane_check].
    cbn [rx_in RxTop.en_lane_check]. by rewrite He.
Qed.

Lemma healthy_failures s : healthy s → RxTop.detected_lane_failures (u_rx_top s) = 0.
Proof. intros [_ Hf _]. unfold RxTop.detected_lane_failures. by rewrite Hf, packed_none. Qed.

(** One cycle of the transmitter. *)
Lemma tx_step L o1 o2 o3 t i :
  TxTop.link_width i = 2 → TxTop.tx_training_en i = false → TxTop.scrambler_en i = true →
  TxTop.load_seed i = false → TxTop.tx_lane_failed_map i = 0 → length L = 64%nat →
  tx_stages L o1 o2 o3 t →
  tx_stages (after L o3)
    (if TxTop.lp_valid i && TxTop.lp_irdy i then Some (LaneMapSpec.word_bytes (TxTop.lp_data i)) else None)
    o1 o2 (TxTop.step i t).
Proof.
  intros Hw Htr Hsc Hld Hmap HL [Hb H1v H1d H2v H2f H2d Hk H3v H3d H3l].
  assert (∀ j, 0 ≤ j < 64 → lane (TxTop.pre_scramble_data i t) j = lane (TxTop.mapped_lane_data_q t) j) as Hpre.
  { intros j Hj. unfold TxTop.pre_scramble_data. rewrite lane_lanes by done. by rewrite Htr. }
  assert (TxTop.repaired i t = (TxTop.scrambled_lane_data i t, [0; 0; 0; 0])) as Hr.
  { unfold TxTop.repaired. rewrite Hmap. apply repair_none, length_lanes. }
  split; unfold TxTop.step; cbn [TxTop.byte_mapper TxTop.mapped_lane_valid_q TxTop.mapped_lane_data_q
    TxTop.tx_valid_frame TxTop.scramblers TxTop.TXVLD TxTop.TXDATA]; try rewrite Hr; cbn [fst snd].
  - unfold ByteLaneMap.step, ByteLaneMap.pl_trdy, TxTop.mapper_in. rewrite Hb. cbn.
    destruct (TxTop.lp_valid i && true && TxTop.lp_irdy i); [|done]. unfold ByteLaneMap.accept. cbn. by rewrite Hw.
  - unfold ByteLaneMap.step, ByteLaneMap.pl_trdy, TxTop.mapper_in. rewrite Hb. cbn. rewrite andb_true_r.
    destruct (TxTop.lp_valid i && TxTop.lp_irdy i); [|done]. unfold ByteLaneMap.accept. cbn. by rewrite Hw.
  - unfold ByteLaneMap.step, ByteLaneMap.pl_trdy, TxTop.mapper_in. rewrite Hb. cbn. rewrite andb_true_r.
    destruct (TxTop.lp_valid i && TxTop.lp_irdy i); [|done]. intros w [= <-]. split; [apply length_lanes|].
    unfold ByteLaneMap.accept. cbn. rewrite Hw. cbn.
    unfold ByteLaneMap.drive, LaneMapSpec.word_bytes. apply lanes_ext. intros j Hj. by destruct (Z.ltb_spec j 64); [|lia].
  - done.
  - exists (TxTop.credit_return i). cbn. by rewrite H1v.
  - done.
  - cbn. unfold TxTop.scrambler_in. cbn. rewrite Hld, Hsc, H2v, Hk. destruct o2; cbn [present andb after].
    + done.
    + apply lanes_lane, after_length, HL.
  - done.
  - destruct o2 as [w|]; [|done]. destruct (H2d w eq_refl) as [Hlw Hd2]. split; [done|]. intros j Hj. unfold TxTop.scrambled_lane_data. rewrite lane_lanes by done.
    cbn. rewrite Hsc, H2v. cbn. rewrite Hpre by done. by rewrite Hd2, Hk.
  - apply length_lanes.
Qed.

(** One cycle of the receiver. *)
Lemma rx_step L o3 o4 o5 o6 r i :
  RxTop.descrambler_en i = true → RxTop.load_seed i = false → RxTop.en_reversal_check i = false →
  RxTop.rx_lane_failed_map i r = 0 →
  framed (RxTop.RXVLD i) o3 → carries (after (after (after L o6) o5) o4) (RxTop.RXDATA i) o3 →
  rx_stages L o4 o5 o6 r → rx_stages (after L o6) o3 o4 o5 (RxTop.step i r).
Proof.
  intros Hde Hld Hrev Hmap Hv3 Hd3 [H4v H4d H4l H5v H5d H6v H6d Hk HL Hst].
  assert (∀ A d o n, 64 ≤ n → carries A d o → carries A (lanes n (lane d)) o) as Hcopy.
  { intros A d [w|] n Hn; [|done]. intros [Hlw Hc]. split; [done|]. intros j Hj. rewrite lane_lanes by lia. by apply Hc. }
  split; unfold RxTop.step; cbn [RxTop.rx_valid_frame RxTop.rx_lane_data_64 RxTop.internal_lane_valid
    RxTop.valid_deframer RxTop.rx_lane_data_q RxTop.pl_valid_reg RxTop.lane_derotate RxTop.descramblers].
  - done.
  - by apply Hcopy.
  - apply length_lanes.
  - unfold RxTop.internal_lane_valid. cbn [RxTop.valid_deframer]. destruct H4v as [c ->]. by destruct c, o4.
  - apply Hcopy; [done|]. unfold RxTop.rx_repaired_data_64. by rewrite Hmap, repair_none_rx.
  - done.
  - destruct o5 as [w|]; [|done]. destruct H5d as [Hlw H5d]. split; [done|]. intros j Hj.
    unfold LaneDerotate.step. cbn [LaneDerotate.en_reversal_check LaneDerotate.rx_lane_valid]. rewrite Hrev. cbn [andb negb].
    cbn [LaneDerotate.rx_lane_data_out]. unfold LaneDerotate.derotated.
    cbn [LaneDerotate.rx_lane_valid LaneDerotate.rx_lane_data_in]. rewrite H5v, Hst. cbn [present].
    rewrite lane_lanes by done. by apply H5d.
  - unfold RxTop.descrambler_in. cbn [tick Descrambler.lphy_descrambler Descrambler.load_seed Descrambler.enable].
    rewrite Hld, Hde, H6v, Hk. destruct o6 as [w|]; cbn [present andb after].
    + apply lanes_ext. intros j Hj. apply descramble_same.
    + by apply lanes_lane.
  - by apply after_length.
  - unfold LaneDerotate.step. cbn [LaneDerotate.en_reversal_check]. rewrite Hrev. cbn [andb negb]. done.
Qed.

(** What the receiver shows its adapter. *)
Lemma rx_delivers L o4 o5 o6 r i :
  RxTop.descrambler_en i = true → rx_stages L o4 o5 o6 r →
  let o := out RxTop.lphy_rx_top i r in
  (if RxTop.pl_valid o then Some (RxTop.pl_data o) else None) = o6.
Proof.
  intros Hde [H4v H4d H4l H5v H5d H6v H6d Hk HL Hst]. cbn [out RxTop.lphy_rx_top RxTop.pl_valid RxTop.pl_data].
  rewrite H6v. destruct o6 as [w|]; [|done]. cbn [present]. f_equal. destruct H6d as [Hlw H6d].
  apply (lane_eq 64); [apply length_lanes|done|]. intros j Hj. rewrite lane_lanes by done.
  unfold RxTop.descrambler_in. cbn [out Descrambler.lphy_descrambler Descrambler.enable Descrambler.data_in].
  rewrite Hde, H6v, Hk, H6d by done. cbn [present andb]. destruct (descramble_same (lane L j)) as [_ ->].
  rewrite Z.lxor_assoc, Z.lxor_nilpotent. apply Z.lxor_0_r.
Qed.

Lemma degrade_full d : length d = 64%nat →
  WidthDegrade.tx_physical_data NUM_LANES 3 d = d ∧ WidthDegrade.rx_logical_data NUM_LANES 3 d = d.
Proof. intros Hd. split; by apply lanes_lane. Qed.

(** One cycle of the link shifts every slot by one. *)
Lemma pipeline_step i s o1 o2 o3 o4 o5 o6 :
  active (fst i) → active (snd i) → pipeline o1 o2 o3 o4 o5 o6 s →
  delivered i s = o6 ∧ pipeline (offered (fst i)) o1 o2 o3 o4 o5 (link_step i s).
Proof.
  destruct i as [ia ib], s as [a b]. cbn [fst snd]. intros (Ha1 & Ha2 & Ha3 & Ha4) (Hb1 & Hb2 & Hb3 & Hb4) [Hh1 Hh2 (L & Hr & Ht)].
  cbn [fst snd] in *. pose proof (s3_len _ _ _ _ _ Ht) as Hlen. pose proof (s6_len _ _ _ _ _ Hr) as HL.
  split; [apply (rx_delivers L o4 o5 o6 (u_rx_top b)); done|].
  split; cbn [link_step fst snd]; [by apply healthy_step|by apply healthy_step|].
  exists (after L o6). split; cbn [u_rx_top u_tx_top step].
  - apply rx_step; [done|done|done| | | |done].
    + unfold RxTop.rx_lane_failed_map. rewrite healthy_failures by done. by case_match.
    + apply (s3_valid _ _ _ _ _ Ht).
    + cbn [rx_in RxTop.RXDATA tx_pins DATA]. unfold tx_pins. cbn [ValidRepair.tx vld_repair_addr Z.eqb DATA].
      rewrite (h_map _ Hh1), (h_map _ Hh2). destruct (degrade_full _ Hlen) as [-> ->]. apply (s3_data _ _ _ _ _ Ht).
  - apply (tx_step _ _ _ _ _ (tx_in ia (tx_pins b) a)); try done.
    + unfold TxTop.tx_lane_failed_map, tx_in. cbn [TxTop.repair_en TxTop.ext_lane_failed_map].
      cbn [rx_out out RxTop.lphy_rx_top RxTop.lane_failures]. rewrite healthy_failures by done. by case_match.
    + by repeat apply after_length.
Qed.

Lemma pipeline_trace ins : ∀ s o1 o2 o3 o4 o5 o6,
  Forall (λ i, active (fst i) ∧ active (snd i)) ins → pipeline o1 o2 o3 o4 o5 o6 s →
  trace link s ins = take (length ins) ([o6; o5; o4; o3; o2; o1] ++ (offered ∘ fst <$> ins)).
Proof.
  induction ins as [|i ins IH]; intros s o1 o2 o3 o4 o5 o6 Hi Hp; [done|].
  inversion_clear Hi as [|? ? [H1 H2] Hi']. destruct (pipeline_step i s _ _ _ _ _ _ H1 H2 Hp) as [Hd Hp'].
  cbn [trace out link tick]. rewrite Hd, (IH _ _ _ _ _ _ _ Hi' Hp'). done.
Qed.

(** No beat anywhere between the two adapters, the keys in step. *)
Definition quiet (s : regs * regs) : Prop := pipeline None None None None None None s.

Lemma quiet_reset : quiet (reset link).
Proof.
  split; cbn [fst snd reset link mainband].
  - by split.
  - by split.
  - exists (lanes NUM_LANES (λ _, 0x1DBFBC)). split; split; try done; try apply length_lanes; by exists false.
Qed.

(** The reseeding cycle of LINKINIT, on both dies. *)
Definition reseeding (i : inputs) : Prop :=
  lfsr_reset i = true ∧ lp_valid i = false ∧ en_reversal_check i = false.

Lemma quiet_reseed i s : reseeding (fst i) → reseeding (snd i) → quiet s → quiet (link_step i s).
Proof.
  destruct i as [ia ib], s as [a b]. cbn [fst snd]. intros (Ha1 & Ha2 & Ha3) (Hb1 & Hb2 & Hb3) [Hh1 Hh2 (L & Hr & Ht)].
  cbn [fst snd] in *. split; cbn [link_step fst snd]; [by apply healthy_step|by apply healthy_step|].
  exists lane_seeds. cbn [after] in *.
  assert (lanes NUM_LANES (λ j, lane lane_seeds j) = lane_seeds) as Hseed by (by apply (lanes_lane 64)).
  split; cbn [u_rx_top u_tx_top step].
  - destruct Hr as [H4v H4d H4l H5v H5d H6v H6d Hk HL Hst]. split; try done; unfold RxTop.step.
    + cbn. apply (s3_valid _ _ _ _ _ Ht).
    + cbn. unfold RxTop.internal_lane_valid. cbn. destruct H4v as [c ->]. by destruct c.
    + cbn [RxTop.descramblers]. unfold RxTop.descrambler_in. cbn [tick Descrambler.lphy_descrambler Descrambler.load_seed].
      cbn [rx_in RxTop.load_seed RxTop.seeds Descrambler.seed_in]. rewrite Hb1. apply Hseed.
    + cbn [RxTop.lane_derotate]. unfold LaneDerotate.step. cbn [LaneDerotate.en_reversal_check].
      cbn [rx_in RxTop.en_reversal_check]. by rewrite Hb3.
  - destruct Ht as [Hb H1v H1d H2v H2f H2d Hk H3v H3d H3l]. split; try done; unfold TxTop.step.
    + cbn. unfold ByteLaneMap.step, ByteLaneMap.pl_trdy. cbn. by rewrite Hb, Ha2.
    + cbn. unfold ByteLaneMap.step, ByteLaneMap.pl_trdy. cbn. by rewrite Hb, Ha2.
    + exists (RxTop.credit_return (rx_out ia (tx_pins b) a)). cbn. by rewrite H1v.
    + cbn [TxTop.scramblers]. unfold TxTop.scrambler_in. cbn [tick Scrambler.lphy_scrambler Scrambler.load_seed].
      cbn [tx_in TxTop.load_seed TxTop.seeds Scrambler.seed_in]. rewrite Ha1. apply Hseed.
Qed.

(** C6.  Two dies in ACTIVE, with no failed lane, are a delay line:
    from reset, after both reseed their scramblers, every 64-byte word one adapter
    hands over is delivered to the other exactly six cycles later, unscrambled and
    in order, and nothing else is delivered. *)
Theorem mainband_delay_line seed ins :
  reseeding (fst seed) → reseeding (snd seed) →
  Forall (λ i, active (fst i) ∧ active (snd i)) ins →
  trace link (run link (reset link) [seed]) ins
  = take (length ins) (replicate 6 None ++ (offered ∘ fst <$> ins)).
Proof.
  intros H1 H2 Hi. apply (pipeline_trace ins _ None None None None None None Hi).
  apply quiet_reseed; [done|done|apply quiet_reset].
Qed.

Definition demo_seed : inputs := mkInputs false false true false false false false false 0.
Definition demo_send (x : Z) : inputs := mkInputs false true false true false false true true x.
Definition demo_idle : inputs := mkInputs false true false true false false false false 0.

Lemma mainband_delay_witness :
  trace link (run link (reset link) [(demo_seed, demo_seed)])
    [(demo_send 0x1122, demo_idle); (demo_idle, demo_idle); (demo_send 0x33, demo_send 0x44);
     (demo_idle, demo_idle); (demo_idle, demo_idle); (demo_idle, demo_idle); (demo_idle, demo_idle)]
  = [None; None; None; None; None; None; Some (LaneMapSpec.word_bytes 0x1122)].
Proof. apply (mainband_delay_line (demo_seed, demo_seed)); [done|done|]. repeat constructor. Defined.
End DelayLine.
