(* ===== verification/PhyFaults.v ===== *)
(** * Broken lanes and the mainband

    What the mainband of ucie_lphy_top does about broken lanes: the width
    degradation that the repair controller asks for, the training pattern the
    lane check waits for, and the life time of the failure map. *)

From S2P Require Import Prelude Rtl PhyScramble PhyLanes PhyDetect PhyDatapath.
#[local] Open Scope Z_scope.

(** ** Degraded width *)

Module Degraded.
(** The combinational path of a word: repair, degradation to [lane_map], the
    wires, degradation and repair on the other side, both sides knowing the
    failure map [m]. *)
Definition pins (m lane_map : Z) (log : list Z) : list Z :=
  WidthDegrade.tx_physical_data NUM_LANES lane_map (fst (Repair.lphy_repair_tx log m)).
Definition received (m lane_map : Z) (wires log : list Z) : list Z :=
  Repair.lphy_repair_rx (WidthDegrade.rx_logical_data NUM_LANES lane_map wires)
    (snd (Repair.lphy_repair_tx log m)) m.

(** The verdict the controller takes on [m]. *)
Definition verdict (m : Z) : DataRepair.regs :=
  tick DataRepair.lphy_data_repair_ctrl (DataRepair.mkInputs false m true)
    (reset DataRepair.lphy_data_repair_ctrl).

(** The wires of the working lanes carry what was sent. *)
Definition intact (m : Z) (sent wires : list Z) : Prop :=
  ∀ i, 0 ≤ i < 64 → Z.testbit m i = false → lane wires i = lane sent i.

Lemma tx_redundant_two st log b : ∃ x y, Repair.tx_redundant st log b = [x; y].
Proof. unfold Repair.tx_redundant. repeat case_match; eauto. Qed.

(** Degradation to the lower half: when the controller finds
    only the upper half beyond repair, the first 32 bytes of a word arrive
    whatever the failed lanes of either half deliver. *)
Theorem lower_half_delivers m log wires :
  DataRepair.lane_map (verdict m) = 1 → intact m (pins m 1 log) wires →
  ∀ i, 0 ≤ i < 32 → lane (received m 1 wires log) i = lane log i.
Proof.
  intros Hv Hw i Hi. unfold verdict in Hv.
  assert (repairable m 0) as Hr.
  { destruct (decide (repairable m 0)) as [|Hn]; [done|]. exfalso. revert Hv.
    pose proof (repair_verdict_map (reset DataRepair.lphy_data_repair_ctrl) m) as ->.
    rewrite decide_False by done. case_decide; lia. }
  unfold received, Repair.lphy_repair_rx. rewrite lane_lanes by lia.
  destruct (Z.ltb_spec i 32); [|lia].
  destruct (tx_redundant_two (Repair.scan_lower m) log 0) as (x & y & Hxy).
  apply (group_repaired _ m); [apply scan_lower_describes|done|lia| | |].
  - intros j Hj Hb. unfold WidthDegrade.rx_logical_data. rewrite lane_lanes by (unfold NUM_LANES; lia). cbn [Z.eqb].
    change (WidthDegrade.HALF_LANES NUM_LANES) with 32. destruct (Z.ltb_spec j 32); [|lia].
    change (1 =? 3) with false. change (1 =? 1) with true. cbv iota.
    rewrite Hw by (lia || done). unfold pins, WidthDegrade.tx_physical_data.
    rewrite lane_lanes by (unfold NUM_LANES; lia). change (WidthDegrade.HALF_LANES NUM_LANES) with 32.
    change (1 =? 3) with false. change (1 =? 1) with true. cbv iota. destruct (Z.ltb_spec j 32); [|lia].
    unfold Repair.lphy_repair_tx. cbn [fst]. rewrite lane_lanes by lia. by destruct (Z.ltb_spec j 32); [|lia].
  - unfold Repair.lphy_repair_tx. cbn [snd]. by rewrite Hxy.
  - unfold Repair.lphy_repair_tx. cbn [snd]. by rewrite Hxy.
Qed.

(** Lanes 5, 33, 34 and 35 broken and stuck at 255. *)
Definition upper_failures : Z := 2 ^ 5 + 2 ^ 33 + 2 ^ 34 + 2 ^ 35.
Definition stuck (m : Z) (sent : list Z) : list Z := lanes 64 (λ i, if Z.testbit m i then 255 else lane sent i).

Lemma stuck_intact m sent : intact m sent (stuck m sent).
Proof. intros i Hi Hb. unfold stuck. rewrite lane_lanes by done. by rewrite Hb. Qed.

Lemma lower_half_witness :
  lane (received upper_failures 1 (stuck upper_failures (pins upper_failures 1 demo_word)) demo_word) 4 = lane demo_word 4.
Proof.
  apply (lower_half_delivers upper_failures demo_word).
  - vm_compute. reflexivity.
  - apply stuck_intact.
  - lia.
Defined.

(** Lanes 0, 1, 2 and 40 broken and stuck at 255. *)
Definition lower_failures : Z := 2 ^ 0 + 2 ^ 1 + 2 ^ 2 + 2 ^ 40.

(** Degradation to the upper half does not repair it: with
    lanes 0, 1, 2 and 40 broken the controller reports a repairable link and asks
    for the upper half, but the repair routing is applied before the degradation,
    so byte 8 of every word travels over the broken lane 40 and arrives wrong. *)
Theorem upper_half_corrupts :
  let v := verdict lower_failures in
  DataRepair.lane_map v = 2 ∧ DataRepair.is_unrepairable v = false ∧
  let wires := stuck lower_failures (pins lower_failures 2 demo_word) in
  intact lower_failures (pins lower_failures 2 demo_word) wires ∧
  lane (received lower_failures 2 wires demo_word) 8 ≠ lane demo_word 8.
Proof.
  cbn zeta. split_and!; [vm_compute; reflexivity|vm_compute; reflexivity|apply stuck_intact|].
  vm_compute. discriminate.
Qed.
End Degraded.

(** ** The training pattern *)

(** The lanes while [tx_training_en] is high. *)
Definition training_beat (select_valtrain : bool) : list Z :=
  lanes NUM_LANES (λ j, slice 7 0 (pattern_out (trunc 8 j) select_valtrain)).

Lemma training_is_sent i s :
  TxTop.tx_training_en i = true → TxTop.scrambler_en i = false → TxTop.repair_en i = false →
  TxTop.TXDATA (TxTop.step i s) = training_beat (TxTop.select_valtrain i).
Proof.
  intros Ht Hs Hr. cbn [TxTop.step TxTop.TXDATA]. unfold TxTop.repaired, TxTop.tx_lane_failed_map.
  rewrite Hr, repair_none by apply length_lanes. cbn [fst]. apply lanes_ext. intros j Hj.
  unfold TxTop.scrambler_in. cbn [out Scrambler.lphy_scrambler Scrambler.enable Scrambler.data_in].
  rewrite Hs. cbn [andb]. unfold TxTop.pre_scramble_data. rewrite lane_lanes by done. by rewrite Ht.
Qed.

Lemma training_byte k : 0 ≤ k < 64 →
  slice 7 0 (pattern_out (trunc 8 k) false) = exp_b0 k ∧ slice 7 0 (pattern_out (trunc 8 k) true) = 15.
Proof.
  intros Hk. assert (trunc 8 k = k) as -> by (apply Z.mod_small; lia). split; [|done].
  rewrite DerotateSpec.exp_b0_val. unfold pattern_out, slice, concat, trunc, width. cbn [fmap list_fmap fst sumZ].
  rewrite Z.shiftr_0_r. change (2 ^ (7 - 0 + 1)) with 256. change (2 ^ (8 + (4 + 0))) with 4096.
  change (2 ^ (4 + 0)) with 16. change (2 ^ 4) with 16. change (2 ^ 8) with 256. change (2 ^ 0) with 1.
  change (10 mod 16) with 10. lia_div.
Qed.

(** The pattern needs two different bytes; the same byte twice never matches. *)
Lemma training_no_hit sel rev k :
  0 ≤ k < 64 → LaneIdSpec.lane_hit NUM_LANES rev k (training_beat sel, training_beat sel) = false.
Proof.
  intros Hk. unfold LaneIdSpec.lane_hit, training_beat. rewrite lane_lanes by done.
  destruct (training_byte k Hk) as [H0 H1]. unfold is_reverse, is_normal, rev_id, norm_id, NUM_LANES.
  assert (∀ y, 0 ≤ y < 64 → trunc 8 y = y) as Ht by (intros y Hy; apply Z.mod_small; lia).
  rewrite (Ht (64 - 1 - k)) by lia. rewrite !(Ht k) in * by lia.
  destruct rev, sel; rewrite ?H0, ?H1, ?DerotateSpec.exp_b0_val, ?DerotateSpec.exp_b1_val;
    apply andb_false_iff; rewrite !Z.eqb_neq; lia_div.
Qed.

Lemma has_run_none n l : 0 < n → Forall (λ b, b = false) l → ¬ has_run n l.
Proof.
  intros Hn Hl (k & Hk & Hlen & H). specialize (H k ltac:(lia)).
  apply (Forall_lookup_1 _ _ _ _ Hl) in H. done.
Qed.

Lemma pairs_forall {A} (P : A → Prop) l : Forall P l → Forall (λ ab, P (fst ab) ∧ P (snd ab)) (pairs l).
Proof.
  assert (∀ n, ∀ l, (length l ≤ n)%nat → Forall P l → Forall (λ ab, P (fst ab) ∧ P (snd ab)) (pairs l)) as H.
  { induction n as [|n IH]; intros [|a [|b l']] Hn Hf; cbn [pairs length] in *; try (by constructor); try lia.
    inversion_clear Hf as [|? ? Ha Hf']. inversion_clear Hf' as [|? ? Hb Hl]. constructor; [done|]. apply IH; [lia|done]. }
  by apply (H (length l)).
Qed.

Lemma failed_in_all m base n : (∀ i, base ≤ i < base + Z.of_nat n → Z.testbit m i = true) → failed_in m base n = seqZ base (Z.of_nat n).
Proof. intros H. apply list_filter_id. intros i Hi. apply elem_of_seqZ in Hi. by apply H. Qed.

Lemma packed_testbit l (k : nat) b : l !! k = Some b → Z.testbit (RxTop.packed l) (Z.of_nat k) = b.
Proof.
  unfold RxTop.packed. revert k. induction l as [|x l IH]; intros k Hk; [done|]. cbn [foldr]. destruct k as [|k].
  - injection Hk as ->. rewrite Z.add_comm. by destruct b; cbn [Z.b2z]; [rewrite Z.testbit_odd_0|rewrite Z.add_0_r, Z.testbit_even_0].
  - rewrite Z.add_comm, Nat2Z.inj_succ.
    destruct x; cbn [Z.b2z]; [rewrite Z.testbit_odd_succ by lia|rewrite Z.add_0_r, Z.testbit_even_succ by lia]; by apply IH.
Qed.

(** C31.  The transmitter cannot pass its partner's lane check: it
    repeats the first byte of each lane's 16-bit pattern and never sends the
    second, so 256 valid training beats make the check report all 64 lanes as
    failed, straight or reversed, and the controller declare the link beyond
    repair. *)
Theorem training_fails_every_lane sel rev s ins i c :
  LaneIdSpec.cleared NUM_LANES s → Forall (LaneIdSpec.checking rev) ins →
  Forall (λ d, d = training_beat sel) (LaneIdSpec.seen ins) → length (LaneIdSpec.seen ins) = 255%nat →
  LaneIdSpec.checking rev i → LaneIdDetect.rx_lane_valid i = true →
  let s' := run (LaneIdDetect.lphy_lane_id_detect NUM_LANES) s (ins ++ [i]) in
  LaneIdDetect.check_done s' = true ∧
  (∀ k, 0 ≤ k < 64 → flag (LaneIdDetect.lane_failed s') k = true) ∧
  DataRepair.is_unrepairable (tick DataRepair.lphy_data_repair_ctrl
    (DataRepair.mkInputs false (RxTop.packed (LaneIdDetect.lane_failed s')) true) c) = true.
Proof.
  intros Hs Hc Hd Hl Hi Hv. cbn zeta.
  destruct (LaneIdSpec.verdict_run NUM_LANES rev s ins i Hs Hc Hl Hi Hv) as (Hdone & Hlen & Hk).
  assert (∀ k, 0 ≤ k < 64 → flag (LaneIdDetect.lane_failed
    (run (LaneIdDetect.lphy_lane_id_detect NUM_LANES) s (ins ++ [i]))) k = true) as Hall.
  { intros k Hr. apply not_false_is_true. intros Hf. apply (Hk k Hr) in Hf. revert Hf. apply has_run_none; [done|].
    unfold LaneIdSpec.hits. apply Forall_fmap. apply pairs_forall in Hd. eapply Forall_impl; [exact Hd|].
    intros [a b] [Ha Hb']. cbn in Ha, Hb'. subst a b. by apply training_no_hit. }
  split_and!; [done|done|]. set (l := LaneIdDetect.lane_failed _) in *. clearbody l.
  assert (∀ k, 0 ≤ k < 64 → Z.testbit (RxTop.packed l) k = true) as Hb.
  { intros k Hr. replace k with (Z.of_nat (Z.to_nat k)) by lia. apply packed_testbit.
    rewrite <-(Hall k Hr). unfold flag. apply list_lookup_lookup_total_lt. rewrite Hlen. unfold NUM_LANES. lia. }
  rewrite repair_verdict_run. cbn [DataRepair.is_unrepairable]. apply bool_decide_eq_true. unfold repairable.
  rewrite !failed_in_all, !length_seqZ by (intros; apply Hb; lia). lia.
Qed.

(** ** The failure map *)

(** C32.  The failure map does not outlive the check: in any cycle
    after one without the check, both repair multiplexers of the die route
    straight, whatever lanes were found broken and whatever [repair_en] says. *)
Theorem repair_map_lost i p s i' p' :
  Mainband.en_reversal_check i = false →
  let s' := Mainband.step false (i, p) s in
  TxTop.tx_lane_failed_map (Mainband.tx_in i' p' s') = 0 ∧
  RxTop.rx_lane_failed_map (Mainband.rx_in i' p' s') (Mainband.u_rx_top s') = 0.
Proof.
  intros He. cbn zeta.
  assert (RxTop.detected_lane_failures (Mainband.u_rx_top (Mainband.step false (i, p) s)) = 0) as H.
  { unfold RxTop.detected_lane_failures. cbn [Mainband.u_rx_top Mainband.step RxTop.lane_id_detect RxTop.step].
    unfold LaneIdDetect.step. cbn [LaneIdDetect.en_lane_check Mainband.rx_in RxTop.en_lane_check]. rewrite He.
    cbn [andb negb LaneIdDetect.lane_failed]. apply DelayLine.packed_none. }
  split.
  - unfold TxTop.tx_lane_failed_map, Mainband.tx_in. cbn [TxTop.ext_lane_failed_map TxTop.repair_en].
    cbn [Mainband.rx_out out RxTop.lphy_rx_top RxTop.lane_failures]. rewrite H. by case_match.
  - unfold RxTop.rx_lane_failed_map. rewrite H. by case_match.
Qed.

Definition training_cycle : LaneIdDetect.inputs := LaneIdDetect.mkInputs (training_beat false) true true false.

Lemma training_fails_witness :
  flag (LaneIdDetect.lane_failed (run (LaneIdDetect.lphy_lane_id_detect NUM_LANES)
    (reset (LaneIdDetect.lphy_lane_id_detect NUM_LANES)) (replicate 255 training_cycle ++ [training_cycle]))) 7 = true.
Proof.
  refine (proj1 (proj2 (training_fails_every_lane false false (reset (LaneIdDetect.lphy_lane_id_detect NUM_LANES))
    (replicate 255 training_cycle) training_cycle (reset DataRepair.lphy_data_repair_ctrl) _ _ _ _ _ _)) 7 _).
  - done.
  - by apply Forall_replicate.
  - by repeat constructor.
  - reflexivity.
  - done.
  - done.
  - lia.
Defined.

Lemma repair_map_lost_witness :
  TxTop.tx_lane_failed_map (Mainband.tx_in (DelayLine.demo_send 5) (Mainband.mkPins [] 0 [] 0)
    (Mainband.step false (DelayLine.demo_idle, Mainband.mkPins [] 0 [] 0) (reset (Mainband.mainband false)))) = 0.
Proof.
  apply (repair_map_lost DelayLine.demo_idle (Mainband.mkPins [] 0 [] 0) (reset (Mainband.mainband false))
    (DelayLine.demo_send 5) (Mainband.mkPins [] 0 [] 0)). reflexivity.
Defined.
