(* ===== verification/PhySideband.v ===== *)
(** * The sideband (lphy_sb_crc.sv, lphy_sb_pkt_enc.sv, lphy_sb_pkt_dec.sv,
      lphy_sb_flow_ctrl.sv, lphy_sb_ctrl.sv)

    Packets with their parity bits, the credit counters and the controller that
    moves 64-bit words to and from the analog front end. *)

From S2P Require Import Prelude Rtl.
#[local] Open Scope Z_scope.

(** ** Opcodes *)

Definition is_msg (opcode : Z) : bool := (opcode =? 0x12) || (opcode =? 0x1B).
Definition has_data (opcode : Z) : bool :=
  (opcode =? 0x01) || (opcode =? 0x05) || (opcode =? 0x09) || (opcode =? 0x0D) ||
  (opcode =? 0x11) || (opcode =? 0x19) || (opcode =? 0x1B).
Definition is_reg_req (opcode : Z) : bool :=
  (opcode =? 0x00) || (opcode =? 0x01) || (opcode =? 0x04) || (opcode =? 0x05) ||
  (opcode =? 0x08) || (opcode =? 0x09) || (opcode =? 0x0C) || (opcode =? 0x0D).
Definition is_reg_cpl (opcode : Z) : bool :=
  (opcode =? 0x10) || (opcode =? 0x11) || (opcode =? 0x19).

(** ** lphy_sb_crc *)

Module SbCrc.
Definition tx_header_out (tx_header_in tx_data_in : Z) (tx_has_data : bool) : Z :=
  let tx_dp_gen := if tx_has_data then xor_bits 64 tx_data_in else false in
  let tx_cp_gen := xor_bits 62 (slice 61 0 tx_header_in) in
  concat [(1, Z.b2z tx_dp_gen); (1, Z.b2z tx_cp_gen); (62, slice 61 0 tx_header_in)].

Definition rx_dp_err (rx_header_in rx_data_in : Z) (rx_has_data : bool) : bool :=
  let rx_dp_calc := if rx_has_data then xor_bits 64 rx_data_in else false in
  negb (Bool.eqb (Z.testbit rx_header_in 63) rx_dp_calc).
Definition rx_cp_err (rx_header_in : Z) : bool :=
  let rx_cp_calc := xor_bits 62 (slice 61 0 rx_header_in) in
  negb (Bool.eqb (Z.testbit rx_header_in 62) rx_cp_calc).
End SbCrc.

(** ** lphy_sb_pkt_enc *)

(** The fields of a packet, on the encoder's inputs and the decoder's outputs. *)
Record fields := mkFields {
  opcode : Z; srcid : Z; dstid : Z; ep : bool; cr : bool; payload : Z;
  tag : Z; be : Z; addr : Z; cp_status : Z;
  msgcode : Z; msgsubcode : Z; msginfo : Z }.

Module SbPktEnc.
Record regs := mkRegs { pkt_valid : bool; pkt_header : Z; pkt_data : Z; pkt_has_data : bool }.

Definition phase0_reg (f : fields) : list (Z * Z) :=
  if is_msg (opcode f) then [(3, srcid f); (7, 0); (8, msgcode f); (9, 0); (5, opcode f)]
  else [(3, srcid f); (2, 0); (5, tag f); (8, be f); (8, 0); (1, Z.b2z (ep f)); (5, opcode f)].
Definition phase1_reg (f : fields) : list (Z * Z) :=
  if is_msg (opcode f) then [(2, 0); (3, 0); (3, dstid f); (16, msginfo f); (8, msgsubcode f)]
  else if is_reg_cpl (opcode f) then
    [(2, 0); (1, Z.b2z (cr f)); (2, 0); (3, dstid f); (21, 0); (3, cp_status f)]
  else [(2, 0); (1, Z.b2z (cr f)); (2, 0); (3, dstid f); (24, addr f)].
Definition raw_header (f : fields) : Z :=
  concat [(32, concat (phase1_reg f)); (32, concat (phase0_reg f))].
Definition calc_header (f : fields) : Z :=
  SbCrc.tx_header_out (raw_header f) (payload f) (has_data (opcode f)).

Definition lphy_sb_pkt_enc : circuit (bool * fields) regs regs := {|
  reset := mkRegs false 0 0 false;
  out := λ _ s, s;
  tick := λ '(req_valid, f) _, mkRegs req_valid (calc_header f) (payload f) (has_data (opcode f)) |}.
End SbPktEnc.

(** ** lphy_sb_pkt_dec *)

Module SbPktDec.
Record inputs := mkInputs { pkt_valid : bool; pkt_header : Z; pkt_data : Z }.
Record regs := mkRegs { req_valid : bool; decoded : fields; parity_err : bool }.

Definition decode (pkt_header pkt_data : Z) : fields :=
  let phase1 := slice 63 32 pkt_header in
  let phase0 := slice 31 0 pkt_header in
  let dec_opcode := slice 4 0 phase0 in
  if is_msg dec_opcode then
    mkFields dec_opcode (slice 31 29 phase0) (slice 26 24 phase1) false false pkt_data 0 0 0 0
      (slice 21 14 phase0) (slice 7 0 phase1) (slice 23 8 phase1)
  else if is_reg_cpl dec_opcode then
    mkFields dec_opcode (slice 31 29 phase0) (slice 26 24 phase1) (Z.testbit phase0 5) (Z.testbit phase1 29)
      pkt_data (slice 26 22 phase0) (slice 21 14 phase0) 0 (slice 2 0 phase1) 0 0 0
  else
    mkFields dec_opcode (slice 31 29 phase0) (slice 26 24 phase1) (Z.testbit phase0 5) (Z.testbit phase1 29)
      pkt_data (slice 26 22 phase0) (slice 21 14 phase0) (slice 23 0 phase1) 0 0 0 0.

Definition parity_error (pkt_header pkt_data : Z) : bool :=
  SbCrc.rx_cp_err pkt_header ||
  SbCrc.rx_dp_err pkt_header pkt_data (has_data (slice 4 0 (slice 31 0 pkt_header))).

Definition lphy_sb_pkt_dec : circuit inputs regs regs := {|
  reset := mkRegs false (mkFields 0 0 0 false false 0 0 0 0 0 0 0 0) false;
  out := λ _ s, s;
  tick := λ i s,
    if pkt_valid i then
      mkRegs true (decode (pkt_header i) (pkt_data i)) (parity_error (pkt_header i) (pkt_data i))
    else mkRegs false (decoded s) false |}.
End SbPktDec.

(** ** lphy_sb_flow_ctrl *)

Module SbFlowCtrl.
Record inputs := mkInputs {
  rdi_in_reset : bool; req_valid : bool; req_is_reg : bool; req_is_cpl : bool; req_is_msg : bool;
  local_crd_ret : bool; remote_crd_ret : bool }.
Record regs := mkRegs { local_crd_count : Z; remote_crd_count : Z }.

Section FlowCtrl.
Context (LOCAL_CREDITS_INIT : Z).

Definition tx_allowed (i : inputs) (s : regs) : bool :=
  if req_is_cpl i then true
  else if req_is_reg i then (0 <? local_crd_count s) && (0 <? remote_crd_count s)
  else if req_is_msg i then 0 <? local_crd_count s
  else false.
Definition consume_local (i : inputs) (s : regs) : bool :=
  req_valid i && tx_allowed i s && (if req_is_reg i then true else req_is_msg i).
Definition consume_remote (i : inputs) (s : regs) : bool :=
  req_valid i && tx_allowed i s && req_is_reg i.

Definition step_local (i : inputs) (s : regs) : Z :=
  if consume_local i s && negb (local_crd_ret i) then trunc 6 (local_crd_count s - 1)
  else if negb (consume_local i s) && local_crd_ret i && (local_crd_count s <? trunc 6 LOCAL_CREDITS_INIT)
  then trunc 6 (local_crd_count s + 1)
  else local_crd_count s.
Definition step_remote (i : inputs) (s : regs) : Z :=
  if consume_remote i s && negb (remote_crd_ret i) then trunc 3 (remote_crd_count s - 1)
  else if negb (consume_remote i s) && remote_crd_ret i && (remote_crd_count s <? 4)
  then trunc 3 (remote_crd_count s + 1)
  else remote_crd_count s.

Definition lphy_sb_flow_ctrl : circuit inputs regs bool := {|
  reset := mkRegs (trunc 6 LOCAL_CREDITS_INIT) 4;
  out := tx_allowed;
  tick := λ i s,
    if rdi_in_reset i then mkRegs (trunc 6 LOCAL_CREDITS_INIT) 4
    else mkRegs (step_local i s) (step_remote i s) |}.
End FlowCtrl.
End SbFlowCtrl.

(** ** lphy_sb_ctrl *)

Module SbCtrl.
Inductive tx_st := ST_TX_IDLE | ST_TX_DATA.
Inductive rx_st := ST_RX_HDR | ST_RX_DATA.
#[export] Instance tx_st_eq_dec : EqDecision tx_st.
Proof. solve_decision. Defined.
#[export] Instance rx_st_eq_dec : EqDecision rx_st.
Proof. solve_decision. Defined.

Record inputs := mkInputs {
  rdi_in_reset : bool; tx_req_valid : bool; tx_fields : fields; tx_local_crd_ret : bool;
  afe_tx_ready : bool; afe_rx_valid : bool; afe_rx_data : Z }.
Record regs := mkRegs {
  fc_inst : SbFlowCtrl.regs;
  enc_inst : SbPktEnc.regs;
  tx_state : tx_st; hold_tx_data : Z; afe_tx_valid : bool; afe_tx_data : Z; seq_tx_ready : bool;
  rx_state : rx_st; hold_rx_header : Z; dec_pkt_valid : bool; dec_pkt_header : Z; dec_pkt_data : Z;
  dec_inst : SbPktDec.regs }.

Definition fc_in (i : inputs) (s : regs) : SbFlowCtrl.inputs :=
  let op := opcode (tx_fields i) in
  SbFlowCtrl.mkInputs (rdi_in_reset i) (tx_req_valid i) (is_reg_req op) (is_reg_cpl op) (is_msg op)
    (tx_local_crd_ret i)
    (SbPktDec.req_valid (dec_inst s) && cr (SbPktDec.decoded (dec_inst s))).
Definition tx_allowed (i : inputs) (s : regs) : bool := SbFlowCtrl.tx_allowed (fc_in i s) (fc_inst s).
Definition fire_encoder (i : inputs) (s : regs) : bool := tx_req_valid i && tx_allowed i s && seq_tx_ready s.
Definition tx_req_ready (i : inputs) (s : regs) : bool := tx_allowed i s && seq_tx_ready s.

(** The word sequencer towards the AFE:
    (tx_state, hold_tx_data, afe_tx_valid, afe_tx_data, seq_tx_ready). *)
Definition tx_sequencer (i : inputs) (s : regs) : tx_st * Z * bool * Z * bool :=
  let e := enc_inst s in
  match tx_state s with
  | ST_TX_IDLE =>
      if SbPktEnc.pkt_valid e && seq_tx_ready s then
        if SbPktEnc.pkt_has_data e then
          (ST_TX_DATA, SbPktEnc.pkt_data e, true, SbPktEnc.pkt_header e, false)
        else (ST_TX_IDLE, hold_tx_data s, true, SbPktEnc.pkt_header e, seq_tx_ready s)
      else if afe_tx_ready i then (ST_TX_IDLE, hold_tx_data s, false, afe_tx_data s, seq_tx_ready s)
      else (ST_TX_IDLE, hold_tx_data s, afe_tx_valid s, afe_tx_data s, seq_tx_ready s)
  | ST_TX_DATA =>
      if afe_tx_ready i then (ST_TX_IDLE, hold_tx_data s, true, hold_tx_data s, true)
      else (ST_TX_DATA, hold_tx_data s, afe_tx_valid s, afe_tx_data s, seq_tx_ready s)
  end.

(** The word sequencer from the AFE:
    (rx_state, hold_rx_header, dec_pkt_valid, dec_pkt_header, dec_pkt_data). *)
Definition rx_sequencer (i : inputs) (s : regs) : rx_st * Z * bool * Z * Z :=
  match rx_state s with
  | ST_RX_HDR =>
      if afe_rx_valid i then
        if has_data (slice 4 0 (afe_rx_data i)) then
          (ST_RX_DATA, afe_rx_data i, false, dec_pkt_header s, dec_pkt_data s)
        else (ST_RX_HDR, afe_rx_data i, true, afe_rx_data i, 0)
      else (ST_RX_HDR, hold_rx_header s, false, dec_pkt_header s, dec_pkt_data s)
  | ST_RX_DATA =>
      if afe_rx_valid i then (ST_RX_HDR, hold_rx_header s, true, hold_rx_header s, afe_rx_data i)
      else (ST_RX_DATA, hold_rx_header s, false, dec_pkt_header s, dec_pkt_data s)
  end.

Definition step (i : inputs) (s : regs) : regs :=
  let '(tst, hold, v, d, rdy) := tx_sequencer i s in
  let '(rst, hh, dv, dh, dd) := rx_sequencer i s in
  mkRegs (tick (SbFlowCtrl.lphy_sb_flow_ctrl 32) (fc_in i s) (fc_inst s))
    (tick SbPktEnc.lphy_sb_pkt_enc (fire_encoder i s, tx_fields i) (enc_inst s))
    tst hold v d rdy rst hh dv dh dd
    (tick SbPktDec.lphy_sb_pkt_dec
       (SbPktDec.mkInputs (dec_pkt_valid s) (dec_pkt_header s) (dec_pkt_data s)) (dec_inst s)).

Record outputs := mkOutputs {
  o_tx_req_ready : bool; o_afe_tx_valid : bool; o_afe_tx_data : Z; o_rx : SbPktDec.regs }.

Definition lphy_sb_ctrl : circuit inputs regs outputs := {|
  reset := mkRegs (reset (SbFlowCtrl.lphy_sb_flow_ctrl 32)) (reset SbPktEnc.lphy_sb_pkt_enc)
             ST_TX_IDLE 0 false 0 true ST_RX_HDR 0 false 0 0 (reset SbPktDec.lphy_sb_pkt_dec);
  out := λ i s, mkOutputs (tx_req_ready i s) (afe_tx_valid s) (afe_tx_data s) (dec_inst s);
  tick := step |}.
End SbCtrl.

#[global] Arguments SbPktEnc.calc_header : simpl never.
#[global] Arguments SbPktDec.decode : simpl never.
#[global] Arguments SbPktDec.parity_error : simpl never.
#[global] Arguments has_data : simpl never.
#[global] Arguments is_msg : simpl never.
#[global] Arguments is_reg_req : simpl never.
#[global] Arguments is_reg_cpl : simpl never.

(** ** Parity *)

Lemma xor_bits_ext n x y : (∀ i, 0 ≤ i < Z.of_nat n → Z.testbit x i = Z.testbit y i) → xor_bits n x = xor_bits n y.
Proof.
  intros H. induction n as [|n IH]; [done|]. cbn [xor_bits]. rewrite H by lia. f_equal. apply IH. intros i Hi. apply H. lia.
Qed.

Lemma xor_bits_lxor n x y : xor_bits n (Z.lxor x y) = xorb (xor_bits n x) (xor_bits n y).
Proof.
  induction n as [|n IH]; [done|]. cbn [xor_bits]. rewrite Z.lxor_spec, IH.
  by destruct (Z.testbit x _), (Z.testbit y _), (xor_bits n x), (xor_bits n y).
Qed.

Lemma slice_low hi x i : 0 ≤ i ≤ hi → Z.testbit (slice hi 0 x) i = Z.testbit x i.
Proof. intros Hi. rewrite slice_testbit by lia. f_equal. lia. Qed.

(** The bits of a header with its parity. *)
Lemma header_bits h d b i :
  0 ≤ i ≤ 61 → Z.testbit (SbCrc.tx_header_out h d b) i = Z.testbit h i.
Proof.
  intros Hi. unfold SbCrc.tx_header_out.
  rewrite <-(slice_low 61) by lia.
  set (dp := if b then _ else _). set (cp := xor_bits _ _).
  rewrite (slice_part 2 _ 62 (slice 61 0 h)) by done.
  rewrite trunc_fits; [by apply slice_low|]. apply trunc_bv. lia.
Qed.

Lemma header_parity h d b :
  Z.testbit (SbCrc.tx_header_out h d b) 62 = xor_bits 62 h ∧
  Z.testbit (SbCrc.tx_header_out h d b) 63 = (if b then xor_bits 64 d else false).
Proof.
  unfold SbCrc.tx_header_out. set (dp := if b then _ else _). set (cp := xor_bits _ _).
  assert (cp = xor_bits 62 h) as Hcp by (apply xor_bits_ext; intros i Hi; apply slice_low; lia).
  assert (∀ x : bool, trunc 1 (Z.b2z x) = Z.b2z x) as Ht by (by intros []).
  assert (∀ (x : bool) hi lo y, slice hi lo y = Z.b2z x → hi = lo → 0 ≤ lo → Z.testbit y lo = x) as Hbit.
  { intros x hi lo y Hs -> Hlo. pose proof (slice_testbit lo lo y 0 ltac:(lia) ltac:(lia)) as Hb.
    rewrite Hs in Hb. rewrite Z.add_0_l in Hb. rewrite <-Hb. by destruct x. }
  split.
  - rewrite <-Hcp. apply (Hbit cp 62 62); [|done|done].
    trans (trunc 1 (Z.b2z cp)); [by apply (slice_part 1)|apply Ht].
  - apply (Hbit dp 63 63); [|done|done].
    trans (trunc 1 (Z.b2z dp)); [by apply (slice_part 0)|apply Ht].
Qed.

Lemma parity_run h d b e x :
  SbCrc.rx_cp_err (Z.lxor (SbCrc.tx_header_out h d b) e) = xor_bits 63 e ∧
  SbCrc.rx_dp_err (Z.lxor (SbCrc.tx_header_out h d b) e) (Z.lxor d x) b
  = xorb (Z.testbit e 63) (if b then xor_bits 64 x else false).
Proof.
  destruct (header_parity h d b) as [Hc Hd]. split.
  - unfold SbCrc.rx_cp_err. rewrite Z.lxor_spec, Hc.
    rewrite (xor_bits_ext 62 (slice 61 0 _) (Z.lxor h e)).
    + rewrite xor_bits_lxor. change (xor_bits 63 e) with (xorb (Z.testbit e 62) (xor_bits 62 e)).
      by destruct (xor_bits 62 h), (Z.testbit e 62), (xor_bits 62 e).
    + intros i Hi. rewrite slice_low, !Z.lxor_spec, header_bits by lia. done.
  - unfold SbCrc.rx_dp_err. rewrite Z.lxor_spec, Hd, xor_bits_lxor.
    by destruct b, (Z.testbit e 63), (xor_bits 64 d), (xor_bits 64 x).
Qed.

(** The parity bits detect exactly the odd errors: a header
    received with the bits of [e] flipped raises the control parity error exactly
    when an odd number of bits 0 to 62 was flipped, and with the payload bits of [x]
    flipped the data parity error exactly when bit 63 and the payload together
    suffered an odd number of flips. *)
Theorem parity_detects h d b e x :
  SbCrc.rx_cp_err (Z.lxor (SbCrc.tx_header_out h d b) e) = xor_bits 63 e ∧
  SbCrc.rx_dp_err (Z.lxor (SbCrc.tx_header_out h d b) e) (Z.lxor d x) b
  = xorb (Z.testbit e 63) (if b then xor_bits 64 x else false).
Proof. apply parity_run. Qed.

(** ** Packets *)

(** The fields a packet carries, with the payload [d]; the decoder zeroes the
    others. *)
Definition carried (d : Z) (f : fields) : fields :=
  if is_msg (opcode f) then
    mkFields (opcode f) (srcid f) (dstid f) false false d 0 0 0 0 (msgcode f) (msgsubcode f) (msginfo f)
  else if is_reg_cpl (opcode f) then
    mkFields (opcode f) (srcid f) (dstid f) (ep f) (cr f) d (tag f) (be f) 0 (cp_status f) 0 0 0
  else
    mkFields (opcode f) (srcid f) (dstid f) (ep f) (cr f) d (tag f) (be f) (addr f) 0 0 0 0.

Record wf_fields (f : fields) : Prop := {
  w_opcode : bv 5 (opcode f); w_srcid : bv 3 (srcid f); w_dstid : bv 3 (dstid f); w_tag : bv 5 (tag f);
  w_be : bv 8 (be f); w_addr : bv 24 (addr f); w_cp : bv 3 (cp_status f); w_code : bv 8 (msgcode f);
  w_sub : bv 8 (msgsubcode f); w_info : bv 16 (msginfo f) }.

(** The two phases of a header. *)
Lemma header_phase0 f hi lo : 0 ≤ lo ≤ hi → hi ≤ 31 →
  slice hi lo (slice 31 0 (SbPktEnc.calc_header f)) = slice hi lo (concat (SbPktEnc.phase0_reg f)).
Proof.
  intros Hlo Hhi. rewrite slice_slice by lia. rewrite !Z.add_0_r.
  rewrite (slice_ext _ _ _ (SbPktEnc.raw_header f)) by (lia || (intros; apply header_bits; lia)).
  rewrite <-(Z.add_0_r hi), <-(Z.add_0_r lo), <-(slice_slice _ _ 31 0) by lia. rewrite !Z.add_0_r. f_equal.
  unfold SbPktEnc.raw_header. rewrite (slice_part 1 _ 32 (concat (SbPktEnc.phase0_reg f))) by done.
  apply trunc_fits. unfold SbPktEnc.phase0_reg. by case_match; apply concat_fits.
Qed.

Lemma header_phase1 f hi lo : 0 ≤ lo ≤ hi → hi ≤ 29 →
  slice hi lo (slice 63 32 (SbPktEnc.calc_header f)) = slice hi lo (concat (SbPktEnc.phase1_reg f)).
Proof.
  intros Hlo Hhi. rewrite slice_slice by lia.
  rewrite (slice_ext _ _ _ (SbPktEnc.raw_header f)) by (lia || (intros; apply header_bits; lia)).
  rewrite <-(slice_slice hi lo 63 32) by lia. f_equal.
  unfold SbPktEnc.raw_header. rewrite (slice_part 0 _ 32 (concat (SbPktEnc.phase1_reg f))) by done.
  apply trunc_fits. unfold SbPktEnc.phase1_reg. by repeat case_match; apply concat_fits.
Qed.

Lemma bit_slice x i : 0 ≤ i → Z.b2z (Z.testbit x i) = slice i i x.
Proof.
  intros Hi. apply Z.bits_inj'. intros j Hj. destruct (decide (j = 0)) as [->|].
  - rewrite slice_testbit by lia. rewrite Z.add_0_l. by destruct (Z.testbit x i).
  - unfold slice. rewrite Z.mod_pow2_bits_high by lia. destruct (Z.testbit x i); [|apply Z.bits_0].
    change (Z.b2z true) with (2 ^ 0). by rewrite Z.pow2_bits_false by lia.
Qed.

(** A part select that is one of the parts. *)
Ltac part := first
  [ apply (slice_part 0); reflexivity | apply (slice_part 1); reflexivity | apply (slice_part 2); reflexivity
  | apply (slice_part 3); reflexivity | apply (slice_part 4); reflexivity | apply (slice_part 5); reflexivity
  | apply (slice_part 6); reflexivity ].

Lemma header_opcode f : wf_fields f → slice 4 0 (slice 31 0 (SbPktEnc.calc_header f)) = opcode f.
Proof.
  intros []. rewrite header_phase0 by lia. unfold SbPktEnc.phase0_reg. destruct (is_msg (opcode f)).
  - rewrite (slice_part 4 _ 5 (opcode f)) by done. by apply trunc_fits.
  - rewrite (slice_part 6 _ 5 (opcode f)) by done. by apply trunc_fits.
Qed.

Lemma b2z_field (b : bool) x i : 0 ≤ i → slice i i x = Z.b2z b → Z.testbit x i = b.
Proof. intros Hi H. rewrite <-bit_slice in H by done. by destruct (Z.testbit x i), b. Qed.

Lemma decode_encode f d : wf_fields f → SbPktDec.decode (SbPktEnc.calc_header f) d = carried d f.
Proof.
  intros Hf. pose proof (header_opcode f Hf) as Ho. destruct Hf. unfold SbPktDec.decode, carried. rewrite Ho.
  assert (∀ b : bool, trunc 1 (Z.b2z b) = Z.b2z b) as Hb by (by intros []).
  destruct (is_msg (opcode f)) eqn:Hm; [|destruct (is_reg_cpl (opcode f)) eqn:Hc]; f_equal;
    try (apply b2z_field; [done|]);
    first [rewrite header_phase0 by lia; unfold SbPktEnc.phase0_reg | rewrite header_phase1 by lia; unfold SbPktEnc.phase1_reg];
    rewrite Hm, ?Hc; (etrans; [part|]); first [apply Hb | by apply trunc_fits].
Qed.

Lemma encode_parity f : wf_fields f → SbPktDec.parity_error (SbPktEnc.calc_header f) (payload f) = false.
Proof.
  intros Hf. unfold SbPktDec.parity_error. rewrite header_opcode by done. unfold SbPktEnc.calc_header.
  set (h := SbCrc.tx_header_out _ _ _). pose proof (parity_run (SbPktEnc.raw_header f) (payload f) (has_data (opcode f)) 0 0) as [H1 H2].
  rewrite Z.lxor_0_r in H1. rewrite !Z.lxor_0_r in H2. fold h in H1, H2. rewrite H1, H2. by destruct (has_data (opcode f)).
Qed.

(** C19.  Packets survive the wire: decoding an encoded header gives
    back every field its packet type carries, zero in the others, the payload, and
    no parity error. *)
Theorem packet_roundtrip f s :
  wf_fields f →
  let p := tick SbPktEnc.lphy_sb_pkt_enc (true, f) (reset SbPktEnc.lphy_sb_pkt_enc) in
  tick SbPktDec.lphy_sb_pkt_dec (SbPktDec.mkInputs (SbPktEnc.pkt_valid p) (SbPktEnc.pkt_header p) (SbPktEnc.pkt_data p)) s
  = SbPktDec.mkRegs true (carried (payload f) f) false.
Proof. intros Hf. cbn. by rewrite decode_encode, encode_parity. Qed.

Definition demo_fields : fields := mkFields 0x0D 3 5 true true 0xDEADBEEFCAFE 17 0xF0 0x123456 0 0 0 0.

Lemma demo_fields_wf : wf_fields demo_fields.
Proof. split; by split. Qed.

Lemma packet_roundtrip_witness :
  tick SbPktDec.lphy_sb_pkt_dec
    (SbPktDec.mkInputs true (SbPktEnc.calc_header demo_fields) (payload demo_fields)) (reset SbPktDec.lphy_sb_pkt_dec)
  = SbPktDec.mkRegs true (carried (payload demo_fields) demo_fields) false.
Proof. apply (packet_roundtrip demo_fields (reset SbPktDec.lphy_sb_pkt_dec) demo_fields_wf). Defined.
