(* ===== verification/PhySidebandLink.v ===== *)
(** * Sideband credits and transport

    The credit counters of lphy_sb_flow_ctrl.sv, two lphy_sb_ctrl.sv controllers
    joined by their AFE words, and the behaviour of the controller when requests
    come faster than the AFE takes them. *)

From S2P Require Import Prelude Rtl PhySideband.
#[local] Open Scope Z_scope.

(** ** Credits *)

Module Credits.
Import SbCtrl.
Abbreviation local_credits s := (SbFlowCtrl.local_crd_count (fc_inst s)).
Abbreviation remote_credits s := (SbFlowCtrl.remote_crd_count (fc_inst s)).

(** The credits that a cycle takes and those that come back in it. *)
Definition takes_local (i : inputs) (s : regs) : bool := SbFlowCtrl.consume_local (fc_in i s) (fc_inst s).
Definition takes_remote (i : inputs) (s : regs) : bool := SbFlowCtrl.consume_remote (fc_in i s) (fc_inst s).
Definition returns_local (i : inputs) (s : regs) : bool := SbFlowCtrl.local_crd_ret (fc_in i s).
Definition returns_remote (i : inputs) (s : regs) : bool := SbFlowCtrl.remote_crd_ret (fc_in i s).

(** Credits taken and not come back since the RDI was last in reset, after [x] and
    the cycles of a run. *)
Fixpoint owed (takes returns : inputs → regs → bool) (x : Z) (s : regs) (ins : list inputs) : Z :=
  match ins with
  | [] => x
  | i :: ins' =>
      owed takes returns (if rdi_in_reset i then 0 else x + Z.b2z (takes i s) - Z.b2z (returns i s)) (step i s) ins'
  end.

(** Credits come back only for requests sent, and not while the RDI is in reset. *)
Definition legal_return (i : inputs) (s : regs) : bool :=
  rdi_in_reset i ||
  (negb (returns_local i s) || takes_local i s || (local_credits s <? 32)) &&
  (negb (returns_remote i s) || takes_remote i s || (remote_credits s <? 4)).
Fixpoint legal (s : regs) (ins : list inputs) : bool :=
  match ins with
  | [] => true
  | i :: ins' => legal_return i s && legal (step i s) ins'
  end.

Definition in_range (s : regs) : Prop := 0 ≤ local_credits s ≤ 32 ∧ 0 ≤ remote_credits s ≤ 4.

Lemma kinds_disjoint op : is_reg_cpl op = true → is_reg_req op = false ∧ is_msg op = false.
Proof.
  unfold is_reg_cpl, is_reg_req, is_msg. intros H. repeat (apply orb_prop in H as [H|H]); apply Z.eqb_eq in H as ->; done.
Qed.

(** A credit is taken only when there is one: the request kinds that the controller
    decodes exclude each other. *)
Lemma takes_available i s :
  (takes_local i s = true → 0 < local_credits s) ∧ (takes_remote i s = true → 0 < remote_credits s).
Proof.
  unfold takes_local, takes_remote, SbFlowCtrl.consume_local, SbFlowCtrl.consume_remote, SbFlowCtrl.tx_allowed, fc_in.
  cbn. pose proof (kinds_disjoint (opcode (tx_fields i))) as Hk.
  destruct (tx_req_valid i), (is_reg_cpl _); try destruct (Hk eq_refl) as [-> ->]; try done.
  destruct (is_reg_req _), (is_msg _); cbn; bool_to_prop; cbn; split; intros; done || lia.
Qed.

Lemma step_fc i s : fc_inst (step i s) = tick (SbFlowCtrl.lphy_sb_flow_ctrl 32) (fc_in i s) (fc_inst s).
Proof. unfold step. by destruct (tx_sequencer i s) as [[[[]]]], (rx_sequencer i s) as [[[[]]]]. Qed.

Lemma credits_step i s x y :
  in_range s →
  in_range (step i s) ∧
  (legal_return i s = true → local_credits s + x = 32 → remote_credits s + y = 4 →
   local_credits (step i s) + owed takes_local returns_local x s [i] = 32 ∧
   remote_credits (step i s) + owed takes_remote returns_remote y s [i] = 4).
Proof.
  intros [Hl Hm]. unfold in_range. rewrite step_fc. cbn [tick SbFlowCtrl.lphy_sb_flow_ctrl owed].
  unfold legal_return. change (SbFlowCtrl.rdi_in_reset (fc_in i s)) with (rdi_in_reset i).
  destruct (rdi_in_reset i) eqn:Hr; [cbn; change (trunc 6 32) with 32; lia|].
  destruct (takes_available i s) as [Ha Hb].
  cbn [SbFlowCtrl.local_crd_count SbFlowCtrl.remote_crd_count orb].
  unfold SbFlowCtrl.step_local, SbFlowCtrl.step_remote, trunc.
  fold (takes_local i s) (takes_remote i s) (returns_local i s) (returns_remote i s).
  change (32 mod 2 ^ 6) with 32.
  destruct (takes_local i s), (takes_remote i s), (returns_local i s), (returns_remote i s);
    cbn [andb negb orb Z.b2z]; bool_to_prop; cbn [andb]; try specialize (Ha eq_refl); try specialize (Hb eq_refl);
    rewrite ?Z.mod_small by lia; split; try lia; intros; try done; lia.
Qed.

Lemma credits_run ins : ∀ s x y,
  in_range s →
  in_range (run lphy_sb_ctrl s ins) ∧
  (legal s ins = true → local_credits s + x = 32 → remote_credits s + y = 4 →
   local_credits (run lphy_sb_ctrl s ins) + owed takes_local returns_local x s ins = 32 ∧
   remote_credits (run lphy_sb_ctrl s ins) + owed takes_remote returns_remote y s ins = 4).
Proof.
  induction ins as [|i ins IH]; intros s x y Hs; [done|].
  destruct (credits_step i s x y Hs) as [Hs' Hc].
  change (run _ s (i :: ins)) with (run lphy_sb_ctrl (step i s) ins).
  destruct (IH (step i s) (owed takes_local returns_local x s [i]) (owed takes_remote returns_remote y s [i]) Hs') as [H1 H2].
  split; [done|]. cbn [legal]. intros Hl Hx Hy. apply andb_prop in Hl as [Hl1 Hl2].
  destruct (Hc Hl1 Hx Hy). by apply H2.
Qed.

(** C20.  The credit counters of the sideband controller never leave their ranges,
    0 to 32 and 0 to 4, whatever is requested, received and returned and whenever the
    RDI is in reset.  While credits come back only for requests sent, each counter is
    its initial value less the credits taken and not come back since the last reset,
    which reloads both. *)
Theorem sideband_credits ins :
  let s0 := reset lphy_sb_ctrl in
  let s := run lphy_sb_ctrl s0 ins in
  0 ≤ local_credits s ≤ 32 ∧ 0 ≤ remote_credits s ≤ 4 ∧
  (legal s0 ins = true →
   local_credits s + owed takes_local returns_local 0 s0 ins = 32 ∧
   remote_credits s + owed takes_remote returns_remote 0 s0 ins = 4).
Proof.
  cbn zeta. assert (in_range (reset lphy_sb_ctrl)) as H0 by (split; vm_compute; split; discriminate).
  destruct (credits_run ins _ 0 0 H0) as [[H1 H2] H3]. split_and!; [lia|lia|lia|lia|]. intros Hl. by apply H3.
Qed.

(** A register read, a message with a credit back, a cycle of reset and a message. *)
Definition demo_requests : list inputs :=
  let request op r ret := mkInputs r true (mkFields op 0 0 false false 0 0 0 0 0 0 0 0) ret true false 0 in
  [request 0 false false; request 0x12 false true; request 0 true false; request 0x12 false false].

Lemma sideband_credits_witness :
  legal (reset lphy_sb_ctrl) demo_requests = true ∧
  local_credits (run lphy_sb_ctrl (reset lphy_sb_ctrl) demo_requests)
  + owed takes_local returns_local 0 (reset lphy_sb_ctrl) demo_requests = 32 ∧
  local_credits (run lphy_sb_ctrl (reset lphy_sb_ctrl) demo_requests) = 31.
Proof.
  split_and!; [by vm_compute| |by vm_compute].
  refine (proj1 (proj2 (proj2 (sideband_credits demo_requests)) _)). by vm_compute.
Defined.
End Credits.

(** ** Two controllers *)

Module SbLink.
Import SbCtrl Credits.

Definition no_fields : fields := mkFields 0 0 0 false false 0 0 0 0 0 0 0 0.

(** What the adapter of one die does in a cycle: the RDI in reset or not, a request
    or none, and a credit given back or not. *)
Record adapter := mkAdapter { ad_reset : bool; ad_request : option fields; ad_return : bool }.

(** A cycle of a controller, with an AFE that takes a word in every cycle and the
    partner's words on its receiver. *)
Definition cycle (x : adapter) (partner : regs) : inputs :=
  mkInputs (ad_reset x) (bool_decide (is_Some (ad_request x))) (default no_fields (ad_request x)) (ad_return x) true
    (afe_tx_valid partner) (afe_tx_data partner).

(** The packet accepted in a cycle, and the one shown to the adapter. *)
Definition accepts (i : inputs) (s : regs) : option fields := if fire_encoder i s then Some (tx_fields i) else None.
Definition shows (s : regs) : option (fields * bool) :=
  let d := dec_inst s in if SbPktDec.req_valid d then Some (SbPktDec.decoded d, SbPktDec.parity_err d) else None.

(** Two controllers; for each the packet accepted and the packet shown. *)
Record sight := mkSight { accepted : option fields; shown : option (fields * bool) }.
Definition link : circuit (adapter * adapter) (regs * regs) (sight * sight) := {|
  reset := (reset lphy_sb_ctrl, reset lphy_sb_ctrl);
  out := λ '(x, y) '(a, b), (mkSight (accepts (cycle x b) a) (shows a), mkSight (accepts (cycle y a) b) (shows b));
  tick := λ '(x, y) '(a, b), (step (cycle x b) a, step (cycle y a) b) |}.

(** What the receiver's adapter sees of a packet. *)
Definition word (f : fields) : Z := if has_data (opcode f) then payload f else 0.
Definition seen (f : fields) : fields * bool := (carried (word f) f, false).

Definition long (o : option fields) : bool := match o with Some f => has_data (opcode f) | None => false end.
(** No packet is accepted in the cycle after one with a payload; [o] was accepted in
    the cycle before. *)
Fixpoint apart_from (o : option fields) (l : list (option fields)) : bool :=
  match l with
  | [] => true
  | o' :: l => negb (long o && bool_decide (is_Some o')) && apart_from o' l
  end.
Definition apart : list (option fields) → bool := apart_from None.

Lemma msg_not_req op : is_msg op = true → is_reg_req op = false.
Proof.
  unfold is_reg_req, is_msg. intros H. repeat (apply orb_prop in H as [H|H]); apply Z.eqb_eq in H as ->; done.
Qed.

Lemma header_low f : wf_fields f → slice 4 0 (SbPktEnc.calc_header f) = opcode f.
Proof. intros Hf. rewrite <-(header_opcode f Hf), slice_slice by lia. done. Qed.

Lemma word_parity f : wf_fields f → SbPktDec.parity_error (SbPktEnc.calc_header f) (word f) = false.
Proof.
  intros Hf. pose proof (encode_parity f Hf) as H. unfold word. destruct (has_data (opcode f)) eqn:Hd; [done|].
  unfold SbPktDec.parity_error in *. rewrite header_opcode in * by done. rewrite Hd in *. done.
Qed.

#[local] Arguments SbFlowCtrl.lphy_sb_flow_ctrl : simpl never.
#[local] Arguments SbCtrl.tx_allowed : simpl never.
#[local] Arguments SbCtrl.fc_in : simpl never.

(** The halves of one cycle. *)
Lemma step_tx i s : (tx_state (step i s), hold_tx_data (step i s), afe_tx_valid (step i s), afe_tx_data (step i s),
  seq_tx_ready (step i s)) = tx_sequencer i s.
Proof. unfold step. by destruct (tx_sequencer i s) as [[[[]]]], (rx_sequencer i s) as [[[[]]]]. Qed.
Lemma step_rx i s : (rx_state (step i s), hold_rx_header (step i s), dec_pkt_valid (step i s), dec_pkt_header (step i s),
  dec_pkt_data (step i s)) = rx_sequencer i s.
Proof. unfold step. by destruct (tx_sequencer i s) as [[[[]]]], (rx_sequencer i s) as [[[[]]]]. Qed.
Lemma step_enc i s : enc_inst (step i s) =
  SbPktEnc.mkRegs (fire_encoder i s) (SbPktEnc.calc_header (tx_fields i)) (payload (tx_fields i)) (has_data (opcode (tx_fields i))).
Proof. unfold step. by destruct (tx_sequencer i s) as [[[[]]]], (rx_sequencer i s) as [[[[]]]]. Qed.
Lemma step_dec i s : dec_inst (step i s) = tick SbPktDec.lphy_sb_pkt_dec
  (SbPktDec.mkInputs (dec_pkt_valid s) (dec_pkt_header s) (dec_pkt_data s)) (dec_inst s).
Proof. unfold step. by destruct (tx_sequencer i s) as [[[[]]]], (rx_sequencer i s) as [[[[]]]]. Qed.

(** ** The packets on their way from [a] to [b]

    A packet is in the encoder, on the wire, in the word sequencer's register or in
    the decoder's. *)

Definition encoded (a : regs) (o : option fields) : Prop :=
  match o with
  | None => SbPktEnc.pkt_valid (enc_inst a) = false
  | Some f => enc_inst a = SbPktEnc.mkRegs true (SbPktEnc.calc_header f) (payload f) (has_data (opcode f))
  end.

(** The sequencer can take a packet; its last word, if any, is on the wire. *)
Record idle (a : regs) (v : bool) : Prop := {
  id_state : tx_state a = ST_TX_IDLE;
  id_ready : seq_tx_ready a = true;
  id_valid : afe_tx_valid a = v;
}.

Inductive wire (a b : regs) : option fields → Prop :=
  | wire_none : idle a false → rx_state b = ST_RX_HDR → wire a b None
  | wire_short f :
      has_data (opcode f) = false → idle a true → afe_tx_data a = SbPktEnc.calc_header f →
      rx_state b = ST_RX_HDR → wire a b (Some f)
  | wire_payload f :
      has_data (opcode f) = true → idle a true → afe_tx_data a = payload f →
      rx_state b = ST_RX_DATA → hold_rx_header b = SbPktEnc.calc_header f → wire a b (Some f).

(** The header of [f] is on the wire and its payload held. *)
Record heading (a b : regs) (f : fields) : Prop := {
  hd_long : has_data (opcode f) = true;
  hd_state : tx_state a = ST_TX_DATA;
  hd_hold : hold_tx_data a = payload f;
  hd_ready : seq_tx_ready a = false;
  hd_valid : afe_tx_valid a = true;
  hd_data : afe_tx_data a = SbPktEnc.calc_header f;
  hd_rx : rx_state b = ST_RX_HDR;
}.

Definition packet (b : regs) (o : option fields) : Prop :=
  dec_pkt_valid b = bool_decide (is_Some o) ∧
  ∀ f, o = Some f → dec_pkt_header b = SbPktEnc.calc_header f ∧ dec_pkt_data b = word f.

(** What becomes of the packet in the sequencer's register. *)
Lemma packet_next i b o :
  packet b o → (∀ f, o = Some f → wf_fields f) → shows (step i b) = seen <$> o.
Proof.
  intros [Hv Hf] Hwf. unfold shows. rewrite step_dec. cbn. rewrite Hv. destruct o as [f|]; [|done].
  destruct (Hf f eq_refl) as [-> ->]. cbn. by rewrite decode_encode, word_parity by auto.
Qed.

Lemma encoded_next i a : encoded (step i a) (accepts i a).
Proof. unfold encoded, accepts. rewrite step_enc. by destruct (fire_encoder i a). Qed.

#[local] Ltac halves i a j b :=
  let H := fresh "Htx" in let H' := fresh "Hrx" in
  pose proof (step_tx i a) as H; pose proof (step_rx j b) as H'; unfold tx_sequencer, rx_sequencer in H, H'.

(** The last word of a packet reaches the sequencer's register, and the packet in the
    encoder, if any, goes onto the wire. *)
Lemma wire_next x y a b o p :
  wire a b o → encoded a p → (∀ f, o = Some f → wf_fields f) →
  let a' := step (cycle x b) a in let b' := step (cycle y a) b in
  packet b' o ∧ if long p then ∃ f, p = Some f ∧ heading a' b' f else wire a' b' p.
Proof.
  intros Hw He Hwf. cbn zeta. halves (cycle x b) a (cycle y a) b. cbn in Hrx.
  assert (packet (step (cycle y a) b) o ∧ rx_state (step (cycle y a) b) = ST_RX_HDR ∧ tx_state a = ST_TX_IDLE ∧ seq_tx_ready a = true)
    as (Hp & Hr & Ht & Hq).
  { unfold packet. destruct Hw as [[Ht Hq Hv] Hs|f Hd [Ht Hq Hv] Ha Hs|f Hd [Ht Hq Hv] Ha Hs Hh]; rewrite Hs, Hv in Hrx.
    - split_and!; cbn; [congruence|done|congruence..].
    - rewrite Ha, header_low, Hd in Hrx by auto. unfold word.
      split_and!; cbn; [congruence|intros ? [= <-]; rewrite Hd; split; congruence|congruence..].
    - rewrite Ha, Hh in Hrx. unfold word.
      split_and!; cbn; [congruence|intros ? [= <-]; rewrite Hd; split; congruence|congruence..]. }
  split; [done|]. rewrite Ht, Hq in Htx. destruct p as [f|]; cbn [long encoded] in *; rewrite He in Htx; cbn in Htx.
  - destruct (has_data (opcode f)) eqn:Hd.
    + exists f. split; [done|]. split; congruence.
    + apply wire_short; [done|split; congruence|congruence|done].
  - apply wire_none; [split; congruence|done].
Qed.

(** The payload follows its header; whatever is in the encoder is lost. *)
Lemma heading_next x y a b f :
  heading a b f → wf_fields f →
  let a' := step (cycle x b) a in let b' := step (cycle y a) b in
  packet b' None ∧ wire a' b' (Some f) ∧ accepts (cycle x b) a = None.
Proof.
  intros [Hd Ht Hh Hq Hv Ha Hr] Hf. cbn zeta. halves (cycle x b) a (cycle y a) b. cbn in Htx, Hrx.
  rewrite Ht, Hh in Htx. rewrite Hr, Hv, Ha, header_low, Hd in Hrx by done. split_and!.
  - split; [cbn; congruence|done].
  - apply wire_payload; [done|split; congruence|congruence..].
  - unfold accepts, fire_encoder. by rewrite Hq, andb_false_r.
Qed.

Definition ol (o : option fields) : list fields := match o with Some f => [f] | None => [] end.

(** The wire and the encoder, which holds what was accepted in the cycle before. *)
Inductive moving (a b : regs) (p : option fields) : list fields → Prop :=
  | moving_wire o : wire a b o → encoded a p → moving a b p (ol o ++ ol p)
  | moving_head f : heading a b f → encoded a None → p = None → moving a b p [f].

(** The packets [l] are on their way, oldest first. *)
Inductive flight (a b : regs) (p : option fields) : list fields → Prop :=
  | in_flight o1 o2 l :
      shows b = seen <$> o1 → packet b o2 → moving a b p l → Forall wf_fields (ol o2 ++ l) →
      flight a b p (ol o1 ++ ol o2 ++ l).

Lemma ol_wf o l : Forall wf_fields (ol o ++ l) → ∀ f, o = Some f → wf_fields f.
Proof. intros H f ->. by inversion H. Qed.

Lemma flight_next x y a b p l :
  flight a b p l → (∀ f, ad_request x = Some f → wf_fields f) →
  let o := accepts (cycle x b) a in
  long p && bool_decide (is_Some o) = false →
  let a' := step (cycle x b) a in let b' := step (cycle y a) b in
  seq_tx_ready a' = negb (long p) ∧
  ∃ o1 l', l = ol o1 ++ l' ∧ shows b = seen <$> o1 ∧ flight a' b' o (l' ++ ol o).
Proof.
  intros [o1 o2 l3 H1 H2 Hm Hwf] Hx o Hap a' b'.
  assert (Forall wf_fields (ol o)) as Hwo.
  { unfold o, accepts. destruct (fire_encoder _ _) eqn:Hfe; [|constructor].
    unfold fire_encoder in Hfe. apply andb_prop in Hfe as [Hfe _]. apply andb_prop in Hfe as [Hfe _].
    constructor; [|done]. cbn in *. destruct (ad_request x) as [f|]; [|done]. by apply Hx. }
  assert (encoded a' o) as Henc by apply encoded_next.
  pose proof (packet_next (cycle y a) b o2 H2 (ol_wf _ _ Hwf)) as H1'.
  apply Forall_app in Hwf as [_ Hwf].
  enough (seq_tx_ready a' = negb (long p) ∧ ∃ o2' l', l3 = ol o2' ++ l' ∧ packet b' o2' ∧ moving a' b' o (l' ++ ol o) ∧
            Forall wf_fields (ol o2' ++ l')) as (Hr & o2' & l' & -> & Hp & Hm' & Hwf').
  { split; [done|]. exists o1, (ol o2 ++ ol o2' ++ l'). split; [done|]. split; [done|]. rewrite <-!app_assoc.
    apply (in_flight _ _ _ o2 o2' (l' ++ ol o)); [done..|]. rewrite app_assoc. by apply Forall_app. }
  destruct Hm as [o3 Hw He|f Hh He ->].
  - destruct (wire_next x y a b o3 p Hw He (ol_wf _ _ Hwf)) as [Hp Hn]. fold a' b' in Hp, Hn.
    destruct (long p) eqn:Hl.
    + destruct Hn as (f & -> & Hh). split; [apply Hh|]. exists o3, [f]. split_and!; [done..| |done].
      destruct o; [done|]. by apply moving_head.
    + split; [by inversion Hn as [[]|? ? []|? ? []]|]. exists o3, (ol p). split_and!; [done..| |done].
      by apply moving_wire.
  - destruct (heading_next x y a b f Hh) as (Hp & Hw & Ho); [by inversion Hwf|]. fold a' b' in Hp, Hw. fold o in Ho.
    split; [by inversion Hw as [[]|? ? []|? ? []]|]. exists None, [f]. split_and!; [done..| |done].
    rewrite Ho. apply (moving_wire a' b' None (Some f)); [done|]. by rewrite Ho in Henc.
Qed.

(** ** Runs *)

Abbreviation acc_a l := ((λ o : sight * sight, accepted (fst o)) <$> l).
Abbreviation acc_b l := ((λ o : sight * sight, accepted (snd o)) <$> l).
Abbreviation shown_a l := ((λ o : sight * sight, shown (fst o)) <$> l).
Abbreviation shown_b l := ((λ o : sight * sight, shown (snd o)) <$> l).

Definition wf_request (x : adapter) : Prop := ∀ f, ad_request x = Some f → wf_fields f.
Definition silent (x : adapter) : Prop := ad_request x = None.

(** A packet with a payload was accepted two cycles ago. *)
Definition late (l : list (option fields)) : bool := match reverse l with _ :: o :: _ => long o | _ => false end.
Lemma late_snoc l p o : last l = Some p → late (l ++ [o]) = long p.
Proof.
  destruct l as [|x l _] using rev_ind; [done|]. rewrite last_snoc. intros [= ->]. unfold late. by rewrite !reverse_snoc.
Qed.
Lemma late_cons l : late (None :: l) = late l.
Proof. unfold late. rewrite reverse_cons. by destruct (reverse l) as [|? [|]]. Qed.

(** One direction, after the packets [h] were accepted. *)
Record direction (a b : regs) (h : list (option fields)) (l : list fields) : Prop := {
  dr_flight : ∃ p, last h = Some p ∧ flight a b p l;
  dr_ready : seq_tx_ready a = negb (late h);
}.

Lemma direction_next x y a b h l :
  direction a b h l → wf_request x →
  let o := accepts (cycle x b) a in
  apart_from (default None (last h)) [o] = true →
  ∃ l', direction (step (cycle x b) a) (step (cycle y a) b) (h ++ [o]) l' ∧
    (seen <$> l) ++ (seen <$> ol o) = option_list (shows b) ++ (seen <$> l').
Proof.
  intros [(p & Hp & Hf) _] Hx o Hap. rewrite Hp in Hap. cbn [default apart_from id] in Hap. rewrite andb_true_r in Hap.
  apply negb_true_iff in Hap. destruct (flight_next x y a b p l Hf Hx Hap) as (Hr & o1 & l' & -> & Hs & Hf').
  exists (l' ++ ol o). split.
  - split; [exists o; by rewrite last_snoc|]. by rewrite (late_snoc _ p).
  - rewrite Hs, !fmap_app, <-app_assoc. by destruct o1.
Qed.

Lemma link_run ins : ∀ a b ha hb la lb,
  direction a b ha la → direction b a hb lb → Forall (λ xy, wf_request xy.1 ∧ wf_request xy.2) ins →
  let tr := trace link (a, b) ins in
  apart_from (default None (last ha)) (acc_a tr) = true → apart_from (default None (last hb)) (acc_b tr) = true →
  ∃ a' b' la' lb', run link (a, b) ins = (a', b') ∧
    direction a' b' (ha ++ acc_a tr) la' ∧ direction b' a' (hb ++ acc_b tr) lb' ∧
    (seen <$> la) ++ (seen <$> omap id (acc_a tr)) = omap id (shown_b tr) ++ (seen <$> la') ∧
    (seen <$> lb) ++ (seen <$> omap id (acc_b tr)) = omap id (shown_a tr) ++ (seen <$> lb').
Proof.
  induction ins as [|[x y] ins IH]; intros a b ha hb la lb Ha Hb Hwf; cbn zeta.
  { intros _ _. exists a, b, la, lb. cbn. rewrite !app_nil_r. by split_and!. }
  apply Forall_cons in Hwf as [[Hx Hy] Hwf]. cbn [trace fmap list_fmap out link fst snd accepted shown].
  set (oa := accepts (cycle x b) a). set (ob := accepts (cycle y a) b). intros Hpa Hpb.
  cbn [apart_from] in Hpa, Hpb. apply andb_prop in Hpa as [Hpa Hqa]. apply andb_prop in Hpb as [Hpb Hqb].
  destruct (direction_next x y a b ha la Ha Hx) as (la1 & Ha1 & Ea); [cbn [apart_from]; by rewrite andb_true_r|].
  destruct (direction_next y x b a hb lb Hb Hy) as (lb1 & Hb1 & Eb); [cbn [apart_from]; by rewrite andb_true_r|].
  fold oa in Ha1, Ea. fold ob in Hb1, Eb.
  destruct (IH (step (cycle x b) a) (step (cycle y a) b) (ha ++ [oa]) (hb ++ [ob]) la1 lb1 Ha1 Hb1 Hwf)
    as (a' & b' & la' & lb' & Hr & Ha' & Hb' & Ea' & Eb'); [by rewrite last_snoc..|].
  exists a', b', la', lb'. split; [exact Hr|]. rewrite <-app_assoc in Ha', Hb'. split; [exact Ha'|]. split; [exact Hb'|].
  change (tick link (x, y) (a, b)) with (step (cycle x b) a, step (cycle y a) b).
  assert (∀ A (o : option A) l, omap id (o :: l) = option_list o ++ omap id l) as Ho by by intros ? [].
  assert (∀ o, option_list o = ol o) as Hol by by intros [].
  split; rewrite !Ho, Hol, fmap_app, app_assoc; [rewrite Ea|rewrite Eb]; rewrite <-!app_assoc; by f_equal.
Qed.

(** ** Everything arrives *)

(** The cycles a packet is still on its way. *)
Definition age (a b : regs) : nat :=
  if SbPktEnc.pkt_valid (enc_inst a) then 5 else match tx_state a with ST_TX_DATA => 4 | ST_TX_IDLE =>
  if afe_tx_valid a then 3 else if dec_pkt_valid b then 2
  else if SbPktDec.req_valid (dec_inst b) then 1 else 0 end.

Lemma shows_valid b o : shows b = seen <$> o → SbPktDec.req_valid (dec_inst b) = bool_decide (is_Some o).
Proof. unfold shows. by destruct (SbPktDec.req_valid (dec_inst b)), o. Qed.

Lemma age_zero a b p l : flight a b p l → age a b = 0%nat → l = [].
Proof.
  intros [o1 o2 l3 H1%shows_valid [H2 _] Hm _]. unfold age. rewrite H1, H2.
  destruct Hm as [o Hw He|f [_ Ht _ _ _ _ _] He ->]; [|rewrite He, Ht; done].
  destruct p as [f|]; cbn [encoded] in He; rewrite He; [done|].
  destruct Hw as [[-> _ ->] _|f _ [-> _ ->] _ _|f _ [-> _ ->] _ _ _]; [|done..].
  destruct o2; [done|]. by destruct o1.
Qed.

Lemma age_next x y a b p l :
  flight a b p l → silent x → (age (step (cycle x b) a) (step (cycle y a) b) ≤ age a b - 1)%nat.
Proof.
  intros [o1 o2 l3 H1 H2 Hm Hwf] Hx.
  assert (SbPktEnc.pkt_valid (enc_inst (step (cycle x b) a)) = false) as He'.
  { rewrite step_enc. cbn. unfold fire_encoder. cbn. by rewrite Hx. }
  pose proof (packet_next (cycle y a) b o2 H2 (ol_wf _ _ Hwf)) as H1'%shows_valid.
  destruct H2 as [H2 _]. apply Forall_app in Hwf as [_ Hwf].
  unfold age at 1. rewrite He', H1'. destruct Hm as [o Hw He|f Hh He ->].
  - destruct (wire_next x y a b o p Hw He (ol_wf _ _ Hwf)) as [[Hp _] Hn]. rewrite Hp. unfold age.
    destruct p as [f|]; cbn [encoded long] in *; rewrite He; cbn [SbPktEnc.pkt_valid].
    { repeat case_match; lia. }
    inversion Hn as [[-> _ ->] _| |]. cbn. rewrite H2.
    destruct Hw as [[-> _ ->] _|f _ [-> _ ->] _ _|f _ [-> _ ->] _ _ _]; [|cbn; lia..].
    cbn. destruct o2; cbn; lia.
  - destruct (heading_next x y a b f Hh) as (_ & Hw & _); [by inversion Hwf|].
    inversion Hw as [|? _ [-> _ ->] _ _|? _ [-> _ ->] _ _ _]; subst; cbn; unfold age; rewrite He, (hd_state _ _ _ Hh); cbn; lia.
Qed.

Lemma silent_accepts x s b : silent x → accepts (cycle x b) s = None.
Proof. intros Hx. unfold accepts, fire_encoder. cbn. by rewrite Hx. Qed.

Lemma link_drains ins : ∀ a b ha hb la lb,
  direction a b ha la → direction b a hb lb → Forall (λ xy, silent xy.1 ∧ silent xy.2) ins →
  (age a b ≤ length ins)%nat → (age b a ≤ length ins)%nat →
  let tr := trace link (a, b) ins in
  omap id (acc_a tr) = [] ∧ omap id (acc_b tr) = [] ∧
  omap id (shown_b tr) = seen <$> la ∧ omap id (shown_a tr) = seen <$> lb.
Proof.
  induction ins as [|[x y] ins IH]; intros a b ha hb la lb Ha Hb Hs; cbn zeta.
  { intros H1 H2. destruct Ha as [(p & _ & Hp) _], Hb as [(q & _ & Hq) _].
    rewrite (age_zero a b p la Hp), (age_zero b a q lb Hq) by (cbn in *; lia). done. }
  apply Forall_cons in Hs as [[Hx Hy] Hs]. cbn in Hx, Hy. cbn [length]. intros Hl1 Hl2.
  cbn [trace fmap list_fmap out link fst snd accepted shown]. rewrite !silent_accepts by done.
  destruct (direction_next x y a b ha la Ha) as (la1 & Ha1 & Ea);
    [by intros f; rewrite Hx|by rewrite silent_accepts; cbn; rewrite ?andb_false_r|].
  destruct (direction_next y x b a hb lb Hb) as (lb1 & Hb1 & Eb);
    [by intros f; rewrite Hy|by rewrite silent_accepts; cbn; rewrite ?andb_false_r|].
  rewrite silent_accepts in Ea, Eb by done. cbn [ol fmap list_fmap] in Ea, Eb. rewrite app_nil_r in Ea, Eb.
  destruct Ha as [(p & _ & Hp) _], Hb as [(q & _ & Hq) _].
  pose proof (age_next x y a b p la Hp Hx). pose proof (age_next y x b a q lb Hq Hy).
  destruct (IH _ _ _ _ la1 lb1 Ha1 Hb1 Hs) as (E1 & E2 & E3 & E4); [lia|lia|].
  change (tick link (x, y) (a, b)) with (step (cycle x b) a, step (cycle y a) b).
  assert (∀ A (o : option A) l, omap id (o :: l) = option_list o ++ omap id l) as Ho by by intros ? [].
  rewrite !Ho, E1, E2, E3, E4. by rewrite Ea, Eb.
Qed.

Lemma apart_app o l k : apart_from o (l ++ k) = true → apart_from o l = true.
Proof.
  revert o. induction l as [|o' l IH]; intros o; [done|]. cbn [apart_from app]. intros H.
  apply andb_prop in H as [-> H]. by apply IH in H.
Qed.

Lemma resting_flight : flight (reset lphy_sb_ctrl) (reset lphy_sb_ctrl) None [].
Proof. apply (in_flight _ _ None None None []); [done|by split|by apply (moving_wire _ _ None None); [constructor|]|constructor]. Qed.
Lemma resting_direction : direction (reset lphy_sb_ctrl) (reset lphy_sb_ctrl) [None] [].
Proof. split; [|done]. exists None. split; [done|apply resting_flight]. Qed.

Lemma age_bound a b : (age a b ≤ 5)%nat.
Proof. unfold age. repeat case_match; lia. Qed.

(** A request is accepted when the flow control allows it and the sequencer is ready. *)
Lemma ready_accepts x a b h l :
  direction a b h l → is_Some (ad_request x) → tx_allowed (cycle x b) a = true → late h = false →
  accepts (cycle x b) a = ad_request x.
Proof.
  intros [_ Hr] [f Hf] Ha Hl. rewrite Hl in Hr. unfold accepts, fire_encoder. rewrite Ha, Hr. cbn. by rewrite Hf.
Qed.


Definition demo_message : fields := mkFields 0x12 1 2 false false 0 0 0 0 0 0x91 0x07 0xBEEF.
Definition request (f : fields) : adapter := mkAdapter false (Some f) false.
Definition nothing : adapter := mkAdapter false None false.

(** A register write and then a message in one direction, two messages back to back in
    the other, with a cycle of RDI reset and a credit given back. *)
Definition demo_traffic : list (adapter * adapter) :=
  [(request demo_fields, nothing); (nothing, request demo_message); (mkAdapter true None false, request demo_message);
   (mkAdapter false (Some demo_message) true, nothing)].


Definition known (f : fields) : bool := is_msg (opcode f) || is_reg_req (opcode f) || is_reg_cpl (opcode f).

(** Two requests find credits after reset. *)
Lemma first_credits f b : known f = true → accepts (cycle (request f) b) (reset lphy_sb_ctrl) = Some f.
Proof.
  intros Hk. unfold accepts, fire_encoder, tx_allowed, SbFlowCtrl.tx_allowed, fc_in. cbn. unfold known in Hk.
  by destruct (is_reg_cpl (opcode f)), (is_reg_req (opcode f)), (is_msg (opcode f)).
Qed.
Lemma second_credits f g b b' :
  known f = true → known g = true → has_data (opcode f) = true →
  let a := step (cycle (request f) b) (reset lphy_sb_ctrl) in
  tx_req_ready (cycle (request g) b') a = true ∧ accepts (cycle (request g) b') a = Some g.
Proof.
  intros Hk Hk' Hd. cbn zeta. set (a := step _ _).
  assert (seq_tx_ready a = true) as Hr by exact (f_equal snd (step_tx _ _)).
  assert (fc_inst a = tick (SbFlowCtrl.lphy_sb_flow_ctrl 32) (fc_in (cycle (request f) b) (reset lphy_sb_ctrl)) (SbFlowCtrl.mkRegs 32 4))
    as Hc by apply step_fc.
  assert (tx_allowed (cycle (request g) b') a = true) as Ha.
  { unfold tx_allowed. rewrite Hc. clear -Hk Hk'. unfold known in *.
    unfold SbFlowCtrl.tx_allowed, SbFlowCtrl.lphy_sb_flow_ctrl, SbFlowCtrl.step_local, SbFlowCtrl.step_remote,
      SbFlowCtrl.consume_local, SbFlowCtrl.consume_remote, SbFlowCtrl.tx_allowed, fc_in. cbn.
    destruct (is_reg_cpl (opcode g)); [done|].
    by destruct (is_reg_req (opcode g)), (is_msg (opcode g)), (is_reg_cpl (opcode f)), (is_reg_req (opcode f)), (is_msg (opcode f)). }
  split; [unfold tx_req_ready; by rewrite Ha, Hr|]. unfold accepts, fire_encoder. by rewrite Ha, Hr.
Qed.

(** Nothing is under way in a direction in which nothing was requested. *)
Definition still (a b : regs) : Prop := age a b = 0%nat ∧ ∃ h, direction a b h [].
Lemma still_next x y a b : still a b → silent x → still (step (cycle x b) a) (step (cycle y a) b).
Proof.
  intros [Hz [h Hd]] Hx. pose proof Hd as [(p & _ & Hp) _]. pose proof (age_next x y a b p [] Hp Hx).
  destruct (direction_next x y a b h [] Hd) as (l' & Hd' & He);
    [by intros f; rewrite Hx|by rewrite silent_accepts; cbn; rewrite ?andb_false_r|].
  rewrite silent_accepts in Hd', He by done. split; [lia|].
  symmetry in He. apply app_eq_nil in He as [_ He]. apply fmap_nil_inv in He as ->. eauto.
Qed.

(** A request in the cycle after one with a payload is
    accepted and then lost: the sequencer's ready falls one cycle too late, and
    the partner only ever sees the first packet. *)
Theorem back_to_back_lost f g n :
  wf_fields f → known f = true → has_data (opcode f) = true → known g = true → (5 ≤ n)%nat →
  let tr := trace link (reset link) ([(request f, nothing); (request g, nothing)] ++ repeat (nothing, nothing) n) in
  omap id (acc_a tr) = [f; g] ∧ omap id (shown_b tr) = [seen f].
Proof.
  intros Hf Hk Hd Hg Hn. cbn zeta. destruct n as [|n]; [lia|].
  set (a0 := reset lphy_sb_ctrl). set (a1 := step (cycle (request f) a0) a0). set (b1 := step (cycle nothing a0) a0).
  set (a2 := step (cycle (request g) b1) a1). set (b2 := step (cycle nothing a1) b1).
  set (a3 := step (cycle nothing b2) a2). set (b3 := step (cycle nothing a2) b2).
  assert (accepts (cycle (request f) a0) a0 = Some f) as Hacc1 by by apply first_credits.
  destruct (second_credits f g a0 b1 Hk Hg Hd) as [_ Hacc2]. fold a0 a1 in Hacc2.
  assert (packet a0 None ∧ wire a0 a0 None ∧ encoded a0 None) as (P0 & W0 & E0) by (split_and!; [by split|by constructor|done]).
  destruct (wire_next (request f) nothing a0 a0 None None W0 E0) as [P1 W1]; [done|]. fold a1 b1 in P1, W1. cbn [long] in W1.
  assert (encoded a1 (Some f)) as E1 by (rewrite <-Hacc1; apply encoded_next).
  destruct (wire_next (request g) nothing a1 b1 None (Some f) W1 E1) as [P2 W2]; [done|]. fold a2 b2 in P2, W2.
  cbn [long] in W2. rewrite Hd in W2. destruct W2 as (? & [= <-] & W2).
  destruct (heading_next nothing nothing a2 b2 f W2 Hf) as (P3 & W3 & Hacc3). fold a3 b3 in P3, W3.
  assert (encoded a3 None) as E3 by (rewrite <-Hacc3; apply encoded_next).
  assert (shows b1 = None ∧ shows b2 = None ∧ shows b3 = None) as (S1 & S2 & S3)
    by (split_and!; [exact (packet_next _ a0 None P0 ltac:(done))|exact (packet_next _ b1 None P1 ltac:(done))
                    |exact (packet_next _ b2 None P2 ltac:(done))]).
  assert (direction a3 b3 [None] [f]) as D3.
  { split; [|by destruct W3 as [[]|? ? []|? ? []]]. exists None. split; [done|].
    apply (in_flight a3 b3 None None None [f]); [done..|by apply (moving_wire a3 b3 None (Some f))|by constructor]. }
  assert (still b3 a3) as [Hz [h R3]].
  { do 3 (apply still_next; [|done]). split; [done|]. exists [None]. apply resting_direction. }
  destruct (link_drains (repeat (nothing, nothing) n) a3 b3 [None] h [f] [] D3 R3) as (A1 & _ & A3 & _).
  { by apply Forall_forall; intros xy ->%list_elem_of_In%repeat_spec. }
  { rewrite repeat_length. unfold age. rewrite E3. destruct W3 as [[-> _ ->]|? ? [-> _ ->]|? ? [-> _ ->]]; cbn; repeat case_match; lia. }
  { lia. }
  change (trace link (reset link) _) with
    ((mkSight (accepts (cycle (request f) a0) a0) (shows a0), mkSight (accepts (cycle nothing a0) a0) (shows a0))
     :: (mkSight (accepts (cycle (request g) b1) a1) (shows a1), mkSight (accepts (cycle nothing a1) b1) (shows b1))
     :: (mkSight (accepts (cycle nothing b2) a2) (shows a2), mkSight (accepts (cycle nothing a2) b2) (shows b2))
     :: trace link (a3, b3) (repeat (nothing, nothing) n)).
  cbn [fmap list_fmap omap list_omap fst snd accepted shown id].
  rewrite Hacc1, Hacc2, Hacc3, S1, S2. cbn [id]. change (shows a0) with (@None (fields * bool)). cbn [id].
  split; [by f_equal; f_equal|done].
Qed.

Lemma back_to_back_witness :
  omap id (shown_b (trace link (reset link)
    ([(request demo_fields, nothing); (request demo_message, nothing)] ++ repeat (nothing, nothing) 10))) = [seen demo_fields].
Proof.
  refine (proj2 (back_to_back_lost demo_fields demo_message 10 _ _ _ _ _)); [|reflexivity..|lia].
  apply demo_fields_wf.
Defined.

(** ** Requests that are not accepted *)

Section Stalled.
Context (i : inputs).
Hypotheses (Hreset : rdi_in_reset i = false) (Hvalid : tx_req_valid i = true) (Hmsg : is_msg (opcode (tx_fields i)) = true).
Hypotheses (Hret : tx_local_crd_ret i = false) (Hafe : afe_tx_ready i = false).

(** The sequencer holds a payload the AFE has not taken. *)
Definition stalled (s : regs) : Prop := tx_state s = ST_TX_DATA ∧ seq_tx_ready s = false.

Lemma waiting_step s :
  stalled s → 0 < SbFlowCtrl.local_crd_count (fc_inst s) ≤ 32 →
  stalled (step i s) ∧ tx_req_ready i s = false ∧ fire_encoder i s = false ∧
  SbFlowCtrl.local_crd_count (fc_inst (step i s)) = SbFlowCtrl.local_crd_count (fc_inst s) - 1.
Proof.
  intros [Ht Hr] Hc. pose proof (step_tx i s) as Hs. unfold tx_sequencer in Hs. rewrite Ht, Hafe, Hr in Hs.
  assert (stalled (step i s)) as Hs' by (split; congruence).
  rewrite step_fc. unfold tx_req_ready, fire_encoder. rewrite Hr, !andb_false_r.
  split_and!; [done..|]. unfold fc_in, SbFlowCtrl.lphy_sb_flow_ctrl. cbn [tick SbFlowCtrl.rdi_in_reset]. rewrite Hreset.
  unfold SbFlowCtrl.step_local, SbFlowCtrl.consume_local, SbFlowCtrl.tx_allowed. cbn. rewrite Hvalid, Hmsg, Hret.
  rewrite (msg_not_req _ Hmsg). destruct (is_reg_cpl _) eqn:Hcpl; [by destruct (kinds_disjoint _ Hcpl); congruence|].
  destruct (Z.ltb_spec 0 (SbFlowCtrl.local_crd_count (fc_inst s))); [|lia]. cbn. unfold trunc. apply Z.mod_small. lia.
Qed.

(** A message request held while the sequencer waits for the
    AFE is not accepted and its packet is not encoded, and yet every cycle of
    the wait takes a local credit, because the flow control sees the request
    without the sequencer's ready. *)
Theorem stalled_request_drains s k :
  stalled s → Z.of_nat k ≤ SbFlowCtrl.local_crd_count (fc_inst s) ≤ 32 →
  SbFlowCtrl.local_crd_count (fc_inst (run lphy_sb_ctrl s (repeat i k)))
  = SbFlowCtrl.local_crd_count (fc_inst s) - Z.of_nat k ∧
  Forall (λ o, o_tx_req_ready o = false) (trace lphy_sb_ctrl s (repeat i k)).
Proof.
  revert s. induction k as [|k IH]; intros s Hs Hc; [split; [cbn; lia|constructor]|].
  destruct (waiting_step s Hs) as (Hs' & Hr & _ & Hl); [lia|].
  change (run lphy_sb_ctrl s (repeat i (S k))) with (run lphy_sb_ctrl (step i s) (repeat i k)).
  change (trace lphy_sb_ctrl s (repeat i (S k))) with (out lphy_sb_ctrl i s :: trace lphy_sb_ctrl (step i s) (repeat i k)).
  destruct (IH (step i s) Hs') as [H1 H2]; [lia|]. split; [lia|]. by constructor.
Qed.
End Stalled.

(** A completion with data, then the AFE stops taking words while a message waits. *)
Definition blocked (r : option fields) : inputs := mkInputs false (bool_decide (is_Some r)) (default no_fields r) false false false 0.
Definition demo_completion : fields := mkFields 0x11 1 2 false false 0x1234 3 0 0 0 0 0 0.
Definition demo_stalled : regs := run lphy_sb_ctrl (reset lphy_sb_ctrl) [blocked (Some demo_completion); blocked None].

Lemma stalled_request_witness :
  SbFlowCtrl.local_crd_count (fc_inst (run lphy_sb_ctrl demo_stalled (repeat (blocked (Some demo_message)) 32))) = 32 - Z.of_nat 32.
Proof.
  refine (proj1 (stalled_request_drains (blocked (Some demo_message)) _ _ _ _ _ demo_stalled 32 _ _)); try reflexivity.
  - split; reflexivity.
  - vm_compute. split; discriminate.
Defined.
End SbLink.
