(* ===== verification/PhySerdes.v ===== *)
(** * The sideband serialiser and deserialiser

    lphy_sb_tx.sv and lphy_sb_rx.sv: a 64-bit header, and for some packets a
    64-bit payload, one bit per cycle with a gated strobe, and the receiver's
    shift register in the strobe's domain with a toggle synchroniser into the
    local clock's.  [serdes] joins a transmitter to a receiver with a local clock of
    its own, faster or slower and at any phase: each cycle of the transmitter comes
    with the number of local edges before the falling edge of its strobe. *)

From S2P Require Import Prelude Rtl PhySideband.
#[local] Open Scope Z_scope.

(** ** lphy_sb_tx *)

Module SbTx.
Inductive state_t := IDLE | TX_HEADER | TX_DATA.
#[export] Instance state_t_eq_dec : EqDecision state_t.
Proof. solve_decision. Defined.

Record inputs := mkInputs { pkt_valid : bool; pkt_header : Z; pkt_data : Z; pkt_has_data : bool }.
Record regs := mkRegs { state : state_t; bit_cnt : Z; shift_reg : Z; has_data_reg : bool; clk_en_latched : bool }.

Definition sending (st : state_t) : bool := match st with IDLE => false | TX_HEADER | TX_DATA => true end.

Definition next_state (i : inputs) (s : regs) : state_t :=
  match state s with
  | IDLE => if pkt_valid i then TX_HEADER else IDLE
  | TX_HEADER => if bit_cnt s =? 63 then if has_data_reg s then TX_DATA else IDLE else TX_HEADER
  | TX_DATA => if bit_cnt s =? 63 then IDLE else TX_DATA
  end.
Definition tx_req_ready (s : regs) : bool := match state s with IDLE => true | _ => false end.
Definition latch_data (i : inputs) (s : regs) : bool := tx_req_ready s && pkt_valid i.
Definition shift_en (s : regs) : bool := sending (state s).
Definition TXDATASB (s : regs) : bool := if sending (state s) then Z.testbit (shift_reg s) 0 else false.

Definition step (i : inputs) (s : regs) : regs :=
  mkRegs (next_state i s)
    (if sending (state s) then trunc 7 (bit_cnt s + 1) else 0)
    (if latch_data i s then pkt_header i
     else if bool_decide (state s = TX_HEADER) && (bit_cnt s =? 63) && has_data_reg s then pkt_data i
     else if shift_en s then concat [(1, 0); (63, slice 63 1 (shift_reg s))]
     else shift_reg s)
    (if latch_data i s then pkt_has_data i else has_data_reg s)
    (sending (next_state i s)).

(** The outputs are the ready, the data and whether the strobe pulses. *)
Definition lphy_sb_tx : circuit inputs regs (bool * bool * bool) := {|
  reset := mkRegs IDLE 0 0 false false;
  out := λ _ s, (tx_req_ready s, TXDATASB s, clk_en_latched s);
  tick := step |}.
End SbTx.

(** ** lphy_sb_rx *)

Module SbRx.
Record regs := mkRegs {
  shift_reg : Z; bit_cnt : Z; expecting_data : bool; latched_hdr : Z; latched_data : Z; req_toggle : bool;
  req_sync1 : bool; req_sync2 : bool; pkt_valid : bool; pkt_header : Z; pkt_data : Z }.

Definition reset_regs : regs := mkRegs 0 0 false 0 0 false false false false 0 0.

(** A falling edge of the strobe. *)
Definition strobe (RXDATASB : bool) (s : regs) : regs :=
  let word := concat [(1, Z.b2z RXDATASB); (63, slice 63 1 (shift_reg s))] in
  let local f := f (req_sync1 s) (req_sync2 s) (pkt_valid s) (pkt_header s) (pkt_data s) in
  if bit_cnt s =? 63 then
    if expecting_data s then
      local (mkRegs word 0 false (latched_hdr s) word (negb (req_toggle s)))
    else if has_data (slice 5 1 (shift_reg s)) then
      local (mkRegs word 0 true word (latched_data s) (req_toggle s))
    else local (mkRegs word 0 false word 0 (negb (req_toggle s)))
  else
    local (mkRegs word (trunc 7 (bit_cnt s + 1)) (expecting_data s) (latched_hdr s) (latched_data s) (req_toggle s)).

(** An edge of [local_clk]. *)
Definition local_clk (s : regs) : regs :=
  let e := xorb (req_sync1 s) (req_sync2 s) in
  mkRegs (shift_reg s) (bit_cnt s) (expecting_data s) (latched_hdr s) (latched_data s) (req_toggle s)
    (req_toggle s) (req_sync1 s) e
    (if e then latched_hdr s else pkt_header s) (if e then latched_data s else pkt_data s).
End SbRx.

(** ** A transmitter and a receiver *)

Definition accepted (i : SbTx.inputs) (s : SbTx.regs) : option Z :=
  if SbTx.latch_data i s then Some (SbTx.pkt_header i) else None.
Definition delivered (s : SbRx.regs) : option (Z * Z) :=
  if SbRx.pkt_valid s then Some (SbRx.pkt_header s, SbRx.pkt_data s) else None.

(** [n] edges of the local clock, with the packets presented at them. *)
Fixpoint edges (n : nat) (r : SbRx.regs) : list (Z * Z) * SbRx.regs :=
  match n with
  | 0%nat => ([], r)
  | S n => let '(l, r') := edges n (SbRx.local_clk r) in (option_list (delivered r) ++ l, r')
  end.

(** One bit time of the transmitter, and a falling edge of the strobe if it pulses. *)
Definition bit (i : SbTx.inputs) (s : SbTx.regs * SbRx.regs) : SbTx.regs * SbRx.regs :=
  let '(t, r) := s in
  (SbTx.step i t, if SbTx.clk_en_latched t then SbRx.strobe (SbTx.TXDATASB t) r else r).

(** A cycle is the number of local edges up to the falling edge of the strobe, and
    what is offered to the transmitter. *)
Abbreviation cycle := (nat * SbTx.inputs)%type.
Definition serdes : circuit cycle (SbTx.regs * SbRx.regs) (option Z * list (Z * Z)) := {|
  reset := (reset SbTx.lphy_sb_tx, SbRx.reset_regs);
  out := λ x s, (accepted (snd x) (fst s), fst (edges (fst x) (snd s)));
  tick := λ x s, bit (snd x) (fst s, snd (edges (fst x) (snd s))) |}.

(** What is accepted and what is presented along a run. *)
Definition taken (tr : list (option Z * list (Z * Z))) : list Z := omap fst tr.
Definition presented (tr : list (option Z * list (Z * Z))) : list (Z * Z) := mjoin (snd <$> tr).

#[global] Arguments SbTx.step : simpl never.
#[global] Arguments SbRx.strobe : simpl never.
#[global] Arguments SbRx.local_clk : simpl never.
#[global] Arguments edges : simpl never.

(** ** One word on the wire *)

Lemma shift_in b r : bv 64 r → concat [(1, Z.b2z b); (63, slice 63 1 r)] = Z.b2z b * 2 ^ 63 + r / 2.
Proof.
  intros Hr. unfold bv in Hr. cbn [concat]. unfold width, trunc, slice. cbn [fmap list_fmap fst sumZ].
  rewrite Z.shiftr_div_pow2 by lia. change (2 ^ 1) with 2. change (63 - 1 + 1) with 63. change (63 + 0) with 63.
  change (2 ^ 0) with 1. rewrite (Z.mod_small (Z.b2z b)) by (destruct b; cbn; lia).
  assert (0 ≤ r / 2 < 2 ^ 63) as H by (change (2 ^ 64) with (2 * 2 ^ 63) in Hr; lia_div). rewrite (Z.mod_small (r / 2)) by lia.
  rewrite Z.mod_small by lia. lia.
Qed.

(** The receiver's register after [n] bits of [w]. *)
Definition holds (w n r : Z) : Prop := ∃ j, r = (w mod 2 ^ n) * 2 ^ (64 - n) + j ∧ 0 ≤ j < 2 ^ (64 - n).

Lemma holds_bv w n r : 0 ≤ n ≤ 64 → holds w n r → bv 64 r.
Proof.
  intros Hn (j & -> & Hj). pose proof (Z.mod_pos_bound w (2 ^ n) ltac:(lia)) as Hm.
  unfold bv. replace (2 ^ 64) with (2 ^ n * 2 ^ (64 - n)) by (rewrite <-Z.pow_add_r by lia; f_equal; lia). nia.
Qed.

Lemma holds_start w r : bv 64 r → holds w 0 r.
Proof. intros Hr. exists r. change (2 ^ 0) with 1. rewrite Z.mod_1_r. unfold bv in Hr. change (64 - 0) with 64. lia. Qed.

Lemma mod_pow_succ w n : 0 ≤ n → w mod 2 ^ (n + 1) = Z.b2z (Z.testbit w n) * 2 ^ n + w mod 2 ^ n.
Proof.
  intros Hn. rewrite Z.pow_add_r by lia. change (2 ^ 1) with 2. rewrite Z.rem_mul_r by lia.
  rewrite Z.testbit_spec' by lia. lia.
Qed.

Lemma holds_next w n r :
  0 ≤ n < 64 → holds w n r → holds w (n + 1) (Z.b2z (Z.testbit w n) * 2 ^ 63 + r / 2).
Proof.
  intros Hn (j & -> & Hj). exists (j / 2). rewrite mod_pow_succ by lia.
  replace (64 - n) with (1 + (64 - (n + 1))) in * by lia. set (p := 64 - (n + 1)) in *.
  rewrite Z.pow_add_r in * by lia. change (2 ^ 1) with 2 in *. assert (0 < 2 ^ p) by lia.
  replace (2 ^ 63) with (2 ^ n * 2 ^ p) by (rewrite <-Z.pow_add_r by lia; f_equal; lia).
  split; [|lia_div]. replace (w mod 2 ^ n * (2 * 2 ^ p) + j) with (w mod 2 ^ n * 2 ^ p * 2 + j) by ring.
  rewrite Z.div_add_l by lia. ring.
Qed.

Lemma holds_all w r : bv 64 w → holds w 64 r → r = w.
Proof. intros Hw (j & -> & Hj). change (64 - 64) with 0 in *. rewrite Z.mod_small by exact Hw. change (2 ^ 0) with 1 in *. lia. Qed.

(** The opcode is tested one bit early, before the last bit is shifted in. *)
Lemma holds_opcode w r : holds w 63 r → slice 5 1 r = slice 4 0 w.
Proof.
  intros (j & -> & Hj). change (64 - 63) with 1 in *. unfold slice. rewrite Z.shiftr_0_r, Z.shiftr_div_pow2 by lia.
  change (2 ^ 1) with 2 in *. rewrite Z.div_add_l by lia. rewrite (Z.div_small j) by lia. rewrite Z.add_0_r.
  change (5 - 1 + 1) with 5. change (4 - 0 + 1) with 5. symmetry.
  change (2 ^ 63) with (2 ^ 5 * 2 ^ 58). rewrite Z.rem_mul_r by lia. by rewrite Z.mul_comm, Z.mod_add, Z.mod_mod by lia.
Qed.

Lemma shifted_bv w n : bv 64 w → 0 ≤ n → bv 64 (w / 2 ^ n).
Proof.
  intros [H1 H2] Hn. split; [apply Z.div_pos; lia|]. apply (Z.le_lt_trans _ w); [|done]. apply Z.div_le_upper_bound; nia.
Qed.

(** The transmitter and the receiver after [n] bits of the word [w]; [c] is
    where the transmitter's counter was at the first. *)
Record on_wire (st : SbTx.state_t) (c w n : Z) (e : bool) (s : SbTx.regs * SbRx.regs) : Prop := {
  wire_state : SbTx.state (fst s) = st;
  wire_cnt : SbTx.bit_cnt (fst s) = c + n;
  wire_shift : SbTx.shift_reg (fst s) = w / 2 ^ n;
  wire_clk : SbTx.clk_en_latched (fst s) = true;
  wire_rx : SbRx.bit_cnt (snd s) = n;
  wire_word : holds w n (SbRx.shift_reg (snd s));
  wire_expects : SbRx.expecting_data (snd s) = e
}.

(** The parts of a strobe that do not depend on the count. *)
Lemma strobe_shift b s : SbRx.shift_reg (SbRx.strobe b s) = concat [(1, Z.b2z b); (63, slice 63 1 (SbRx.shift_reg s))].
Proof. unfold SbRx.strobe. by repeat case_match. Qed.

(** A bit that is not the last of its word. *)
Lemma wire_bit st c w n e i s :
  SbTx.sending st = true → c = 0 ∨ (c = 64 ∧ st = SbTx.TX_DATA) → bv 64 w → 0 ≤ n < 63 →
  on_wire st c w n e s →
  on_wire st c w (n + 1) e (bit i s) ∧
  SbTx.has_data_reg (fst (bit i s)) = SbTx.has_data_reg (fst s) ∧
  accepted i (fst s) = None ∧
  (let r := snd s in let r' := snd (bit i s) in
   (SbRx.latched_hdr r', SbRx.latched_data r', SbRx.req_toggle r', SbRx.req_sync1 r', SbRx.req_sync2 r',
    SbRx.pkt_valid r', SbRx.pkt_header r', SbRx.pkt_data r')
   = (SbRx.latched_hdr r, SbRx.latched_data r, SbRx.req_toggle r, SbRx.req_sync1 r, SbRx.req_sync2 r,
      SbRx.pkt_valid r, SbRx.pkt_header r, SbRx.pkt_data r)).
Proof.
  intros Hst Hc Hw Hn [Hs Hcnt Hsh Hclk Hrx Hword He]. destruct s as [t r]. cbn [fst snd] in *.
  assert ((SbTx.bit_cnt t =? 63) = false) as H63 by (apply Z.eqb_neq; destruct Hc as [->|[-> _]]; lia).
  assert (SbTx.latch_data i t = false) as Hl by (unfold SbTx.latch_data, SbTx.tx_req_ready; rewrite Hs; by destruct st).
  assert (SbTx.next_state i t = st) as Hnx by (unfold SbTx.next_state; rewrite Hs, H63; by destruct st).
  cbn [bit fst snd]. rewrite Hclk.
  assert ((SbRx.bit_cnt r =? 63) = false) as Hr63 by (apply Z.eqb_neq; lia).
  split_and!; [split|..]; cbn [fst snd].
  - by unfold SbTx.step.
  - unfold SbTx.step. cbn. rewrite Hs, Hst, Hcnt. unfold trunc. rewrite Z.mod_small; destruct Hc as [->|[-> _]]; lia.
  - unfold SbTx.step. cbn [SbTx.shift_reg]. rewrite Hl, H63, andb_false_r. unfold SbTx.shift_en. rewrite Hs, Hst. cbn [andb].
    change 0 with (Z.b2z false) at 1. rewrite shift_in by (rewrite Hsh; apply shifted_bv; [done|lia]).
    rewrite Hsh. change (Z.b2z false) with 0. rewrite Z.mul_0_l, Z.add_0_l, Z.div_div, Z.pow_add_r by lia. done.
  - unfold SbTx.step. cbn. by rewrite Hnx.
  - unfold SbRx.strobe. rewrite Hr63. cbn. unfold trunc. rewrite Hrx, Z.mod_small; lia.
  - rewrite strobe_shift, shift_in by (apply (holds_bv w n); [lia|done]).
    unfold SbTx.TXDATASB. rewrite Hs, Hst, Hsh, Z.div_pow2_bits, Z.add_0_l by lia. apply holds_next; [lia|done].
  - unfold SbRx.strobe. by rewrite Hr63.
  - unfold SbTx.step. cbn. by rewrite Hl.
  - unfold accepted. by rewrite Hl.
  - unfold SbRx.strobe. by rewrite Hr63.
Qed.

(** The last bit of a word, at the receiver. *)
Lemma word_received st c w e s :
  SbTx.sending st = true → bv 64 w → on_wire st c w 63 e s →
  let r := snd s in
  let local f := f (SbRx.req_sync1 r) (SbRx.req_sync2 r) (SbRx.pkt_valid r) (SbRx.pkt_header r) (SbRx.pkt_data r) in
  SbRx.strobe (SbTx.TXDATASB (fst s)) r =
  if e then local (SbRx.mkRegs w 0 false (SbRx.latched_hdr r) w (negb (SbRx.req_toggle r)))
  else if has_data (slice 4 0 w) then local (SbRx.mkRegs w 0 true w (SbRx.latched_data r) (SbRx.req_toggle r))
  else local (SbRx.mkRegs w 0 false w 0 (negb (SbRx.req_toggle r))).
Proof.
  intros Hst Hw [Hs Hcnt Hsh Hclk Hrx Hword He]. destruct s as [t r]. cbn [fst snd] in *. cbn zeta.
  assert (concat [(1, Z.b2z (SbTx.TXDATASB t)); (63, slice 63 1 (SbRx.shift_reg r))] = w) as Hall.
  { rewrite shift_in by (apply (holds_bv w 63); [lia|done]).
    unfold SbTx.TXDATASB. rewrite Hs, Hst, Hsh, Z.div_pow2_bits, Z.add_0_l by lia.
    apply holds_all; [done|]. apply (holds_next w 63); [lia|done]. }
  assert (slice 5 1 (SbRx.shift_reg r) = slice 4 0 w) as Hop by by apply holds_opcode.
  assert ((SbRx.bit_cnt r =? 63) = true) as Hr63 by (apply Z.eqb_eq; exact Hrx).
  unfold SbRx.strobe. by rewrite Hr63, Hop, He, Hall.
Qed.

(** The last bit of a header that no payload follows. *)
Lemma wire_end w i s :
  bv 64 w → has_data (slice 4 0 w) = false → SbTx.has_data_reg (fst s) = false →
  on_wire SbTx.TX_HEADER 0 w 63 false s →
  let r := snd s in let '(t', r') := bit i s in
  SbTx.state t' = SbTx.IDLE ∧ SbTx.clk_en_latched t' = false ∧ accepted i (fst s) = None ∧
  SbRx.shift_reg r' = w ∧ SbRx.bit_cnt r' = 0 ∧ SbRx.expecting_data r' = false ∧
  SbRx.latched_hdr r' = w ∧ SbRx.latched_data r' = 0 ∧ SbRx.req_toggle r' = negb (SbRx.req_toggle r) ∧
  SbRx.req_sync1 r' = SbRx.req_sync1 r ∧ SbRx.req_sync2 r' = SbRx.req_sync2 r ∧ SbRx.pkt_valid r' = SbRx.pkt_valid r.
Proof.
  intros Hw Hop Hd Hwire. pose proof (word_received SbTx.TX_HEADER _ _ _ _ eq_refl Hw Hwire) as Hr. destruct Hwire as [Hs Hcnt Hsh Hclk Hrx Hword He].
  destruct s as [t r]. cbn [fst snd] in *. cbn zeta in *. cbn [bit]. rewrite Hclk, Hr, Hop.
  unfold SbTx.step, SbTx.next_state, accepted, SbTx.latch_data, SbTx.tx_req_ready. rewrite Hs, Hcnt, Hd. by split_and!.
Qed.

(** ** Into the local clock's domain *)

(** Where the header and payload [p] are after [k] local edges; 0 is nowhere. *)
Definition crossing (k : nat) (p : Z * Z) (r : SbRx.regs) : Prop :=
  let '(t, s1, s2, v) := (SbRx.req_toggle r, SbRx.req_sync1 r, SbRx.req_sync2 r, SbRx.pkt_valid r) in
  match k with
  | 0%nat => t = s1 ∧ s1 = s2 ∧ v = false
  | 1%nat => t = negb s1 ∧ s1 = s2 ∧ v = false ∧ (SbRx.latched_hdr r, SbRx.latched_data r) = p
  | 2%nat => t = s1 ∧ s1 = negb s2 ∧ v = false ∧ (SbRx.latched_hdr r, SbRx.latched_data r) = p
  | 3%nat => t = s1 ∧ s1 = s2 ∧ v = true ∧ (SbRx.pkt_header r, SbRx.pkt_data r) = p
  | _ => False
  end.
Definition advance (k : nat) : nat := match k with 1%nat => 2%nat | 2%nat => 3%nat | _ => 0%nat end.
Definition pending {A} (k : nat) (x : A) : list A := match k with 0%nat => [] | _ => [x] end.
(** The local edges to come until the packet is presented. *)
Definition needed (k : nat) : nat := match k with 0%nat => 0 | _ => 4 - k end.

Lemma crossing_local k p r :
  crossing k p r →
  crossing (advance k) p (SbRx.local_clk r) ∧ delivered r = (if decide (k = 3%nat) then Some p else None).
Proof.
  unfold crossing, delivered, SbRx.local_clk. destruct k as [|[|[|[|k]]]]; cbn; [| | | |done].
  - intros (-> & -> & ->). by destruct (SbRx.req_sync2 r).
  - intros (-> & -> & -> & ?). by destruct (SbRx.req_sync2 r).
  - intros (-> & -> & -> & ?). by destruct (SbRx.req_sync2 r).
  - intros (-> & -> & -> & ->). by destruct (SbRx.req_sync2 r).
Qed.

Lemma edges_succ n r : edges (S n) r =
  (option_list (delivered r) ++ (edges n (SbRx.local_clk r)).1, (edges n (SbRx.local_clk r)).2).
Proof. unfold edges at 1. fold edges. by destruct (edges n (SbRx.local_clk r)). Qed.

(** After [n] local edges. *)
Lemma crossing_edges n : ∀ k p r,
  crossing k p r →
  ∃ k', crossing k' p (snd (edges n r)) ∧ needed k' = (needed k - n)%nat ∧
    fst (edges n r) ++ pending k' p = pending k p.
Proof.
  induction n as [|n IH]; intros k p r Hk.
  { exists k. split_and!; [done|lia|done]. }
  destruct (crossing_local k p r Hk) as [Hk' Hd]. destruct (IH _ _ _ Hk') as (k' & H1 & H2 & H3).
  exists k'. rewrite edges_succ. cbn [fst snd]. split; [done|]. rewrite <-app_assoc, H3, Hd, H2.
  destruct k as [|[|[|[|k]]]]; cbn; (split; [lia|done]) || done.
Qed.
Lemma crossing_done k p r : crossing k p r → needed k = 0%nat → k = 0%nat.
Proof. destruct k as [|[|[|[|k]]]]; cbn; intros; [done|lia..|done]. Qed.
Lemma crossing_needed k p r : crossing k p r → (needed k ≤ 3)%nat.
Proof. destruct k as [|[|[|[|k]]]]; cbn; intros; [lia..|done]. Qed.

(** Local edges leave the strobe's domain alone. *)
Lemma edges_keep n : ∀ r, let r' := snd (edges n r) in
  (SbRx.shift_reg r', SbRx.bit_cnt r', SbRx.expecting_data r', SbRx.latched_hdr r', SbRx.latched_data r')
  = (SbRx.shift_reg r, SbRx.bit_cnt r, SbRx.expecting_data r, SbRx.latched_hdr r, SbRx.latched_data r).
Proof. induction n as [|n IH]; intros r; [done|]. cbn zeta. rewrite edges_succ. cbn [snd]. by rewrite IH. Qed.
Lemma on_wire_edges st c w n e k t r : on_wire st c w n e (t, r) → on_wire st c w n e (t, snd (edges k r)).
Proof.
  intros [H1 H2 H3 H4 H5 H6 H7]. pose proof (edges_keep k r) as [= E1 E2 E3 E4 E5].
  split; cbn in *; rewrite ?E1, ?E2, ?E3; done.
Qed.

Lemma crossing_ext k p r r' :
  (SbRx.latched_hdr r', SbRx.latched_data r', SbRx.req_toggle r', SbRx.req_sync1 r', SbRx.req_sync2 r',
   SbRx.pkt_valid r', SbRx.pkt_header r', SbRx.pkt_data r')
  = (SbRx.latched_hdr r, SbRx.latched_data r, SbRx.req_toggle r, SbRx.req_sync1 r, SbRx.req_sync2 r,
     SbRx.pkt_valid r, SbRx.pkt_header r, SbRx.pkt_data r) →
  crossing k p r → crossing k p r'.
Proof. intros [= H1 H2 H3 H4 H5 H6 H7 H8]. unfold crossing. by rewrite H1, H2, H3, H4, H5, H6, H7, H8. Qed.

(** ** Headers without payload *)

Definition idle_wire (s : SbTx.regs * SbRx.regs) : Prop :=
  SbTx.state (fst s) = SbTx.IDLE ∧ SbTx.clk_en_latched (fst s) = false ∧ bv 64 (SbRx.shift_reg (snd s)) ∧
  SbRx.bit_cnt (snd s) = 0 ∧ SbRx.expecting_data (snd s) = false.

Lemma idle_edges n t r : idle_wire (t, r) → idle_wire (t, snd (edges n r)).
Proof.
  intros (H1 & H2 & H3 & H4 & H5). pose proof (edges_keep n r) as [= E1 E2 E3 _ _].
  unfold idle_wire in *. cbn in *. by rewrite E1, E2, E3.
Qed.

(** A cycle offers nothing, or a header that no payload follows. *)
Definition header_only (i : SbTx.inputs) : Prop :=
  SbTx.pkt_valid i = true →
  bv 64 (SbTx.pkt_header i) ∧ SbTx.pkt_has_data i = false ∧ has_data (slice 4 0 (SbTx.pkt_header i)) = false.

(** A cycle in which the transmitter is idle. *)
Lemma idle_step i s :
  header_only i → idle_wire s →
  snd (bit i s) = snd s ∧
  ((accepted i (fst s) = None ∧ idle_wire (bit i s)) ∨
   (∃ v, accepted i (fst s) = Some v ∧ on_wire SbTx.TX_HEADER 0 v 0 false (bit i s) ∧ bv 64 v ∧
      has_data (slice 4 0 v) = false ∧ SbTx.has_data_reg (fst (bit i s)) = false)).
Proof.
  intros Hi (Hs & Hclk & Hbv & Hcnt & He). destruct s as [t r]. cbn [fst snd] in *. cbn [bit]. rewrite Hclk. split; [done|].
  unfold accepted, SbTx.step, SbTx.latch_data, SbTx.tx_req_ready, SbTx.next_state, SbTx.shift_en. rewrite Hs.
  destruct (SbTx.pkt_valid i) eqn:Hv; cbn; [right|left; by split_and!]. destruct (Hi Hv) as (Hh & Hd & Hop).
  eexists. split; [done|]. split_and!; [|done..]. split; cbn; [done|done| |done|done|by apply holds_start|done].
  by rewrite Z.div_1_r.
Qed.

(** ** The local clock *)

Definition local_edges (l : list cycle) : nat := sum_list (fst <$> l).
(** It has at least three edges in any 64 cycles of the transmitter. *)
Definition timely (l : list cycle) : Prop :=
  ∀ j, (j + 64 ≤ length l)%nat → (3 ≤ local_edges (take 64 (drop j l)))%nat.

Lemma timely_tail x l : timely (x :: l) → timely l.
Proof. intros H j Hj. apply (H (S j)). cbn. lia. Qed.
Lemma timely_drop n l : timely l → timely (drop n l).
Proof. intros H j Hj. rewrite drop_drop. apply H. rewrite length_drop in Hj. lia. Qed.
Lemma timely_now l : timely l → (64 ≤ length l)%nat → (3 ≤ local_edges (take 64 l))%nat.
Proof. intros H Hl. by apply (H 0%nat). Qed.

(** Enough local edges come in the next [m] cycles of [rest] for what crosses; beyond
    the end of [rest] nothing is promised. *)
Definition in_time (k m : nat) (rest : list cycle) : Prop :=
  (length rest < m ∨ needed k ≤ local_edges (take m rest))%nat.

Lemma in_time_next k k' m x rest :
  in_time k m (x :: rest) → needed k' = (needed k - fst x)%nat → in_time k' (m - 1) rest.
Proof.
  unfold in_time. intros [H|H] Hk; [left; cbn in H; lia|right].
  destruct m as [|m]; cbn in H; [lia|]. replace (S m - 1)%nat with m by lia.
  unfold local_edges in *. cbn in H. lia.
Qed.

(** ** The invariant

    The headers accepted so far are those presented, the one that crosses and
    the one on the wire, which has [b] bits to go; [rest] are the cycles to come. *)
Definition invariant (acc done : list Z) (b : nat) (rest : list cycle) (s : SbTx.regs * SbRx.regs) : Prop :=
  ∃ k w m, crossing k (w, 0) (snd s) ∧ in_time k m rest ∧
  ((idle_wire s ∧ acc = done ++ pending k w ∧ (m ≤ 64)%nat ∧ b = 0%nat) ∨
   (∃ v n, on_wire SbTx.TX_HEADER 0 v n false s ∧ bv 64 v ∧ has_data (slice 4 0 v) = false ∧
      SbTx.has_data_reg (fst s) = false ∧ 0 ≤ n ≤ 63 ∧ acc = done ++ pending k w ++ [v] ∧ Z.of_nat m ≤ 64 - n ∧
      Z.of_nat b = 64 - n)).

Definition shown (l : list Z) : list (Z * Z) := (λ w, (w, 0)) <$> l.
Lemma shown_pending (k : nat) w : shown (pending k w) = pending k (w, 0).
Proof. by destruct k. Qed.
Lemma shown_split l k k' w : l ++ pending k' (w, 0) = pending k (w, 0) → ∃ dn, l = shown dn ∧ dn ++ pending k' w = pending k w.
Proof.
  destruct l as [|p [|q l]]; intros H.
  - exists []. split; [done|]. destruct k, k'; by cbn in *.
  - exists [w]. destruct k, k'; cbn in *; try done; by injection H as ->.
  - by destruct k, k'.
Qed.

Lemma invariant_step acc dn b x rest s :
  header_only (snd x) → timely (x :: rest) → invariant acc dn b (x :: rest) s →
  ∃ dn' b', fst (edges (fst x) (snd s)) = shown dn' ∧
    invariant (acc ++ option_list (accepted (snd x) (fst s))) (dn ++ dn') b' rest (tick serdes x s) ∧
    (accepted (snd x) (fst s) = None → b' = (b - 1)%nat).
Proof.
  intros Hi Htm (k & w & m & Hk & Hm & Hcase). destruct x as [e i], s as [t r]. cbn [fst snd] in *.
  destruct (crossing_edges e k (w, 0) r Hk) as (k' & Hk' & Hn' & Hout).
  destruct (shown_split _ _ _ _ Hout) as (d & -> & Hd). exists d.
  pose proof (in_time_next k k' m (e, i) rest Hm Hn') as Hm'. cbn [tick serdes fst snd].
  set (r1 := snd (edges e r)) in *.
  destruct Hcase as [(Hidle & -> & Hm64 & ->)|(v & n & Hwire & Hv & Hop & Hhd & Hn & -> & Hmn & Hb)].
  - destruct (idle_step i (t, r1) Hi (idle_edges e t r Hidle)) as [Hsame Hnext]. cbn [fst snd] in Hsame, Hnext.
    rewrite <-Hd. destruct Hnext as [[-> Hidle']|(v & -> & Hwire & Hv & Hop & Hhd)].
    + exists 0%nat. split; [done|]. split; [|done]. exists k', w, (m - 1)%nat. rewrite Hsame. split_and!; [done..|].
      left. split_and!; [done| |lia|done]. cbn. by rewrite app_nil_r, app_assoc.
    + exists 64%nat. split; [done|]. split; [|done]. exists k', w, (m - 1)%nat. rewrite Hsame. split_and!; [done..|].
      right. exists v, 0. split_and!; [done..|lia|lia| |lia|done]. cbn. by rewrite <-!app_assoc.
  - apply (on_wire_edges _ _ _ _ _ e) in Hwire. fold r1 in Hwire. destruct (decide (n = 63)) as [->|Hn63].
    + assert (k' = 0%nat) as ->.
      { apply (crossing_done _ _ _ Hk'). unfold in_time, local_edges in Hm.
        destruct m as [|[|m]]; [..|lia]; cbn -[needed] in Hm; rewrite ?take_0 in Hm; cbn -[needed] in Hm; lia. }
      cbn [pending] in Hd. rewrite app_nil_r in Hd. subst d.
      pose proof (wire_end v i (t, r1) Hv Hop Hhd Hwire) as He.
      destruct (bit i (t, r1)) as [t' r'] eqn:Ht. cbn [fst snd] in He.
      destruct He as (E1 & E2 & -> & E4 & E5 & E6 & E7 & E8 & E9 & E10 & E11 & E12).
      destruct Hk' as (C1 & C2 & C3). exists 0%nat. split; [done|]. split; [|lia]. exists 1%nat, v, 64%nat.
      split; [unfold crossing; cbn; rewrite E7, E8, E9, E10, E11, E12, C1; by split_and!|].
      split; [destruct (decide (length rest < 64)%nat); [by left|right; apply timely_now; [by eapply timely_tail|lia]]|].
      left. split; [unfold idle_wire; cbn; rewrite E1, E2, E4, E5, E6; by split_and!|]. cbn.
      split_and!; [by rewrite app_nil_r, <-app_assoc|lia|done].
    + destruct (wire_bit SbTx.TX_HEADER 0 v n false i (t, r1)) as (Hwire' & Hhd' & Ha & Hsame); [done|by left|done|lia|done|].
      cbn [fst snd] in Ha, Hsame, Hhd'. rewrite Ha. exists (b - 1)%nat. split; [done|]. split; [|done].
      exists k', w, (m - 1)%nat. split; [by apply (crossing_ext _ _ _ _ Hsame)|]. split; [done|]. right. exists v, (n + 1).
      rewrite Hhd'. split_and!; [done..|lia|lia| |lia|lia]. cbn. by rewrite app_nil_r, <-Hd, <-!app_assoc.
Qed.

Lemma omap_cons_list {A B} (f : A → option B) x l : omap f (x :: l) = option_list (f x) ++ omap f l.
Proof. cbn. by destruct (f x). Qed.
Lemma trace_cons s x l :
  taken (trace serdes s (x :: l)) = option_list (accepted (snd x) (fst s)) ++ taken (trace serdes (tick serdes x s) l) ∧
  presented (trace serdes s (x :: l)) = fst (edges (fst x) (snd s)) ++ presented (trace serdes (tick serdes x s) l).
Proof. split; [|done]. unfold taken. cbn [trace]. by rewrite omap_cons_list. Qed.

Lemma taken_app l k : taken (l ++ k) = taken l ++ taken k.
Proof. apply omap_app. Qed.
Lemma presented_app l k : presented (l ++ k) = presented l ++ presented k.
Proof. unfold presented. by rewrite fmap_app, join_app. Qed.

Definition offers_nothing (x : cycle) : Prop := SbTx.pkt_valid (snd x) = false.
Lemma nothing_accepted x s : offers_nothing x → accepted (snd x) s = None.
Proof. unfold accepted, SbTx.latch_data, offers_nothing. intros ->. by rewrite andb_false_r. Qed.
Lemma nothing_header_only x : offers_nothing x → header_only (snd x).
Proof. unfold offers_nothing. intros H Hv. congruence. Qed.

Lemma invariant_run acc dn b rest ins : ∀ s,
  Forall (λ x, header_only (snd x)) ins → timely (ins ++ rest) → invariant acc dn b (ins ++ rest) s →
  let tr := trace serdes s ins in
  ∃ dn' b', presented tr = shown dn' ∧ invariant (acc ++ taken tr) (dn ++ dn') b' rest (run serdes s ins) ∧
    (Forall offers_nothing ins → b' = (b - length ins)%nat).
Proof.
  revert acc dn b. induction ins as [|x ins IH]; intros acc dn b s Hi Htm Hs; cbn zeta.
  { exists [], b. cbn. rewrite !app_nil_r. split_and!; [done|done|lia]. }
  apply Forall_cons in Hi as [Hx Hi]. cbn [app] in Htm, Hs.
  destruct (invariant_step acc dn b x _ s Hx Htm Hs) as (d1 & b1 & Hd1 & H1 & Hb1).
  destruct (IH _ _ _ _ Hi (timely_tail _ _ Htm) H1) as (d2 & b2 & Hd2 & H2 & Hb2).
  exists (d1 ++ d2), b2. destruct (trace_cons s x ins) as [-> ->]. rewrite run_cons, Hd1, Hd2. unfold shown.
  rewrite fmap_app, !app_assoc. split_and!; [done|done|]. intros Hq. apply Forall_cons in Hq as [Hqx Hq].
  rewrite (Hb2 Hq), (Hb1 (nothing_accepted _ _ Hqx)). cbn. lia.
Qed.

(** What still crosses when the wire is idle and nothing is offered. *)
Lemma idle_run q : ∀ k p s,
  idle_wire s → crossing k p (snd s) → Forall offers_nothing q →
  ∃ k', crossing k' p (snd (run serdes s q)) ∧ needed k' = (needed k - local_edges q)%nat ∧
    presented (trace serdes s q) ++ pending k' p = pending k p ∧ taken (trace serdes s q) = [].
Proof.
  induction q as [|x q IH]; intros k p s Hs Hk Hq.
  { exists k. cbn. split_and!; [done|lia|done..]. }
  apply Forall_cons in Hq as [Hx Hq]. destruct s as [t r]. cbn [snd] in Hk.
  destruct (crossing_edges (fst x) k p r Hk) as (k1 & Hk1 & Hn1 & Ho1).
  destruct (idle_step (snd x) _ (nothing_header_only x Hx) (idle_edges (fst x) t r Hs)) as [Hsame [[_ Hi]|(v & Ha & _)]].
  2:{ cbn [fst] in Ha. by rewrite nothing_accepted in Ha. }
  cbn [snd] in Hsame. rewrite <-Hsame in Hk1.
  destruct (IH k1 p (tick serdes x (t, r)) Hi Hk1 Hq) as (k' & H1 & H2 & H3 & H4).
  exists k'. rewrite run_cons. destruct (trace_cons (t, r) x q) as [-> ->]. rewrite H4, nothing_accepted by done.
  split_and!; [done|unfold local_edges in *; cbn; lia| |done]. by rewrite <-app_assoc, H3.
Qed.

Lemma invariant_bits acc dn b rest s : invariant acc dn b rest s → (b ≤ 64)%nat.
Proof. intros (k & w & m & _ & _ & [(_ & _ & _ & ->)|(v & n & _ & _ & _ & _ & ? & _ & _ & ?)]); lia. Qed.

(** C11.  Headers that no payload follows cross the serial link whatever the pattern
    of requests and whatever the receiver's local clock, faster or slower than the
    transmitter's and at any phase, as long as it has three edges in any 64 cycles of
    the transmitter: the headers that the transmitter accepts are those the receiver
    presents, in order and each once, the last of them at the latest after the 64 bits
    of a word and three more local edges. *)
Theorem serial_lossless ins q1 q2 :
  Forall (λ x, header_only (snd x)) ins → timely (ins ++ q1 ++ q2) →
  Forall offers_nothing (q1 ++ q2) → (64 ≤ length q1)%nat → (3 ≤ local_edges q2)%nat →
  let tr := trace serdes (reset serdes) (ins ++ q1 ++ q2) in
  presented tr = (λ w, (w, 0)) <$> taken tr.
Proof.
  intros Hi Htm Hq Hl Hn. cbn zeta. apply Forall_app in Hq as [Hq1 Hq2].
  assert (invariant [] [] 0 (ins ++ q1 ++ q2) (reset serdes)) as H0.
  { exists 0%nat, 0, 0%nat. split; [done|]. split; [right; cbn; lia|]. left. by split_and!; [|done|lia|done]. }
  assert (Forall (λ x, header_only (snd x)) q1) as Hi1 by (eapply Forall_impl; [exact Hq1|apply nothing_header_only]).
  destruct (invariant_run [] [] 0 (q1 ++ q2) ins _ Hi Htm H0) as (d1 & b1 & P1 & I1 & _).
  assert (timely (q1 ++ q2)) as Htm1 by (rewrite <-(drop_app_length ins (q1 ++ q2)); by apply timely_drop).
  destruct (invariant_run _ _ _ q2 q1 _ Hi1 Htm1 I1) as (d2 & b2 & P2 & I2 & B2).
  assert (b2 = 0%nat) as -> by (rewrite (B2 Hq1); apply invariant_bits in I1; lia).
  destruct I2 as (k & w & m & Hk & _ & [(Hid & Hacc & _)|(v & n & _ & _ & _ & _ & ? & _ & _ & ?)]); [|lia].
  destruct (idle_run q2 k (w, 0) _ Hid Hk Hq2) as (k' & Hk' & Hn' & P3 & T3).
  assert (k' = 0%nat) as -> by (apply (crossing_done _ _ _ Hk'); pose proof (crossing_needed _ _ _ Hk); lia).
  cbn [pending] in P3. rewrite app_nil_r in P3.
  rewrite !trace_app, !taken_app, !presented_app, T3, P1, P2, P3, app_nil_r.
  cbn [app] in Hacc. rewrite Hacc, <-shown_pending. unfold shown. by rewrite !fmap_app, <-app_assoc.
Qed.

(** Two headers, the second offered while the first is on the wire, with a local clock
    eight times slower than the transmitter's. *)
Definition slow (l : list SbTx.inputs) : list cycle := zip_with (λ j i, (if Nat.eqb (j mod 8) 3 then 1%nat else 0%nat, i)) (seq 0 (length l)) l.
Lemma slow_forall (P : SbTx.inputs → Prop) l : Forall P l → Forall (λ x, P (snd x)) (slow l).
Proof.
  intros H. apply Forall_forall. intros x Hx. unfold slow in Hx. apply elem_of_lookup_zip_with in Hx as (j & a & b & -> & _ & Hb).
  cbn. by apply (Forall_lookup_1 _ _ _ _ H Hb).
Qed.
Lemma Forall_repeat {A} (P : A → Prop) x n : P x → Forall P (repeat x n).
Proof. intros H. induction n as [|n IH]; cbn; by constructor. Qed.

Definition no_request : SbTx.inputs := SbTx.mkInputs false 0 0 false.
Definition demo_headers : list SbTx.inputs :=
  SbTx.mkInputs true 0x4000000000000012 0 false :: repeat (SbTx.mkInputs true 0x8000000012345612 0 false) 66.
Definition timely_b (l : list cycle) : bool :=
  forallb (λ j, (3 <=? local_edges (take 64 (drop j l)))%nat) (seq 0 (length l - 63)).
Lemma timely_checked l : timely_b l = true → timely l.
Proof.
  unfold timely_b. rewrite forallb_forall. intros H j Hj. apply Nat.leb_le, H, in_seq. lia.
Qed.

Lemma serial_lossless_witness :
  let tr := trace serdes (reset serdes) (slow demo_headers ++ slow (repeat no_request 64) ++ slow (repeat no_request 32)) in
  presented tr = (λ w, (w, 0)) <$> taken tr ∧ length (taken tr) = 2%nat.
Proof.
  split; [|by vm_compute].
  apply (serial_lossless (slow demo_headers) (slow (repeat no_request 64)) (slow (repeat no_request 32))).
  - apply slow_forall. unfold demo_headers.
    constructor; [|apply Forall_repeat]; (intros _; split_and!; [vm_compute; by split|reflexivity|reflexivity]).
  - apply timely_checked. by vm_compute.
  - apply Forall_app. split; by apply (slow_forall (λ i, SbTx.pkt_valid i = false)), Forall_repeat.
  - by vm_compute; lia.
  - vm_compute. lia.
Defined.

(** With too few local edges between two headers both are lost: the toggle is back
    where it was before the local clock sees it. *)
Example frozen_clock_loses :
  let tr := trace serdes (reset serdes) (((λ i, (0%nat, i)) <$> demo_headers ++ repeat no_request 64) ++ repeat (1%nat, no_request) 20) in
  length (taken tr) = 2%nat ∧ presented tr = [].
Proof. by vm_compute. Qed.

(** ** Packets with a payload *)

(** The bits of a word but the last. *)
Lemma wire_run st c w e ins : ∀ n k p s,
  SbTx.sending st = true → c = 0 ∨ (c = 64 ∧ st = SbTx.TX_DATA) → bv 64 w →
  0 ≤ n → n + Z.of_nat (length ins) ≤ 63 → on_wire st c w n e s → crossing k p (snd s) →
  let s' := run serdes s ins in
  on_wire st c w (n + Z.of_nat (length ins)) e s' ∧ SbTx.has_data_reg (fst s') = SbTx.has_data_reg (fst s) ∧
  SbRx.latched_hdr (snd s') = SbRx.latched_hdr (snd s) ∧
  ∃ k', crossing k' p (snd s') ∧ needed k' = (needed k - local_edges ins)%nat ∧
    presented (trace serdes s ins) ++ pending k' p = pending k p.
Proof.
  induction ins as [|x ins IH]; intros n k p s Hst Hc Hw Hn Hlen Hwire Hk; cbn zeta.
  { cbn. rewrite Z.add_0_r. split_and!; [done..|]. exists k. split_and!; [done|lia|done]. }
  cbn [length] in *. destruct s as [t r]. cbn [snd] in Hk.
  destruct (crossing_edges (fst x) k p r Hk) as (k1 & Hk1 & Hn1 & Ho1).
  pose proof (edges_keep (fst x) r) as [= _ _ _ El _].
  destruct (wire_bit st c w n e (snd x) (t, snd (edges (fst x) r))) as (Hwire' & Hhd & _ & Hsame); [done..|lia|by apply on_wire_edges|].
  destruct (IH (n + 1) k1 p (tick serdes x (t, r))) as (H1 & H2 & H3 & k' & H4 & H5 & H6);
    [done..|lia|lia|done|by apply (crossing_ext _ _ _ _ Hsame)|].
  rewrite run_cons. destruct (trace_cons (t, r) x ins) as [_ ->]. cbn [fst snd] in *.
  split_and!; [by replace (n + Z.of_nat (S (length ins))) with (n + 1 + Z.of_nat (length ins)) by lia|etrans; [exact H2|exact Hhd]| |].
  - rewrite H3. injection Hsame as E _. by rewrite <-El.
  - exists k'. split_and!; [done|unfold local_edges in *; cbn; lia|]. by rewrite <-app_assoc, H6.
Qed.

(** All of a word up to its last strobe: with three local edges whatever crossed is
    presented. *)
Lemma word_run st c w e l x k p s :
  SbTx.sending st = true → c = 0 ∨ (c = 64 ∧ st = SbTx.TX_DATA) → bv 64 w →
  on_wire st c w 0 e s → crossing k p (snd s) → length l = 63%nat → (3 ≤ local_edges (l ++ [x]))%nat →
  let s' := run serdes s l in let s1 := (fst s', snd (edges (fst x) (snd s'))) in
  tick serdes x s' = bit (snd x) s1 ∧
  on_wire st c w 63 e s1 ∧ SbTx.has_data_reg (fst s1) = SbTx.has_data_reg (fst s) ∧
  SbRx.latched_hdr (snd s1) = SbRx.latched_hdr (snd s) ∧ crossing 0 (0, 0) (snd s1) ∧
  presented (trace serdes s (l ++ [x])) = pending k p.
Proof.
  intros Hst Hc Hw Hwire Hk Hl He. cbn zeta.
  destruct (wire_run st c w e l 0 k p s) as (H1 & H2 & H3 & k1 & H4 & H5 & H6); [done..|lia|lia|done|done|].
  set (s' := run serdes s l) in *. rewrite Hl in H1. change (0 + Z.of_nat 63) with 63 in H1.
  destruct (crossing_edges (fst x) k1 p (snd s') H4) as (k2 & H7 & H8 & H9).
  assert (k2 = 0%nat) as ->.
  { apply (crossing_done _ _ _ H7). pose proof (crossing_needed _ _ _ Hk). unfold local_edges in *.
    assert (sum_list (fst <$> l ++ [x]) = sum_list (fst <$> l) + fst x)%nat as Hs.
    { clear. induction l as [|y l IH]; cbn in *; lia. }
    lia. }
  pose proof (edges_keep (fst x) (snd s')) as [= _ _ _ El _].
  split_and!; [by destruct s'|destruct s'; by apply on_wire_edges|done|cbn [snd]; congruence|exact H7|].
  rewrite trace_app, presented_app. fold s'. destruct (trace_cons s' x []) as [_ ->]. cbn [trace].
  change (presented []) with (@nil (Z * Z)). rewrite app_nil_r. cbn [pending] in H9. rewrite app_nil_r in H9. by rewrite H9.
Qed.

(** The last bit of a header with a payload, then of the payload: the counter
    goes on from 64, so the payload's phase does not end there. *)
Lemma header_end w d i s :
  bv 64 w → bv 64 d → has_data (slice 4 0 w) = true → SbTx.has_data_reg (fst s) = true → SbTx.pkt_data i = d →
  on_wire SbTx.TX_HEADER 0 w 63 false s → crossing 0 (0, 0) (snd s) →
  on_wire SbTx.TX_DATA 64 d 0 true (bit i s) ∧ crossing 0 (0, 0) (snd (bit i s)) ∧
  SbRx.latched_hdr (snd (bit i s)) = w.
Proof.
  intros Hw Hd Hop Hhd Hi Hwire Hk. pose proof (word_received SbTx.TX_HEADER _ _ _ _ eq_refl Hw Hwire) as Hr.
  destruct Hwire as [Hs Hcnt Hsh Hclk Hrx Hword He].
  destruct s as [t r]. cbn [fst snd] in *. cbn zeta in *. cbn [bit]. rewrite Hclk, Hr, Hop. cbn [snd].
  split_and!; [|exact Hk|done]. unfold SbTx.step, SbTx.next_state, SbTx.latch_data, SbTx.tx_req_ready.
  split; cbn [fst snd SbTx.state SbTx.bit_cnt SbTx.shift_reg SbTx.clk_en_latched SbRx.bit_cnt SbRx.shift_reg SbRx.expecting_data];
    rewrite ?Hs, ?Hcnt, ?Hhd; [done|done|cbn; by rewrite Hi, Z.div_1_r|done|done|by apply holds_start|done].
Qed.

Lemma payload_end w d i s :
  bv 64 d → on_wire SbTx.TX_DATA 64 d 63 true s → crossing 0 (0, 0) (snd s) → SbRx.latched_hdr (snd s) = w →
  on_wire SbTx.TX_DATA 0 0 0 false (bit i s) ∧ crossing 1 (w, d) (snd (bit i s)).
Proof.
  intros Hd Hwire Hk Hl. pose proof (word_received SbTx.TX_DATA _ _ _ _ eq_refl Hd Hwire) as Hr.
  destruct Hwire as [Hs Hcnt Hsh Hclk Hrx Hword He].
  destruct s as [t r]. cbn [fst snd] in *. cbn zeta in *. cbn [bit]. rewrite Hclk, Hr. cbn [snd].
  destruct Hk as (C1 & C2 & C3). split; [|unfold crossing; cbn [SbRx.req_toggle SbRx.req_sync1 SbRx.req_sync2 SbRx.pkt_valid SbRx.latched_hdr SbRx.latched_data]; rewrite C1, C2, C3, <-Hl; by split_and!].
  unfold SbTx.step, SbTx.next_state, SbTx.latch_data, SbTx.tx_req_ready.
  split; cbn [fst snd SbTx.state SbTx.bit_cnt SbTx.shift_reg SbTx.clk_en_latched SbRx.bit_cnt SbRx.shift_reg SbRx.expecting_data];
    rewrite ?Hs, ?Hcnt; [done|done| |done|done|by apply holds_start|done].
  cbn [andb]. rewrite bool_decide_eq_false_2 by done. unfold SbTx.shift_en. rewrite Hs, Hsh. cbn [SbTx.sending andb].
  unfold bv in Hd. rewrite (shift_in false) by (apply shifted_bv; [done|lia]). change (2 ^ 0) with 1. rewrite Z.div_1_r.
  cbn [Z.b2z]. rewrite Z.div_div, Z.div_small by lia. done.
Qed.

Lemma overrun_end i s :
  on_wire SbTx.TX_DATA 0 0 63 false s → crossing 0 (0, 0) (snd s) →
  idle_wire (bit i s) ∧ crossing 1 (0, 0) (snd (bit i s)).
Proof.
  intros Hwire Hk. assert (bv 64 0) as H0 by done. pose proof (word_received SbTx.TX_DATA _ _ _ _ eq_refl H0 Hwire) as Hr.
  destruct Hwire as [Hs Hcnt Hsh Hclk Hrx Hword He].
  destruct s as [t r]. cbn [fst snd] in *. cbn zeta in *. change (has_data (slice 4 0 0)) with false in Hr.
  cbn [bit]. rewrite Hclk, Hr. cbn [snd].
  destruct Hk as (C1 & C2 & C3). split; [|unfold crossing; cbn [SbRx.req_toggle SbRx.req_sync1 SbRx.req_sync2 SbRx.pkt_valid SbRx.latched_hdr SbRx.latched_data]; rewrite C1, C2, C3; by split_and!].
  unfold idle_wire, SbTx.step, SbTx.next_state. cbn [fst snd SbTx.state SbTx.clk_en_latched SbRx.shift_reg SbRx.bit_cnt SbRx.expecting_data].
  rewrite Hs, Hcnt. by split_and!.
Qed.

(** The 64 cycles of a word. *)
Lemma word_split (l : list cycle) : timely l → (64 ≤ length l)%nat →
  ∃ l1 x, l = (l1 ++ [x]) ++ drop 64 l ∧ length l1 = 63%nat ∧ (3 ≤ local_edges (l1 ++ [x]))%nat.
Proof.
  intros Ht Hl. destruct (lookup_lt_is_Some_2 l 63 ltac:(lia)) as [x Hx]. exists (take 63 l), x.
  assert (take 63 l ++ [x] = take 64 l) as E by (symmetry; by apply take_S_r).
  rewrite E, take_drop, length_take. split_and!; [done|lia|by apply timely_now].
Qed.

Section Payload.
Context (first : cycle) (ins : list cycle) (h d : Z).
Hypotheses (Hh : bv 64 h) (Hd : bv 64 d) (Hop : has_data (slice 4 0 h) = true).
Hypotheses (Hfirst : SbTx.pkt_valid (snd first) = true ∧ SbTx.pkt_header (snd first) = h ∧ SbTx.pkt_has_data (snd first) = true).
Hypotheses (Hi : Forall (λ x, offers_nothing x ∧ SbTx.pkt_data (snd x) = d) ins).
Hypotheses (Ht : timely ins) (Hlen : (192 ≤ length ins)%nat).

Lemma payload_start :
  let s := tick serdes first (reset serdes) in
  on_wire SbTx.TX_HEADER 0 h 0 false s ∧ SbTx.has_data_reg (fst s) = true ∧ crossing 0 (0, 0) (snd s) ∧
  fst (edges (fst first) (snd (reset serdes))) = [].
Proof.
  destruct Hfirst as (Hv & Hhd & Hhas).
  destruct (crossing_edges (fst first) 0 (0, 0) SbRx.reset_regs) as (k & Hk & Hn & Ho); [done|].
  pose proof (crossing_done _ _ _ Hk Hn) as ->. pose proof (edges_keep (fst first) SbRx.reset_regs) as [= E1 E2 E3 E4 E5].
  cbn [pending] in Ho. rewrite app_nil_r in Ho. cbn zeta.
  assert (tick serdes first (reset serdes) = (SbTx.step (snd first) (reset SbTx.lphy_sb_tx), snd (edges (fst first) SbRx.reset_regs))) as -> by done.
  cbn [fst snd]. unfold SbTx.step, SbTx.next_state, SbTx.latch_data. cbn [SbTx.has_data_reg SbTx.tx_req_ready reset SbTx.lphy_sb_tx SbTx.state andb].
  rewrite Hv, Hhd, Hhas. split; [|split; [done|split; [exact Hk|exact Ho]]].
  split; cbn; rewrite ?E1, ?E2, ?E3; [done|done|by rewrite Z.div_1_r|done|done|by apply holds_start|done].
Qed.

(** The three words: header, payload and zeros. *)
Lemma payload_words l1 x1 l2 x2 l3 x3 :
  length l1 = 63%nat → length l2 = 63%nat → length l3 = 63%nat →
  (3 ≤ local_edges (l1 ++ [x1]))%nat → (3 ≤ local_edges (l2 ++ [x2]))%nat → (3 ≤ local_edges (l3 ++ [x3]))%nat →
  SbTx.pkt_data (snd x1) = d →
  let s0 := tick serdes first (reset serdes) in
  let s := run serdes s0 ((l1 ++ [x1]) ++ (l2 ++ [x2]) ++ l3) in
  SbTx.state (fst s) = SbTx.TX_DATA ∧ idle_wire (tick serdes x3 s) ∧ crossing 1 (0, 0) (snd (tick serdes x3 s)) ∧
  presented (trace serdes s0 ((l1 ++ [x1]) ++ (l2 ++ [x2]) ++ l3 ++ [x3])) = [(h, d)].
Proof.
  intros L1 L2 L3 T1 T2 T3 X1. destruct payload_start as (W0 & D0 & C0 & _). cbn zeta.
  set (s0 := tick serdes first (reset serdes)) in *.
  destruct (word_run SbTx.TX_HEADER 0 h false l1 x1 0 (0, 0) s0) as (K1 & W1 & D1 & _ & C1 & R1); [done|by left|done..|].
  rewrite D0 in D1. destruct (header_end h d (snd x1) _ Hh Hd Hop D1 X1 W1 C1) as (W2 & C2 & H2). rewrite <-K1 in W2, C2, H2.
  assert (run serdes s0 (l1 ++ [x1]) = tick serdes x1 (run serdes s0 l1)) as E2 by by rewrite run_app.
  rewrite <-E2 in W2, C2, H2. set (s2 := run serdes s0 (l1 ++ [x1])) in *.
  destruct (word_run SbTx.TX_DATA 64 d true l2 x2 0 (0, 0) s2) as (K3 & W3 & _ & H3 & C3 & R3); [done|by right|done..|].
  rewrite H2 in H3. destruct (payload_end h d (snd x2) _ Hd W3 C3 H3) as (W4 & C4). rewrite <-K3 in W4, C4.
  assert (run serdes s2 (l2 ++ [x2]) = tick serdes x2 (run serdes s2 l2)) as E4 by by rewrite run_app.
  rewrite <-E4 in W4, C4. set (s4 := run serdes s2 (l2 ++ [x2])) in *.
  destruct (word_run SbTx.TX_DATA 0 0 false l3 x3 1 (h, d) s4) as (K5 & W5 & _ & _ & C5 & R5); [done|by left|done..|].
  destruct (overrun_end (snd x3) _ W5 C5) as (W6 & C6). rewrite <-K5 in W6, C6.
  assert (run serdes s0 ((l1 ++ [x1]) ++ (l2 ++ [x2]) ++ l3) = run serdes s4 l3) as ->
    by (rewrite run_app; fold s2; by rewrite run_app).
  split_and!; [by destruct W5|exact W6|exact C6|].
  rewrite trace_app, presented_app, R1. fold s2. rewrite trace_app, presented_app, R3. fold s4. by rewrite R5.
Qed.

(** C29.  A packet with a payload keeps the transmitter busy for 192
    cycles instead of 128: the bit counter is not cleared between the header
    and the payload, so 64 zero bits follow, and the receiver presents, after
    the packet itself, a second one whose header and payload are zero.  The local
    clock of the receiver has three edges in any 64 cycles of the transmitter. *)
Theorem payload_overruns :
  (3 ≤ local_edges (drop 192 ins))%nat →
  SbTx.state (fst (run serdes (reset serdes) (first :: take 191 ins))) = SbTx.TX_DATA ∧
  presented (trace serdes (reset serdes) (first :: ins)) = [(h, d); (0, 0)].
Proof.
  intros He. destruct payload_start as (_ & _ & _ & P0).
  destruct (word_split ins Ht) as (l1 & x1 & E1 & L1 & T1); [lia|].
  destruct (word_split (drop 64 ins)) as (l2 & x2 & E2 & L2 & T2); [by apply timely_drop|rewrite length_drop; lia|].
  destruct (word_split (drop 64 (drop 64 ins))) as (l3 & x3 & E3 & L3 & T3); [by do 2 apply timely_drop|rewrite !length_drop; lia|].
  rewrite !drop_drop in *. change (64 + 64 + 64)%nat with 192%nat in *. rewrite E3 in E2. rewrite E2 in E1. clear E2 E3.
  set (q := drop 192 ins) in *. clearbody q.
  assert (SbTx.pkt_data (snd x1) = d ∧ Forall offers_nothing q) as [X1 Hq].
  { rewrite E1, !Forall_app, !Forall_singleton in Hi. destruct Hi as ((_ & X1) & _ & _ & Hq).
    split; [apply X1|]. eapply Forall_impl; [exact Hq|]. by intros x []. }
  destruct (payload_words l1 x1 l2 x2 l3 x3 L1 L2 L3 T1 T2 T3 X1) as (S5 & W6 & C6 & R6).
  rewrite run_cons. destruct (trace_cons (reset serdes) first ins) as [_ ->]. rewrite P0. cbn [app].
  set (s0 := tick serdes first (reset serdes)) in *.
  assert (ins = ((l1 ++ [x1]) ++ (l2 ++ [x2]) ++ l3) ++ [x3] ++ q) as E by by rewrite E1, <-!app_assoc.
  assert (take 191 ins = (l1 ++ [x1]) ++ (l2 ++ [x2]) ++ l3) as ->.
  { rewrite E. apply take_app_length'. rewrite !length_app. cbn. lia. }
  split; [done|]. rewrite E1, <-!app_assoc, !(app_assoc l1), !(app_assoc l2), !(app_assoc l3).
  assert ((l1 ++ [x1]) ++ (l2 ++ [x2]) ++ (l3 ++ [x3]) ++ q = ((l1 ++ [x1]) ++ (l2 ++ [x2]) ++ l3 ++ [x3]) ++ q) as ->
    by by rewrite <-!app_assoc.
  rewrite trace_app, presented_app, R6.
  assert (run serdes s0 ((l1 ++ [x1]) ++ (l2 ++ [x2]) ++ l3 ++ [x3])
          = tick serdes x3 (run serdes s0 ((l1 ++ [x1]) ++ (l2 ++ [x2]) ++ l3))) as ->.
  { rewrite !run_app. done. }
  destruct (idle_run q 1 (0, 0) _ W6 C6 Hq) as (k' & Hk' & Hn' & Hp & _).
  rewrite (crossing_done _ _ _ Hk') in Hp by (rewrite Hn'; cbn; lia). cbn [pending] in Hp. rewrite app_nil_r in Hp. by rewrite Hp.
Qed.
End Payload.

Definition demo_payload : list cycle := slow (repeat (SbTx.mkInputs false 0 0xCAFE false) 224).
Lemma payload_overruns_witness :
  presented (trace serdes (reset serdes) ((0%nat, SbTx.mkInputs true 0x1B 0 true) :: demo_payload))
  = [(0x1B, 0xCAFE); (0, 0)].
Proof.
  refine (proj2 (payload_overruns (0%nat, SbTx.mkInputs true 0x1B 0 true) demo_payload 0x1B 0xCAFE _ _ _ _ _ _ _ _)).
  - by split.
  - by split.
  - reflexivity.
  - by split_and!.
  - apply (slow_forall (λ i, SbTx.pkt_valid i = false ∧ SbTx.pkt_data i = 0xCAFE)). by apply Forall_repeat.
  - apply timely_checked. by vm_compute.
  - vm_compute. lia.
  - vm_compute. lia.
Defined.
