(* ===== verification/PhyTraining.v ===== *)
(** * Link training: the sub-states up to LINKINIT

    lphy_ltssm_reset.sv, lphy_ltssm_sbinit.sv, lphy_ltssm_mbinit.sv,
    lphy_ltssm_mbtrain.sv and lphy_ltssm_linkinit.sv.  The four state machines
    with a timeout share the class [Timed]: idle until enabled, working while a
    counter runs, finished (done or error) until disabled. *)

From S2P Require Import Prelude Rtl.
#[local] Open Scope Z_scope.

(** ** lphy_ltssm_reset *)

Module LtReset.
Record inputs := mkInputs {
  power_stable : bool; sb_clk_stable : bool; mb_clk_stable : bool; mb_clk_slow : bool;
  soc_reset_n : bool; start_link_training : bool; en_reset : bool }.
Record regs := mkRegs {
  timer_4ms : Z; timer_done : bool; exit_to_sbinit : bool; phy_reset_active : bool; en_reset_q : bool }.

Section Reset.
Context (CLK_CYCLES_4MS : Z).

Definition reset_reentry (i : inputs) (s : regs) : bool := en_reset i && negb (en_reset_q s).
Definition stable (i : inputs) : bool := power_stable i && sb_clk_stable i && mb_clk_stable i.

(** Later nonblocking assignments win: where the last branch leaves [timer_4ms]
    alone, the clear on re-entry stands. *)
Definition step_timer (i : inputs) (s : regs) : Z * bool :=
  let t := if reset_reentry i s then 0 else timer_4ms s in
  if negb (soc_reset_n i) then (0, false)
  else if stable i then
    if timer_4ms s <? CLK_CYCLES_4MS then (trunc 32 (timer_4ms s + 1), false) else (t, true)
  else (0, false).
Definition leaves (i : inputs) (s : regs) : bool :=
  soc_reset_n i && timer_done s && mb_clk_slow i && start_link_training i.

Definition step (i : inputs) (s : regs) : regs :=
  let '(t, d) := step_timer i s in
  mkRegs t d (leaves i s) (negb (leaves i s)) (en_reset i).

Definition lphy_ltssm_reset : circuit inputs regs (bool * bool) := {|
  reset := mkRegs 0 false false true false;
  out := λ _ s, (exit_to_sbinit s, phy_reset_active s);
  tick := step |}.
End Reset.
End LtReset.

(** ** lphy_ltssm_sbinit *)

Module SbInit.
Inductive state_t := ST_IDLE | ST_SEND_PATTERN | ST_WAIT_4_ITER | ST_OUT_OF_RESET | ST_DONE_REQ | ST_DONE | ST_ERROR.
#[global] Instance state_t_eq_dec : EqDecision state_t.
Proof. solve_decision. Defined.

Record inputs := mkInputs {
  en_sbinit : bool; package_type : bool; rx_pattern_detected : Z; rx_msg_out_of_reset : bool;
  rx_msg_done_req : bool; rx_msg_done_resp : bool }.
Record regs := mkRegs { state : state_t; timeout_cnt : Z; wait_cnt : Z; latched_rx_pattern : Z }.
Record outputs := mkOutputs {
  tx_send_pattern : bool; tx_msg_out_of_reset : bool; tx_msg_done_req : bool; tx_msg_done_resp : bool;
  sb_repair_sel : Z; exit_to_mbinit : bool; exit_to_trainerror : bool }.

Definition working (st : state_t) : bool := match st with ST_IDLE | ST_DONE | ST_ERROR => false | _ => true end.

Section SbInit.
Context (TIMEOUT_CYCLES : Z).

Definition expired (s : regs) : bool := (timeout_cnt s =? TIMEOUT_CYCLES) && bool_decide (state s ≠ ST_IDLE).

Definition next_state (i : inputs) (s : regs) : state_t :=
  if expired s then ST_ERROR
  else match state s with
  | ST_IDLE => if en_sbinit i then ST_SEND_PATTERN else ST_IDLE
  | ST_SEND_PATTERN => if rx_pattern_detected i =? 0 then ST_SEND_PATTERN else ST_WAIT_4_ITER
  | ST_WAIT_4_ITER => if wait_cnt s =? 47 then ST_OUT_OF_RESET else ST_WAIT_4_ITER
  | ST_OUT_OF_RESET => if rx_msg_out_of_reset i then ST_DONE_REQ else ST_OUT_OF_RESET
  | ST_DONE_REQ => if rx_msg_done_req i || rx_msg_done_resp i then ST_DONE else ST_DONE_REQ
  | ST_DONE => if en_sbinit i then ST_DONE else ST_IDLE
  | ST_ERROR => if en_sbinit i then ST_ERROR else ST_IDLE
  end.

Definition repair_sel (package_type : bool) (pattern : Z) : Z :=
  if package_type then 0
  else if Z.testbit pattern 0 then 0 else if Z.testbit pattern 1 then 1
  else if Z.testbit pattern 2 then 2 else if Z.testbit pattern 3 then 3 else 0.

Definition outs (i : inputs) (s : regs) : outputs :=
  let at_ st := negb (expired s) && bool_decide (state s = st) in
  mkOutputs (at_ ST_SEND_PATTERN || at_ ST_WAIT_4_ITER) (at_ ST_OUT_OF_RESET) (at_ ST_DONE_REQ) (at_ ST_DONE)
    (repair_sel (package_type i) (latched_rx_pattern s)) (at_ ST_DONE) (at_ ST_ERROR).

Definition step (i : inputs) (s : regs) : regs :=
  mkRegs (next_state i s)
    (if working (state s) then if timeout_cnt s <? TIMEOUT_CYCLES then trunc 32 (timeout_cnt s + 1) else timeout_cnt s else 0)
    (if bool_decide (state s = ST_WAIT_4_ITER) then trunc 6 (wait_cnt s + 1) else 0)
    (if bool_decide (state s = ST_SEND_PATTERN) && negb (rx_pattern_detected i =? 0) then rx_pattern_detected i
     else latched_rx_pattern s).

Definition lphy_ltssm_sbinit : circuit inputs regs outputs := {|
  reset := mkRegs ST_IDLE 0 0 0; out := outs; tick := step |}.
End SbInit.
End SbInit.

(** ** lphy_ltssm_mbinit *)

Module MbInit.
Inductive state_t :=
  ST_IDLE | ST_PARAM | ST_CAL | ST_REPAIRCLK | ST_REPAIRVAL | ST_REVERSALMB | ST_REPAIRMB | ST_DONE | ST_ERROR.
#[global] Instance state_t_eq_dec : EqDecision state_t.
Proof. solve_decision. Defined.

Record inputs := mkInputs {
  en_mbinit : bool; package_type : bool; param_done : bool; cal_done : bool; repairclk_done : bool;
  repairval_done : bool; reversal_done : bool; repairmb_done : bool; substate_error : bool }.
Record regs := mkRegs { state : state_t; timeout_cnt : Z }.
Record outputs := mkOutputs {
  en_param : bool; en_cal : bool; en_repairclk : bool; en_repairval : bool; en_reversal : bool; en_repairmb : bool;
  exit_to_mbtrain : bool; exit_to_trainerror : bool }.

Definition working (st : state_t) : bool := match st with ST_IDLE | ST_DONE | ST_ERROR => false | _ => true end.

Section MbInit.
Context (TIMEOUT_CYCLES : Z).

Definition advance (i : inputs) (st : state_t) : state_t :=
  match st with
  | ST_IDLE => if en_mbinit i then ST_PARAM else ST_IDLE
  | ST_PARAM => if param_done i then ST_CAL else ST_PARAM
  | ST_CAL => if cal_done i then if package_type i then ST_REVERSALMB else ST_REPAIRCLK else ST_CAL
  | ST_REPAIRCLK => if repairclk_done i then ST_REPAIRVAL else ST_REPAIRCLK
  | ST_REPAIRVAL => if repairval_done i then ST_REVERSALMB else ST_REPAIRVAL
  | ST_REVERSALMB => if reversal_done i then ST_REPAIRMB else ST_REVERSALMB
  | ST_REPAIRMB => if repairmb_done i then ST_DONE else ST_REPAIRMB
  | ST_DONE => if en_mbinit i then ST_DONE else ST_IDLE
  | ST_ERROR => if en_mbinit i then ST_ERROR else ST_IDLE
  end.
Definition next_state (i : inputs) (s : regs) : state_t :=
  if ((timeout_cnt s =? TIMEOUT_CYCLES) || substate_error i) && working (state s) then ST_ERROR else advance i (state s).

Definition outs (s : regs) : outputs :=
  let at_ st := bool_decide (state s = st) in
  mkOutputs (at_ ST_PARAM) (at_ ST_CAL) (at_ ST_REPAIRCLK) (at_ ST_REPAIRVAL) (at_ ST_REVERSALMB) (at_ ST_REPAIRMB)
    (at_ ST_DONE) (at_ ST_ERROR).

Definition step (i : inputs) (s : regs) : regs :=
  mkRegs (next_state i s)
    (if working (state s) then if timeout_cnt s <? TIMEOUT_CYCLES then trunc 32 (timeout_cnt s + 1) else timeout_cnt s else 0).

Definition lphy_ltssm_mbinit : circuit inputs regs outputs := {|
  reset := mkRegs ST_IDLE 0; out := λ _ s, outs s; tick := step |}.
End MbInit.
End MbInit.

(** ** lphy_ltssm_mbtrain *)

Module MbTrain.
Inductive state_t :=
  ST_IDLE | ST_VALVREF | ST_DATAVREF | ST_SPEEDIDLE | ST_TXSELFCAL | ST_RXCLKCAL | ST_VALTRAINCENTER | ST_VALTRAINVREF
| ST_DATATRAINCENTER1 | ST_DATATRAINVREF | ST_RXDESKEW | ST_DATATRAINCENTER2 | ST_LINKSPEED | ST_REPAIR | ST_DONE | ST_ERROR.
#[global] Instance state_t_eq_dec : EqDecision state_t.
Proof. solve_decision. Defined.

Record inputs := mkInputs {
  en_mbtrain : bool; package_type : bool;
  valvref_done : bool; datavref_done : bool; speedidle_done : bool; txselfcal_done : bool; rxclkcal_done : bool;
  valtraincenter_done : bool; valtrainvref_done : bool; datatraincenter1_done : bool; datatrainvref_done : bool;
  rxdeskew_done : bool; datatraincenter2_done : bool;
  linkspeed_done : bool; linkspeed_error : bool; needs_repair : bool; needs_speed_degrade : bool;
  repair_done : bool; substate_error : bool }.
Record regs := mkRegs { state : state_t; timeout_cnt : Z }.
Record outputs := mkOutputs {
  en_valvref : bool; en_datavref : bool; en_speedidle : bool; en_txselfcal : bool; en_rxclkcal : bool;
  en_valtraincenter : bool; en_valtrainvref : bool; en_datatraincenter1 : bool; en_datatrainvref : bool;
  en_rxdeskew : bool; en_datatraincenter2 : bool; en_linkspeed : bool; en_repair : bool;
  exit_to_linkinit : bool; exit_to_trainerror : bool }.

Definition working (st : state_t) : bool := match st with ST_IDLE | ST_DONE | ST_ERROR => false | _ => true end.

Section MbTrain.
Context (TIMEOUT_CYCLES : Z).

Definition advance (i : inputs) (st : state_t) : state_t :=
  match st with
  | ST_IDLE => if en_mbtrain i then if package_type i then ST_SPEEDIDLE else ST_VALVREF else ST_IDLE
  | ST_VALVREF => if valvref_done i then ST_DATAVREF else st
  | ST_DATAVREF => if datavref_done i then ST_SPEEDIDLE else st
  | ST_SPEEDIDLE => if speedidle_done i then ST_TXSELFCAL else st
  | ST_TXSELFCAL => if txselfcal_done i then ST_RXCLKCAL else st
  | ST_RXCLKCAL => if rxclkcal_done i then ST_VALTRAINCENTER else st
  | ST_VALTRAINCENTER =>
      if valtraincenter_done i then if package_type i then ST_DATATRAINCENTER1 else ST_VALTRAINVREF else st
  | ST_VALTRAINVREF => if valtrainvref_done i then ST_DATATRAINCENTER1 else st
  | ST_DATATRAINCENTER1 =>
      if datatraincenter1_done i then if package_type i then ST_RXDESKEW else ST_DATATRAINVREF else st
  | ST_DATATRAINVREF => if datatrainvref_done i then ST_RXDESKEW else st
  | ST_RXDESKEW => if rxdeskew_done i then ST_DATATRAINCENTER2 else st
  | ST_DATATRAINCENTER2 => if datatraincenter2_done i then ST_LINKSPEED else st
  | ST_LINKSPEED =>
      if linkspeed_done i then ST_DONE
      else if linkspeed_error i then
        if needs_repair i then ST_REPAIR else if needs_speed_degrade i then ST_SPEEDIDLE else ST_ERROR
      else st
  | ST_REPAIR => if repair_done i then ST_TXSELFCAL else st
  | ST_DONE => if en_mbtrain i then ST_DONE else ST_IDLE
  | ST_ERROR => if en_mbtrain i then ST_ERROR else ST_IDLE
  end.
Definition next_state (i : inputs) (s : regs) : state_t :=
  if ((timeout_cnt s =? TIMEOUT_CYCLES) || substate_error i) && working (state s) then ST_ERROR else advance i (state s).

Definition outs (s : regs) : outputs :=
  let at_ st := bool_decide (state s = st) in
  mkOutputs (at_ ST_VALVREF) (at_ ST_DATAVREF) (at_ ST_SPEEDIDLE) (at_ ST_TXSELFCAL) (at_ ST_RXCLKCAL)
    (at_ ST_VALTRAINCENTER) (at_ ST_VALTRAINVREF) (at_ ST_DATATRAINCENTER1) (at_ ST_DATATRAINVREF) (at_ ST_RXDESKEW)
    (at_ ST_DATATRAINCENTER2) (at_ ST_LINKSPEED) (at_ ST_REPAIR) (at_ ST_DONE) (at_ ST_ERROR).

Definition step (i : inputs) (s : regs) : regs :=
  mkRegs (next_state i s)
    (if working (state s) then if timeout_cnt s <? TIMEOUT_CYCLES then trunc 32 (timeout_cnt s + 1) else timeout_cnt s else 0).

Definition lphy_ltssm_mbtrain : circuit inputs regs outputs := {|
  reset := mkRegs ST_IDLE 0; out := λ _ s, outs s; tick := step |}.
End MbTrain.
End MbTrain.

(** ** lphy_ltssm_linkinit *)

Module LinkInit.
Inductive state_t := ST_IDLE | ST_WAIT_ADAPTER | ST_HANDSHAKE | ST_DONE | ST_ERROR.
#[global] Instance state_t_eq_dec : EqDecision state_t.
Proof. solve_decision. Defined.

Record inputs := mkInputs { en_linkinit : bool; lp_state_req : Z; rx_req_active : bool; rx_rsp_active : bool }.
Record regs := mkRegs {
  state : state_t; timeout_cnt : Z; sent_req_active : bool; sent_rsp_active : bool; rcvd_req_active : bool;
  rcvd_rsp_active : bool }.
Record outputs := mkOutputs {
  tx_req_active : bool; tx_rsp_active : bool; lfsr_reset : bool; clear_start_training : bool;
  exit_to_active : bool; exit_to_trainerror : bool }.

Definition working (st : state_t) : bool := match st with ST_IDLE | ST_DONE | ST_ERROR => false | _ => true end.

Section LinkInit.
Context (TIMEOUT_CYCLES : Z).

Definition advance (i : inputs) (s : regs) : state_t :=
  match state s with
  | ST_IDLE => if en_linkinit i then ST_WAIT_ADAPTER else ST_IDLE
  | ST_WAIT_ADAPTER => if lp_state_req i =? 1 then ST_HANDSHAKE else ST_WAIT_ADAPTER
  | ST_HANDSHAKE => if sent_req_active s && sent_rsp_active s && rcvd_rsp_active s then ST_DONE else ST_HANDSHAKE
  | ST_DONE => if en_linkinit i then ST_DONE else ST_IDLE
  | ST_ERROR => if en_linkinit i then ST_ERROR else ST_IDLE
  end.
Definition next_state (i : inputs) (s : regs) : state_t :=
  if (timeout_cnt s =? TIMEOUT_CYCLES) && working (state s) then ST_ERROR else advance i s.

Definition outs (i : inputs) (s : regs) : outputs :=
  let at_ st := bool_decide (state s = st) in
  mkOutputs (at_ ST_HANDSHAKE && negb (sent_req_active s))
    (at_ ST_HANDSHAKE && (rcvd_req_active s && negb (sent_rsp_active s)))
    (at_ ST_IDLE && en_linkinit i) (at_ ST_DONE) (at_ ST_DONE) (at_ ST_ERROR).

Definition step (i : inputs) (s : regs) : regs :=
  let o := outs i s in
  let latch b f := if bool_decide (state s = ST_IDLE) then false else b || f s in
  mkRegs (next_state i s)
    (if working (state s) then if timeout_cnt s <? TIMEOUT_CYCLES then trunc 32 (timeout_cnt s + 1) else timeout_cnt s else 0)
    (latch (tx_req_active o) sent_req_active) (latch (tx_rsp_active o) sent_rsp_active)
    (latch (rx_req_active i) rcvd_req_active) (latch (rx_rsp_active i) rcvd_rsp_active).

Definition lphy_ltssm_linkinit : circuit inputs regs outputs := {|
  reset := mkRegs ST_IDLE 0 false false false false; out := outs; tick := step |}.
End LinkInit.
End LinkInit.

(** ** State machines with a timeout *)

Inductive activity := Waiting | Working | Finished.

(** [T] is the timeout, [count] the counter, [exits] whether an exit is
    signalled. *)
Class Timed {I S O} (m : circuit I S O) (T : Z) := {
  enabled : I → bool;
  doing : S → activity;
  count : S → Z;
  exits : S → bool;
  timed_start i s : doing s = Waiting → enabled i = true → doing (tick m i s) = Working ∧ count (tick m i s) = 0;
  timed_work i s : doing s = Working → 0 ≤ count s ≤ T →
    doing (tick m i s) = Finished ∨
    (doing (tick m i s) = Working ∧ count s < T ∧ count (tick m i s) = count s + 1);
  timed_finished s : exits s = true → doing s = Finished;
  timed_hold i s : doing s = Finished → enabled i = true → doing (tick m i s) = Finished ∧ exits (tick m i s) = true;
  timed_stop i s : doing s = Waiting ∨ exits s = true → enabled i = false → doing (tick m i s) = Waiting
}.

Section Timed.
Context {I S O : Type} (m : circuit I S O) (T : Z) `{!Timed m T}.

(** Somewhere within the budget: idle, working with the counter that far, or finished. *)
Definition spent (k : Z) (s : S) : Prop :=
  (doing s = Working ∧ 0 ≤ count s ≤ T ∧ k ≤ count s) ∨ doing s = Finished.

Lemma spent_step k i s : enabled i = true → spent k s → spent (k + 1) (tick m i s).
Proof.
  intros Hi [(Hw & Hc & Hk)|Hf].
  - destruct (timed_work i s Hw Hc) as [Hf|(Hw' & Hlt & Hc')]; [by right|]. left. rewrite Hc'. split; [done|lia].
  - right. by apply timed_hold.
Qed.

Lemma spent_run k ins s : Forall (λ i, enabled i = true) ins → spent k s → spent (k + Z.of_nat (length ins)) (run m s ins).
Proof.
  intros Hi. revert k s. induction Hi as [|i ins Hi _ IH]; intros k s Hs; [by rewrite Z.add_0_r|].
  rewrite run_cons. cbn [length]. replace (k + Z.of_nat (Datatypes.S (length ins))) with (k + 1 + Z.of_nat (length ins)) by lia.
  apply IH. by apply spent_step.
Qed.

(** While enabled, the machine signals an exit after at most [T + 3] cycles. *)
Lemma timed_bound s ins :
  0 ≤ T → doing s = Waiting → Forall (λ i, enabled i = true) ins → T + 3 ≤ Z.of_nat (length ins) →
  exits (run m s ins) = true.
Proof.
  intros HT Hs Hi Hlen. destruct ins as [|i ins] using rev_ind; [cbn in Hlen; lia|]. clear IHins.
  apply Forall_app in Hi as [Hins [Hi _]%Forall_cons]. rewrite length_app in Hlen. cbn in Hlen. rewrite run_snoc.
  destruct ins as [|j ins]; [cbn in Hlen; lia|]. apply Forall_cons in Hins as [Hj Hins]. rewrite run_cons.
  destruct (timed_start j s Hs Hj) as [Hw Hc]. cbn [length] in Hlen.
  assert (spent 0 (tick m j s)) as H0 by (left; rewrite Hc; split; [done|lia]).
  destruct (spent_run 0 ins _ Hins H0) as [(_ & H1 & H2)|Hf]; [lia|]. by apply timed_hold.
Qed.
End Timed.

Create HintDb timed.

(** A step from a state in which the counter does not run. *)
Ltac at_rest :=
  cbn in *; repeat (progress (autounfold with timed; cbn)); rewrite ?andb_false_r;
  match goal with H : _ = _ |- _ => rewrite H; by repeat case_match end.

Section Machines.
Context (T : Z) (HT : 0 < T < 2 ^ 32).

Lemma count_step c : 0 ≤ c ≤ T → (c =? T) = false → (c <? T) = true ∧ trunc 32 (c + 1) = c + 1.
Proof. intros Hc Hne. apply Z.eqb_neq in Hne. split; [apply Z.ltb_lt; lia|]. unfold trunc. apply Z.mod_small. lia. Qed.

Definition mbinit_doing (s : MbInit.regs) : activity :=
  match MbInit.state s with MbInit.ST_IDLE => Waiting | MbInit.ST_DONE | MbInit.ST_ERROR => Finished | _ => Working end.
#[local] Hint Unfold MbInit.step MbInit.next_state mbinit_doing : timed.
#[global] Program Instance mbinit_timed : Timed (MbInit.lphy_ltssm_mbinit T) T := {|
  enabled := MbInit.en_mbinit;
  doing := mbinit_doing;
  count := MbInit.timeout_cnt;
  exits s := MbInit.exit_to_mbtrain (MbInit.outs s) || MbInit.exit_to_trainerror (MbInit.outs s) |}.
Next Obligation. intros i s Hd Hi. destruct s as [[] ?]; try done; at_rest. Qed.
Next Obligation.
  intros i [st c] Hd Hc. cbn in *. unfold MbInit.step, MbInit.next_state. cbn [MbInit.state MbInit.timeout_cnt].
  assert (MbInit.working st = true) as -> by by destruct st. rewrite andb_true_r.
  destruct (c =? T) eqn:HcT; [by left|]. destruct (count_step c Hc HcT) as [Hlt Htr]. rewrite Hlt, Htr.
  apply Z.ltb_lt in Hlt. destruct (MbInit.substate_error i); [by left|].
  destruct st; try done; cbn; repeat case_match; naive_solver.
Qed.
Next Obligation. intros s H. by destruct s as [[] ?]. Qed.
Next Obligation. intros i s Hd Hi. destruct s as [[] ?]; try done; at_rest. Qed.
Next Obligation. intros i s Hd Hi. destruct s as [[] ?], Hd; try done; at_rest. Qed.

Definition mbtrain_doing (s : MbTrain.regs) : activity :=
  match MbTrain.state s with MbTrain.ST_IDLE => Waiting | MbTrain.ST_DONE | MbTrain.ST_ERROR => Finished | _ => Working end.
#[local] Hint Unfold MbTrain.step MbTrain.next_state mbtrain_doing : timed.
#[global] Program Instance mbtrain_timed : Timed (MbTrain.lphy_ltssm_mbtrain T) T := {|
  enabled := MbTrain.en_mbtrain;
  doing := mbtrain_doing;
  count := MbTrain.timeout_cnt;
  exits s := MbTrain.exit_to_linkinit (MbTrain.outs s) || MbTrain.exit_to_trainerror (MbTrain.outs s) |}.
Next Obligation. intros i s Hd Hi. destruct s as [[] ?]; try done; at_rest. Qed.
Next Obligation.
  intros i [st c] Hd Hc. cbn in *. unfold MbTrain.step, MbTrain.next_state. cbn [MbTrain.state MbTrain.timeout_cnt].
  assert (MbTrain.working st = true) as -> by by destruct st. rewrite andb_true_r.
  destruct (c =? T) eqn:HcT; [by left|]. destruct (count_step c Hc HcT) as [Hlt Htr]. rewrite Hlt, Htr.
  apply Z.ltb_lt in Hlt. destruct (MbTrain.substate_error i); [by left|].
  destruct st; try done; cbn; repeat case_match; naive_solver.
Qed.
Next Obligation. intros s H. by destruct s as [[] ?]. Qed.
Next Obligation. intros i s Hd Hi. destruct s as [[] ?]; try done; at_rest. Qed.
Next Obligation. intros i s Hd Hi. destruct s as [[] ?], Hd; try done; at_rest. Qed.

Definition linkinit_doing (s : LinkInit.regs) : activity :=
  match LinkInit.state s with
  LinkInit.ST_IDLE => Waiting | LinkInit.ST_DONE | LinkInit.ST_ERROR => Finished | _ => Working end.
#[local] Hint Unfold LinkInit.step LinkInit.next_state linkinit_doing : timed.
#[global] Program Instance linkinit_timed : Timed (LinkInit.lphy_ltssm_linkinit T) T := {|
  enabled := LinkInit.en_linkinit;
  doing := linkinit_doing;
  count := LinkInit.timeout_cnt;
  exits s := bool_decide (LinkInit.state s = LinkInit.ST_DONE) || bool_decide (LinkInit.state s = LinkInit.ST_ERROR) |}.
Next Obligation. intros i s Hd Hi. destruct s as [[] ?]; try done; at_rest. Qed.
Next Obligation.
  intros i [st c a b d e] Hd Hc. cbn in *. unfold LinkInit.step, LinkInit.next_state. cbn [LinkInit.state LinkInit.timeout_cnt].
  assert (LinkInit.working st = true) as -> by by destruct st. rewrite andb_true_r.
  destruct (c =? T) eqn:HcT; [by left|]. destruct (count_step c Hc HcT) as [Hlt Htr]. rewrite Hlt, Htr.
  apply Z.ltb_lt in Hlt. destruct st; try done; cbn; repeat case_match; naive_solver.
Qed.
Next Obligation. intros s H. by destruct s as [[] ?]. Qed.
Next Obligation. intros i s Hd Hi. destruct s as [[] ?]; try done; at_rest. Qed.
Next Obligation. intros i s Hd Hi. destruct s as [[] ?], Hd; try done; at_rest. Qed.

(** An expired counter also holds back the exits of SBINIT, for one cycle. *)
Definition sbinit_doing (s : SbInit.regs) : activity :=
  match SbInit.state s with SbInit.ST_IDLE => Waiting | SbInit.ST_DONE | SbInit.ST_ERROR => Finished | _ => Working end.
Definition sbinit_exits (s : SbInit.regs) : bool :=
  negb (SbInit.expired T s) && match SbInit.state s with SbInit.ST_DONE | SbInit.ST_ERROR => true | _ => false end.
#[local] Hint Unfold SbInit.step SbInit.next_state SbInit.expired sbinit_doing sbinit_exits : timed.
#[global] Program Instance sbinit_timed : Timed (SbInit.lphy_ltssm_sbinit T) T := {|
  enabled := SbInit.en_sbinit;
  doing := sbinit_doing;
  count := SbInit.timeout_cnt;
  exits := sbinit_exits |}.
Next Obligation. intros i [st c w l] Hd Hi. destruct st; try done; at_rest. Qed.
Next Obligation.
  intros i [st c w l] Hd Hc. cbn in *. unfold SbInit.step, SbInit.next_state, SbInit.expired. cbn [SbInit.state SbInit.timeout_cnt].
  assert (SbInit.working st = true ∧ bool_decide (st ≠ SbInit.ST_IDLE) = true) as [-> ->] by by destruct st. rewrite andb_true_r.
  destruct (c =? T) eqn:HcT; [by left|]. destruct (count_step c Hc HcT) as [Hlt Htr]. rewrite Hlt, Htr.
  apply Z.ltb_lt in Hlt. destruct st; try done; cbn; repeat case_match; naive_solver.
Qed.
Next Obligation. intros s H. cbn in H. apply andb_prop in H as [_ H]. destruct s as [st ? ? ?]. by destruct st. Qed.
Next Obligation.
  intros i [st c w l] Hd Hi. cbn in *.
  destruct st; try done; repeat (progress (autounfold with timed; cbn)); rewrite ?andb_true_r, ?andb_false_r, Hi;
    destruct (c =? T), T; done || lia.
Qed.
Next Obligation.
  intros i [st c w l] Hd Hi. cbn in *. repeat (progress (autounfold with timed; cbn)).
  unfold sbinit_exits, SbInit.expired in Hd. cbn in Hd.
  destruct st, Hd as [Hd|Hd]; try done; cbn in *; rewrite ?andb_true_r, ?andb_false_r in *; rewrite ?Hi; try done.
  all: by destruct (c =? T).
Qed.
End Machines.
