(* ===== verification/PhyLtssm.v ===== *)
(** * The link state machine

    lphy_ltssm_active.sv, lphy_ltssm_pm.sv, lphy_ltssm_phyretrain.sv,
    lphy_ltssm_trainerror.sv, the orchestrator lphy_ltssm.sv and the adapter
    interface lphy_rdi_intf.sv. *)

From S2P Require Import Prelude Rtl PhyTraining.
#[local] Open Scope Z_scope.

(** The sideband messages of link management, one wire each: the [tx_*]
    outputs of one die are the [rx_*] inputs of the other. *)
Record messages := mkMessages {
  out_of_reset : bool; done_req : bool; done_resp : bool;
  req_active : bool; rsp_active : bool; req_l1 : bool; rsp_l1 : bool; req_l2 : bool; rsp_l2 : bool;
  req_linkreset : bool; rsp_linkreset : bool; req_disable : bool; rsp_disable : bool;
  req_retrain : bool; rsp_retrain : bool; req_linkerror : bool;
  trainerror_req : bool; trainerror_resp : bool;
  retrain_init_req : bool; retrain_init_resp : bool; retrain_start_req : bool; retrain_start_resp : bool;
  retrain_enc : Z }.

(** ** lphy_ltssm_active *)

Module Active.
Inductive state_t := ST_ACTIVE_STEADY | ST_WAIT_RSP | ST_EXITING.
#[global] Instance state_t_eq_dec : EqDecision state_t.
Proof. solve_decision. Defined.

Record inputs := mkInputs {
  en_active : bool; lp_state_req : Z; lp_linkerror : bool; rx : messages;
  internal_retrain_req : bool; internal_error_req : bool }.
Record regs := mkRegs { state : state_t; target_exit_state : Z }.

Definition DISABLE : Z := 0xC.
Definition LINKRESET : Z := 0x9.
Definition RETRAIN : Z := 0xB.
Definition L1 : Z := 0x4.
Definition L2 : Z := 0x8.

(** The target of the partner's request, then of the adapter's. *)
Definition remote_request (m : messages) : option Z :=
  if req_disable m then Some DISABLE else if req_linkreset m then Some LINKRESET
  else if req_retrain m then Some RETRAIN else if req_l1 m then Some L1 else if req_l2 m then Some L2 else None.
Definition local_request (i : inputs) : option Z :=
  if lp_state_req i =? DISABLE then Some DISABLE else if lp_state_req i =? LINKRESET then Some LINKRESET
  else if (lp_state_req i =? RETRAIN) || internal_retrain_req i then Some RETRAIN
  else if lp_state_req i =? L1 then Some L1 else if lp_state_req i =? L2 then Some L2 else None.
Definition granted (m : messages) (target : Z) : bool :=
  (target =? DISABLE) && rsp_disable m || (target =? LINKRESET) && rsp_linkreset m ||
  (target =? RETRAIN) && rsp_retrain m || (target =? L1) && rsp_l1 m || (target =? L2) && rsp_l2 m.
Definition fatal (i : inputs) : bool := lp_linkerror i || internal_error_req i || req_linkerror (rx i).

Definition next_state (i : inputs) (s : regs) : state_t :=
  if negb (en_active i) || fatal i then ST_ACTIVE_STEADY
  else match state s with
  | ST_ACTIVE_STEADY =>
      match remote_request (rx i) with
      | Some _ => ST_EXITING
      | None => match local_request i with Some _ => ST_WAIT_RSP | None => ST_ACTIVE_STEADY end
      end
  | ST_WAIT_RSP => if granted (rx i) (target_exit_state s) then ST_EXITING else ST_WAIT_RSP
  | ST_EXITING => ST_EXITING
  end.

Definition step (i : inputs) (s : regs) : regs :=
  mkRegs (next_state i s)
    (if negb (en_active i) then 0
     else match state s, remote_request (rx i), local_request i with
     | ST_ACTIVE_STEADY, Some t, _ => t
     | ST_ACTIVE_STEADY, None, Some t => t
     | _, _, _ => target_exit_state s
     end).

(** The exit that is signalled, by its target. *)
Definition exit_target (i : inputs) (s : regs) : option Z :=
  if negb (en_active i) || fatal i then None
  else match state s with
  | ST_ACTIVE_STEADY => remote_request (rx i)
  | ST_WAIT_RSP => if granted (rx i) (target_exit_state s) then Some (target_exit_state s) else None
  | ST_EXITING => Some (target_exit_state s)
  end.
Definition exit_to (t : Z) (i : inputs) (s : regs) : bool := bool_decide (exit_target i s = Some t).
Definition exit_to_trainerror (i : inputs) : bool := en_active i && fatal i.

(** The request and the response for a target that are sent. *)
Definition sends_req (t : Z) (i : inputs) (s : regs) : bool :=
  en_active i && negb (fatal i) && bool_decide (state s = ST_ACTIVE_STEADY ∧ remote_request (rx i) = None ∧ local_request i = Some t).
Definition sends_rsp (t : Z) (i : inputs) (s : regs) : bool :=
  en_active i && negb (fatal i) && bool_decide (state s = ST_ACTIVE_STEADY ∧ remote_request (rx i) = Some t).
Definition scrambling_en (i : inputs) : bool := en_active i.
Definition pl_state_sts (i : inputs) : Z := if en_active i then 1 else 0.

Definition lphy_ltssm_active : circuit inputs regs (option Z * bool) := {|
  reset := mkRegs ST_ACTIVE_STEADY 0; out := λ i s, (exit_target i s, exit_to_trainerror i); tick := step |}.
End Active.

(** ** lphy_ltssm_pm *)

Module Pm.
Inductive state_t := ST_IDLE | ST_L1 | ST_L2 | ST_WAKE_REQ | ST_EXITING.
#[global] Instance state_t_eq_dec : EqDecision state_t.
Proof. solve_decision. Defined.

Record inputs := mkInputs { en_l1 : bool; en_l2 : bool; lp_state_req : Z; rx_req_active : bool; rx_rsp_active : bool }.
Record regs := mkRegs { state : state_t; was_in_l2 : bool }.
Record outputs := mkOutputs {
  pl_state_sts : Z; tx_req_active : bool; tx_rsp_active : bool; exit_to_speedidle : bool; exit_to_reset : bool }.

Definition wake (i : inputs) (st : state_t) : state_t :=
  if rx_req_active i then ST_EXITING else if lp_state_req i =? 1 then ST_WAKE_REQ else st.
Definition next_state (i : inputs) (s : regs) : state_t :=
  match state s with
  | ST_IDLE => if en_l1 i then ST_L1 else if en_l2 i then ST_L2 else ST_IDLE
  | ST_L1 => wake i ST_L1
  | ST_L2 => wake i ST_L2
  | ST_WAKE_REQ => if rx_rsp_active i then ST_EXITING else ST_WAKE_REQ
  | ST_EXITING => if negb (en_l1 i) && negb (en_l2 i) then ST_IDLE else ST_EXITING
  end.
Definition outs (i : inputs) (s : regs) : outputs :=
  let asleep := match state s with ST_L1 | ST_L2 => true | _ => false end in
  mkOutputs
    (match state s with
     | ST_L1 => 0x4 | ST_L2 => 0x8 | ST_WAKE_REQ => if was_in_l2 s then 0x8 else 0x4 | ST_IDLE | ST_EXITING => 0 end)
    (asleep && negb (rx_req_active i) && (lp_state_req i =? 1)) (asleep && rx_req_active i)
    (bool_decide (state s = ST_EXITING) && negb (was_in_l2 s)) (bool_decide (state s = ST_EXITING) && was_in_l2 s).
Definition step (i : inputs) (s : regs) : regs :=
  mkRegs (next_state i s) (match state s with ST_L2 => true | ST_IDLE => false | _ => was_in_l2 s end).

Definition lphy_ltssm_pm : circuit inputs regs outputs := {| reset := mkRegs ST_IDLE false; out := outs; tick := step |}.
End Pm.

(** ** lphy_ltssm_phyretrain *)

Module PhyRetrain.
Inductive state_t :=
  ST_IDLE | ST_LOC_STALL | ST_LOC_INIT_REQ | ST_LOC_WAIT_RESP | ST_LOC_START_REQ | ST_LOC_WAIT_START
| ST_REM_STALL | ST_REM_INIT_RESP | ST_REM_WAIT_REQ | ST_REM_START_RESP | ST_DONE | ST_ERROR.
#[global] Instance state_t_eq_dec : EqDecision state_t.
Proof. solve_decision. Defined.

Record inputs := mkInputs {
  en_phyretrain : bool; local_retrain_trigger : bool; local_retrain_enc : Z; lp_stallack : bool; rx : messages }.
Record regs := mkRegs { state : state_t; timeout_cnt : Z; remote_enc_reg : Z }.
Record outputs := mkOutputs {
  pl_stallreq : bool; tx_retrain_init_req : bool; tx_retrain_init_resp : bool; tx_retrain_start_req : bool;
  tx_retrain_start_resp : bool; tx_retrain_enc : Z; rdi_to_retrain : bool; phy_in_retrain : bool;
  exit_to_txselfcal : bool; exit_to_speedidle : bool; exit_to_repair : bool; exit_to_trainerror : bool }.

Definition working (st : state_t) : bool := match st with ST_IDLE | ST_DONE | ST_ERROR => false | _ => true end.
Definition start (m : messages) : bool := retrain_start_req m || retrain_start_resp m.

(** The priority of the two encodings: 010 SPEEDIDLE, 100 REPAIR, 001 TXSELFCAL. *)
Definition resolve (local remote : Z) : Z :=
  if (local =? 2) || (remote =? 2) then 2 else if (local =? 4) || (remote =? 4) then 4 else 1.
Definition resolved_enc (i : inputs) (s : regs) : Z :=
  resolve (local_retrain_enc i) (if start (rx i) then retrain_enc (rx i) else remote_enc_reg s).

Section PhyRetrain.
Context (TIMEOUT_CYCLES : Z).

Definition advance (i : inputs) (st : state_t) : state_t :=
  match st with
  | ST_IDLE =>
      if en_phyretrain i then
        if local_retrain_trigger i then ST_LOC_STALL else if retrain_init_req (rx i) then ST_REM_STALL else ST_IDLE
      else ST_IDLE
  | ST_LOC_STALL => if lp_stallack i then ST_LOC_INIT_REQ else st
  | ST_LOC_INIT_REQ => ST_LOC_WAIT_RESP
  | ST_LOC_WAIT_RESP => if retrain_init_resp (rx i) || retrain_init_req (rx i) then ST_LOC_START_REQ else st
  | ST_LOC_START_REQ => ST_LOC_WAIT_START
  | ST_LOC_WAIT_START => if start (rx i) then ST_DONE else st
  | ST_REM_STALL => if lp_stallack i then ST_REM_INIT_RESP else st
  | ST_REM_INIT_RESP => ST_REM_WAIT_REQ
  | ST_REM_WAIT_REQ => if retrain_start_req (rx i) then ST_REM_START_RESP else st
  | ST_REM_START_RESP => ST_DONE
  | ST_DONE => if en_phyretrain i then ST_DONE else ST_IDLE
  | ST_ERROR => if en_phyretrain i then ST_ERROR else ST_IDLE
  end.
Definition next_state (i : inputs) (s : regs) : state_t :=
  if (timeout_cnt s =? TIMEOUT_CYCLES) && working (state s) then ST_ERROR else advance i (state s).

Definition outs (i : inputs) (s : regs) : outputs :=
  let at_ st := bool_decide (state s = st) in
  let cross := at_ ST_LOC_WAIT_START && retrain_start_req (rx i) in
  mkOutputs (negb (at_ ST_IDLE)) (at_ ST_LOC_INIT_REQ)
    (at_ ST_LOC_WAIT_RESP && retrain_init_req (rx i) || at_ ST_REM_INIT_RESP)
    (at_ ST_LOC_START_REQ) (cross || at_ ST_REM_START_RESP)
    (if at_ ST_LOC_START_REQ then local_retrain_enc i else if cross || at_ ST_REM_START_RESP then resolved_enc i s else 0)
    (match state s with
     | ST_LOC_START_REQ | ST_LOC_WAIT_START | ST_REM_INIT_RESP | ST_REM_WAIT_REQ | ST_REM_START_RESP | ST_DONE => true
     | _ => false end)
    (en_phyretrain i)
    (at_ ST_DONE && negb (resolved_enc i s =? 2) && negb (resolved_enc i s =? 4))
    (at_ ST_DONE && (resolved_enc i s =? 2))
    (at_ ST_DONE && negb (resolved_enc i s =? 2) && (resolved_enc i s =? 4))
    (at_ ST_ERROR).

Definition step (i : inputs) (s : regs) : regs :=
  mkRegs (next_state i s)
    (if bool_decide (state s ≠ next_state i s) then 0
     else if working (state s) then
       if timeout_cnt s <? TIMEOUT_CYCLES then trunc 32 (timeout_cnt s + 1) else timeout_cnt s
     else timeout_cnt s)
    (if start (rx i) then retrain_enc (rx i) else remote_enc_reg s).

Definition lphy_ltssm_phyretrain : circuit inputs regs outputs := {|
  reset := mkRegs ST_IDLE 0 1; out := outs; tick := step |}.
End PhyRetrain.
End PhyRetrain.

(** ** lphy_ltssm_trainerror *)

Module TrainError.
Inductive state_t := ST_IDLE | ST_SEND_REQ | ST_WAIT_RESP | ST_SEND_RESP | ST_WAIT_RDI | ST_DONE.
#[global] Instance state_t_eq_dec : EqDecision state_t.
Proof. solve_decision. Defined.

Record inputs := mkInputs { en_trainerror : bool; rx_trainerror_req : bool; rx_trainerror_resp : bool; rdi_in_linkerror : bool }.
Record regs := mkRegs { state : state_t; timeout_cnt : Z; rcvd_req : bool; rcvd_resp : bool }.
Record outputs := mkOutputs { tx_trainerror_req : bool; tx_trainerror_resp : bool; exit_to_reset : bool }.

Section TrainError.
Context (TIMEOUT_CYCLES : Z).

(** A response has come, or the time is up. *)
Definition answered (i : inputs) (s : regs) : bool :=
  rx_trainerror_resp i || rcvd_resp s || (timeout_cnt s =? TIMEOUT_CYCLES).
Definition requested (i : inputs) (s : regs) : bool := rx_trainerror_req i || rcvd_req s.

Definition next_state (i : inputs) (s : regs) : state_t :=
  match state s with
  | ST_IDLE => if en_trainerror i then if requested i s then ST_SEND_RESP else ST_SEND_REQ else ST_IDLE
  | ST_SEND_REQ => ST_WAIT_RESP
  | ST_WAIT_RESP => if answered i s || requested i s then ST_WAIT_RDI else ST_WAIT_RESP
  | ST_SEND_RESP => ST_WAIT_RDI
  | ST_WAIT_RDI => if rdi_in_linkerror i then ST_WAIT_RDI else ST_DONE
  | ST_DONE => if en_trainerror i then ST_DONE else ST_IDLE
  end.
Definition outs (i : inputs) (s : regs) : outputs :=
  let at_ st := bool_decide (state s = st) in
  mkOutputs (at_ ST_SEND_REQ) (at_ ST_SEND_RESP || at_ ST_WAIT_RESP && negb (answered i s) && requested i s) (at_ ST_DONE).
Definition step (i : inputs) (s : regs) : regs :=
  let back := bool_decide (state s ≠ ST_IDLE ∧ next_state i s = ST_IDLE) in
  mkRegs (next_state i s)
    (if bool_decide (state s = ST_WAIT_RESP) then
       if timeout_cnt s <? TIMEOUT_CYCLES then trunc 32 (timeout_cnt s + 1) else timeout_cnt s
     else 0)
    (if back then false else rx_trainerror_req i || rcvd_req s) (if back then false else rx_trainerror_resp i || rcvd_resp s).

Definition lphy_ltssm_trainerror : circuit inputs regs outputs := {|
  reset := mkRegs ST_IDLE 0 false false; out := outs; tick := step |}.
End TrainError.
End TrainError.

(** ** lphy_ltssm *)

Module Ltssm.
Inductive ltssm_state_t :=
  ST_RESET | ST_SBINIT | ST_MBINIT | ST_MBTRAIN | ST_LINKINIT | ST_ACTIVE | ST_L1 | ST_L2 | ST_PHYRETRAIN
| ST_TRAINERROR | ST_LINKRESET | ST_DISABLED.
#[global] Instance ltssm_state_t_eq_dec : EqDecision ltssm_state_t.
Proof. solve_decision. Defined.

(** The timeouts, in cycles. *)
Record parameters := mkParameters {
  RESET_TIMER_CYCLES : Z; SBINIT_TIMEOUT : Z; MBINIT_TIMEOUT : Z; MBTRAIN_TIMEOUT : Z; LINKINIT_TIMEOUT : Z;
  PHYRETRAIN_TIMEOUT : Z; TRAINERROR_TIMEOUT : Z }.

(** [mb] and [trn] carry the done inputs of MBINIT and MBTRAIN; their enables and
    package types are not read. *)
Record inputs := mkInputs {
  start_link_training : bool; lp_state_req : Z; lp_linkerror : bool; lp_stallack : bool;
  power_stable : bool; sb_clk_stable : bool; mb_clk_stable : bool; mb_clk_slow : bool; soc_reset_n : bool;
  package_type : bool; rx_pattern_detected : Z; rx : messages;
  mb : MbInit.inputs; trn : MbTrain.inputs; cal_error : bool; is_unrepairable : bool;
  internal_retrain_req : bool; internal_error_req : bool; local_retrain_enc : Z }.

Record regs := mkRegs {
  state : ltssm_state_t; repair_en : bool;
  u_reset : LtReset.regs; u_sbinit : SbInit.regs; u_mbinit : MbInit.regs; u_mbtrain : MbTrain.regs;
  u_linkinit : LinkInit.regs; u_active : Active.regs; u_pm : Pm.regs; u_phyretrain : PhyRetrain.regs;
  u_trainerror : TrainError.regs }.

Section Ltssm.
Context (p : parameters).

Definition en (st : ltssm_state_t) (s : regs) : bool := bool_decide (state s = st).

(** What each sub-module is given. *)
Definition reset_in (i : inputs) (s : regs) : LtReset.inputs :=
  LtReset.mkInputs (power_stable i) (sb_clk_stable i) (mb_clk_stable i) (mb_clk_slow i) (soc_reset_n i)
    (start_link_training i) (en ST_RESET s).
Definition sbinit_in (i : inputs) (s : regs) : SbInit.inputs :=
  SbInit.mkInputs (en ST_SBINIT s) (package_type i) (rx_pattern_detected i) (out_of_reset (rx i)) (done_req (rx i)) (done_resp (rx i)).
Definition mbinit_in (i : inputs) (s : regs) : MbInit.inputs :=
  let m := mb i in
  MbInit.mkInputs (en ST_MBINIT s) (package_type i) (MbInit.param_done m) (MbInit.cal_done m) (MbInit.repairclk_done m)
    (MbInit.repairval_done m) (MbInit.reversal_done m) (MbInit.repairmb_done m) (is_unrepairable i).
Definition mbtrain_in (i : inputs) (s : regs) : MbTrain.inputs :=
  let t := trn i in
  MbTrain.mkInputs (en ST_MBTRAIN s) (package_type i) (MbTrain.valvref_done t) (MbTrain.datavref_done t)
    (MbTrain.speedidle_done t) (MbTrain.txselfcal_done t) (MbTrain.rxclkcal_done t) (MbTrain.valtraincenter_done t)
    (MbTrain.valtrainvref_done t) (MbTrain.datatraincenter1_done t) (MbTrain.datatrainvref_done t) (MbTrain.rxdeskew_done t)
    (MbTrain.datatraincenter2_done t) (MbTrain.linkspeed_done t) (MbTrain.linkspeed_error t) (MbTrain.needs_repair t)
    (MbTrain.needs_speed_degrade t) (MbTrain.repair_done t) (cal_error i).
Definition linkinit_in (i : inputs) (s : regs) : LinkInit.inputs :=
  LinkInit.mkInputs (en ST_LINKINIT s) (lp_state_req i) (req_active (rx i)) (rsp_active (rx i)).
Definition active_in (i : inputs) (s : regs) : Active.inputs :=
  Active.mkInputs (en ST_ACTIVE s) (lp_state_req i) (lp_linkerror i) (rx i) (internal_retrain_req i) (internal_error_req i).
Definition pm_in (i : inputs) (s : regs) : Pm.inputs :=
  Pm.mkInputs (en ST_L1 s) (en ST_L2 s) (lp_state_req i) (req_active (rx i)) (rsp_active (rx i)).
Definition retrain_in (i : inputs) (s : regs) : PhyRetrain.inputs :=
  PhyRetrain.mkInputs (en ST_PHYRETRAIN s) (internal_retrain_req i) (local_retrain_enc i) (lp_stallack i) (rx i).
Definition error_in (i : inputs) (s : regs) : TrainError.inputs :=
  TrainError.mkInputs (en ST_TRAINERROR s) (trainerror_req (rx i)) (trainerror_resp (rx i)) (lp_linkerror i).

(** The outputs of the sub-modules. *)
Definition sb_out (i : inputs) (s : regs) := SbInit.outs (SBINIT_TIMEOUT p) (sbinit_in i s) (u_sbinit s).
Definition mb_out (s : regs) := MbInit.outs (u_mbinit s).
Definition trn_out (s : regs) := MbTrain.outs (u_mbtrain s).
Definition lnk_out (i : inputs) (s : regs) := LinkInit.outs (linkinit_in i s) (u_linkinit s).
Definition pm_out (i : inputs) (s : regs) := Pm.outs (pm_in i s) (u_pm s).
Definition ret_out (i : inputs) (s : regs) := PhyRetrain.outs (retrain_in i s) (u_phyretrain s).
Definition err_out (i : inputs) (s : regs) := TrainError.outs (TRAINERROR_TIMEOUT p) (error_in i s) (u_trainerror s).

Definition next_state (i : inputs) (s : regs) : ltssm_state_t :=
  match state s with
  | ST_RESET => if LtReset.exit_to_sbinit (u_reset s) then ST_SBINIT else ST_RESET
  | ST_SBINIT =>
      if SbInit.exit_to_mbinit (sb_out i s) then ST_MBINIT
      else if SbInit.exit_to_trainerror (sb_out i s) then ST_TRAINERROR else ST_SBINIT
  | ST_MBINIT =>
      if MbInit.exit_to_mbtrain (mb_out s) then ST_MBTRAIN
      else if MbInit.exit_to_trainerror (mb_out s) then ST_TRAINERROR else ST_MBINIT
  | ST_MBTRAIN =>
      if MbTrain.exit_to_linkinit (trn_out s) then ST_LINKINIT
      else if MbTrain.exit_to_trainerror (trn_out s) then ST_TRAINERROR else ST_MBTRAIN
  | ST_LINKINIT =>
      if LinkInit.exit_to_active (lnk_out i s) then ST_ACTIVE
      else if LinkInit.exit_to_trainerror (lnk_out i s) then ST_TRAINERROR else ST_LINKINIT
  | ST_ACTIVE =>
      let ex t := Active.exit_to t (active_in i s) (u_active s) in
      if Active.exit_to_trainerror (active_in i s) then ST_TRAINERROR
      else if ex Active.DISABLE then ST_DISABLED else if ex Active.LINKRESET then ST_LINKRESET
      else if ex Active.RETRAIN then ST_PHYRETRAIN else if ex Active.L1 then ST_L1 else if ex Active.L2 then ST_L2
      else ST_ACTIVE
  | ST_L1 => if Pm.exit_to_speedidle (pm_out i s) then ST_MBTRAIN else ST_L1
  | ST_L2 => if Pm.exit_to_reset (pm_out i s) then ST_RESET else ST_L2
  | ST_PHYRETRAIN =>
      let o := ret_out i s in
      if PhyRetrain.exit_to_txselfcal o || PhyRetrain.exit_to_speedidle o || PhyRetrain.exit_to_repair o then ST_MBTRAIN
      else if PhyRetrain.exit_to_trainerror o then ST_TRAINERROR else ST_PHYRETRAIN
  | ST_TRAINERROR => if TrainError.exit_to_reset (err_out i s) then ST_RESET else ST_TRAINERROR
  | ST_LINKRESET => if lp_state_req i =? 1 then ST_RESET else ST_LINKRESET
  | ST_DISABLED => if lp_state_req i =? 1 then ST_RESET else ST_DISABLED
  end.

Definition step (i : inputs) (s : regs) : regs :=
  mkRegs (next_state i s)
    (if en ST_RESET s then false else if MbInit.exit_to_mbtrain (mb_out s) then true else repair_en s)
    (LtReset.step (RESET_TIMER_CYCLES p) (reset_in i s) (u_reset s))
    (SbInit.step (SBINIT_TIMEOUT p) (sbinit_in i s) (u_sbinit s))
    (MbInit.step (MBINIT_TIMEOUT p) (mbinit_in i s) (u_mbinit s))
    (MbTrain.step (MBTRAIN_TIMEOUT p) (mbtrain_in i s) (u_mbtrain s))
    (LinkInit.step (LINKINIT_TIMEOUT p) (linkinit_in i s) (u_linkinit s))
    (Active.step (active_in i s) (u_active s))
    (Pm.step (pm_in i s) (u_pm s))
    (PhyRetrain.step (PHYRETRAIN_TIMEOUT p) (retrain_in i s) (u_phyretrain s))
    (TrainError.step (TRAINERROR_TIMEOUT p) (error_in i s) (u_trainerror s)).

Definition pl_state_sts (i : inputs) (s : regs) : Z :=
  match state s with
  | ST_ACTIVE => Active.pl_state_sts (active_in i s)
  | ST_L1 | ST_L2 => Pm.pl_state_sts (pm_out i s)
  | ST_PHYRETRAIN => 0xB
  | ST_TRAINERROR => 0xA
  | ST_LINKRESET => 0x9
  | ST_DISABLED => 0xC
  | ST_RESET | ST_SBINIT | ST_MBINIT | ST_MBTRAIN | ST_LINKINIT => 0
  end.
Definition pl_inband_pres (s : regs) : bool :=
  match state s with ST_LINKINIT | ST_ACTIVE | ST_L1 | ST_L2 | ST_PHYRETRAIN => true | _ => false end.
Definition scrambler_en (i : inputs) (s : regs) : bool := Active.scrambling_en (active_in i s).
Definition tx_training_en (s : regs) : bool :=
  match state s with ST_SBINIT | ST_MBINIT | ST_MBTRAIN | ST_LINKINIT | ST_PHYRETRAIN => true | _ => false end.

(** The messages sent. *)
Definition tx (i : inputs) (s : regs) : messages :=
  let req t := Active.sends_req t (active_in i s) (u_active s) in
  let rsp t := Active.sends_rsp t (active_in i s) (u_active s) in
  mkMessages (SbInit.tx_msg_out_of_reset (sb_out i s)) (SbInit.tx_msg_done_req (sb_out i s)) (SbInit.tx_msg_done_resp (sb_out i s))
    (LinkInit.tx_req_active (lnk_out i s) || Pm.tx_req_active (pm_out i s))
    (LinkInit.tx_rsp_active (lnk_out i s) || Pm.tx_rsp_active (pm_out i s))
    (req Active.L1) (rsp Active.L1) (req Active.L2) (rsp Active.L2)
    (req Active.LINKRESET) (rsp Active.LINKRESET) (req Active.DISABLE) (rsp Active.DISABLE)
    (req Active.RETRAIN) (rsp Active.RETRAIN) (Active.exit_to_trainerror (active_in i s))
    (TrainError.tx_trainerror_req (err_out i s)) (TrainError.tx_trainerror_resp (err_out i s))
    (PhyRetrain.tx_retrain_init_req (ret_out i s)) (PhyRetrain.tx_retrain_init_resp (ret_out i s))
    (PhyRetrain.tx_retrain_start_req (ret_out i s)) (PhyRetrain.tx_retrain_start_resp (ret_out i s))
    (PhyRetrain.tx_retrain_enc (ret_out i s)).

Definition lphy_ltssm : circuit inputs regs (Z * bool * messages) := {|
  reset := mkRegs ST_RESET false (reset (LtReset.lphy_ltssm_reset (RESET_TIMER_CYCLES p)))
    (reset (SbInit.lphy_ltssm_sbinit (SBINIT_TIMEOUT p))) (reset (MbInit.lphy_ltssm_mbinit (MBINIT_TIMEOUT p)))
    (reset (MbTrain.lphy_ltssm_mbtrain (MBTRAIN_TIMEOUT p))) (reset (LinkInit.lphy_ltssm_linkinit (LINKINIT_TIMEOUT p)))
    (reset Active.lphy_ltssm_active) (reset Pm.lphy_ltssm_pm)
    (reset (PhyRetrain.lphy_ltssm_phyretrain (PHYRETRAIN_TIMEOUT p)))
    (reset (TrainError.lphy_ltssm_trainerror (TRAINERROR_TIMEOUT p)));
  out := λ i s, (pl_state_sts i s, pl_inband_pres s, tx i s);
  tick := step |}.
End Ltssm.
End Ltssm.

(** ** lphy_rdi_intf *)

Module Rdi.
Record regs := mkRegs { wake_req_q1 : bool; wake_req_q2 : bool; stallreq_q : bool; stallack_q : bool }.
Record inputs := mkInputs { lp_wake_req : bool; internal_stallreq : bool; lp_stallack : bool }.

Definition internal_start_link_training (internal_pl_state_sts lp_state_req : Z) : bool :=
  (internal_pl_state_sts =? 0) && (lp_state_req =? 1).
(** (pl_wake_ack, pl_stallreq, internal_stallack). *)
Definition lphy_rdi_intf : circuit inputs regs (bool * bool * bool) := {|
  reset := mkRegs false false false false;
  out := λ _ s, (wake_req_q2 s, stallreq_q s, stallack_q s);
  tick := λ i s, mkRegs (lp_wake_req i) (wake_req_q1 s) (internal_stallreq i) (lp_stallack i) |}.
End Rdi.
