(* ===== verification/PhyLinkUp.v ===== *)
(** * Training ends

    The link state machine from RESET: the hold time, and a bound on the cycles
    until it is in ACTIVE or TRAINERROR. *)

From S2P Require Import Prelude Rtl PhyTraining PhyLtssm.
#[local] Open Scope Z_scope.

(** ** The hold time *)

Section Hold.
Import LtReset.
Context (N : Z) (HN : 0 ≤ N < 2 ^ 32 - 1).

(** The length of the last stretch of cycles with stable power and clocks and
    without a reset from the SoC. *)
Definition steady (i : inputs) : bool := soc_reset_n i && stable i.
Fixpoint stretch (ins : list inputs) (n : Z) : Z :=
  match ins with [] => n | i :: ins' => stretch ins' (if steady i then n + 1 else 0) end.

Definition held (n : Z) (s : regs) : Prop := 0 ≤ timer_4ms s ≤ N ∧ timer_4ms s ≤ n ∧ (timer_done s = true → N + 1 ≤ n).

Lemma held_step i n s : held n s → held (if steady i then n + 1 else 0) (step N i s).
Proof.
  intros (Ht & Hn & Hd). unfold held, step, step_timer, steady. destruct (soc_reset_n i); cbn; [|lia].
  destruct (stable i); cbn; [|lia]. destruct (Z.ltb_spec (timer_4ms s) N); cbn.
  - unfold trunc. rewrite Z.mod_small by lia. lia.
  - destruct (reset_reentry i s); lia.
Qed.

Lemma stretch_snoc ins i n : stretch (ins ++ [i]) n = if steady i then stretch ins n + 1 else 0.
Proof. revert n. induction ins as [|j ins IH]; intros n; [done|]. cbn. apply IH. Qed.

Lemma held_run ins : held (stretch ins 0) (run (lphy_ltssm_reset N) (reset (lphy_ltssm_reset N)) ins).
Proof.
  induction ins as [|i ins IH] using rev_ind; [unfold held; cbn; lia|]. rewrite run_snoc, stretch_snoc. by apply held_step.
Qed.

(** RESET is not left before power and clocks have been
    stable, and the SoC's reset released, for more than the hold time. *)
Theorem hold_enforced ins i :
  exit_to_sbinit (run (lphy_ltssm_reset N) (reset (lphy_ltssm_reset N)) (ins ++ [i])) = true →
  N + 1 ≤ stretch ins 0 ∧ soc_reset_n i = true ∧ mb_clk_slow i = true ∧ start_link_training i = true.
Proof.
  rewrite run_snoc. pose proof (held_run ins) as (_ & _ & Hd). set (s := run _ _ ins) in *. cbn. unfold step.
  destruct (step_timer N i s). cbn. unfold leaves. intros H. repeat (apply andb_prop in H as [H ?]). auto.
Qed.
End Hold.

(** ** Training *)

Section Rank.
Context {I S O : Type} (m : circuit I S O) (T : Z) `{!Timed m T}.

(** The cycles until a machine that stays enabled has been left. *)
Definition rank (s : S) : Z :=
  match doing s with Waiting => T + 4 | Working => T - count s + 3 | Finished => if exits s then 1 else 2 end.
Definition counting (s : S) : Prop := doing s = Working → 0 ≤ count s ≤ T.

Lemma rank_pos s : 0 ≤ T → counting s → 1 ≤ rank s.
Proof. unfold rank, counting. destruct (doing s); intros; [lia| |case_match; lia]. specialize (H0 eq_refl). lia. Qed.

Lemma rank_max s : 0 ≤ T → counting s → rank s ≤ T + 4.
Proof. unfold rank, counting. destruct (doing s); intros; [lia| |case_match; lia]. specialize (H0 eq_refl). lia. Qed.

Lemma rank_step i s :
  0 ≤ T → counting s → enabled i = true → exits s = false →
  rank (tick m i s) ≤ rank s - 1 ∧ counting (tick m i s).
Proof.
  intros HT Hc Hi He. unfold rank, counting in *. destruct (doing s) eqn:Hd.
  - destruct (timed_start i s Hd Hi) as [-> ->]. split; [lia|intros; lia].
  - specialize (Hc eq_refl). destruct (timed_work i s Hd Hc) as [->|(-> & Hlt & ->)].
    + split; [case_match; lia|done].
    + split; [lia|intros; lia].
  - rewrite He. destruct (timed_hold i s Hd Hi) as [-> ->]. split; [lia|done].
Qed.
End Rank.

Section Phase.
Context {I S O : Type} (m : circuit I S O) (T : Z) `{!Timed m T}.

(** A sub-machine, [on] while its state is the master's. *)
Definition phase (on : bool) (s : S) : Prop :=
  counting m T s ∧ (on = false → doing s = Waiting ∨ exits s = true).

Lemma phase_step i s on' :
  0 ≤ T → phase (enabled i) s → (enabled i = true → on' = false → exits s = true) →
  phase on' (tick m i s) ∧ (enabled i = false → doing (tick m i s) = Waiting).
Proof.
  intros HT [Hc Hoff] Hleave. destruct (enabled i) eqn:Hi.
  - split; [|done]. destruct (exits s) eqn:He.
    + destruct (timed_hold i s (timed_finished s He) Hi) as [Hd' He']. split; [unfold counting; by rewrite Hd'|by right].
    + split; [by apply (rank_step m T i s)|]. intros ->. by specialize (Hleave eq_refl eq_refl).
  - assert (doing (tick m i s) = Waiting) as Hw by (apply timed_stop; auto).
    split; [split; [unfold counting; by rewrite Hw|by left]|done].
Qed.
End Phase.

Record bounded (p : Ltssm.parameters) : Prop := {
  hold_bound : 0 ≤ Ltssm.RESET_TIMER_CYCLES p < 2 ^ 32 - 1;
  sb_bound : 0 < Ltssm.SBINIT_TIMEOUT p < 2 ^ 32;
  mb_bound : 0 < Ltssm.MBINIT_TIMEOUT p < 2 ^ 32;
  trn_bound : 0 < Ltssm.MBTRAIN_TIMEOUT p < 2 ^ 32;
  lnk_bound : 0 < Ltssm.LINKINIT_TIMEOUT p < 2 ^ 32
}.

Section Training.
Import Ltssm.
Context (p : parameters) (Hp : bounded p).

#[local] Instance sb_machine : Timed (SbInit.lphy_ltssm_sbinit (SBINIT_TIMEOUT p)) (SBINIT_TIMEOUT p) := sbinit_timed _ (sb_bound p Hp).
#[local] Instance mb_machine : Timed (MbInit.lphy_ltssm_mbinit (MBINIT_TIMEOUT p)) (MBINIT_TIMEOUT p) := mbinit_timed _ (mb_bound p Hp).
#[local] Instance trn_machine : Timed (MbTrain.lphy_ltssm_mbtrain (MBTRAIN_TIMEOUT p)) (MBTRAIN_TIMEOUT p) := mbtrain_timed _ (trn_bound p Hp).
#[local] Instance lnk_machine : Timed (LinkInit.lphy_ltssm_linkinit (LINKINIT_TIMEOUT p)) (LINKINIT_TIMEOUT p) := linkinit_timed _ (lnk_bound p Hp).
#[local] Abbreviation SB := (SbInit.lphy_ltssm_sbinit (SBINIT_TIMEOUT p)).
#[local] Abbreviation MB := (MbInit.lphy_ltssm_mbinit (MBINIT_TIMEOUT p)).
#[local] Abbreviation TRN := (MbTrain.lphy_ltssm_mbtrain (MBTRAIN_TIMEOUT p)).
#[local] Abbreviation LNK := (LinkInit.lphy_ltssm_linkinit (LINKINIT_TIMEOUT p)).

(** The invariant of the orchestrator: a sub-machine that is not enabled is idle,
    or has just signalled its exit. *)
Record orderly (s : regs) : Prop := {
  ord_timer : 0 ≤ LtReset.timer_4ms (u_reset s) ≤ RESET_TIMER_CYCLES p;
  ord_sb : phase SB _ (en ST_SBINIT s) (u_sbinit s);
  ord_mb : phase MB _ (en ST_MBINIT s) (u_mbinit s);
  ord_trn : phase TRN _ (en ST_MBTRAIN s) (u_mbtrain s);
  ord_lnk : phase LNK _ (en ST_LINKINIT s) (u_linkinit s)
}.

Lemma orderly_reset : orderly (reset (lphy_ltssm p)).
Proof. destruct (hold_bound p Hp). split; [cbn; lia|..]; (split; [done|by left]). Qed.

(** The exits of the sub-machines, as the orchestrator reads them. *)
Lemma sb_exits i s :
  exits (m := SB) (u_sbinit s) = SbInit.exit_to_mbinit (sb_out p i s) || SbInit.exit_to_trainerror (sb_out p i s).
Proof.
  cbn. unfold sbinit_exits, sb_out, SbInit.outs. cbn. destruct (SbInit.expired _ _); [done|]. by destruct (SbInit.state (u_sbinit s)).
Qed.
Lemma mb_exits s : exits (m := MB) (u_mbinit s) = MbInit.exit_to_mbtrain (mb_out s) || MbInit.exit_to_trainerror (mb_out s).
Proof. done. Qed.
Lemma trn_exits s : exits (m := TRN) (u_mbtrain s) = MbTrain.exit_to_linkinit (trn_out s) || MbTrain.exit_to_trainerror (trn_out s).
Proof. done. Qed.
Lemma lnk_exits i s :
  exits (m := LNK) (u_linkinit s) = LinkInit.exit_to_active (lnk_out i s) || LinkInit.exit_to_trainerror (lnk_out i s).
Proof. done. Qed.

Lemma held_off st i s : (en st (step p i s) = false → next_state p i s ≠ st).
Proof. unfold en, step. cbn. by intros ?%bool_decide_eq_false. Qed.

Lemma orderly_step i s :
  orderly s →
  orderly (step p i s) ∧
  (en ST_SBINIT s = false → doing (m := SB) (u_sbinit (step p i s)) = Waiting) ∧
  (en ST_MBINIT s = false → doing (m := MB) (u_mbinit (step p i s)) = Waiting) ∧
  (en ST_MBTRAIN s = false → doing (m := TRN) (u_mbtrain (step p i s)) = Waiting) ∧
  (en ST_LINKINIT s = false → doing (m := LNK) (u_linkinit (step p i s)) = Waiting).
Proof.
  intros [Ht H1 H2 H3 H4]. destruct Hp as [Hh B1 B2 B3 B4].
  destruct (phase_step SB _ (sbinit_in i s) (u_sbinit s) (en ST_SBINIT (step p i s))) as [S1 W1]; [lia|done| |].
  { intros He Hl%held_off. cbn in He. apply bool_decide_eq_true in He. rewrite (sb_exits i s). unfold next_state in Hl. rewrite He in Hl. by repeat case_match. }
  destruct (phase_step MB _ (mbinit_in i s) (u_mbinit s) (en ST_MBINIT (step p i s))) as [S2 W2]; [lia|done| |].
  { intros He Hl%held_off. cbn in He. apply bool_decide_eq_true in He. rewrite mb_exits. unfold next_state in Hl. rewrite He in Hl. by repeat case_match. }
  destruct (phase_step TRN _ (mbtrain_in i s) (u_mbtrain s) (en ST_MBTRAIN (step p i s))) as [S3 W3]; [lia|done| |].
  { intros He Hl%held_off. cbn in He. apply bool_decide_eq_true in He. rewrite trn_exits. unfold next_state in Hl. rewrite He in Hl. by repeat case_match. }
  destruct (phase_step LNK _ (linkinit_in i s) (u_linkinit s) (en ST_LINKINIT (step p i s))) as [S4 W4]; [lia|done| |].
  { intros He Hl%held_off. cbn in He. apply bool_decide_eq_true in He. rewrite (lnk_exits i s). unfold next_state in Hl. rewrite He in Hl. by repeat case_match. }
  split_and!; [|done..]. split; [|done..]. cbn. unfold LtReset.step, LtReset.step_timer. cbn.
  repeat case_match; cbn; simplify_eq; try lia; bool_to_prop; unfold trunc; rewrite Z.mod_small; lia.
Qed.

(** Power and clocks are stable, nothing resets the PHY, and the adapter asks for
    the link. *)
Definition ready (i : inputs) : Prop :=
  power_stable i = true ∧ sb_clk_stable i = true ∧ mb_clk_stable i = true ∧ mb_clk_slow i = true ∧
  soc_reset_n i = true ∧ start_link_training i = true.

Definition reset_rank (s : LtReset.regs) : Z :=
  if LtReset.exit_to_sbinit s then 1 else if LtReset.timer_done s then 2
  else RESET_TIMER_CYCLES p - LtReset.timer_4ms s + 3.

Lemma reset_rank_step i s :
  ready i → 0 ≤ LtReset.timer_4ms (u_reset s) ≤ RESET_TIMER_CYCLES p → LtReset.exit_to_sbinit (u_reset s) = false →
  reset_rank (u_reset (step p i s)) ≤ reset_rank (u_reset s) - 1.
Proof.
  intros (H1 & H2 & H3 & H4 & H5 & H6) Ht He. destruct (hold_bound p Hp). unfold reset_rank. rewrite He.
  cbn. unfold LtReset.step, LtReset.step_timer, LtReset.leaves, LtReset.stable. cbn. rewrite H1, H2, H3, H4, H5, H6. cbn.
  destruct (Z.ltb_spec (LtReset.timer_4ms (u_reset s)) (RESET_TIMER_CYCLES p)); cbn;
    destruct (LtReset.timer_done (u_reset s)); cbn; try lia.
  unfold trunc. rewrite Z.mod_small; lia.
Qed.

(** What is left of training, in cycles. *)
Definition training_time : Z := SBINIT_TIMEOUT p + MBINIT_TIMEOUT p + MBTRAIN_TIMEOUT p + LINKINIT_TIMEOUT p + 16.
Definition budget (s : regs) : Z :=
  match state s with
  | ST_RESET => reset_rank (u_reset s) + training_time
  | ST_SBINIT => rank SB _ (u_sbinit s) + (MBINIT_TIMEOUT p + 4) + (MBTRAIN_TIMEOUT p + 4) + (LINKINIT_TIMEOUT p + 4)
  | ST_MBINIT => rank MB _ (u_mbinit s) + (MBTRAIN_TIMEOUT p + 4) + (LINKINIT_TIMEOUT p + 4)
  | ST_MBTRAIN => rank TRN _ (u_mbtrain s) + (LINKINIT_TIMEOUT p + 4)
  | ST_LINKINIT => rank LNK _ (u_linkinit s)
  | _ => 0
  end.
Definition training (s : regs) : bool :=
  match state s with ST_RESET | ST_SBINIT | ST_MBINIT | ST_MBTRAIN | ST_LINKINIT => true | _ => false end.
Definition trained (s : regs) : bool := match state s with ST_ACTIVE | ST_TRAINERROR => true | _ => false end.

Lemma budget_pos s : orderly s → training s = true → 1 ≤ budget s.
Proof.
  intros [Ht [H1 _] [H2 _] [H3 _] [H4 _]] Hs. destruct Hp as [? ? ? ? ?]. unfold budget, training in *.
  pose proof (rank_pos SB (SBINIT_TIMEOUT p) (u_sbinit s) ltac:(lia) H1). pose proof (rank_pos MB (MBINIT_TIMEOUT p) (u_mbinit s) ltac:(lia) H2).
  pose proof (rank_pos TRN (MBTRAIN_TIMEOUT p) (u_mbtrain s) ltac:(lia) H3). pose proof (rank_pos LNK (LINKINIT_TIMEOUT p) (u_linkinit s) ltac:(lia) H4).
  unfold training_time, reset_rank. destruct (state s); try done; repeat case_match; lia.
Qed.

Lemma rank_waiting {I S O} (m : circuit I S O) T `{!Timed m T} s : doing s = Waiting → rank m T s = T + 4.
Proof. intros H. unfold rank. by rewrite H. Qed.

(** One cycle of training: it ends, or the budget falls. *)
Lemma budget_step i s :
  ready i → orderly s → training s = true →
  trained (step p i s) = true ∨ (training (step p i s) = true ∧ budget (step p i s) ≤ budget s - 1).
Proof.
  intros Hi Ho Hs. destruct (orderly_step i s Ho) as (Ho' & W1 & W2 & W3 & W4). destruct Ho as [Ht [C1 _] [C2 _] [C3 _] [C4 _]].
  pose proof Hp as [? ? ? ? ?]. unfold trained, training, budget, en in *. change (state (step p i s)) with (next_state p i s).
  unfold next_state. destruct (state s) eqn:Hst; try done.
  - destruct (LtReset.exit_to_sbinit (u_reset s)) eqn:He; right; (split; [done|]).
    + rewrite (rank_waiting SB) by by apply W1. unfold reset_rank, training_time. rewrite He. lia.
    + pose proof (reset_rank_step i s Hi Ht He). lia.
  - destruct (SbInit.exit_to_mbinit (sb_out p i s)) eqn:Ha; [right; split; [done|]|destruct (SbInit.exit_to_trainerror (sb_out p i s)) eqn:Hb; [by left|right; split; [done|]]].
    + rewrite (rank_waiting MB) by by apply W2. pose proof (rank_pos SB (SBINIT_TIMEOUT p) (u_sbinit s) ltac:(lia) C1). lia.
    + destruct (rank_step SB _ (sbinit_in i s) (u_sbinit s)) as [Hr _]; [lia|done|by apply bool_decide_eq_true|by rewrite (sb_exits i s), Ha, Hb|].
      change (u_sbinit (step p i s)) with (tick SB (sbinit_in i s) (u_sbinit s)). lia.
  - destruct (MbInit.exit_to_mbtrain (mb_out s)) eqn:Ha; [right; split; [done|]|destruct (MbInit.exit_to_trainerror (mb_out s)) eqn:Hb; [by left|right; split; [done|]]].
    + rewrite (rank_waiting TRN) by by apply W3. pose proof (rank_pos MB (MBINIT_TIMEOUT p) (u_mbinit s) ltac:(lia) C2). lia.
    + destruct (rank_step MB _ (mbinit_in i s) (u_mbinit s)) as [Hr _]; [lia|done|by apply bool_decide_eq_true|by rewrite mb_exits, Ha, Hb|].
      change (u_mbinit (step p i s)) with (tick MB (mbinit_in i s) (u_mbinit s)). lia.
  - destruct (MbTrain.exit_to_linkinit (trn_out s)) eqn:Ha; [right; split; [done|]|destruct (MbTrain.exit_to_trainerror (trn_out s)) eqn:Hb; [by left|right; split; [done|]]].
    + rewrite (rank_waiting LNK) by by apply W4. pose proof (rank_pos TRN (MBTRAIN_TIMEOUT p) (u_mbtrain s) ltac:(lia) C3). lia.
    + destruct (rank_step TRN _ (mbtrain_in i s) (u_mbtrain s)) as [Hr _]; [lia|done|by apply bool_decide_eq_true|by rewrite trn_exits, Ha, Hb|].
      change (u_mbtrain (step p i s)) with (tick TRN (mbtrain_in i s) (u_mbtrain s)). lia.
  - destruct (LinkInit.exit_to_active (lnk_out i s)) eqn:Ha; [by left|destruct (LinkInit.exit_to_trainerror (lnk_out i s)) eqn:Hb; [by left|right; split; [done|]]].
    destruct (rank_step LNK _ (linkinit_in i s) (u_linkinit s)) as [Hr _]; [lia|done|by apply bool_decide_eq_true|by rewrite (lnk_exits i s), Ha, Hb|].
      change (u_linkinit (step p i s)) with (tick LNK (linkinit_in i s) (u_linkinit s)). lia.
Qed.

Lemma training_run n : ∀ s ins,
  Forall ready ins → orderly s → training s = true → budget s ≤ n → n ≤ Z.of_nat (length ins) →
  ∃ k, (k ≤ length ins)%nat ∧ Z.of_nat k ≤ n ∧ trained (run (lphy_ltssm p) s (take k ins)) = true.
Proof.
  intros s ins Hi. revert n s. induction Hi as [|i ins Hi _ IH]; intros n s Ho Hs Hb Hn.
  - pose proof (budget_pos s Ho Hs). cbn in Hn. lia.
  - destruct (budget_step i s Hi Ho Hs) as [Hd|[Hs' Hb']].
    + exists 1%nat. pose proof (budget_pos s Ho Hs). cbn. split_and!; [lia|lia|done].
    + destruct (IH (n - 1) (step p i s)) as (k & Hk & Hkn & Ht); [by apply orderly_step|done|lia|cbn in Hn; lia|].
      exists (S k). cbn [length]. split_and!; [lia|lia|]. done.
Qed.

(** Training always ends: from reset, with stable power and
    clocks and an adapter that asks for the link, and whatever the partner, the
    calibration and the repair logic do, the state machine is in ACTIVE or in
    TRAINERROR within the hold time and the four timeouts plus 19 cycles. *)
Theorem training_ends ins :
  Forall ready ins → RESET_TIMER_CYCLES p + 3 + training_time ≤ Z.of_nat (length ins) →
  ∃ k, Z.of_nat k ≤ RESET_TIMER_CYCLES p + 3 + training_time ∧
    (state (run (lphy_ltssm p) (reset (lphy_ltssm p)) (take k ins)) = ST_ACTIVE ∨
     state (run (lphy_ltssm p) (reset (lphy_ltssm p)) (take k ins)) = ST_TRAINERROR).
Proof.
  intros Hi Hn. destruct (training_run (RESET_TIMER_CYCLES p + 3 + training_time) (reset (lphy_ltssm p)) ins)
    as (k & _ & Hk & Ht); [done|apply orderly_reset|done|cbn; unfold reset_rank; cbn; lia|done|].
  exists k. split; [done|]. unfold trained in Ht. destruct (state _); try done; [by left|by right].
Qed.
End Training.

(** ** Recovery from TRAINERROR *)

Section Recovery.
Import Ltssm.
Context (p : parameters) (HT : 0 ≤ TRAINERROR_TIMEOUT p < 2 ^ 32).

Definition err_rank (u : TrainError.regs) : Z :=
  match TrainError.state u with
  | TrainError.ST_IDLE => TRAINERROR_TIMEOUT p + 6
  | TrainError.ST_SEND_REQ => TRAINERROR_TIMEOUT p + 5
  | TrainError.ST_WAIT_RESP => TRAINERROR_TIMEOUT p - TrainError.timeout_cnt u + 4
  | TrainError.ST_SEND_RESP => 3
  | TrainError.ST_WAIT_RDI => 2
  | TrainError.ST_DONE => 1
  end.
Definition failing (s : regs) : Prop :=
  state s = ST_TRAINERROR ∧ 0 ≤ TrainError.timeout_cnt (u_trainerror s) ≤ TRAINERROR_TIMEOUT p ∧
  (TrainError.state (u_trainerror s) = TrainError.ST_SEND_REQ → TrainError.timeout_cnt (u_trainerror s) = 0).

Lemma failing_step i s :
  failing s →
  (TrainError.state (u_trainerror s) = TrainError.ST_DONE ∧ state (step p i s) = ST_RESET) ∨
  (failing (step p i s) ∧
   (lp_linkerror i = false → err_rank (u_trainerror (step p i s)) ≤ err_rank (u_trainerror s) - 1) ∧
   (lp_linkerror i = true → TrainError.state (u_trainerror (step p i s)) ≠ TrainError.ST_DONE)).
Proof.
  intros (Hs & Hc & Hz). assert (en ST_TRAINERROR s = true) as Hen by by apply bool_decide_eq_true.
  unfold failing. change (state (step p i s)) with (next_state p i s).
  assert (next_state p i s = if bool_decide (TrainError.state (u_trainerror s) = TrainError.ST_DONE) then ST_RESET else ST_TRAINERROR) as ->
    by (unfold next_state; by rewrite Hs).
  change (u_trainerror (step p i s)) with (TrainError.step (TRAINERROR_TIMEOUT p) (error_in i s) (u_trainerror s)).
  destruct (u_trainerror s) as [st c rq rs]. cbn in Hc, Hz. unfold TrainError.step, TrainError.next_state, err_rank. cbn. rewrite Hen.
  destruct st; cbn; [right..|by left]; (split; [split; [done|]|]).
  all: try (specialize (Hz eq_refl); subst c).
  all: repeat case_match; bool_to_prop; unfold trunc; rewrite ?Z.mod_small by lia; try naive_solver lia.
  match goal with H : _ || _ = false |- _ => apply orb_false_elim in H as [H _] end.
  unfold TrainError.answered in *. cbn in *. bool_to_prop; [|lia]. by rewrite orb_true_r in *.
Qed.

Lemma failing_run ins : ∀ s n,
  failing s → Forall (λ i, lp_linkerror i = false) ins → err_rank (u_trainerror s) ≤ n → n ≤ Z.of_nat (length ins) →
  ∃ k, Z.of_nat k ≤ n ∧ state (run (lphy_ltssm p) s (take k ins)) = ST_RESET.
Proof.
  induction ins as [|i ins IH]; intros s n Hs Hi Hn Hlen.
  - destruct Hs as (_ & Hc & _). unfold err_rank in Hn. cbn in Hlen. case_match; lia.
  - apply Forall_cons in Hi as [Hi Hins]. assert (1 ≤ n) by (destruct Hs as (_ & Hc & _); unfold err_rank in Hn; case_match; lia).
    destruct (failing_step i s Hs) as [[_ Hr]|(Hs' & Hrank & _)]; [by exists 1%nat; split; [lia|]|].
    destruct (IH (step p i s) (n - 1)) as (k & Hk & Hr); [done|done|specialize (Hrank Hi); lia|cbn in Hlen; lia|].
    exists (S k). by split; [lia|].
Qed.

(** C23.  TRAINERROR is left: without a link error the state machine
    is back in RESET within the timeout and six cycles, whether or not the
    partner answers; with one it stays, as long as the error is held. *)
Theorem trainerror_recovers s ins :
  failing s →
  (Forall (λ i, lp_linkerror i = false) ins → TRAINERROR_TIMEOUT p + 6 ≤ Z.of_nat (length ins) →
   ∃ k, Z.of_nat k ≤ TRAINERROR_TIMEOUT p + 6 ∧ state (run (lphy_ltssm p) s (take k ins)) = ST_RESET) ∧
  (Forall (λ i, lp_linkerror i = true) ins → TrainError.state (u_trainerror s) ≠ TrainError.ST_DONE →
   state (run (lphy_ltssm p) s ins) = ST_TRAINERROR).
Proof.
  intros Hs. split.
  - intros Hi Hn. apply failing_run; [done|done| |done]. destruct Hs as (_ & Hc & _). unfold err_rank. case_match; lia.
  - intros Hi. revert s Hs. induction Hi as [|i ins Hi _ IH]; intros s Hs Hd; [by apply Hs|].
    rewrite run_cons. destruct (failing_step i s Hs) as [[? _]|(Hs' & _ & Hd')]; [done|]. apply IH; [done|by apply Hd'].
Qed.
End Recovery.

(** Small timers, and a die on which everything succeeds at once. *)
Definition demo_parameters : Ltssm.parameters := Ltssm.mkParameters 3 60 20 20 20 20 20.
Definition demo_messages : messages :=
  mkMessages true true true true true false false false false false false false false false false false false false
    false false false false 0.
Definition demo_cycle : Ltssm.inputs :=
  Ltssm.mkInputs true 1 false false true true true true true false 1 demo_messages
    (MbInit.mkInputs true false true true true true true true false)
    (MbTrain.mkInputs true false true true true true true true true true true true true true false false false true false)
    false false false false 1.

Lemma demo_bounded : bounded demo_parameters.
Proof. split; cbn; lia. Qed.

Lemma training_ends_witness :
  ∃ k, Z.of_nat k ≤ 3 + 3 + training_time demo_parameters ∧
    (Ltssm.state (run (Ltssm.lphy_ltssm demo_parameters) (reset (Ltssm.lphy_ltssm demo_parameters))
       (take k (repeat demo_cycle 142))) = Ltssm.ST_ACTIVE ∨
     Ltssm.state (run (Ltssm.lphy_ltssm demo_parameters) (reset (Ltssm.lphy_ltssm demo_parameters))
       (take k (repeat demo_cycle 142))) = Ltssm.ST_TRAINERROR).
Proof.
  apply (training_ends demo_parameters demo_bounded (repeat demo_cycle 142)).
  - repeat constructor.
  - vm_compute. discriminate.
Defined.

(** It is ACTIVE that this die reaches. *)
Example demo_reaches_active :
  Ltssm.state (run (Ltssm.lphy_ltssm demo_parameters) (reset (Ltssm.lphy_ltssm demo_parameters)) (repeat demo_cycle 90))
  = Ltssm.ST_ACTIVE.
Proof. vm_compute. reflexivity. Qed.

Lemma hold_enforced_witness :
  2 + 1 ≤ stretch (repeat (LtReset.mkInputs true true true true true true true) 3) 0 ∧ true = true ∧ true = true ∧ true = true.
Proof.
  apply (hold_enforced 2 ltac:(lia) (repeat (LtReset.mkInputs true true true true true true true) 3)
           (LtReset.mkInputs true true true true true true true)).
  vm_compute. reflexivity.
Defined.

(** A die with lanes that cannot be repaired, in TRAINERROR. *)
Definition demo_failed : Ltssm.regs :=
  run (Ltssm.lphy_ltssm demo_parameters) (reset (Ltssm.lphy_ltssm demo_parameters))
    (repeat demo_cycle 60 ++ repeat (Ltssm.mkInputs true 1 false false true true true true true false 1 demo_messages
       (Ltssm.mb demo_cycle) (Ltssm.trn demo_cycle) true true false false 1) 4).

Lemma trainerror_recovers_witness :
  ∃ k, Z.of_nat k ≤ 20 + 6 ∧
    Ltssm.state (run (Ltssm.lphy_ltssm demo_parameters) demo_failed (take k (repeat demo_cycle 26))) = Ltssm.ST_RESET.
Proof.
  refine (proj1 (trainerror_recovers demo_parameters _ demo_failed (repeat demo_cycle 26) _) _ _).
  - cbn. lia.
  - split_and!; [vm_compute; reflexivity|vm_compute; discriminate|vm_compute; discriminate|].
    intros H. vm_compute in H. discriminate.
  - repeat constructor.
  - vm_compute. discriminate.
Defined.
