(* ===== verification/PhyLinkFaults.v ===== *)
(** * Two link state machines

    Two dies whose sideband messages take one cycle: leaving ACTIVE and
    retraining, and where they hang.  Also what re-entering RESET and leaving
    PHYRETRAIN and L1 do. *)

From S2P Require Import Prelude Rtl PhyTraining PhyLtssm PhyLinkUp.
Import Ltssm.
#[local] Open Scope Z_scope.

(** ** A pair of dies *)

Definition with_rx (m : messages) (i : inputs) : inputs :=
  mkInputs (start_link_training i) (lp_state_req i) (lp_linkerror i) (lp_stallack i) (power_stable i) (sb_clk_stable i)
    (mb_clk_stable i) (mb_clk_slow i) (soc_reset_n i) (package_type i) (rx_pattern_detected i) m (mb i) (trn i) (cal_error i)
    (is_unrepairable i) (internal_retrain_req i) (internal_error_req i) (local_retrain_enc i).

(** The registers of the dies and the messages on the way. *)
Record pair := mkPair { die_a : regs; die_b : regs; to_b : messages; to_a : messages }.

Section Pair.
Context (p : parameters).

Definition pair_step (i : inputs * inputs) (s : pair) : pair :=
  let ia := with_rx (to_a s) (fst i) in
  let ib := with_rx (to_b s) (snd i) in
  mkPair (step p ia (die_a s)) (step p ib (die_b s)) (tx p ia (die_a s)) (tx p ib (die_b s)).

Definition no_messages : messages :=
  mkMessages false false false false false false false false false false false false false false false false false false
    false false false false 0.
Definition dies : circuit (inputs * inputs) pair (ltssm_state_t * ltssm_state_t) := {|
  reset := mkPair (reset (lphy_ltssm p)) (reset (lphy_ltssm p)) no_messages no_messages;
  out := λ _ s, (state (die_a s), state (die_b s));
  tick := pair_step |}.

(** ** Leaving ACTIVE *)

(** The target the adapter asks for. *)
Definition wants (i : inputs) : option Z :=
  Active.local_request (Active.mkInputs true (lp_state_req i) (lp_linkerror i) (rx i) (internal_retrain_req i) (internal_error_req i)).
Definition calm (i : inputs) : Prop := lp_linkerror i = false ∧ internal_error_req i = false.
Definition no_grant (m : messages) : Prop :=
  rsp_disable m = false ∧ rsp_linkreset m = false ∧ rsp_retrain m = false ∧ rsp_l1 m = false ∧ rsp_l2 m = false ∧
  req_linkerror m = false.

Definition steady_active (s : regs) : Prop := state s = ST_ACTIVE ∧ Active.state (u_active s) = Active.ST_ACTIVE_STEADY.
Definition awaiting (s : regs) : Prop := state s = ST_ACTIVE ∧ Active.state (u_active s) = Active.ST_WAIT_RSP.

Lemma en_true st s : state s = st → en st s = true.
Proof. intros H. by apply bool_decide_eq_true. Qed.

Lemma not_fatal i s : calm i → req_linkerror (rx i) = false → Active.fatal (active_in i s) = false.
Proof. intros [H1 H2] H3. unfold Active.fatal. cbn. by rewrite H1, H2, H3. Qed.

Lemma no_grant_spec m t : no_grant m → Active.granted m t = false.
Proof. intros (H1 & H2 & H3 & H4 & H5 & _). unfold Active.granted. by rewrite H1, H2, H3, H4, H5, !andb_false_r. Qed.

(** Without a grant a die that has asked goes on waiting, and grants nothing itself. *)
Lemma awaiting_step i s :
  calm i → no_grant (rx i) → awaiting s →
  awaiting (step p i s) ∧ no_grant (tx p i s) ∧
  Active.target_exit_state (u_active (step p i s)) = Active.target_exit_state (u_active s).
Proof.
  intros Hc Hg [Hs Ha]. assert (Active.fatal (active_in i s) = false) as Hf by (apply not_fatal; [done|apply Hg]).
  assert (Active.en_active (active_in i s) = true) as He by by apply en_true.
  assert (∀ t, Active.sends_rsp t (active_in i s) (u_active s) = false) as Hsr.
  { intros t. unfold Active.sends_rsp. rewrite bool_decide_eq_false_2, andb_false_r; [done|]. rewrite Ha. by intros [? _]. }
  assert (∀ t, Active.exit_to t (active_in i s) (u_active s) = false) as Hex.
  { intros t. unfold Active.exit_to, Active.exit_target. rewrite He, Hf, Ha. cbn [negb orb].
    by rewrite no_grant_spec. }
  assert (Active.exit_to_trainerror (active_in i s) = false) as Ht by (unfold Active.exit_to_trainerror; by rewrite Hf, andb_false_r).
  split_and!.
  - split; [change (state (step p i s)) with (next_state p i s); unfold next_state; by rewrite Hs, Ht, !Hex|].
    change (Active.state (u_active (step p i s))) with (Active.next_state (active_in i s) (u_active s)). unfold Active.next_state. rewrite He, Hf, Ha. cbn [negb orb].
    by rewrite no_grant_spec.
  - unfold no_grant, tx. cbn. by rewrite !Hsr.
  - change (u_active (step p i s)) with (Active.step (active_in i s) (u_active s)). unfold Active.step. cbn [Active.target_exit_state].
    by rewrite He, Ha.
Qed.

(** The cycle in which a die asks. *)
Lemma asking_step i s t :
  calm i → req_linkerror (rx i) = false → Active.remote_request (rx i) = None → wants i = Some t → steady_active s →
  awaiting (step p i s) ∧ Active.target_exit_state (u_active (step p i s)) = t ∧ no_grant (tx p i s) ∧
  Active.sends_req t (active_in i s) (u_active s) = true.
Proof.
  intros Hc Hle Hr Hw [Hs Ha]. assert (Active.fatal (active_in i s) = false) as Hf by by apply not_fatal.
  assert (Active.en_active (active_in i s) = true) as He by by apply en_true.
  assert (Active.remote_request (Active.rx (active_in i s)) = None) as Hr' by done.
  assert (Active.local_request (active_in i s) = Some t) as Hw' by done.
  assert (∀ t, Active.sends_rsp t (active_in i s) (u_active s) = false) as Hsr.
  { intros t'. unfold Active.sends_rsp. rewrite bool_decide_eq_false_2, andb_false_r; [done|]. rewrite Hr'. by intros [_ ?]. }
  assert (∀ t, Active.exit_to t (active_in i s) (u_active s) = false) as Hex.
  { intros t'. unfold Active.exit_to, Active.exit_target. rewrite He, Hf, Ha, Hr'. done. }
  assert (Active.exit_to_trainerror (active_in i s) = false) as Ht by (unfold Active.exit_to_trainerror; by rewrite Hf, andb_false_r).
  split_and!.
  - split; [change (state (step p i s)) with (next_state p i s); unfold next_state; by rewrite Hs, Ht, !Hex|].
    change (Active.state (u_active (step p i s))) with (Active.next_state (active_in i s) (u_active s)). unfold Active.next_state. by rewrite He, Hf, Ha, Hr', Hw'.
  - change (u_active (step p i s)) with (Active.step (active_in i s) (u_active s)). unfold Active.step. cbn [Active.target_exit_state]. by rewrite He, Ha, Hr', Hw'.
  - unfold no_grant, tx. cbn. by rewrite !Hsr.
  - unfold Active.sends_req. by rewrite He, Hf, bool_decide_eq_true_2.
Qed.

Definition deadlocked (s : pair) : Prop := awaiting (die_a s) ∧ awaiting (die_b s) ∧ no_grant (to_a s) ∧ no_grant (to_b s).

(** C27.  Crossing requests deadlock: when both adapters ask to leave
    ACTIVE in the same cycle, for whatever targets, each die waits for a grant
    that the other never gives, and unless an error is raised both stay in
    ACTIVE for ever.  The dies share a clock and messages take one cycle. *)
Theorem crossing_requests_deadlock s ia ib ta tb ins :
  steady_active (die_a s) → steady_active (die_b s) →
  Active.remote_request (to_a s) = None → Active.remote_request (to_b s) = None →
  req_linkerror (to_a s) = false → req_linkerror (to_b s) = false →
  calm ia → calm ib → wants ia = Some ta → wants ib = Some tb → Forall (λ i, calm (fst i) ∧ calm (snd i)) ins →
  let s' := run dies s ((ia, ib) :: ins) in
  state (die_a s') = ST_ACTIVE ∧ state (die_b s') = ST_ACTIVE.
Proof.
  intros Ha Hb Hra Hrb Hla Hlb Hca Hcb Hwa Hwb Hins. cbn zeta. rewrite run_cons.
  assert (deadlocked (pair_step (ia, ib) s)) as H1.
  { destruct (asking_step (with_rx (to_a s) ia) (die_a s) ta) as (? & _ & ? & _); [done..|].
    destruct (asking_step (with_rx (to_b s) ib) (die_b s) tb) as (? & _ & ? & _); [done..|]. by split_and!. }
  assert (deadlocked (run dies (pair_step (ia, ib) s) ins)) as (H2 & H3 & _); [|by split; [apply H2|apply H3]].
  refine (run_invariant dies deadlocked _ _ _ _ Hins H1).
  intros [i j] s' [Hi Hj] (Wa & Wb & Ga & Gb). cbn [fst snd] in *.
  destruct (awaiting_step (with_rx (to_a s') i) (die_a s')) as (? & ? & _); [done..|].
  destruct (awaiting_step (with_rx (to_b s') j) (die_b s')) as (? & ? & _); [done..|]. by split_and!.
Qed.

(** The state a target leads to. *)
Definition target_state (t : Z) : ltssm_state_t :=
  if bool_decide (t = Active.DISABLE) then ST_DISABLED else if bool_decide (t = Active.LINKRESET) then ST_LINKRESET
  else if bool_decide (t = Active.RETRAIN) then ST_PHYRETRAIN else if bool_decide (t = Active.L1) then ST_L1
  else if bool_decide (t = Active.L2) then ST_L2
  else ST_ACTIVE.

Lemma local_targets i t : wants i = Some t →
  t = Active.DISABLE ∨ t = Active.LINKRESET ∨ t = Active.RETRAIN ∨ t = Active.L1 ∨ t = Active.L2.
Proof. unfold wants, Active.local_request. repeat case_match; naive_solver. Qed.

(** The messages of a die in ACTIVE that asks for [t], and of one that grants it. *)
Definition carries_req (t : Z) (m : messages) : Prop := Active.remote_request m = Some t ∧ no_grant m.
Definition carries_rsp (t : Z) (m : messages) : Prop := Active.granted m t = true ∧ req_linkerror m = false.

Lemma asked_request i s t :
  calm i → req_linkerror (rx i) = false → Active.remote_request (rx i) = None → wants i = Some t → steady_active s →
  carries_req t (tx p i s).
Proof.
  intros Hc Hle Hr Hw Hs. destruct (asking_step i s t Hc Hle Hr Hw Hs) as (_ & _ & Hg & Hsend). split; [|done].
  assert (∀ t', Active.sends_req t' (active_in i s) (u_active s) = bool_decide (t = t')) as Hreq.
  { intros t'. unfold Active.sends_req in *. apply andb_prop in Hsend as [-> Hb%bool_decide_eq_true]. destruct Hb as (H1 & H2 & H3).
    apply bool_decide_ext. rewrite H3. naive_solver. }
  unfold Active.remote_request, tx. cbn. rewrite !Hreq.
  destruct (local_targets i t Hw) as [->|[->|[->|[->| ->]]]]; done.
Qed.

(** A die in the steady state grants a request and leaves. *)
Lemma granting_step i s t :
  calm i → carries_req t (rx i) → steady_active s →
  state (step p i s) = target_state t ∧ carries_rsp t (tx p i s).
Proof.
  intros Hc [Hr Hg] [Hs Ha]. assert (Active.fatal (active_in i s) = false) as Hf by (apply not_fatal; [done|apply Hg]).
  assert (Active.en_active (active_in i s) = true) as He by by apply en_true.
  assert (Active.remote_request (Active.rx (active_in i s)) = Some t) as Hr' by done.
  assert (Active.exit_to_trainerror (active_in i s) = false) as Hte by (unfold Active.exit_to_trainerror; by rewrite Hf, andb_false_r).
  assert (∀ t', Active.exit_to t' (active_in i s) (u_active s) = bool_decide (t = t')) as Hex.
  { intros t'. unfold Active.exit_to, Active.exit_target. rewrite He, Hf, Ha, Hr'. apply bool_decide_ext. naive_solver. }
  assert (∀ t', Active.sends_rsp t' (active_in i s) (u_active s) = bool_decide (t = t')) as Hsr.
  { intros t'. unfold Active.sends_rsp. rewrite He, Hf, Ha, Hr'. cbn [negb andb]. apply bool_decide_ext. naive_solver. }
  split.
  - change (state (step p i s)) with (next_state p i s). unfold next_state. by rewrite Hs, Hte, !Hex.
  - unfold carries_rsp, Active.granted, tx. cbn. rewrite !Hsr. split; [|done].
    unfold Active.remote_request in Hr. repeat case_match; simplify_eq; done.
Qed.

(** A grant is obeyed. *)
Lemma granted_step i s t :
  calm i → carries_rsp t (rx i) → awaiting s → Active.target_exit_state (u_active s) = t → state (step p i s) = target_state t.
Proof.
  intros Hc [Hg Hle] [Hs Ha] Ht. assert (Active.fatal (active_in i s) = false) as Hf by by apply not_fatal.
  assert (Active.en_active (active_in i s) = true) as He by by apply en_true.
  assert (Active.granted (Active.rx (active_in i s)) t = true) as Hg' by done.
  assert (Active.exit_to_trainerror (active_in i s) = false) as Hte by (unfold Active.exit_to_trainerror; by rewrite Hf, andb_false_r).
  assert (∀ t', Active.exit_to t' (active_in i s) (u_active s) = bool_decide (t = t')) as Hex.
  { intros t'. unfold Active.exit_to, Active.exit_target. rewrite He, Hf, Ha, Ht, Hg'. apply bool_decide_ext. naive_solver. }
  change (state (step p i s)) with (next_state p i s). unfold next_state. by rewrite Hs, Hte, !Hex.
Qed.

(** A die that neither asks nor is asked. *)
Lemma steady_step i s :
  calm i → req_linkerror (rx i) = false → Active.remote_request (rx i) = None → wants i = None → steady_active s →
  steady_active (step p i s) ∧ no_grant (tx p i s).
Proof.
  intros Hc Hle Hr Hw [Hs Ha]. assert (Active.fatal (active_in i s) = false) as Hf by by apply not_fatal.
  assert (Active.en_active (active_in i s) = true) as He by by apply en_true.
  assert (Active.remote_request (Active.rx (active_in i s)) = None) as Hr' by done.
  assert (Active.local_request (active_in i s) = None) as Hw' by done.
  assert (Active.exit_to_trainerror (active_in i s) = false) as Ht by (unfold Active.exit_to_trainerror; by rewrite Hf, andb_false_r).
  assert (∀ t, Active.exit_to t (active_in i s) (u_active s) = false) as Hex.
  { intros t'. unfold Active.exit_to, Active.exit_target. by rewrite He, Hf, Ha, Hr'. }
  assert (∀ t, Active.sends_rsp t (active_in i s) (u_active s) = false) as Hsr.
  { intros t'. unfold Active.sends_rsp. rewrite bool_decide_eq_false_2, andb_false_r; [done|]. rewrite Hr'. by intros [_ ?]. }
  split; [|unfold no_grant, tx; cbn; by rewrite !Hsr].
  split; [change (state (step p i s)) with (next_state p i s); unfold next_state; by rewrite Hs, Ht, !Hex|].
  change (Active.state (u_active (step p i s))) with (Active.next_state (active_in i s) (u_active s)). unfold Active.next_state.
  by rewrite He, Hf, Ha, Hr', Hw'.
Qed.

Definition silent (m : messages) : Prop := Active.remote_request m = None ∧ no_grant m.

Lemma one_sided_exit_run s t ia0 ib0 ia1 ib1 ia2 ib2 :
  steady_active (die_a s) → steady_active (die_b s) → silent (to_a s) → silent (to_b s) →
  Forall calm [ia0; ib0; ia1; ib1; ia2] → wants ia0 = Some t → wants ib0 = None →
  state (die_b (run dies s [(ia0, ib0); (ia1, ib1)])) = target_state t ∧
  state (die_a (run dies s [(ia0, ib0); (ia1, ib1); (ia2, ib2)])) = target_state t.
Proof.
  intros Ha Hb [Ra Ga] [Rb Gb] Hcalm Hwa Hwb. repeat (apply Forall_cons in Hcalm as [? Hcalm]).
  destruct (asking_step (with_rx (to_a s) ia0) (die_a s) t) as (Wa & Ta & Na & _); [done|apply Ga|done|done|done|].
  assert (carries_req t (tx p (with_rx (to_a s) ia0) (die_a s))) as Q by (apply asked_request; [done|apply Ga|done|done|done]).
  destruct (steady_step (with_rx (to_b s) ib0) (die_b s)) as (Sb & Nb); [done|apply Gb|done|done|done|].
  set (s1 := pair_step (ia0, ib0) s) in *.
  change (run dies s [(ia0, ib0); (ia1, ib1)]) with (pair_step (ia1, ib1) s1).
  change (run dies s [(ia0, ib0); (ia1, ib1); (ia2, ib2)]) with (pair_step (ia2, ib2) (pair_step (ia1, ib1) s1)).
  destruct (granting_step (with_rx (to_b s1) ib1) (die_b s1) t) as (Hst & Hrsp); [done..|]. split; [done|].
  destruct (awaiting_step (with_rx (to_a s1) ia1) (die_a s1)) as (Wa' & _ & Ta'); [done..|].
  set (s2 := pair_step (ia1, ib1) s1) in *. apply (granted_step (with_rx (to_a s2) ia2) (die_a s2) t); [done|done|done|].
  by rewrite <-Ta.
Qed.

(** C22.  A request by one die alone is granted: the partner leaves
    ACTIVE for the state the adapter asked for, and the die itself follows one
    cycle later.  The dies share a clock and messages take one cycle. *)
Theorem one_sided_exit s t ia0 ib0 ia1 ib1 ia2 ib2 :
  steady_active (die_a s) → steady_active (die_b s) → silent (to_a s) → silent (to_b s) →
  Forall calm [ia0; ib0; ia1; ib1; ia2] → wants ia0 = Some t → wants ib0 = None →
  state (die_b (run dies s [(ia0, ib0); (ia1, ib1)])) = target_state t ∧
  state (die_a (run dies s [(ia0, ib0); (ia1, ib1); (ia2, ib2)])) = target_state t.
Proof. apply one_sided_exit_run. Qed.

(** ** Retraining *)

Definition dormant (s : regs) : Prop := PhyRetrain.state (u_phyretrain s) = PhyRetrain.ST_IDLE.

Lemma dormant_step i s :
  internal_retrain_req i = false → retrain_init_req (rx i) = false → dormant s →
  dormant (step p i s) ∧ retrain_init_req (tx p i s) = false ∧ (state s = ST_PHYRETRAIN → state (step p i s) = ST_PHYRETRAIN).
Proof.
  unfold dormant. intros Ht Hr Hs. split_and!.
  - cbn. unfold PhyRetrain.next_state. rewrite Hs. cbn. rewrite Ht, Hr, andb_false_r. by case_match.
  - cbn. by rewrite Hs.
  - intros Hst. change (state (step p i s)) with (next_state p i s). unfold next_state. rewrite Hst. cbn. by rewrite Hs.
Qed.

Definition both_dormant (s : pair) : Prop :=
  dormant (die_a s) ∧ dormant (die_b s) ∧ retrain_init_req (to_a s) = false ∧ retrain_init_req (to_b s) = false.
Definition untriggered (i : inputs * inputs) : Prop :=
  internal_retrain_req (fst i) = false ∧ internal_retrain_req (snd i) = false.

Lemma dormant_pair i s : untriggered i → both_dormant s →
  both_dormant (pair_step i s) ∧
  (state (die_a s) = ST_PHYRETRAIN → state (die_a (pair_step i s)) = ST_PHYRETRAIN) ∧
  (state (die_b s) = ST_PHYRETRAIN → state (die_b (pair_step i s)) = ST_PHYRETRAIN).
Proof.
  intros [Hi Hj] (Da & Db & Ra & Rb).
  destruct (dormant_step (with_rx (to_a s) (fst i)) (die_a s)) as (? & ? & ?); [done..|].
  destruct (dormant_step (with_rx (to_b s) (snd i)) (die_b s)) as (? & ? & ?); [done..|]. by split_and!.
Qed.

(** C28.  A retrain that the adapter asks for never ends: both dies
    enter PHYRETRAIN, where each waits for the other's init request or for the
    PHY's own trigger, which the top level ties low; no timeout runs in the idle
    state, so both stay for ever.  The dies share a clock and messages take one
    cycle. *)
Theorem retrain_deadlocks s ia0 ib0 ia1 ib1 ia2 ib2 ins :
  steady_active (die_a s) → steady_active (die_b s) → silent (to_a s) → silent (to_b s) → both_dormant s →
  Forall calm [ia0; ib0; ia1; ib1; ia2] → wants ia0 = Some Active.RETRAIN → wants ib0 = None →
  Forall untriggered ((ia0, ib0) :: (ia1, ib1) :: (ia2, ib2) :: ins) →
  let s' := run dies s ((ia0, ib0) :: (ia1, ib1) :: (ia2, ib2) :: ins) in
  state (die_a s') = ST_PHYRETRAIN ∧ state (die_b s') = ST_PHYRETRAIN.
Proof.
  intros Ha Hb Sa Sb Hd Hcalm Hwa Hwb Hu. cbn zeta.
  destruct (one_sided_exit_run s Active.RETRAIN ia0 ib0 ia1 ib1 ia2 ib2 Ha Hb Sa Sb Hcalm Hwa Hwb) as [H2 H3].
  apply Forall_cons in Hu as [U0 Hu]. apply Forall_cons in Hu as [U1 Hu]. apply Forall_cons in Hu as [U2 Hu].
  destruct (dormant_pair _ _ U0 Hd) as (D1 & _). destruct (dormant_pair _ _ U1 D1) as (D2 & _).
  destruct (dormant_pair _ _ U2 D2) as (D3 & _ & Kb). specialize (Kb H2).
  change (run dies s ((ia0, ib0) :: (ia1, ib1) :: (ia2, ib2) :: ins))
    with (run dies (pair_step (ia2, ib2) (pair_step (ia1, ib1) (pair_step (ia0, ib0) s))) ins).
  cut (both_dormant (run dies (pair_step (ia2, ib2) (pair_step (ia1, ib1) (pair_step (ia0, ib0) s))) ins) ∧
       state (die_a (run dies (pair_step (ia2, ib2) (pair_step (ia1, ib1) (pair_step (ia0, ib0) s))) ins)) = ST_PHYRETRAIN ∧
       state (die_b (run dies (pair_step (ia2, ib2) (pair_step (ia1, ib1) (pair_step (ia0, ib0) s))) ins)) = ST_PHYRETRAIN);
    [naive_solver|].
  refine (run_invariant dies (λ s, both_dormant s ∧ state (die_a s) = ST_PHYRETRAIN ∧ state (die_b s) = ST_PHYRETRAIN) _ _ _ _ Hu _);
    [|by split_and!].
  intros i s' Hi (D & Sa' & Sb'). destruct (dormant_pair i s' Hi D) as (? & ? & ?). naive_solver.
Qed.

(** ** Leaving PHYRETRAIN and L1 *)

Definition resumes (i : inputs) (s : regs) : Prop :=
  (state s = ST_PHYRETRAIN ∧
   (PhyRetrain.exit_to_txselfcal (ret_out i s) = true ∨ PhyRetrain.exit_to_repair (ret_out i s) = true ∨
    PhyRetrain.exit_to_speedidle (ret_out i s) = true)) ∨
  (state s = ST_L1 ∧ Pm.exit_to_speedidle (pm_out i s) = true).

(** Whatever point of training PHYRETRAIN resolves (TXSELFCAL,
    REPAIR, SPEEDIDLE) and wherever L1 should resume (SPEEDIDLE), MBTRAIN runs
    again from its first state, VALVREF on an advanced package. *)
Theorem training_restarts s i j :
  resumes i s → MbTrain.state (u_mbtrain s) = MbTrain.ST_IDLE →
  state (run (lphy_ltssm p) s [i]) = ST_MBTRAIN ∧
  MbTrain.state (u_mbtrain (run (lphy_ltssm p) s [i; j])) = if package_type j then MbTrain.ST_SPEEDIDLE else MbTrain.ST_VALVREF.
Proof.
  intros Hres Hidle. change (run (lphy_ltssm p) s [i]) with (step p i s).
  change (run (lphy_ltssm p) s [i; j]) with (step p j (step p i s)).
  assert (next_state p i s = ST_MBTRAIN) as Hst.
  { unfold next_state. destruct Hres as [[-> [H|[H|H]]]|[-> ->]]; [rewrite H; by rewrite ?orb_true_r..|done]. }
  assert (en ST_MBTRAIN s = false) as Hen by (apply bool_decide_eq_false; destruct Hres as [[-> _]|[-> _]]; done).
  split; [done|].
  assert (MbTrain.state (u_mbtrain (step p i s)) = MbTrain.ST_IDLE) as Hidle'.
  { cbn. unfold MbTrain.next_state. rewrite Hidle. cbn. by rewrite andb_false_r, Hen. }
  change (MbTrain.state (u_mbtrain (step p j (step p i s)))) with
    (MbTrain.next_state (MBTRAIN_TIMEOUT p) (mbtrain_in j (step p i s)) (u_mbtrain (step p i s))).
  unfold MbTrain.next_state. rewrite Hidle'. cbn [MbTrain.working MbTrain.advance]. rewrite andb_false_r.
  assert (MbTrain.en_mbtrain (mbtrain_in j (step p i s)) = true) as -> by by apply bool_decide_eq_true.
  done.
Qed.

(** ** Re-entering RESET *)

(** The hold time is not enforced again when RESET is re-entered:
    however long the hold, a die whose timer had run out once passes RESET in two
    cycles. *)
Theorem hold_not_reenforced s i j :
  state s = ST_RESET → LtReset.en_reset_q (u_reset s) = false → LtReset.timer_done (u_reset s) = true → ready i →
  state (run (lphy_ltssm p) s [i]) = ST_SBINIT ∨ state (run (lphy_ltssm p) s [i; j]) = ST_SBINIT.
Proof.
  intros Hs _ Hd (H1 & H2 & H3 & H4 & H5 & H6). change (run (lphy_ltssm p) s [i]) with (step p i s).
  change (state (run (lphy_ltssm p) s [i; j])) with (next_state p j (step p i s)).
  change (state (step p i s)) with (next_state p i s).
  destruct (LtReset.exit_to_sbinit (u_reset s)) eqn:He; [left; unfold next_state; by rewrite Hs, He|right].
  assert (state (step p i s) = ST_RESET) as Hr.
  { change (state (step p i s)) with (next_state p i s). unfold next_state. by rewrite Hs, He. }
  unfold next_state. rewrite Hr. cbn. unfold LtReset.step, LtReset.leaves. destruct (LtReset.step_timer _ _ _). cbn.
  by rewrite Hd, H4, H5, H6.
Qed.
End Pair.

(** ** Witnesses *)

(** A die that has reached ACTIVE, and a cycle in which the adapter asks for [r]. *)
Definition demo_active : regs := run (lphy_ltssm demo_parameters) (reset (lphy_ltssm demo_parameters)) (repeat demo_cycle 90).
Definition demo_pair : pair := mkPair demo_active demo_active no_messages no_messages.
Definition demo_ask (r : Z) : inputs :=
  mkInputs true r false true true true true true true false 1 no_messages (mb demo_cycle) (trn demo_cycle) false false false false 1.

Lemma demo_steady : steady_active demo_active.
Proof. split; vm_compute; reflexivity. Qed.
Lemma demo_dormant : both_dormant demo_pair.
Proof. split_and!; vm_compute; reflexivity. Qed.

Lemma crossing_requests_witness :
  let s' := run (dies demo_parameters) demo_pair ((demo_ask Active.L1, demo_ask Active.L2) :: repeat (demo_ask 0, demo_ask 0) 50) in
  state (die_a s') = ST_ACTIVE ∧ state (die_b s') = ST_ACTIVE.
Proof.
  refine (crossing_requests_deadlock demo_parameters demo_pair (demo_ask Active.L1) (demo_ask Active.L2) Active.L1 Active.L2
            (repeat (demo_ask 0, demo_ask 0) 50) _ _ _ _ _ _ _ _ _ _ _); try exact demo_steady; try reflexivity; try (by split).
  repeat constructor.
Defined.

Lemma one_sided_exit_witness :
  state (die_b (run (dies demo_parameters) demo_pair [(demo_ask Active.L1, demo_ask 0); (demo_ask 0, demo_ask 0)])) = ST_L1 ∧
  state (die_a (run (dies demo_parameters) demo_pair [(demo_ask Active.L1, demo_ask 0); (demo_ask 0, demo_ask 0); (demo_ask 0, demo_ask 0)])) = ST_L1.
Proof.
  refine (one_sided_exit demo_parameters demo_pair Active.L1 (demo_ask Active.L1) (demo_ask 0) (demo_ask 0) (demo_ask 0)
            (demo_ask 0) (demo_ask 0) _ _ _ _ _ _ _); try exact demo_steady; try reflexivity; try by repeat split.
  by repeat constructor.
Defined.

Lemma retrain_deadlocks_witness :
  let s' := run (dies demo_parameters) demo_pair
    ((demo_ask Active.RETRAIN, demo_ask 0) :: (demo_ask 0, demo_ask 0) :: (demo_ask 0, demo_ask 0) :: repeat (demo_ask 1, demo_ask 1) 50) in
  state (die_a s') = ST_PHYRETRAIN ∧ state (die_b s') = ST_PHYRETRAIN.
Proof.
  refine (retrain_deadlocks demo_parameters demo_pair (demo_ask Active.RETRAIN) (demo_ask 0) (demo_ask 0) (demo_ask 0)
            (demo_ask 0) (demo_ask 0) (repeat (demo_ask 1, demo_ask 1) 50) _ _ _ _ _ _ _ _ _);
    try exact demo_steady; try exact demo_dormant; try reflexivity; try by repeat split.
  - by repeat constructor.
  - by repeat constructor.
Defined.

(** A die that the partner has woken from L1. *)
Definition demo_waking : regs :=
  run (lphy_ltssm demo_parameters) demo_active
    [with_rx (mkMessages false false false false false true false false false false false false false false false false false false
                false false false false 0) (demo_ask 0);
     demo_ask 0; demo_ask 0;
     with_rx (mkMessages false false false true false false false false false false false false false false false false false false
                false false false false 0) (demo_ask 0)].

Lemma training_restarts_witness :
  MbTrain.state (u_mbtrain (run (lphy_ltssm demo_parameters) demo_waking [demo_ask 0; demo_ask 0])) = MbTrain.ST_VALVREF.
Proof.
  refine (proj2 (training_restarts demo_parameters demo_waking (demo_ask 0) (demo_ask 0) _ _)).
  - right. split; vm_compute; reflexivity.
  - vm_compute. reflexivity.
Defined.

(** A die that went through LINKRESET. *)
Definition demo_reentered : regs :=
  run (lphy_ltssm demo_parameters) demo_active
    [with_rx (mkMessages false false false false false false false false false true false false false false false false false false
                false false false false 0) (demo_ask 0); demo_ask 1].

Lemma hold_not_reenforced_witness :
  state (run (lphy_ltssm demo_parameters) demo_reentered [demo_cycle]) = ST_SBINIT ∨
  state (run (lphy_ltssm demo_parameters) demo_reentered [demo_cycle; demo_cycle]) = ST_SBINIT.
Proof.
  refine (hold_not_reenforced demo_parameters demo_reentered demo_cycle demo_cycle _ _ _ _); [vm_compute; reflexivity..|].
  by repeat split.
Defined.
