(* ===== verification/PhyHandshake.v ===== *)
(** * The LINKINIT handshake

    Two dies exchange active requests and responses.  Once both listen the
    handshake completes whatever the skew of the adapters; a request that comes
    before the partner listens is lost, and training fails. *)

From S2P Require Import Prelude Rtl PhyTraining PhyLtssm PhyLinkUp PhyLinkFaults.
#[local] Open Scope Z_scope.

(** ** Both dies listen *)

Module Handshake.
Import LinkInit.

(** A die with its request and response wires towards the partner. *)
Record side := mkSide { unit_ : regs; req_wire : bool; rsp_wire : bool }.

Section Handshake.
Context (T : Z).

Definition side_in (ask : bool) (partner : side) : inputs :=
  mkInputs true (if ask then 1 else 0) (req_wire partner) (rsp_wire partner).
Definition side_step (ask : bool) (x partner : side) : side :=
  let i := side_in ask partner in
  mkSide (step T i (unit_ x)) (tx_req_active (outs i (unit_ x))) (tx_rsp_active (outs i (unit_ x))).

(** The inputs are whether each adapter asks for ACTIVE. *)
Definition handshake : circuit (bool * bool) (side * side) (state_t * state_t) := {|
  reset := let x := mkSide (mkRegs ST_WAIT_ADAPTER 0 false false false false) false false in (x, x);
  out := λ _ s, (state (unit_ (fst s)), state (unit_ (snd s)));
  tick := λ i s, (side_step (fst i) (fst s) (snd s), side_step (snd i) (snd s) (fst s)) |}.

(** The counters wiped out. *)
Definition frozen (x : side) : side :=
  let u := unit_ x in
  mkSide (mkRegs (state u) 0 (sent_req_active u) (sent_rsp_active u) (rcvd_req_active u) (rcvd_rsp_active u)) (req_wire x) (rsp_wire x).
Definition clocked (c : Z) (x : side) : Prop := 0 ≤ timeout_cnt (unit_ x) ≤ c.
End Handshake.

(** The handshake with counters that stand still. *)
Definition frozen_step (s : side * side) (i : bool * bool) : side * side :=
  (frozen (side_step 1 (fst i) (fst s) (snd s)), frozen (side_step 1 (snd i) (snd s) (fst s))).

Section Skew.
Context (T : Z) (HT : T < 2 ^ 32).

(** Before the timeout a step does not look at the counter. *)
Lemma side_step_frozen ask x y c :
  0 ≤ c < T → clocked c x →
  clocked (c + 1) (side_step T ask x y) ∧ frozen (side_step T ask x y) = frozen (side_step 1 ask (frozen x) (frozen y)).
Proof.
  intros Hc [H1 H2]. unfold side_step, frozen, clocked. destruct x as [[st cnt a b d e] rq rs], y as [[? ? ? ? ? ?] rq' rs'].
  cbn in *. assert ((cnt =? T) = false) as Hne by (apply Z.eqb_neq; lia).
  split; [|unfold next_state; cbn; by rewrite Hne].
  destruct (working st); [|lia]. destruct (Z.ltb_spec cnt T); [|lia]. unfold trunc. rewrite Z.mod_small; lia.
Qed.

Lemma run_frozen ins : ∀ s c,
  0 ≤ c → c + Z.of_nat (length ins) ≤ T → clocked c (fst s) → clocked c (snd s) →
  let s' := run (handshake T) s ins in
  (frozen (fst s'), frozen (snd s')) = foldl frozen_step (frozen (fst s), frozen (snd s)) ins.
Proof.
  induction ins as [|i ins IH]; intros [x y] c Hc Hlen Hx Hy; [done|]. cbn [length] in Hlen. cbn zeta. rewrite run_cons.
  destruct (side_step_frozen (fst i) x y c) as [Cx Fx]; [lia|done|].
  destruct (side_step_frozen (snd i) y x c) as [Cy Fy]; [lia|done|].
  cbn [tick handshake fst snd]. rewrite (IH _ (c + 1)); [|lia|lia|done|done]. cbn [fst snd foldl].
  f_equal. unfold frozen_step. cbn [fst snd]. by rewrite Fx, Fy.
Qed.

(** The first die has sent its request, the second holds it. *)
Definition parked : side * side :=
  (mkSide (mkRegs ST_HANDSHAKE 0 true false false false) false false,
   mkSide (mkRegs ST_WAIT_ADAPTER 0 false false true false) false false).

Lemma parked_stays d : foldl frozen_step parked (repeat (true, false) d) = parked.
Proof. induction d as [|d IH]; [done|]. cbn [repeat foldl]. by change (frozen_step parked (true, false)) with parked. Qed.

Lemma skewed_run d :
  let s := foldl frozen_step (reset (handshake T)) (repeat (true, false) d ++ repeat (true, true) 6) in
  state (unit_ (fst s)) = ST_DONE ∧ state (unit_ (snd s)) = ST_DONE.
Proof.
  cbn zeta. rewrite foldl_app. destruct (decide (d < 3)%nat) as [Hd|Hd].
  - destruct d as [|[|[|d]]]; [by vm_compute..|lia].
  - replace d with (3 + (d - 3))%nat by lia. rewrite repeat_app, foldl_app.
    change (foldl frozen_step (reset (handshake T)) (repeat (true, false) 3)) with parked. rewrite parked_stays. by vm_compute.
Qed.

(** C21.  Once both dies listen, the LINKINIT handshake completes
    whatever the skew between the adapters: when one asks [d] cycles before the
    other, both are done six cycles after the second asks, provided that is
    before the timeout.  The dies share a clock, and a message that one sends in a
    cycle is what the other receives in the next. *)
Theorem handshake_completes d :
  Z.of_nat d + 6 ≤ T →
  let s := run (handshake T) (reset (handshake T)) (repeat (true, false) d ++ repeat (true, true) 6) in
  state (unit_ (fst s)) = ST_DONE ∧ state (unit_ (snd s)) = ST_DONE.
Proof.
  intros Hd. cbn zeta. pose proof (run_frozen (repeat (true, false) d ++ repeat (true, true) 6) (reset (handshake T)) 0) as H.
  cbn zeta in H. rewrite length_app, !repeat_length in H. specialize (H ltac:(lia) ltac:(lia) ltac:(done) ltac:(done)).
  pose proof (skewed_run d) as [H1 H2].
  change (frozen (fst (reset (handshake T))), frozen (snd (reset (handshake T)))) with (reset (handshake T)) in H.
  rewrite <-H in H1, H2. done.
Qed.
End Skew.

Lemma handshake_completes_witness :
  let s := run (handshake 800000) (reset (handshake 800000)) (repeat (true, false) 5 ++ repeat (true, true) 6) in
  state (unit_ (fst s)) = ST_DONE ∧ state (unit_ (snd s)) = ST_DONE.
Proof. apply (handshake_completes 800000 ltac:(lia) 5). lia. Defined.
End Handshake.

(** ** A request that comes too early *)

Section Lost.
Import Ltssm.
Context (p : parameters) (Hp : bounded p).

#[local] Instance lost_machine : Timed (LinkInit.lphy_ltssm_linkinit (LINKINIT_TIMEOUT p)) (LINKINIT_TIMEOUT p) :=
  linkinit_timed _ (lnk_bound p Hp).
#[local] Abbreviation LNK := (LinkInit.lphy_ltssm_linkinit (LINKINIT_TIMEOUT p)).

(** The power-management machine sends nothing. *)
Definition pm_quiet (s : regs) : Prop := Pm.state (u_pm s) = Pm.ST_IDLE ∨ Pm.state (u_pm s) = Pm.ST_EXITING.

Lemma pm_quiet_step i s : pm_quiet s → en ST_L1 s = false → en ST_L2 s = false →
  pm_quiet (step p i s) ∧ Pm.tx_req_active (pm_out i s) = false ∧ Pm.tx_rsp_active (pm_out i s) = false.
Proof. intros [H|H] H1 H2; unfold pm_quiet; cbn; unfold Pm.next_state; rewrite H; cbn; rewrite ?H1, ?H2; auto. Qed.

(** A die whose request is out and not answered. *)
Definition asker (s : regs) : Prop :=
  state s = ST_LINKINIT ∧
  (LinkInit.state (u_linkinit s) = LinkInit.ST_HANDSHAKE ∨ LinkInit.state (u_linkinit s) = LinkInit.ST_ERROR) ∧
  LinkInit.sent_req_active (u_linkinit s) = true ∧ LinkInit.rcvd_rsp_active (u_linkinit s) = false ∧ pm_quiet s.
(** A die that has not seen a request, and so answers none. *)
Definition deaf (s : regs) : Prop :=
  state s ≠ ST_ACTIVE ∧ state s ≠ ST_L1 ∧ state s ≠ ST_L2 ∧ LinkInit.state (u_linkinit s) ≠ LinkInit.ST_DONE ∧
  LinkInit.rcvd_req_active (u_linkinit s) = false ∧ LinkInit.sent_rsp_active (u_linkinit s) = false ∧ pm_quiet s.

Lemma asker_step i s :
  rsp_active (rx i) = false → asker s →
  req_active (tx p i s) = false ∧ (asker (step p i s) ∨ state (step p i s) = ST_TRAINERROR) ∧
  (exits (m := LNK) (u_linkinit s) = true → state (step p i s) = ST_TRAINERROR).
Proof.
  intros Hr (Hs & Hl & Hq & Hn & Hpm).
  destruct (pm_quiet_step i s Hpm) as (Hpm' & Ht & _); [by apply bool_decide_eq_false; rewrite Hs..|].
  assert (en ST_LINKINIT s = true) as Hen by by apply bool_decide_eq_true. split_and!.
  - unfold tx. cbn [req_active]. rewrite Ht, orb_false_r. unfold lnk_out, LinkInit.outs.
    cbn [LinkInit.tx_req_active]. by rewrite Hq, andb_false_r.
  - destruct Hl as [Hl|Hl].
    + left. unfold asker. split_and!; [|..|done].
      * cbn. unfold next_state. rewrite Hs. cbn. by rewrite Hl.
      * cbn. unfold LinkInit.next_state, LinkInit.advance. rewrite Hl. cbn. rewrite Hq, Hn, andb_false_r. case_match; auto.
      * cbn. by rewrite Hl, Hq.
      * cbn. by rewrite Hl, Hn, Hr.
    + right. cbn. unfold next_state. rewrite Hs. cbn. by rewrite Hl.
  - destruct Hl as [Hl|Hl]; cbn; rewrite Hl; [done|]. intros _. unfold next_state. rewrite Hs. cbn. by rewrite Hl.
Qed.

Lemma deaf_step i s :
  req_active (rx i) = false → deaf s → deaf (step p i s) ∧ rsp_active (tx p i s) = false.
Proof.
  intros Hr (H1 & H2 & H3 & Hl & Hq & Hn & Hpm).
  destruct (pm_quiet_step i s Hpm) as (Hpm' & _ & Ht); [by apply bool_decide_eq_false..|].
  assert (next_state p i s ≠ ST_ACTIVE ∧ next_state p i s ≠ ST_L1 ∧ next_state p i s ≠ ST_L2) as (N1 & N2 & N3).
  { unfold next_state. assert (LinkInit.exit_to_active (lnk_out i s) = false) as -> by by apply bool_decide_eq_false.
    destruct (state s); split_and!; try done; repeat case_match; done. }
  split.
  - unfold deaf. split_and!; [done..| | | |done]; cbn.
    + unfold LinkInit.next_state, LinkInit.advance. rewrite Hn, andb_false_r. cbn [andb]. destruct (LinkInit.state (u_linkinit s)); repeat case_match; done.
    + rewrite Hq, Hr. by case_match.
    + rewrite Hq, Hn, andb_false_r. by case_match.
  - unfold tx. cbn [rsp_active]. rewrite Ht, orb_false_r. unfold lnk_out, LinkInit.outs.
    cbn [LinkInit.tx_rsp_active]. by rewrite Hq, andb_false_r.
Qed.

(** A die whose LINKINIT machine is still idle. *)
Definition not_listening (s : regs) : Prop :=
  state s ≠ ST_ACTIVE ∧ state s ≠ ST_L1 ∧ state s ≠ ST_L2 ∧ LinkInit.state (u_linkinit s) = LinkInit.ST_IDLE ∧ pm_quiet s.

Lemma not_listening_step i s : not_listening s → deaf (step p i s) ∧ rsp_active (tx p i s) = false.
Proof.
  intros (H1 & H2 & H3 & Hl & Hpm).
  destruct (pm_quiet_step i s Hpm) as (Hpm' & _ & Ht); [by apply bool_decide_eq_false..|].
  assert (next_state p i s ≠ ST_ACTIVE ∧ next_state p i s ≠ ST_L1 ∧ next_state p i s ≠ ST_L2) as (N1 & N2 & N3).
  { unfold next_state, lnk_out, LinkInit.outs. rewrite Hl. cbn. destruct (state s); split_and!; try done; repeat case_match; done. }
  split.
  - unfold deaf. split_and!; [done..| | | |done]; cbn; rewrite ?Hl; [|done..].
    unfold LinkInit.next_state, LinkInit.advance. rewrite Hl. cbn. rewrite andb_false_r. by case_match.
  - unfold tx. cbn [rsp_active]. rewrite Ht, orb_false_r. unfold lnk_out, LinkInit.outs. cbn [LinkInit.tx_rsp_active]. by rewrite Hl.
Qed.

Definition mute (s : pair) : Prop :=
  asker (die_a s) ∧ counting LNK _ (u_linkinit (die_a s)) ∧ deaf (die_b s) ∧ req_active (to_b s) = false ∧ rsp_active (to_a s) = false.

(** A cycle of the asker, with the time that is left to it. *)
Lemma asker_rank i s :
  rsp_active (rx i) = false → asker s → counting LNK _ (u_linkinit s) →
  state (step p i s) = ST_TRAINERROR ∨
  (asker (step p i s) ∧ counting LNK _ (u_linkinit (step p i s)) ∧
   rank LNK _ (u_linkinit (step p i s)) ≤ rank LNK _ (u_linkinit s) - 1).
Proof.
  intros Hr Ha Hc. destruct (asker_step i s Hr Ha) as (_ & Hnext & Hex). destruct (exits (m := LNK) (u_linkinit s)) eqn:He; [left; by apply Hex|].
  destruct Hnext as [Ha'|]; [right|by left]. destruct (lnk_bound p Hp).
  destruct (rank_step LNK _ (linkinit_in i s) (u_linkinit s)) as [H1 H2]; [lia|done|by apply bool_decide_eq_true, Ha|done|]. done.
Qed.

Lemma lost_run ins : ∀ s n,
  mute s → rank LNK _ (u_linkinit (die_a s)) ≤ n → n ≤ Z.of_nat (length ins) →
  ∃ k, Z.of_nat k ≤ n ∧ state (die_a (run (dies p) s (take k ins))) = ST_TRAINERROR ∧
    ∀ j, (j ≤ k)%nat → state (die_a (run (dies p) s (take j ins))) ≠ ST_ACTIVE ∧ state (die_b (run (dies p) s (take j ins))) ≠ ST_ACTIVE.
Proof.
  induction ins as [|i ins IH]; intros s n (Ha & Hc & Hd & Hq & Hr) Hn Hlen; pose proof (lnk_bound p Hp);
    pose proof (rank_pos LNK (LINKINIT_TIMEOUT p) (u_linkinit (die_a s)) ltac:(lia) Hc); [cbn in Hlen; lia|].
  assert (state (die_a s) ≠ ST_ACTIVE ∧ state (die_b s) ≠ ST_ACTIVE) as Hnow by (split; [by rewrite (proj1 Ha)|by apply Hd]).
  destruct (asker_step (with_rx (to_a s) (fst i)) (die_a s)) as (Tq & _ & _); [done..|].
  destruct (deaf_step (with_rx (to_b s) (snd i)) (die_b s)) as (Hd' & Tr); [done..|].
  destruct (asker_rank (with_rx (to_a s) (fst i)) (die_a s)) as [He|(Ha' & Hc' & Hk)]; [done..| |].
  - exists 1%nat. split_and!; [lia|done|]. intros j Hj. destruct j as [|[|j]]; [done| |lia]. split; [|by apply Hd'].
    change (state (step p (with_rx (to_a s) (fst i)) (die_a s)) ≠ ST_ACTIVE). by rewrite He.
  - destruct (IH (pair_step p i s) (n - 1)) as (k & Hk1 & Hk2 & Hk3); [by split_and!|cbn [die_a pair_step]; lia|cbn in Hlen; lia|].
    exists (S k). split_and!; [lia|done|]. intros [|j] Hj; [done|]. apply Hk3. lia.
Qed.

(** A LINKINIT request that reaches a partner whose LINKINIT
    machine is still idle is lost: the two dies then never both answer, neither
    enters ACTIVE, and the die that asked ends in TRAINERROR when its timeout
    expires. *)
Theorem early_request_lost s ins :
  asker (die_a s) → counting LNK _ (u_linkinit (die_a s)) → not_listening (die_b s) → rsp_active (to_a s) = false →
  LINKINIT_TIMEOUT p + 5 ≤ Z.of_nat (length ins) →
  ∃ k, Z.of_nat k ≤ LINKINIT_TIMEOUT p + 5 ∧ state (die_a (run (dies p) s (take k ins))) = ST_TRAINERROR ∧
    ∀ j, (j ≤ k)%nat → state (die_a (run (dies p) s (take j ins))) ≠ ST_ACTIVE ∧ state (die_b (run (dies p) s (take j ins))) ≠ ST_ACTIVE.
Proof.
  intros Ha Hc Hb Hr Hlen. pose proof (lnk_bound p Hp). destruct ins as [|i ins]; [cbn in Hlen; lia|].
  destruct (asker_step (with_rx (to_a s) (fst i)) (die_a s)) as (Tq & _ & _); [done..|].
  destruct (not_listening_step (with_rx (to_b s) (snd i)) (die_b s)) as (Hd & Tr); [done..|].
  assert (state (die_a s) ≠ ST_ACTIVE ∧ state (die_b s) ≠ ST_ACTIVE) as Hnow by (split; [by rewrite (proj1 Ha)|by apply Hb]).
  destruct (asker_rank (with_rx (to_a s) (fst i)) (die_a s)) as [He|(Ha' & Hc' & Hk)]; [done..| |].
  - exists 1%nat. split_and!; [lia|done|]. intros j Hj. destruct j as [|[|j]]; [done| |lia]. split; [|by apply Hd].
    change (state (step p (with_rx (to_a s) (fst i)) (die_a s)) ≠ ST_ACTIVE). by rewrite He.
  - destruct (lost_run ins (pair_step p i s) (LINKINIT_TIMEOUT p + 4)) as (k & Hk1 & Hk2 & Hk3); [by split_and!| |cbn in Hlen; lia|].
    { cbn [die_a pair_step]. assert (rank LNK _ (u_linkinit (die_a s)) ≤ LINKINIT_TIMEOUT p + 4); [|lia].
      apply rank_max; [lia|done]. }
    exists (S k). split_and!; [lia|done|]. intros [|j] Hj; [done|]. apply Hk3. lia.
Qed.
End Lost.

(** The first die has just asked, and its request is on the way; the second is
    still in MBTRAIN. *)
Definition demo_early : pair :=
  let train := run (Ltssm.lphy_ltssm demo_parameters) (reset (Ltssm.lphy_ltssm demo_parameters)) (repeat demo_cycle 75) in
  let link := run (Ltssm.lphy_ltssm demo_parameters) train (repeat (demo_ask 1) 9) in
  mkPair link train
    (mkMessages false false false true false false false false false false false false false false false false false false
       false false false false 0) no_messages.

Lemma early_request_witness :
  ∃ k, Z.of_nat k ≤ 20 + 5 ∧
    Ltssm.state (die_a (run (dies demo_parameters) demo_early (take k (repeat (demo_ask 1, demo_ask 1) 25)))) = Ltssm.ST_TRAINERROR ∧
    ∀ j, (j ≤ k)%nat →
      Ltssm.state (die_a (run (dies demo_parameters) demo_early (take j (repeat (demo_ask 1, demo_ask 1) 25)))) ≠ Ltssm.ST_ACTIVE ∧
      Ltssm.state (die_b (run (dies demo_parameters) demo_early (take j (repeat (demo_ask 1, demo_ask 1) 25)))) ≠ Ltssm.ST_ACTIVE.
Proof.
  refine (early_request_lost demo_parameters demo_bounded demo_early (repeat (demo_ask 1, demo_ask 1) 25) _ _ _ _ _).
  - split_and!; [vm_compute; reflexivity|left; vm_compute; reflexivity|vm_compute; reflexivity..|left; vm_compute; reflexivity].
  - intros _. vm_compute. split; discriminate.
  - split_and!; [vm_compute; discriminate..|vm_compute; reflexivity|left; vm_compute; reflexivity].
  - reflexivity.
  - vm_compute. discriminate.
Defined.
