(* ===== verification/PhyCal.v ===== *)
(** * Data-to-clock calibration

    lphy_d2c_cal.sv: the sweep of the phase interpolator.  The sweep ends after a
    fixed number of cycles with the phase at the centre of the last open eye. *)

From S2P Require Import Prelude Rtl.
#[local] Open Scope Z_scope.

Module D2cCal.
Inductive state_t := ST_IDLE | ST_SET_PHASE | ST_WAIT_SETTLE | ST_ACCUMULATE | ST_EVALUATE | ST_CALC_CENTER | ST_DONE.

Record inputs := mkInputs { start_cal : bool; error_threshold : Z; rx_data : list Z; expected_data : list Z }.
Record regs := mkRegs {
  state : state_t; current_phase : Z; cycle_cnt : Z; error_cnt : Z;
  left_edge : Z; right_edge : Z; in_eye : bool; eye_found : bool; pi_phase : Z }.

Section Cal.
Context (NUM_LANES PI_PHASE_MAX SETTLE_CYCLES TEST_CYCLES : Z).

Definition cycle_has_error (i : inputs) : bool :=
  existsb (λ k, negb (lane (rx_data i) k =? lane (expected_data i) k)) (seqZ 0 NUM_LANES).

Definition next_state (i : inputs) (s : regs) : state_t :=
  match state s with
  | ST_IDLE => if start_cal i then ST_SET_PHASE else ST_IDLE
  | ST_SET_PHASE => ST_WAIT_SETTLE
  | ST_WAIT_SETTLE => if cycle_cnt s =? SETTLE_CYCLES - 1 then ST_ACCUMULATE else ST_WAIT_SETTLE
  | ST_ACCUMULATE => if cycle_cnt s =? SETTLE_CYCLES + TEST_CYCLES - 1 then ST_EVALUATE else ST_ACCUMULATE
  | ST_EVALUATE => if current_phase s =? PI_PHASE_MAX then ST_CALC_CENTER else ST_SET_PHASE
  | ST_CALC_CENTER => ST_DONE
  | ST_DONE => if start_cal i then ST_DONE else ST_IDLE
  end.

Definition step (i : inputs) (s : regs) : regs :=
  let st := next_state i s in
  match state s with
  | ST_IDLE => mkRegs st 0 (cycle_cnt s) (error_cnt s) 0 0 false false (pi_phase s)
  | ST_SET_PHASE =>
      mkRegs st (current_phase s) 0 0 (left_edge s) (right_edge s) (in_eye s) (eye_found s) (current_phase s)
  | ST_WAIT_SETTLE =>
      mkRegs st (current_phase s) (trunc 16 (cycle_cnt s + 1)) (error_cnt s) (left_edge s) (right_edge s) (in_eye s)
        (eye_found s) (pi_phase s)
  | ST_ACCUMULATE =>
      mkRegs st (current_phase s) (trunc 16 (cycle_cnt s + 1))
        (if cycle_has_error i then trunc 16 (error_cnt s + 1) else error_cnt s)
        (left_edge s) (right_edge s) (in_eye s) (eye_found s) (pi_phase s)
  | ST_EVALUATE =>
      if error_cnt s <=? error_threshold i then
        mkRegs st (trunc 6 (current_phase s + 1)) (cycle_cnt s) (error_cnt s)
          (if in_eye s then left_edge s else current_phase s) (current_phase s) true true (pi_phase s)
      else
        mkRegs st (trunc 6 (current_phase s + 1)) (cycle_cnt s) (error_cnt s) (left_edge s) (right_edge s) false
          (eye_found s) (pi_phase s)
  | ST_CALC_CENTER =>
      mkRegs st (current_phase s) (cycle_cnt s) (error_cnt s) (left_edge s) (right_edge s) (in_eye s) (eye_found s)
        (if eye_found s then trunc 6 (left_edge s + Z.shiftr (trunc 6 (right_edge s - left_edge s)) 1) else pi_phase s)
  | ST_DONE =>
      mkRegs st (current_phase s) (cycle_cnt s) (error_cnt s) (left_edge s) (right_edge s) (in_eye s) (eye_found s) (pi_phase s)
  end.

(** (pi_phase, cal_done, cal_error). *)
Definition outs (s : regs) : Z * bool * bool :=
  match state s with ST_DONE => (pi_phase s, true, negb (eye_found s)) | _ => (pi_phase s, false, false) end.

Definition lphy_d2c_cal : circuit inputs regs (Z * bool * bool) := {|
  reset := mkRegs ST_IDLE 0 0 0 0 0 false false 0; out := λ _ s, outs s; tick := step |}.
End Cal.
End D2cCal.

(** ** The sweep *)

Section Sweep.
Import D2cCal.
Context (NUM_LANES M S T : Z) (HM : 0 ≤ M ≤ 63) (HS : 1 ≤ S) (HT : 1 ≤ T) (HST : S + T < 2 ^ 16).
#[local] Abbreviation cal := (lphy_d2c_cal NUM_LANES M S T).
#[local] Abbreviation cstep := (step NUM_LANES M S T).

(** The cycles of one phase: set it, let it settle, test it, evaluate. *)
Record block := mkBlock { setting : inputs; settling : list inputs; testing : list inputs; evaluating : inputs }.
Definition block_cycles (b : block) : list inputs := setting b :: settling b ++ testing b ++ [evaluating b].
Definition wf_block (b : block) : Prop := Z.of_nat (length (settling b)) = S ∧ Z.of_nat (length (testing b)) = T.

Definition errors (l : list inputs) : Z := Z.of_nat (length (filter (λ i, cycle_has_error NUM_LANES i = true) l)).
Definition passes (b : block) : bool := errors (testing b) <=? error_threshold (evaluating b).

(** The eye registers. *)
Definition eye := (Z * Z * bool * bool)%type.
Definition eye_of (s : regs) : eye := (left_edge s, right_edge s, in_eye s, eye_found s).
Definition eye_step (q : Z) (ok : bool) (e : eye) : eye :=
  let '(l, r, i, f) := e in if ok then ((if i then l else q), q, true, true) else (l, r, false, f).

Lemma settle_run l s c :
  state s = ST_WAIT_SETTLE → cycle_cnt s = c → 0 ≤ c → c + Z.of_nat (length l) = S →
  (0 < length l)%nat →
  let s' := run cal s l in
  state s' = ST_ACCUMULATE ∧ cycle_cnt s' = S ∧ error_cnt s' = error_cnt s ∧ current_phase s' = current_phase s ∧
  eye_of s' = eye_of s.
Proof.
  revert s c. induction l as [|i l IH]; intros s c Hs Hc H0 Hlen Hl; cbn in Hl; [lia|]. cbn [length] in Hlen. cbn zeta.
  rewrite run_cons. change (tick cal i s) with (cstep i s).
  assert (trunc 16 (cycle_cnt s + 1) = c + 1) as Htr by (unfold trunc; rewrite Hc; apply Z.mod_small; lia).
  assert (∃ st, cstep i s = mkRegs st (current_phase s) (c + 1) (error_cnt s) (left_edge s) (right_edge s) (in_eye s) (eye_found s) (pi_phase s)
     ∧ st = if c =? S - 1 then ST_ACCUMULATE else ST_WAIT_SETTLE) as (st & -> & Hst).
  { eexists. split; [|done]. unfold step, next_state. rewrite Hs, Hc. by rewrite <-Hc, Htr, Hc. }
  destruct l as [|j l].
  - cbn in Hlen. rewrite (proj2 (Z.eqb_eq c (S - 1))) in Hst by lia. subst st. cbn. split_and!; [done|lia|done..].
  - rewrite (proj2 (Z.eqb_neq c (S - 1))) in Hst by (cbn in Hlen; lia). subst st.
    match goal with |- context [run cal ?s1 _] => destruct (IH s1 (c + 1)) as (H1 & H2 & H3 & H4 & H5) end; [done|done|lia|lia|cbn; lia|].
    by split_and!.
Qed.

Lemma errors_cons i l : errors (i :: l) = Z.b2z (cycle_has_error NUM_LANES i) + errors l.
Proof.
  unfold errors. rewrite filter_cons. destruct (cycle_has_error NUM_LANES i).
  - rewrite decide_True, length_cons by done. unfold Z.b2z. lia.
  - by rewrite decide_False.
Qed.
Lemma errors_bound l : 0 ≤ errors l ≤ Z.of_nat (length l).
Proof. unfold errors. split; [lia|]. apply inj_le, length_filter. Qed.

Lemma test_run l s c e :
  state s = ST_ACCUMULATE → cycle_cnt s = c → error_cnt s = e → S ≤ c → 0 ≤ e ≤ c - S → c + Z.of_nat (length l) = S + T →
  (0 < length l)%nat →
  let s' := run cal s l in
  state s' = ST_EVALUATE ∧ error_cnt s' = e + errors l ∧ current_phase s' = current_phase s ∧ eye_of s' = eye_of s.
Proof.
  revert s c e. induction l as [|i l IH]; intros s c e Hs Hc He H0 Heb Hlen Hl; cbn in Hl; [lia|]. cbn [length] in Hlen. cbn zeta.
  rewrite run_cons, errors_cons. change (tick cal i s) with (cstep i s).
  assert (trunc 16 (cycle_cnt s + 1) = c + 1) as Htr by (unfold trunc; rewrite Hc; apply Z.mod_small; lia).
  assert ((if cycle_has_error NUM_LANES i then trunc 16 (error_cnt s + 1) else error_cnt s) = e + Z.b2z (cycle_has_error NUM_LANES i)) as Hte.
  { rewrite He. destruct (cycle_has_error NUM_LANES i); cbn; [unfold trunc; apply Z.mod_small|]; lia. }
  set (x := Z.b2z (cycle_has_error NUM_LANES i)) in *. assert (0 ≤ x ≤ 1) as Hx by (subst x; destruct (cycle_has_error NUM_LANES i); cbn; lia).
  assert (∃ st, cstep i s = mkRegs st (current_phase s) (c + 1) (e + x) (left_edge s) (right_edge s) (in_eye s) (eye_found s) (pi_phase s)
     ∧ st = if c =? S + T - 1 then ST_EVALUATE else ST_ACCUMULATE) as (st & -> & Hst).
  { eexists. split; [|done]. unfold step, next_state. rewrite Hs, Hte. by rewrite Htr, Hc. }
  destruct l as [|j l].
  - cbn in Hlen. rewrite (proj2 (Z.eqb_eq c (S + T - 1))) in Hst by lia. subst st. change (errors []) with 0. rewrite Z.add_0_r. done.
  - rewrite (proj2 (Z.eqb_neq c (S + T - 1))) in Hst by (cbn in Hlen; lia). subst st.
    match goal with |- context [run cal ?s1 _] => destruct (IH s1 (c + 1) (e + x)) as (H1 & H2 & H3 & H4) end; [done|done|done|lia|lia|lia|cbn; lia|].
    split_and!; [done|rewrite H2; lia|done|done].
Qed.

(** One phase of the sweep. *)
Lemma block_run b s :
  wf_block b → state s = ST_SET_PHASE →
  let s' := run cal s (block_cycles b) in
  state s' = (if current_phase s =? M then ST_CALC_CENTER else ST_SET_PHASE) ∧
  current_phase s' = trunc 6 (current_phase s + 1) ∧ eye_of s' = eye_step (current_phase s) (passes b) (eye_of s).
Proof.
  intros [Hset Htest] Hs. cbn zeta. unfold block_cycles. rewrite run_cons, !run_app.
  set (s1 := tick cal (setting b) s).
  assert (state s1 = ST_WAIT_SETTLE ∧ cycle_cnt s1 = 0 ∧ error_cnt s1 = 0 ∧ current_phase s1 = current_phase s ∧ eye_of s1 = eye_of s)
    as (A1 & A2 & A3 & A4 & A5) by (subst s1; cbn; unfold step, next_state; by rewrite Hs).
  destruct (settle_run (settling b) s1 0) as (B1 & B2 & B3 & B4 & B5); [done|done|lia|lia|lia|].
  set (s2 := run cal s1 (settling b)) in *.
  destruct (test_run (testing b) s2 S 0) as (C1 & C2 & C3 & C4); [done|done|by rewrite B3|lia|lia|lia|lia|].
  set (s3 := run cal s2 (testing b)) in *. change (run cal s3 [evaluating b]) with (cstep (evaluating b) s3).
  assert (current_phase s3 = current_phase s) as Hq by by rewrite C3, B4, A4.
  assert (eye_of s3 = eye_of s) as He by by rewrite C4, B5, A5.
  rewrite <-He, <-Hq. unfold step, next_state, eye_step, passes, eye_of. rewrite C1, C2, Z.add_0_l.
  destruct (errors (testing b) <=? error_threshold (evaluating b)); cbn; done.
Qed.

(** The sweep from phase [q]. *)
Fixpoint sweep_eye (q : Z) (oks : list bool) (e : eye) : eye :=
  match oks with [] => e | ok :: oks' => sweep_eye (q + 1) oks' (eye_step q ok e) end.

Lemma sweep_run bs : ∀ s q,
  Forall wf_block bs → state s = ST_SET_PHASE → current_phase s = q → 0 ≤ q → q + Z.of_nat (length bs) = M + 1 → (0 < length bs)%nat →
  let s' := run cal s (joined (block_cycles <$> bs)) in
  state s' = ST_CALC_CENTER ∧ eye_of s' = sweep_eye q (passes <$> bs) (eye_of s).
Proof.
  induction bs as [|b bs IH]; intros s q Hbs Hs Hq H0 Hlen Hl; cbn in Hl; [lia|]. apply Forall_cons in Hbs as [Hb Hbs].
  cbn [length] in Hlen. cbn zeta. rewrite !fmap_cons. cbn [joined sweep_eye]. rewrite run_app.
  destruct (block_run b s Hb Hs) as (H1 & H2 & H3). set (s1 := run cal s (block_cycles b)) in *. rewrite Hq in *.
  destruct bs as [|b' bs].
  - cbn in Hlen. cbn. rewrite (proj2 (Z.eqb_eq q M)) in H1 by lia. done.
  - rewrite (proj2 (Z.eqb_neq q M)) in H1 by (cbn in Hlen; lia). rewrite <-H3. apply IH; [done|done| |lia|lia|cbn; lia].
    rewrite H2. unfold trunc. apply Z.mod_small. cbn in Hlen. lia.
Qed.

(** ** The last eye *)

Section Eye.
Context (ok : Z → bool).

(** From [l] to [r] all phases pass, the one before [l] does not, and none
    between [r] and [q] does. *)
Definition last_eye (q l r : Z) : Prop :=
  0 ≤ l ≤ r ∧ r < q ∧ (∀ k, l ≤ k ≤ r → ok k = true) ∧ (l = 0 ∨ ok (l - 1) = false) ∧ (∀ k, r < k < q → ok k = false).
Definition swept (q : Z) (e : eye) : Prop :=
  let '(l, r, i, f) := e in
  if f : bool then last_eye q l r ∧ i = bool_decide (r = q - 1) else i = false ∧ ∀ k, 0 ≤ k < q → ok k = false.

Lemma swept_step q e : 0 ≤ q → swept q e → swept (q + 1) (eye_step q (ok q) e).
Proof.
  intros Hq. destruct e as [[[l r] i] f]. unfold swept, eye_step, last_eye. destruct (ok q) eqn:Hok.
  - intros H. assert (bool_decide (q = q + 1 - 1) = true) as -> by (apply bool_decide_eq_true; lia). split; [|done].
    destruct f.
    + destruct H as [(H1 & H2 & H3 & H4 & H5) ->]. case_bool_decide as Hr.
      * split_and!; [lia|lia|lia| |done|intros; lia]. intros k Hk. destruct (decide (k = q)) as [->|]; [done|]. apply H3. lia.
      * split_and!; [lia|lia|lia| |right; apply H5; lia|intros; lia]. intros k Hk. by replace k with q by lia.
    + destruct H as [-> H]. split_and!; [lia|lia|lia| | |intros; lia]; [intros k Hk; by replace k with q by lia|].
      destruct (decide (q = 0)); [by left|right; apply H; lia].
  - destruct f.
    + intros [(H1 & H2 & H3 & H4 & H5) _]. split; [|symmetry; apply bool_decide_eq_false; lia]. split_and!; [lia|lia|lia|done|done|].
      intros k Hk. destruct (decide (k = q)) as [->|]; [done|]. apply H5. lia.
    + intros [_ H]. split; [done|]. intros k Hk. destruct (decide (k = q)) as [->|]; [done|]. apply H. lia.
Qed.

Lemma swept_run oks : ∀ q e,
  0 ≤ q → (∀ k : nat, (k < length oks)%nat → oks !! k = Some (ok (q + Z.of_nat k))) → swept q e →
  swept (q + Z.of_nat (length oks)) (sweep_eye q oks e).
Proof.
  induction oks as [|b oks IH]; intros q e Hq Hoks He; cbn [length sweep_eye]; [by rewrite Z.add_0_r|].
  replace (q + Z.of_nat (Datatypes.S (length oks))) with (q + 1 + Z.of_nat (length oks)) by lia. apply IH; [lia| |].
  - intros k Hk. etrans; [apply (Hoks (Datatypes.S k)); cbn; lia|]. do 2 f_equal. lia.
  - pose proof (Hoks 0%nat ltac:(cbn; lia)) as H0. rewrite Z.add_0_r in H0. injection H0 as ->. by apply swept_step.
Qed.
End Eye.

(** Whether phase [k] of the sweep passes. *)
Definition phase_passes (bs : list block) (k : Z) : bool := default false (passes <$> bs !! Z.to_nat k).

(** C18.  Calibration ends after (PI_PHASE_MAX + 1) (SETTLE_CYCLES +
    TEST_CYCLES + 2) + 2 cycles, whatever the receiver sees.  It reports an error
    exactly when no phase passes its test, and otherwise leaves the interpolator
    at the centre of the last run of passing phases. *)
Theorem calibration_centres bs first last :
  start_cal first = true → Forall wf_block bs → Z.of_nat (length bs) = M + 1 →
  let s := run cal (reset cal) (first :: joined (block_cycles <$> bs) ++ [last]) in
  let '(phase, cal_done, cal_error) := outs s in
  cal_done = true ∧
  if cal_error then ∀ k, 0 ≤ k ≤ M → phase_passes bs k = false
  else ∃ l r, last_eye (phase_passes bs) (M + 1) l r ∧ phase = l + (r - l) / 2.
Proof.
  intros Hst Hbs Hlen. cbn zeta. rewrite run_cons, run_app.
  set (s0 := tick cal first (reset cal)).
  assert (state s0 = ST_SET_PHASE ∧ current_phase s0 = 0 ∧ eye_of s0 = (0, 0, false, false)) as (A1 & A2 & A3).
  { subst s0. cbn. unfold next_state. cbn. by rewrite Hst. }
  destruct (sweep_run bs s0 0) as (B1 & B2); [done|done|done|lia|lia|lia|]. set (s1 := run cal s0 _) in *.
  change (run cal s1 [last]) with (cstep last s1). rewrite A3 in B2.
  pose proof (swept_run (phase_passes bs) (passes <$> bs) 0 (0, 0, false, false)) as Hw.
  assert (swept (phase_passes bs) (M + 1) (eye_of s1)) as Hs1.
  { rewrite B2. rewrite length_fmap, Hlen in Hw. apply Hw; [lia| |by split; [|intros; lia]].
    intros k Hk. unfold phase_passes. rewrite list_lookup_fmap, Z.add_0_l, Nat2Z.id.
    by destruct (lookup_lt_is_Some_2 bs k Hk) as [b ->]. }
  unfold step, next_state. rewrite B1. cbn. split; [done|]. unfold swept, eye_of in Hs1. destruct (eye_found s1); cbn.
  - exists (left_edge s1), (right_edge s1). destruct Hs1 as [Heye _]. split; [done|]. destruct Heye as (H1 & H2 & _).
    unfold trunc. rewrite (Z.mod_small (right_edge s1 - left_edge s1)) by lia. rewrite Z.shiftr_div_pow2 by lia.
    change (2 ^ 1) with 2. apply Z.mod_small. change (2 ^ 6) with 64. lia_div.
  - intros k Hk. apply Hs1. lia.
Qed.
End Sweep.

(** Four phases, of which the second and third pass. *)
Definition demo_sample (bad : bool) : D2cCal.inputs := D2cCal.mkInputs true 0 [if bad then 0 else 15] [15].
Definition demo_block (bad : bool) : block := mkBlock (demo_sample bad) (repeat (demo_sample bad) 2) (repeat (demo_sample bad) 3) (demo_sample bad).
Definition demo_sweep : list block := [demo_block true; demo_block false; demo_block false; demo_block true].

#[local] Abbreviation demo_calibrated :=
  (run (D2cCal.lphy_d2c_cal 1 3 2 3) (reset (D2cCal.lphy_d2c_cal 1 3 2 3))
    (demo_sample false :: joined (block_cycles <$> demo_sweep) ++ [demo_sample false])).

Lemma calibration_witness :
  D2cCal.outs demo_calibrated = (1, true, false) ∧
  ∃ l r, last_eye (phase_passes 1 demo_sweep) (3 + 1) l r ∧ 1 = l + (r - l) / 2.
Proof.
  assert (D2cCal.outs demo_calibrated = (1, true, false)) as E by (vm_compute; reflexivity). split; [exact E|].
  assert (Forall (wf_block 2 3) demo_sweep) as Hwf by repeat constructor.
  pose proof (calibration_centres 1 3 2 3 ltac:(lia) ltac:(lia) ltac:(lia) ltac:(lia) demo_sweep (demo_sample false)
                (demo_sample false) eq_refl Hwf eq_refl) as H.
  cbn zeta in H. rewrite E in H. exact (proj2 H).
Defined.
