(* ===== verification/PhyControl.v ===== *)
(** * The control half of ucie_lphy_top

    Sections 1, 2 and 7 of ucie_lphy_top.sv: the adapter interface, the link state
    machine and the calibration, wired as the top level wires them.  The training
    trigger is derived from the adapter's request, calibration results feed MBINIT
    and MBTRAIN, and the PHY's own retrain trigger is tied low. *)

From S2P Require Import Prelude Rtl PhyTraining PhyLtssm PhyLinkUp PhyCal.
#[local] Open Scope Z_scope.

Module Control.
Record inputs := mkInputs {
  lp_state_req : Z; lp_linkerror : bool; lp_stallack : bool; lp_wake_req : bool;
  power_stable : bool; sb_clk_stable : bool; mb_clk_stable : bool; mb_clk_slow : bool; soc_reset_n : bool;
  rx_pattern_detected : Z; rx : messages; mb : MbInit.inputs; trn : MbTrain.inputs;
  is_unrepairable : bool; framing_err : bool; pre_degrade_rx_data : list Z }.
Record regs := mkRegs { u_rdi_intf : Rdi.regs; u_ltssm : Ltssm.regs; u_d2c_cal : D2cCal.regs }.

(** NUM_LANES, PACKAGE_TYPE, the timeouts and the parameters of the sweep. *)
Record parameters := mkParameters {
  NUM_LANES : Z; PACKAGE_TYPE : bool; timeouts : Ltssm.parameters;
  D2C_PI_PHASE_MAX : Z; D2C_SETTLE_CYCLES : Z; D2C_TEST_CYCLES : Z }.

Section Control.
Context (p : parameters).

Definition cal_done (s : regs) : bool := snd (fst (D2cCal.outs (u_d2c_cal s))).
Definition cal_error (s : regs) : bool := snd (D2cCal.outs (u_d2c_cal s)).

Definition with_cal_done (d : bool) (m : MbInit.inputs) : MbInit.inputs :=
  MbInit.mkInputs (MbInit.en_mbinit m) (MbInit.package_type m) (MbInit.param_done m) d (MbInit.repairclk_done m)
    (MbInit.repairval_done m) (MbInit.reversal_done m) (MbInit.repairmb_done m) (MbInit.substate_error m).
Definition with_center_done (d : bool) (t : MbTrain.inputs) : MbTrain.inputs :=
  MbTrain.mkInputs (MbTrain.en_mbtrain t) (MbTrain.package_type t) (MbTrain.valvref_done t) (MbTrain.datavref_done t)
    (MbTrain.speedidle_done t) (MbTrain.txselfcal_done t) (MbTrain.rxclkcal_done t) (MbTrain.valtraincenter_done t)
    (MbTrain.valtrainvref_done t) d (MbTrain.datatrainvref_done t) (MbTrain.rxdeskew_done t)
    (MbTrain.datatraincenter2_done t) (MbTrain.linkspeed_done t) (MbTrain.linkspeed_error t) (MbTrain.needs_repair t)
    (MbTrain.needs_speed_degrade t) (MbTrain.repair_done t) (MbTrain.substate_error t).

(** The inputs of the state machine but the trigger. *)
Definition ltssm_wires (start : bool) (i : inputs) (s : regs) : Ltssm.inputs :=
  Ltssm.mkInputs start (lp_state_req i) (lp_linkerror i) (Rdi.stallack_q (u_rdi_intf s))
    (power_stable i) (sb_clk_stable i) (mb_clk_stable i) (mb_clk_slow i) (soc_reset_n i) (PACKAGE_TYPE p)
    (rx_pattern_detected i) (rx i) (with_cal_done (cal_done s) (mb i)) (with_center_done (cal_done s) (trn i))
    (cal_error s) (is_unrepairable i) false (framing_err i) 1.
Definition int_pl_state_sts (i : inputs) (s : regs) : Z := Ltssm.pl_state_sts (ltssm_wires false i s) (u_ltssm s).
Definition ltssm_in (i : inputs) (s : regs) : Ltssm.inputs :=
  ltssm_wires (Rdi.internal_start_link_training (int_pl_state_sts i s) (lp_state_req i)) i s.

Definition start_cal (s : regs) : bool :=
  MbInit.en_cal (Ltssm.mb_out (u_ltssm s)) || MbTrain.en_datatraincenter1 (Ltssm.trn_out (u_ltssm s)).
Definition cal_in (i : inputs) (s : regs) : D2cCal.inputs :=
  D2cCal.mkInputs (start_cal s) 0 (pre_degrade_rx_data i) (lanes (NUM_LANES p) (λ _, 0x0F)).
Definition rdi_in (i : inputs) (s : regs) : Rdi.inputs :=
  Rdi.mkInputs (lp_wake_req i) (PhyRetrain.pl_stallreq (Ltssm.ret_out (ltssm_in i s) (u_ltssm s))) (lp_stallack i).

Definition step (i : inputs) (s : regs) : regs :=
  mkRegs (tick Rdi.lphy_rdi_intf (rdi_in i s) (u_rdi_intf s))
    (Ltssm.step (timeouts p) (ltssm_in i s) (u_ltssm s))
    (D2cCal.step (NUM_LANES p) (D2C_PI_PHASE_MAX p) (D2C_SETTLE_CYCLES p) (D2C_TEST_CYCLES p) (cal_in i s) (u_d2c_cal s)).

Definition control : circuit inputs regs (Z * Z) := {|
  reset := mkRegs (reset Rdi.lphy_rdi_intf) (reset (Ltssm.lphy_ltssm (timeouts p)))
    (reset (D2cCal.lphy_d2c_cal (NUM_LANES p) (D2C_PI_PHASE_MAX p) (D2C_SETTLE_CYCLES p) (D2C_TEST_CYCLES p)));
  out := λ i s, (int_pl_state_sts i s, D2cCal.pi_phase (u_d2c_cal s));
  tick := step |}.
End Control.
End Control.

(** ** Training, from the adapter's request *)

Section TopTraining.
Import Control.
Context (p : Control.parameters) (Hp : bounded (timeouts p)).
#[local] Abbreviation orderly' := (orderly (timeouts p) Hp).

(** Stable power and clocks, and an adapter that asks for ACTIVE. *)
Definition requested (i : inputs) : Prop :=
  lp_state_req i = 1 ∧ power_stable i = true ∧ sb_clk_stable i = true ∧ mb_clk_stable i = true ∧ mb_clk_slow i = true ∧
  soc_reset_n i = true.

(** While the link trains the status is Reset, so the request is the trigger. *)
Lemma requested_ready i s : requested i → training (u_ltssm s) = true → ready (ltssm_in p i s).
Proof.
  intros (Hr & H1 & H2 & H3 & H4 & H5) Hs. unfold ready, ltssm_in. cbn. split_and!; [done..|].
  unfold Rdi.internal_start_link_training, int_pl_state_sts, Ltssm.pl_state_sts, training in *. rewrite Hr.
  destruct (Ltssm.state (u_ltssm s)); done.
Qed.

Lemma control_run ins : ∀ s n,
  Forall requested ins → orderly' (u_ltssm s) → training (u_ltssm s) = true → budget (timeouts p) Hp (u_ltssm s) ≤ n →
  n ≤ Z.of_nat (length ins) →
  ∃ k, Z.of_nat k ≤ n ∧ trained (u_ltssm (run (control p) s (take k ins))) = true.
Proof.
  induction ins as [|i ins IH]; intros s n Hi Ho Hs Hb Hn; pose proof (budget_pos (timeouts p) Hp (u_ltssm s) Ho Hs); [cbn in Hn; lia|].
  apply Forall_cons in Hi as [Hi Hins]. pose proof (requested_ready i s Hi Hs) as Hr.
  destruct (budget_step (timeouts p) Hp (ltssm_in p i s) (u_ltssm s) Hr Ho Hs) as [Hd|[Hs' Hb']].
  - exists 1%nat. split; [lia|]. done.
  - destruct (IH (step p i s) (n - 1)) as (k & Hk & Ht); [done|by apply orderly_step|done|cbn [u_ltssm step]; lia|cbn in Hn; lia|].
    exists (S k). split; [lia|]. done.
Qed.

(** C7.  The PHY trains when its adapter asks: from reset, with stable
    power and clocks and an adapter that asks for ACTIVE, and whatever the
    partner, the receiver and the repair logic do, the link is in ACTIVE or in
    TRAINERROR within the hold time, the four timeouts and 19 cycles. *)
Theorem phy_trains ins :
  Forall requested ins → Ltssm.RESET_TIMER_CYCLES (timeouts p) + 3 + training_time (timeouts p) ≤ Z.of_nat (length ins) →
  ∃ k, Z.of_nat k ≤ Ltssm.RESET_TIMER_CYCLES (timeouts p) + 3 + training_time (timeouts p) ∧
    (Ltssm.state (u_ltssm (run (control p) (reset (control p)) (take k ins))) = Ltssm.ST_ACTIVE ∨
     Ltssm.state (u_ltssm (run (control p) (reset (control p)) (take k ins))) = Ltssm.ST_TRAINERROR).
Proof.
  intros Hi Hn. destruct (control_run ins (reset (control p)) (Ltssm.RESET_TIMER_CYCLES (timeouts p) + 3 + training_time (timeouts p)))
    as (k & Hk & Ht); [done|apply orderly_reset|done|cbn; unfold reset_rank; cbn; lia|done|].
  exists k. split; [done|]. unfold trained in Ht. destruct (Ltssm.state _); try done; [by left|by right].
Qed.
End TopTraining.

(** Two lanes, a sweep of three phases, and an eye that is open at each. *)
Definition demo_control : Control.parameters :=
  Control.mkParameters 2 false (Ltssm.mkParameters 3 60 60 60 60 60 60) 2 1 2.
Definition demo_request : Control.inputs :=
  Control.mkInputs 1 false false false true true true true true 1 demo_messages (Ltssm.mb demo_cycle) (Ltssm.trn demo_cycle)
    false false [0x0F; 0x0F].

Lemma demo_control_bounded : bounded (Control.timeouts demo_control).
Proof. split; cbn; lia. Qed.

Lemma phy_trains_witness :
  ∃ k, Z.of_nat k ≤ 262 ∧
    (Ltssm.state (Control.u_ltssm (run (Control.control demo_control) (reset (Control.control demo_control))
       (take k (repeat demo_request 262)))) = Ltssm.ST_ACTIVE ∨
     Ltssm.state (Control.u_ltssm (run (Control.control demo_control) (reset (Control.control demo_control))
       (take k (repeat demo_request 262)))) = Ltssm.ST_TRAINERROR).
Proof.
  apply (phy_trains demo_control demo_control_bounded (repeat demo_request 262)).
  - repeat constructor.
  - vm_compute. discriminate.
Defined.

(** This PHY calibrates and reaches ACTIVE. *)
Example demo_control_active :
  Ltssm.state (Control.u_ltssm (run (Control.control demo_control) (reset (Control.control demo_control))
    (repeat demo_request 150))) = Ltssm.ST_ACTIVE.
Proof. vm_compute. reflexivity. Qed.
