(* ===== verification/PhyTop.v ===== *)
(** * The whole PHY (ucie_lphy_top.sv) and two of them face to face

    Every instance of ucie_lphy_top and the wires between them: the control half
    drives the mainband, whose framing error, repair verdict and received lanes
    come back to it; the sideband controller is told when the link is in reset.
    Then two dies that run in lock-step: they leave reset together and are given the
    same control inputs in every cycle.  With a front end that presents what the
    calibration expects they train and form a delay line; wired directly they never
    get past the calibration of MBTRAIN. *)

From S2P Require Import Prelude Rtl PhyScramble PhyLanes PhyDetect PhyDatapath PhyFaults PhySideband.
From S2P Require Import PhyTraining PhyLtssm PhyLinkUp PhyLinkFaults PhyCal PhyControl.
#[local] Open Scope Z_scope.

Module Top.
Import Mainband(pins, DATA, u_rx_top, u_repair_ctrl).

(** [mb] and [trn] carry the done inputs of MBINIT and MBTRAIN.  [sb_edge] says
    whether [sb_clk] has an edge in this cycle; [sb] holds the inputs of the
    sideband controller but [rdi_in_reset]. *)
Record inputs := mkInputs {
  lp_valid : bool; lp_irdy : bool; lp_data : Z;
  lp_state_req : Z; lp_linkerror : bool; lp_stallack : bool; lp_wake_req : bool;
  power_stable : bool; sb_clk_stable : bool; mb_clk_stable : bool; mb_clk_slow : bool; soc_reset_n : bool;
  rx_pattern_detected : Z; rx : messages; mb : MbInit.inputs; trn : MbTrain.inputs;
  RX : pins; sb_edge : bool; sb : SbCtrl.inputs }.
#[export] Instance top_inputs_eta : Eta inputs := λ i,
  mkInputs (lp_valid i) (lp_irdy i) (lp_data i) (lp_state_req i) (lp_linkerror i) (lp_stallack i) (lp_wake_req i)
    (power_stable i) (sb_clk_stable i) (mb_clk_stable i) (mb_clk_slow i) (soc_reset_n i) (rx_pattern_detected i) (rx i)
    (mb i) (trn i) (RX i) (sb_edge i) (sb i).
Record regs := mkRegs { ctl : Control.regs; mband : Mainband.regs; u_sb_ctrl : SbCtrl.regs }.

Section Top.
Context (p : Control.parameters).

Definition ltssm (s : regs) : Ltssm.regs := Control.u_ltssm (ctl s).
Definition lane_map_ctrl (s : regs) : Z := DataRepair.lane_map (u_repair_ctrl (mband s)).
Definition framing_err (s : regs) : bool := ValidDeframer.framing_err (RxTop.valid_deframer (u_rx_top (mband s))).
Definition pre_degrade_rx_data (i : inputs) (s : regs) : list Z :=
  WidthDegrade.rx_logical_data NUM_LANES (lane_map_ctrl s) (DATA (RX i)).

Definition control_in (i : inputs) (s : regs) : Control.inputs :=
  Control.mkInputs (lp_state_req i) (lp_linkerror i) (lp_stallack i) (lp_wake_req i)
    (power_stable i) (sb_clk_stable i) (mb_clk_stable i) (mb_clk_slow i) (soc_reset_n i)
    (rx_pattern_detected i) (rx i) (mb i) (trn i)
    (DataRepair.is_unrepairable (u_repair_ctrl (mband s))) (framing_err s) (pre_degrade_rx_data i s).
Definition ltssm_in (i : inputs) (s : regs) : Ltssm.inputs := Control.ltssm_in p (control_in i s) (ctl s).
Definition int_pl_state_sts (i : inputs) (s : regs) : Z := Control.int_pl_state_sts p (control_in i s) (ctl s).

(** The datapath controls of the state machine. *)
Definition int_select_valtrain (s : regs) : bool :=
  MbTrain.en_valtraincenter (Ltssm.trn_out (ltssm s)) || MbTrain.en_valtrainvref (Ltssm.trn_out (ltssm s)).
Definition mainband_in (i : inputs) (s : regs) : Mainband.inputs :=
  Mainband.mkInputs (Ltssm.tx_training_en (ltssm s)) (Ltssm.scrambler_en (ltssm_in i s) (ltssm s))
    (LinkInit.lfsr_reset (Ltssm.lnk_out (ltssm_in i s) (ltssm s))) (Ltssm.repair_en (ltssm s))
    (MbInit.en_reversal (Ltssm.mb_out (ltssm s))) (int_select_valtrain s)
    (lp_valid i) (lp_irdy i) (lp_data i).

Definition sb_in (i : inputs) (s : regs) : SbCtrl.inputs :=
  let b := sb i in
  SbCtrl.mkInputs (int_pl_state_sts i s =? 0) (SbCtrl.tx_req_valid b) (SbCtrl.tx_fields b) (SbCtrl.tx_local_crd_ret b)
    (SbCtrl.afe_tx_ready b) (SbCtrl.afe_rx_valid b) (SbCtrl.afe_rx_data b).

Definition step (i : inputs) (s : regs) : regs :=
  mkRegs (Control.step p (control_in i s) (ctl s))
    (Mainband.step (Control.PACKAGE_TYPE p) (mainband_in i s, RX i) (mband s))
    (if sb_edge i then SbCtrl.step (sb_in i s) (u_sb_ctrl s) else u_sb_ctrl s).

Record outputs := mkOutputs {
  pl_state_sts : Z; rx_side : RxTop.outputs; TX : pins; tx : messages; afe_pi_phase : Z; sb_side : SbCtrl.outputs }.

Definition outs (i : inputs) (s : regs) : outputs :=
  mkOutputs (int_pl_state_sts i s) (Mainband.rx_out (mainband_in i s) (RX i) (mband s)) (Mainband.tx_pins (mband s))
    (Ltssm.tx (Control.timeouts p) (ltssm_in i s) (ltssm s)) (D2cCal.pi_phase (Control.u_d2c_cal (ctl s)))
    (out SbCtrl.lphy_sb_ctrl (sb_in i s) (u_sb_ctrl s)).

Definition ucie_lphy_top : circuit inputs regs outputs := {|
  reset := mkRegs (reset (Control.control p)) (reset (Mainband.mainband (Control.PACKAGE_TYPE p))) (reset SbCtrl.lphy_sb_ctrl);
  out := outs; tick := step |}.
End Top.
End Top.

(** ** Two dies in lock-step *)

Module PhyPair.
Import Mainband(pins, mkPins, DATA, VLD, RD, RDVLD, tx_pins).
Import Top.

(** One cycle of both dies.  [common] holds what the two are given alike; its
    messages, pins and adapter data are replaced.  [send_a] and [send_b] are the
    words the adapters have to send; an adapter sends in ACTIVE only.
    [training_pins] is what the front ends show on the pins before ACTIVE, where
    that is not what the partner drives. *)
Record cycle := mkCycle {
  common : inputs; training_pins : option pins; send_a : option Z; send_b : option Z }.
(** Sideband messages take one cycle. *)
Record pair := mkPair { die_a : regs; die_b : regs; to_b : messages; to_a : messages }.

Definition up (s : regs) : bool := bool_decide (Ltssm.state (ltssm s) = Ltssm.ST_ACTIVE).

Definition received (up : bool) (t : option pins) (x : pins) : pins :=
  match up, t with false, Some x' => x' | _, _ => x end.
Definition sending (send : option Z) (s : regs) : option Z := if up s then send else None.

Definition die_in (c : cycle) (send : option Z) (partner : regs) (m : messages) (s : regs) : inputs :=
  let w := sending send s in
  (common c) <| rx := m |> <| RX := received (up s) (training_pins c) (tx_pins (mband partner)) |>
    <| lp_valid := bool_decide (is_Some w) |> <| lp_irdy := true |> <| lp_data := default 0 w |>.
Definition in_a (c : cycle) (s : pair) : inputs := die_in c (send_a c) (die_b s) (to_a s) (die_a s).
Definition in_b (c : cycle) (s : pair) : inputs := die_in c (send_b c) (die_a s) (to_b s) (die_b s).

Section Pair.
Context (p : Control.parameters).

Definition pair_step (c : cycle) (s : pair) : pair :=
  mkPair (step p (in_a c s) (die_a s)) (step p (in_b c s) (die_b s))
    (tx (outs p (in_a c s) (die_a s))) (tx (outs p (in_b c s) (die_b s))).

(** The word an adapter hands over and the word its partner is given in a cycle. *)
Definition sent (send : option Z) (s : regs) : option (list Z) := LaneMapSpec.word_bytes <$> sending send s.
Definition given (i : inputs) (s : regs) : option (list Z) :=
  let o := rx_side (outs p i s) in if RxTop.pl_valid o then Some (RxTop.pl_data o) else None.

Record view := mkView {
  sent_a : option (list Z); given_b : option (list Z); sent_b : option (list Z); given_a : option (list Z) }.

Definition link : circuit cycle pair view := {|
  reset := let r := reset (ucie_lphy_top p) in mkPair r r no_messages no_messages;
  out := λ c s, mkView (sent (send_a c) (die_a s)) (given (in_b c s) (die_b s))
                  (sent (send_b c) (die_b s)) (given (in_a c s) (die_a s));
  tick := pair_step |}.
End Pair.
End PhyPair.

(** ** The mainband of a die that sends nothing *)

Module Still.
Import Mainband DelayLine.

(** The mainband from which nothing is in flight, in both directions. *)
Record still (s : regs) : Prop := {
  st_healthy : healthy s;
  st_keys : ∃ L, rx_stages L None None None (u_rx_top s) ∧ tx_stages L None None None (u_tx_top s);
  st_valid_q : RxTop.internal_lane_valid_q (u_rx_top s) = false;
  st_framing : ValidDeframer.framing_err (RxTop.valid_deframer (u_rx_top s)) = false;
  st_repairable : DataRepair.is_unrepairable (u_repair_ctrl s) = false
}.

Lemma still_reset : still (reset (mainband false)).
Proof.
  split; try done. exists (lanes NUM_LANES (λ _, 0x1DBFBC)).
  split; split; try done; try apply length_lanes; by exists false.
Qed.

(** The valid lane frames no data. *)
Definition quiet (x : pins) : Prop := VLD x = 0x00 ∨ VLD x = 0xF0.
Lemma quiet_framed x : quiet x → framed (VLD x) None.
Proof. unfold framed. intros [-> | ->]; [by exists false|by exists true]. Qed.
Lemma framed_quiet x : framed (VLD x) None → quiet x.
Proof. intros [c Hc]. unfold quiet. rewrite Hc. by destruct c; [right|left]. Qed.
Lemma still_quiet s : still s → quiet (tx_pins s).
Proof. intros [_ (L & _ & Ht) _ _ _]. apply framed_quiet. apply (s3_valid _ _ _ _ _ Ht). Qed.

Lemma decode_framed v o : framed v o → ValidDeframer.framing_err (ValidDeframer.decode v) = false.
Proof. intros [c ->]. by destruct c, o. Qed.

Lemma still_checks i x s : still s →
  healthy (step false (i, x) s) ∧ DataRepair.is_unrepairable (u_repair_ctrl (step false (i, x) s)) = false.
Proof.
  intros [[Hm Hf Hd] _ Hq _ Hu]. split.
  - split; cbn [u_repair_ctrl u_rx_top step].
    + unfold DataRepair.step. cbn [DataRepair.check_done rx_out out RxTop.lphy_rx_top RxTop.check_done]. by rewrite Hd.
    + cbn [RxTop.lane_id_detect RxTop.step]. unfold LaneIdDetect.step. cbn [LaneIdDetect.rx_lane_valid]. rewrite Hq, andb_false_r.
      by case_match.
    + cbn [RxTop.lane_id_detect RxTop.step]. unfold LaneIdDetect.step. cbn [LaneIdDetect.rx_lane_valid]. rewrite Hq, andb_false_r.
      by case_match.
  - cbn [u_repair_ctrl step]. unfold DataRepair.step. cbn [DataRepair.check_done rx_out out RxTop.lphy_rx_top RxTop.check_done].
    by rewrite Hd.
Qed.

(** The keys move on a reseeding only. *)
Definition reseeded (i : inputs) (L : list Z) : list Z := if lfsr_reset i then lane_seeds else L.

Lemma still_rx i x s L : still s → quiet x → rx_stages L None None None (u_rx_top s) →
  rx_stages (reseeded i L) None None None (u_rx_top (step false (i, x) s)).
Proof.
  intros Hst Hx [H4v H4d H4l H5v H5d H6v H6d Hk HL Hr].
  assert (length (reseeded i L) = 64%nat) as Hlen by (unfold reseeded; by destruct (lfsr_reset i)).
  cbn [u_rx_top step]. split; try done; unfold RxTop.step;
    cbn [RxTop.rx_valid_frame RxTop.rx_lane_data_64 RxTop.descramblers RxTop.lane_derotate].
  - cbn [rx_in RxTop.RXVLD]. cbn [ValidRepair.rx vld_repair_addr Z.eqb fst]. by apply quiet_framed.
  - unfold RxTop.internal_lane_valid. cbn [RxTop.valid_deframer]. destruct H4v as [c ->]. by destruct c.
  - unfold RxTop.descrambler_in. cbn [tick Descrambler.lphy_descrambler Descrambler.load_seed Descrambler.enable].
    cbn [rx_in RxTop.load_seed RxTop.seeds Descrambler.seed_in]. rewrite H6v, andb_false_r. unfold reseeded.
    destruct (lfsr_reset i); [by apply (lanes_lane 64)|]. rewrite Hk. by apply lanes_lane.
  - unfold LaneDerotate.step. cbn [LaneDerotate.rx_lane_valid]. rewrite H5v, andb_false_r. by case_match.
Qed.

Lemma still_tx i x s L : still s → lp_valid i = false → tx_stages L None None None (u_tx_top s) → length L = 64%nat →
  tx_stages (reseeded i L) None None None (u_tx_top (step false (i, x) s)).
Proof.
  intros Hst Hv [Hb H1v H1d H2v H2f H2d Hk H3v H3d H3l] HL.
  cbn [u_tx_top step]. split; try done; unfold TxTop.step;
    cbn [TxTop.byte_mapper TxTop.mapped_lane_valid_q TxTop.tx_valid_frame TxTop.scramblers TxTop.TXDATA].
  - unfold ByteLaneMap.step, ByteLaneMap.pl_trdy. cbn. by rewrite Hb, Hv.
  - unfold ByteLaneMap.step, ByteLaneMap.pl_trdy. cbn. by rewrite Hb, Hv.
  - exists (RxTop.credit_return (rx_out i x s)). cbn. by rewrite H1v.
  - unfold TxTop.scrambler_in. cbn [tick Scrambler.lphy_scrambler Scrambler.load_seed Scrambler.enable].
    cbn [tx_in TxTop.load_seed TxTop.seeds Scrambler.seed_in]. rewrite H2v, andb_false_r. unfold reseeded.
    destruct (lfsr_reset i); [by apply (lanes_lane 64)|]. rewrite Hk. by apply lanes_lane.
Qed.

(** Whatever the controls do, nothing gets into flight. *)
Lemma still_step i x s : lp_valid i = false → quiet x → still s → still (step false (i, x) s).
Proof.
  intros Hv Hx Hst. destruct (still_checks i x s Hst) as [H1 H2]. destruct (st_keys _ Hst) as (L & Hr & Ht).
  pose proof (s6_len _ _ _ _ _ Hr) as HL. split; [done| |apply (s5_valid _ _ _ _ _ Hr)| |done].
  - exists (reseeded i L). by split; [apply still_rx|apply still_tx].
  - apply (decode_framed _ None), Hr.
Qed.

Lemma still_pipeline s : still s → pipeline None None None None None None (s, s).
Proof. intros [Hh (L & Hr & Ht) _ _ _]. split; [done|done|]. by exists L. Qed.
End Still.

(** ** The state machines of a pair *)

Section Together.
Import Ltssm.
Context (p : parameters).

(** A die outside ACTIVE sends nothing that concerns ACTIVE, and its exit logic is at rest. *)
Lemma inactive_step i s : state s ≠ ST_ACTIVE →
  silent (tx p i s) ∧ Active.state (u_active (step p i s)) = Active.ST_ACTIVE_STEADY.
Proof.
  intros Hs. assert (Active.en_active (active_in i s) = false) as He by by apply bool_decide_eq_false.
  split; [|cbn; unfold Active.next_state; by rewrite He].
  assert (∀ t, Active.sends_req t (active_in i s) (u_active s) = false) as H1 by (intros t; unfold Active.sends_req; by rewrite He).
  assert (∀ t, Active.sends_rsp t (active_in i s) (u_active s) = false) as H2 by (intros t; unfold Active.sends_rsp; by rewrite He).
  unfold silent, no_grant, Active.remote_request, tx. cbn. unfold Active.exit_to_trainerror. by rewrite !H1, !H2, He.
Qed.

(** In ACTIVE, a die that asks for nothing sends nothing either. *)
Lemma steady_silent i s :
  calm i → req_linkerror (rx i) = false → Active.remote_request (rx i) = None → wants i = None → steady_active s →
  steady_active (step p i s) ∧ silent (tx p i s).
Proof.
  intros Hc Hle Hr Hw Hs. destruct (steady_step p i s Hc Hle Hr Hw Hs) as [Hs' Hg]. split; [done|split; [|done]].
  assert (∀ t, Active.sends_req t (active_in i s) (u_active s) = false) as H1.
  { intros t. unfold Active.sends_req. rewrite bool_decide_eq_false_2, andb_false_r; [done|].
    intros (_ & _ & Hl). change (Active.local_request (active_in i s)) with (wants i) in Hl. by rewrite Hw in Hl. }
  unfold Active.remote_request, tx. cbn. by rewrite !H1.
Qed.

(** Outside MBINIT its unit is idle or has just finished, so the lane check is off. *)
Definition unchecked (s : regs) : Prop :=
  state s = ST_MBINIT ∨
  match MbInit.state (u_mbinit s) with MbInit.ST_IDLE | MbInit.ST_DONE | MbInit.ST_ERROR => True | _ => False end.

Lemma unchecked_step i s : unchecked s → unchecked (step p i s).
Proof.
  unfold unchecked. change (state (step p i s)) with (next_state p i s). intros [Hs|Hm].
  - unfold next_state. rewrite Hs. destruct (MbInit.exit_to_mbtrain (mb_out s)) eqn:H1; [|destruct (MbInit.exit_to_trainerror (mb_out s)) eqn:H2; [|by left]];
      right; cbn; unfold MbInit.next_state, mbinit_in, en; cbn;
      [apply bool_decide_eq_true in H1 as ->|apply bool_decide_eq_true in H2 as ->]; rewrite Hs; by rewrite andb_false_r.
  - destruct (decide (state s = ST_MBINIT)) as [Hs|Hs].
    + unfold next_state. rewrite Hs. destruct (MbInit.state (u_mbinit s)) eqn:Hm'; try done;
        unfold mb_out, MbInit.outs; rewrite Hm'; cbn; [by left|right|right];
        unfold MbInit.next_state, mbinit_in, en; rewrite Hm', Hs; cbn; by rewrite andb_false_r.
    + right. cbn. unfold MbInit.next_state, mbinit_in, en. rewrite bool_decide_eq_false_2 by done. cbn.
      destruct (MbInit.state (u_mbinit s)); cbn; try done; by rewrite andb_false_r.
Qed.
End Together.

(** ** Two dies are a delay line from reset on *)

Module PairDelay.
Import Mainband(pins, VLD, tx_pins, u_rx_top).
Import DelayLine Still Top PhyPair.

Section Delay.
Context (p : Control.parameters) (Hpt : Control.PACKAGE_TYPE p = false).

(** A pair in step that is not in ACTIVE. *)
Inductive in_step (y : regs) (m : messages) : Prop :=
  | in_step_intro :
      up y = false → still (mband y) → unchecked (ltssm y) → silent m →
      Active.state (Ltssm.u_active (ltssm y)) = Active.ST_ACTIVE_STEADY → in_step y m.

Lemma in_step_inputs c send y m : up y = false → die_in c send y m y = die_in c None y m y.
Proof. intros H. unfold die_in, sending. by rewrite H. Qed.

Lemma in_step_pair c y m : up y = false →
  pair_step p c (mkPair y y m m)
  = let i := die_in c None y m y in let y' := step p i y in let m' := tx (outs p i y) in mkPair y' y' m' m'.
Proof. intros H. unfold pair_step, in_a, in_b. cbn [die_a die_b to_a to_b]. by rewrite (in_step_inputs c (send_a c)), (in_step_inputs c (send_b c)). Qed.

(** Before ACTIVE the front ends leave the valid lane quiet, or to the partner. *)
Definition quiet_front (c : cycle) : Prop := ∀ x, training_pins c = Some x → quiet x.
Lemma received_quiet c b s : quiet_front c → still s → quiet (received b (training_pins c) (tx_pins s)).
Proof. unfold received. intros Hq Hs. destruct b; [by apply still_quiet|]. destruct (training_pins c) eqn:E; [by apply Hq|by apply still_quiet]. Qed.

Lemma in_step_still c y m : quiet_front c → up y = false → still (mband y) → still (mband (step p (die_in c None y m y) y)).
Proof.
  intros Hq H Hs. cbn [mband step]. rewrite Hpt. apply still_step; [|by apply received_quiet|done].
  cbn. unfold sending. by rewrite H.
Qed.

(** The words in flight in one direction, newest first. *)
Record slots := mkSlots { n1 : option (list Z); n2 : option (list Z); n3 : option (list Z); n4 : option (list Z);
  n5 : option (list Z); n6 : option (list Z) }.
Definition no_slots : slots := mkSlots None None None None None None.
Definition shift (x : option (list Z)) (o : slots) : slots := mkSlots x (n1 o) (n2 o) (n3 o) (n4 o) (n5 o).
Definition holds (o : slots) (a b : regs) : Prop :=
  pipeline (n1 o) (n2 o) (n3 o) (n4 o) (n5 o) (n6 o) (mband a, mband b).

(** A pair in ACTIVE. *)
Record flowing (o q : slots) (s : pair) : Prop := {
  fl_ab : holds o (die_a s) (die_b s);
  fl_ba : holds q (die_b s) (die_a s);
  fl_frame_a : framing_err (die_a s) = false;
  fl_frame_b : framing_err (die_b s) = false;
  fl_active_a : steady_active (ltssm (die_a s));
  fl_active_b : steady_active (ltssm (die_b s));
  fl_unchecked_a : unchecked (ltssm (die_a s));
  fl_unchecked_b : unchecked (ltssm (die_b s));
  fl_to_a : silent (to_a s);
  fl_to_b : silent (to_b s)
}.

(** The adapters ask for ACTIVE and report no error. *)
Definition asking (c : cycle) : Prop := lp_state_req (common c) = 1 ∧ lp_linkerror (common c) = false.

Lemma active_up s : steady_active (ltssm s) → up s = true.
Proof. intros [H _]. by apply bool_decide_eq_true. Qed.

(** The controls of a die in ACTIVE. *)
Lemma active_controls i s : steady_active (ltssm s) → unchecked (ltssm s) → MainbandLink.active (mainband_in p i s).
Proof.
  intros [Hs _] Hu. unfold MainbandLink.active, mainband_in. cbn [Mainband.tx_training_en Mainband.scrambler_en
    Mainband.lfsr_reset Mainband.en_reversal_check]. split_and!.
  - unfold Ltssm.tx_training_en. by rewrite Hs.
  - by apply bool_decide_eq_true.
  - unfold Ltssm.lnk_out, LinkInit.outs. cbn [LinkInit.lfsr_reset LinkInit.en_linkinit Ltssm.linkinit_in].
    unfold Ltssm.en. rewrite Hs. apply andb_false_r.
  - unfold Ltssm.mb_out, MbInit.outs. cbn [MbInit.en_reversal]. destruct Hu as [Hu|Hu]; [congruence|].
    by destruct (MbInit.state (Ltssm.u_mbinit (ltssm s))).
Qed.

(** A die in ACTIVE whose partner is silent stays there and is silent. *)
Lemma active_stays c send partner m s :
  asking c → framing_err s = false → silent m → steady_active (ltssm s) →
  let i := die_in c send partner m s in
  steady_active (ltssm (step p i s)) ∧ silent (tx (outs p i s)).
Proof.
  intros [Hq Hl] Hf [Hr Hg] Hs. cbn zeta. apply steady_silent; [done|apply Hg|done| |done].
  unfold wants, Active.local_request. cbn. by rewrite Hq.
Qed.

Lemma wired_in_active c send partner m s : up s = true →
  RX (die_in c send partner m s) = tx_pins (mband partner) ∧
  MainbandLink.offered (mainband_in p (die_in c send partner m s) s) = sent send s.
Proof.
  intros H. unfold die_in, sending, sent, sending. rewrite H. cbn. split; [done|].
  unfold MainbandLink.offered. cbn. by destruct send.
Qed.

Lemma framing_next o1 o2 o3 o4 o5 o6 a b i x :
  pipeline o1 o2 o3 o4 o5 o6 (a, mband b) →
  ValidDeframer.framing_err (RxTop.valid_deframer (u_rx_top (Mainband.step false (i, x) (mband b)))) = false.
Proof. intros [_ _ (L & Hr & _)]. apply (decode_framed _ o4), Hr. Qed.

(** One cycle in one direction. *)
Lemma flow_direction c sa sb ma mb o a b :
  steady_active (ltssm a) → steady_active (ltssm b) → unchecked (ltssm a) → unchecked (ltssm b) → holds o a b →
  let ia := die_in c sa b ma a in let ib := die_in c sb a mb b in
  given p ib b = n6 o ∧ holds (shift (sent sa a) o) (step p ia a) (step p ib b) ∧ framing_err (step p ib b) = false.
Proof.
  intros Ha Hb Ua Ub Ho. cbn zeta. pose proof (active_up a Ha) as Pa. pose proof (active_up b Hb) as Pb.
  destruct (wired_in_active c sa b ma a Pa) as [Xa Oa]. destruct (wired_in_active c sb a mb b Pb) as [Xb _].
  set (ia := die_in c sa b ma a) in *. set (ib := die_in c sb a mb b) in *. clearbody ia ib.
  destruct (pipeline_step (mainband_in p ia a, mainband_in p ib b) (mband a, mband b) _ _ _ _ _ _
    (active_controls ia a Ha Ua) (active_controls ib b Hb Ub) Ho) as [Hd Hp]. cbn [fst snd] in Hp. rewrite Oa in Hp.
  unfold holds, given, outs, framing_err. cbn [mband step rx_side shift n1 n2 n3 n4 n5 n6]. rewrite Hpt, Xa, Xb.
  split_and!; [exact Hd|exact Hp|]. by eapply framing_next.
Qed.

Lemma flowing_step c s o q : asking c → flowing o q s →
  given p (in_b c s) (die_b s) = n6 o ∧ given p (in_a c s) (die_a s) = n6 q ∧
  flowing (shift (sent (send_a c) (die_a s)) o) (shift (sent (send_b c) (die_b s)) q) (pair_step p c s).
Proof.
  intros Hc [Hab Hba Fa Fb Aa Ab Ua Ub Ta Tb].
  destruct (flow_direction c (send_a c) (send_b c) (to_a s) (to_b s) o _ _ Aa Ab Ua Ub Hab) as (G1 & P1 & F1).
  destruct (flow_direction c (send_b c) (send_a c) (to_b s) (to_a s) q _ _ Ab Aa Ub Ua Hba) as (G2 & P2 & F2).
  destruct (active_stays c (send_a c) (die_b s) (to_a s) (die_a s) Hc Fa Ta Aa) as [Sa Ma].
  destruct (active_stays c (send_b c) (die_a s) (to_b s) (die_b s) Hc Fb Tb Ab) as [Sb Mb].
  split_and!; [done|done|]. split; [done|done|done|done|done|done| | |done|done]; by apply unchecked_step.
Qed.

(** One cycle before ACTIVE: the pair stays in step, or enters ACTIVE with nothing in flight. *)
Lemma in_step_step c y m : quiet_front c → in_step y m →
  let i := die_in c None y m y in let y' := step p i y in let m' := tx (outs p i y) in
  in_step y' m' ∨ flowing no_slots no_slots (mkPair y' y' m' m').
Proof.
  intros Hq [H Hs Hu Hm Ha]. cbn zeta. pose proof (in_step_still c y m Hq H Hs) as Hs'.
  assert (Ltssm.state (ltssm y) ≠ Ltssm.ST_ACTIVE) as Hn by by apply bool_decide_eq_false in H.
  set (i := die_in c None y m y) in *.
  destruct (inactive_step (Control.timeouts p) (ltssm_in p i y) (ltssm y) Hn) as [Hm' Ha'].
  pose proof (unchecked_step (Control.timeouts p) (ltssm_in p i y) (ltssm y) Hu) as Hu'.
  destruct (up (step p i y)) eqn:H'; [right|by left].
  apply bool_decide_eq_true in H'. pose proof (still_pipeline _ Hs') as Hp.
  split; try done; apply Hs'.
Qed.

Lemma in_step_given i y : still (mband y) → given p i y = None.
Proof. intros [_ (L & Hr & _) _ _ _]. unfold given. cbn. by rewrite (s6_valid _ _ _ _ _ Hr). Qed.

(** A pair: in step before ACTIVE, flowing in it. *)
Inductive linked : slots → slots → pair → Prop :=
  | linked_before y m : in_step y m → linked no_slots no_slots (mkPair y y m m)
  | linked_active o q s : flowing o q s → linked o q s.

Lemma linked_step c s o q : asking c → quiet_front c → linked o q s →
  given p (in_b c s) (die_b s) = n6 o ∧ given p (in_a c s) (die_a s) = n6 q ∧
  linked (shift (sent (send_a c) (die_a s)) o) (shift (sent (send_b c) (die_b s)) q) (pair_step p c s).
Proof.
  intros Hc Hqf [y m Hy|o' q' s' Hf].
  - pose proof Hy as [H Hs _ _ _]. cbn [die_a die_b]. rewrite !in_step_given by done. split_and!; [done|done|].
    rewrite in_step_pair by done. unfold sent, sending. rewrite H. cbn zeta.
    destruct (in_step_step c y m Hqf Hy) as [Hi|Hf]; [by apply linked_before|by apply linked_active].
  - destruct (flowing_step c s' o' q' Hc Hf) as (? & ? & ?). split_and!; [done|done|]. by apply linked_active.
Qed.

Definition in_flight (o : slots) : list (option (list Z)) := [n6 o; n5 o; n4 o; n3 o; n2 o; n1 o].

Lemma linked_trace ins : ∀ s o q, Forall (λ c, asking c ∧ quiet_front c) ins → linked o q s →
  let tr := trace (link p) s ins in
  given_b <$> tr = take (length ins) (in_flight o ++ (sent_a <$> tr)) ∧
  given_a <$> tr = take (length ins) (in_flight q ++ (sent_b <$> tr)).
Proof.
  induction ins as [|c ins IH]; intros s o q Hi Hl; [done|]. apply Forall_cons in Hi as [[Hc Hqf] Hi].
  destruct (linked_step c s o q Hc Hqf Hl) as (Gb & Ga & Hl'). destruct (IH _ _ _ Hi Hl') as [Hb Ha]. cbn zeta in *.
  cbn [trace link out tick]. rewrite !fmap_cons. cbn [given_b given_a sent_a sent_b]. rewrite Gb, Ga.
  change (tick (link p)) with (pair_step p) in *. rewrite Hb, Ha. done.
Qed.

Lemma in_step_reset : in_step (reset (ucie_lphy_top p)) no_messages.
Proof. split; try done; [|by right]. cbn [reset ucie_lphy_top mband]. rewrite Hpt. apply still_reset. Qed.

(** C5.  From reset on, two dies that run in lock-step are a delay line.  Both are
    given the same control inputs in every cycle: the requests of the adapters, which
    ask for ACTIVE and report no error, the power, clock and reset signals, the done
    inputs of the calibrations and the sideband controller's inputs, whatever these
    are; messages of the state machines take one cycle.  Before ACTIVE the front ends
    may show anything on the pins, the same to both, as long as the valid lane frames
    no data; in ACTIVE the pins are wired.  Then each word an adapter hands over is
    given to the other six cycles later, in both directions, and nothing else is ever
    given. *)
Theorem pair_delay_line ins : Forall (λ c, asking c ∧ quiet_front c) ins →
  let tr := trace (link p) (reset (link p)) ins in
  given_b <$> tr = take (length ins) (replicate 6 None ++ (sent_a <$> tr)) ∧
  given_a <$> tr = take (length ins) (replicate 6 None ++ (sent_b <$> tr)).
Proof. intros Hi. exact (linked_trace ins _ _ _ Hi (linked_before _ _ in_step_reset)). Qed.
End Delay.
End PairDelay.

(** ** Training before ACTIVE is the control half alone *)

Module PairTraining.
Import Still Top PhyPair PairDelay.

Section Loop.
Context (p : Control.parameters) (Hpt : Control.PACKAGE_TYPE p = false).

(** The control half of a die in step with its partner: its own messages come
    back, the mainband reports nothing, and the lanes show [d]. *)
Definition loop_in (c : cycle) (d : list Z) (m : messages) : Control.inputs :=
  let i := common c in
  Control.mkInputs (lp_state_req i) (lp_linkerror i) (lp_stallack i) (lp_wake_req i)
    (power_stable i) (sb_clk_stable i) (mb_clk_stable i) (mb_clk_slow i) (soc_reset_n i)
    (rx_pattern_detected i) m (mb i) (trn i) false false (WidthDegrade.rx_logical_data NUM_LANES 3 d).
Definition loop_step (c : cycle) (d : list Z) (x : Control.regs * messages) : Control.regs * messages :=
  let i := loop_in c d (snd x) in
  (Control.step p i (fst x), Ltssm.tx (Control.timeouts p) (Control.ltssm_in p i (fst x)) (Control.u_ltssm (fst x))).

Lemma loop_refines c x y m : in_step y m → training_pins c = Some x →
  let i := die_in c None y m y in (ctl (step p i y), tx (outs p i y)) = loop_step c (Mainband.DATA x) (ctl y, m).
Proof.
  intros [H [[Hmap _ _] _ _ Hf Hu] _ _ _] Hd. cbn zeta.
  assert (control_in (die_in c None y m y) y = loop_in c (Mainband.DATA x) m) as E.
  { unfold control_in, loop_in, pre_degrade_rx_data, lane_map_ctrl, framing_err. rewrite Hu, Hf, Hmap.
    unfold die_in, received. rewrite H, Hd. done. }
  unfold loop_step. cbn [fst snd step ctl outs tx]. unfold ltssm_in. by rewrite E.
Qed.

(** The control half enters ACTIVE exactly at the end of [ins]. *)
Fixpoint activates (d : list Z) (ins : list cycle) (x : Control.regs * messages) : bool :=
  match ins with
  | [] => bool_decide (Ltssm.state (Control.u_ltssm (fst x)) = Ltssm.ST_ACTIVE)
  | c :: ins' => bool_decide (Ltssm.state (Control.u_ltssm (fst x)) ≠ Ltssm.ST_ACTIVE) && activates d ins' (loop_step c d x)
  end.

Lemma activates_pair x ins : ∀ y m, quiet x → Forall (λ c, training_pins c = Some x) ins →
  in_step y m ∨ flowing no_slots no_slots (mkPair y y m m) → activates (Mainband.DATA x) ins (ctl y, m) = true →
  up (die_a (run (link p) (mkPair y y m m) ins)) = true.
Proof.
  induction ins as [|c ins IH]; intros y m Hx Hd Hy Ha; [done|]. apply Forall_cons in Hd as [Hc Hd].
  cbn [activates fst] in Ha. apply andb_prop in Ha as [Hn%bool_decide_eq_true Ha].
  destruct Hy as [Hy|Hy]; [|by destruct Hn; destruct (fl_active_a _ _ _ Hy)].
  rewrite run_cons. change (tick (link p)) with (pair_step p). rewrite in_step_pair by apply Hy. cbn zeta.
  apply IH; [done|done|apply in_step_step; [done|by intros ? E; rewrite Hc in E; injection E as <-|done]|].
  by rewrite loop_refines with (x := x).
Qed.

Lemma activates_link x ins : quiet x → Forall (λ c, training_pins c = Some x) ins →
  activates (Mainband.DATA x) ins (ctl (reset (ucie_lphy_top p)), no_messages) = true → up (die_a (run (link p) (reset (link p)) ins)) = true.
Proof.
  intros Hx Hd Ha. apply (activates_pair x ins _ _ Hx Hd); [|done]. left. by apply in_step_reset.
Qed.
End Loop.

(** 64 lanes, short timers, and front ends that show the calibration its pattern. *)
Definition demo_phy : Control.parameters :=
  Control.mkParameters 64 false (Ltssm.mkParameters 3 60 60 60 60 60 60) 2 1 2.
Definition demo_inputs : inputs :=
  mkInputs false false 0 1 false false false true true true true true 1 demo_messages (Ltssm.mb demo_cycle)
    (Ltssm.trn demo_cycle) (Mainband.mkPins [] 0 [] 0) true (SbCtrl.mkInputs false false demo_fields false false false 0).
Definition demo_front (v : Z) : Mainband.pins := Mainband.mkPins (lanes 64 (λ _, 0x0F)) v [] 0.
Definition demo_train : cycle := mkCycle demo_inputs (Some (demo_front 0)) (Some 0x1234) None.

(** The pair is in ACTIVE after 125 cycles. *)
Lemma demo_pair_trains : up (die_a (run (link demo_phy) (reset (link demo_phy)) (replicate 125 demo_train))) = true.
Proof.
  apply (activates_link demo_phy eq_refl (demo_front 0)); [by left|by apply Forall_replicate|]. vm_compute. reflexivity.
Qed.

(** A word given to the adapter in the first cycle of ACTIVE arrives. *)
Lemma pair_delay_witness :
  (given_b <$> trace (link demo_phy) (reset (link demo_phy)) (replicate 125 demo_train ++ replicate 7 demo_train)) !! 131%nat
  = Some (Some (LaneMapSpec.word_bytes 0x1234)).
Proof.
  destruct (pair_delay_line demo_phy eq_refl (replicate 125 demo_train ++ replicate 7 demo_train)) as [H _].
  { assert (asking demo_train ∧ quiet_front demo_train) as Hq by (split; [done|intros ? [= <-]; by left]).
    apply Forall_app. split; by apply Forall_replicate. }
  cbn zeta in H. rewrite H, lookup_take_lt by (rewrite length_app, !length_replicate; lia).
  rewrite lookup_app_r by (rewrite length_replicate; lia). rewrite length_replicate, trace_app, fmap_app.
  rewrite lookup_app_r; rewrite length_fmap, trace_length, length_replicate; [|lia].
  change (replicate 7 demo_train) with (demo_train :: replicate 6 demo_train). cbn [trace]. rewrite fmap_cons. cbn [Nat.sub lookup list_lookup out link sent_a]. unfold sent, sending.
  by rewrite demo_pair_trains.
Defined.
End PairTraining.
