(* ===== verification/PhyTopFaults.v ===== *)
(** * Two wired dies cannot train

    In MBTRAIN the calibration of ucie_lphy_top.sv expects 0F on every lane, which
    the transmitter of a partner in the same state does not send.  A pair of dies
    wired to each other, started together and given the same control inputs in every
    cycle therefore ends in TRAINERROR. *)

From S2P Require Import Prelude Rtl PhyScramble PhyLanes PhyDetect PhyDatapath PhyFaults PhySideband.
From S2P Require Import PhyTraining PhyLtssm PhyLinkUp PhyLinkFaults PhyCal PhyControl PhyTop.
#[local] Open Scope Z_scope.

Module PairWired.
Import Mainband(DATA, tx_pins, u_tx_top, u_rx_top).
Import DelayLine Still Top PhyPair PairDelay.

Section Wired.
Context (p : Control.parameters) (Hpt : Control.PACKAGE_TYPE p = false) (Hlanes : Control.NUM_LANES p = NUM_LANES).
#[local] Abbreviation S := (Control.D2C_SETTLE_CYCLES p).
#[local] Abbreviation T := (Control.D2C_TEST_CYCLES p).
#[local] Abbreviation cal_step := (D2cCal.step (Control.NUM_LANES p) (Control.D2C_PI_PHASE_MAX p) S T).
Context (HS : 1 ≤ S) (HT : 1 ≤ T) (HST : S + T < 2 ^ 16).

(** ** A sweep in which every cycle has an error *)

(** The sweep has found no eye and will find none at this phase. *)
Definition eyeless (d : D2cCal.regs) : Prop :=
  match D2cCal.state d with
  | D2cCal.ST_IDLE => True
  | D2cCal.ST_WAIT_SETTLE => D2cCal.eye_found d = false ∧ D2cCal.error_cnt d = 0 ∧ 0 ≤ D2cCal.cycle_cnt d < S
  | D2cCal.ST_ACCUMULATE =>
      D2cCal.eye_found d = false ∧ S ≤ D2cCal.cycle_cnt d < S + T ∧ D2cCal.error_cnt d = D2cCal.cycle_cnt d - S
  | D2cCal.ST_EVALUATE => D2cCal.eye_found d = false ∧ 0 < D2cCal.error_cnt d
  | D2cCal.ST_SET_PHASE | D2cCal.ST_CALC_CENTER | D2cCal.ST_DONE => D2cCal.eye_found d = false
  end.

Lemma eyeless_step i d :
  D2cCal.error_threshold i = 0 → (D2cCal.state d ≠ D2cCal.ST_IDLE → D2cCal.cycle_has_error (Control.NUM_LANES p) i = true) →
  eyeless d → eyeless (cal_step i d).
Proof.
  intros Hth He Hd. unfold eyeless, D2cCal.step, D2cCal.next_state in *. destruct (D2cCal.state d) eqn:Hs; cbn.
  - by destruct (D2cCal.start_cal i).
  - split_and!; [done|done|lia|lia].
  - destruct Hd as (H1 & H2 & H3). unfold trunc. rewrite Z.mod_small by lia.
    destruct (Z.eqb_spec (D2cCal.cycle_cnt d) (S - 1)); cbn; split_and!; try done; lia.
  - destruct Hd as (H1 & H2 & H3). rewrite He by done. unfold trunc. rewrite !Z.mod_small by lia.
    destruct (Z.eqb_spec (D2cCal.cycle_cnt d) (S + T - 1)); cbn; split_and!; try done; lia.
  - destruct Hd as (H1 & H2). rewrite Hth, (proj2 (Z.leb_gt _ _)) by lia. by case_match; cbn; case_match.
  - done.
  - by destruct (D2cCal.start_cal i).
Qed.

(** ** Before and in the calibration of MBTRAIN *)

Definition after_cal (m : MbInit.state_t) (d : D2cCal.state_t) : Prop :=
  match m with
  | MbInit.ST_REPAIRCLK => d = D2cCal.ST_IDLE ∨ d = D2cCal.ST_DONE
  | MbInit.ST_REPAIRVAL | MbInit.ST_REVERSALMB | MbInit.ST_REPAIRMB | MbInit.ST_DONE => d = D2cCal.ST_IDLE
  | MbInit.ST_IDLE | MbInit.ST_PARAM | MbInit.ST_CAL | MbInit.ST_ERROR => True
  end.
(** MBTRAIN has not got past DATATRAINCENTER1, where the lanes carry their identities. *)
Definition not_centred (t : MbTrain.state_t) (d : D2cCal.regs) (lanes_ : list Z) : Prop :=
  match t with
  | MbTrain.ST_IDLE | MbTrain.ST_VALVREF | MbTrain.ST_DATAVREF | MbTrain.ST_SPEEDIDLE | MbTrain.ST_TXSELFCAL
  | MbTrain.ST_RXCLKCAL | MbTrain.ST_VALTRAINCENTER | MbTrain.ST_VALTRAINVREF => D2cCal.state d = D2cCal.ST_IDLE
  | MbTrain.ST_DATATRAINCENTER1 => eyeless d ∧ (D2cCal.state d ≠ D2cCal.ST_IDLE → lanes_ = training_beat false)
  | MbTrain.ST_ERROR => True
  | _ => False
  end.
Definition idle_mb (m : MbInit.state_t) : Prop := m = MbInit.ST_IDLE ∨ m = MbInit.ST_DONE ∨ m = MbInit.ST_ERROR.
Definition idle_trn (t : MbTrain.state_t) : Prop := t = MbTrain.ST_IDLE ∨ t = MbTrain.ST_ERROR.

Definition mbs (y : regs) : MbInit.state_t := MbInit.state (Ltssm.u_mbinit (ltssm y)).
Definition trs (y : regs) : MbTrain.state_t := MbTrain.state (Ltssm.u_mbtrain (ltssm y)).
Definition cal (y : regs) : D2cCal.regs := Control.u_d2c_cal (ctl y).
Definition out_lanes (y : regs) : list Z := TxTop.TXDATA (u_tx_top (mband y)).

Definition stuck (y : regs) : Prop :=
  match Ltssm.state (ltssm y) with
  | Ltssm.ST_RESET | Ltssm.ST_SBINIT | Ltssm.ST_TRAINERROR => idle_mb (mbs y) ∧ idle_trn (trs y)
  | Ltssm.ST_MBINIT => idle_trn (trs y) ∧ after_cal (mbs y) (D2cCal.state (cal y))
  | Ltssm.ST_MBTRAIN => idle_mb (mbs y) ∧ not_centred (trs y) (cal y) (out_lanes y)
  | _ => False
  end.

(** *** One cycle of the parts *)

Lemma mb_off i y : Ltssm.state (ltssm y) ≠ Ltssm.ST_MBINIT → idle_mb (mbs y) → mbs (step p i y) = MbInit.ST_IDLE.
Proof.
  unfold mbs, ltssm. intros Hs Hm. cbn. unfold MbInit.next_state, Ltssm.mbinit_in, Ltssm.en. rewrite bool_decide_eq_false_2 by done.
  cbn. by destruct Hm as [->|[->| ->]]; cbn; rewrite ?andb_false_r.
Qed.
Lemma trn_off i y : Ltssm.state (ltssm y) ≠ Ltssm.ST_MBTRAIN → idle_trn (trs y) → trs (step p i y) = MbTrain.ST_IDLE.
Proof.
  unfold trs, ltssm. intros Hs Hm. cbn. unfold MbTrain.next_state, Ltssm.mbtrain_in, Ltssm.en. rewrite bool_decide_eq_false_2 by done.
  cbn. by destruct Hm as [->| ->]; cbn; rewrite ?andb_false_r.
Qed.

(** The calibration is not started and comes to rest. *)
Lemma cal_rests i y :
  Control.start_cal (ctl y) = false → D2cCal.state (cal y) = D2cCal.ST_IDLE ∨ D2cCal.state (cal y) = D2cCal.ST_DONE →
  D2cCal.state (cal (step p i y)) = D2cCal.ST_IDLE.
Proof.
  intros H Hd. unfold cal in *. cbn. unfold D2cCal.step, D2cCal.next_state. cbn. rewrite H. by destruct Hd as [-> | ->].
Qed.

(** The lanes of a still die that trains. *)
Lemma training_lanes i x s : still s → Mainband.tx_training_en i = true →
  TxTop.TXDATA (u_tx_top (Mainband.step false (i, x) s)) = training_beat (Mainband.select_valtrain i).
Proof.
  intros [Hh (L & _ & Ht) _ _ _] Htr. cbn [u_tx_top Mainband.step TxTop.step TxTop.TXDATA].
  unfold TxTop.repaired. assert (TxTop.tx_lane_failed_map (Mainband.tx_in i x s) = 0) as ->.
  { unfold TxTop.tx_lane_failed_map, Mainband.tx_in. cbn [TxTop.repair_en TxTop.ext_lane_failed_map].
    cbn [Mainband.rx_out out RxTop.lphy_rx_top RxTop.lane_failures]. rewrite healthy_failures by done. by case_match. }
  rewrite repair_none by apply length_lanes. cbn [fst]. apply lanes_ext. intros j Hj.
  unfold TxTop.scrambler_in. cbn [out Scrambler.lphy_scrambler Scrambler.enable Scrambler.data_in].
  rewrite (s2_valid _ _ _ _ _ Ht), andb_false_r. unfold TxTop.pre_scramble_data. rewrite lane_lanes by done.
  cbn [Mainband.tx_in TxTop.tx_training_en TxTop.select_valtrain]. by rewrite Htr.
Qed.

(** Lane identities are not what the calibration expects. *)
Lemma identities_err c y m : still (mband y) → up y = false → training_pins c = None → out_lanes y = training_beat false →
  D2cCal.cycle_has_error (Control.NUM_LANES p) (Control.cal_in p (control_in (die_in c None y m y) y) (ctl y)) = true.
Proof.
  intros [[Hmap _ _] (L & _ & Ht) _ _ _] Hup Hd Hl. pose proof (s3_len _ _ _ _ _ Ht) as Hlen.
  unfold D2cCal.cycle_has_error. rewrite Hlanes. apply existsb_exists. exists 0. split; [apply list_elem_of_In, elem_of_seqZ; done|].
  cbn [Control.cal_in D2cCal.rx_data D2cCal.expected_data Control.pre_degrade_rx_data control_in].
  rewrite Hlanes, lane_lanes by done. unfold pre_degrade_rx_data, lane_map_ctrl, die_in, received. rewrite Hup, Hd.
  cbn [RX set_field]. rewrite Hmap. cbn. unfold tx_pins. cbn [ValidRepair.tx Mainband.vld_repair_addr Z.eqb DATA].
  rewrite Hmap. destruct (degrade_full _ Hlen) as [-> ->]. change (TxTop.TXDATA (u_tx_top (mband y))) with (out_lanes y).
  rewrite Hl. reflexivity.
Qed.

(** *** One cycle of the die *)

Section Cycle.
Context (c : cycle) (y : regs) (m : messages).
Context (Hstill : still (mband y)) (Hup : up y = false) (Hwire : training_pins c = None).
#[local] Abbreviation i := (die_in c None y m y).
#[local] Abbreviation y' := (step p i y).
#[local] Abbreviation li := (ltssm_in p i y).

Lemma start_idle : idle_mb (mbs y) → trs y ≠ MbTrain.ST_DATATRAINCENTER1 → Control.start_cal (ctl y) = false.
Proof.
  intros Hm Ht. apply orb_false_intro; apply bool_decide_eq_false; [|done].
  change (mbs y ≠ MbInit.ST_CAL). by destruct Hm as [->|[->| ->]].
Qed.

Lemma mbinit_step : Ltssm.state (ltssm y) = Ltssm.ST_MBINIT →
  (mbs y = MbInit.ST_DONE ∨ mbs y = MbInit.ST_ERROR → mbs y' = mbs y) ∧
  (mbs y' = MbInit.ST_ERROR ∨
   mbs y' = match mbs y with
     | MbInit.ST_CAL => if Control.cal_done (ctl y) then MbInit.ST_REPAIRCLK else MbInit.ST_CAL
     | st => MbInit.advance (Ltssm.mbinit_in li (ltssm y)) st
     end).
Proof.
  intros Hs. assert (mbs y' = MbInit.next_state (Ltssm.MBINIT_TIMEOUT (Control.timeouts p)) (Ltssm.mbinit_in li (ltssm y))
    (Ltssm.u_mbinit (ltssm y))) as -> by done.
  assert (MbInit.en_mbinit (Ltssm.mbinit_in li (ltssm y)) = true) as Hen by by apply bool_decide_eq_true.
  assert (MbInit.package_type (Ltssm.mbinit_in li (ltssm y)) = false) as Hpk by exact Hpt.
  unfold MbInit.next_state. change (MbInit.state (Ltssm.u_mbinit (ltssm y))) with (mbs y). split.
  - intros [-> | ->]; cbn [MbInit.working MbInit.advance]; by rewrite andb_false_r, Hen.
  - case_match; [by left|right]. destruct (mbs y); try done. cbn [MbInit.advance]. by rewrite Hpk.
Qed.

Lemma stuck_mbinit : Ltssm.state (ltssm y) = Ltssm.ST_MBINIT → stuck y → stuck y'.
Proof.
  intros Hs. destruct (mbinit_step Hs) as [Hhold Hadv]. unfold stuck. rewrite Hs. intros [Ht Ha].
  assert (trs y' = MbTrain.ST_IDLE) as Ht' by (apply trn_off; [by rewrite Hs|done]).
  assert (trs y ≠ MbTrain.ST_DATATRAINCENTER1) as Hdt by by destruct Ht as [-> | ->].
  assert (mbs y ≠ MbInit.ST_CAL → D2cCal.state (cal y) = D2cCal.ST_IDLE ∨ D2cCal.state (cal y) = D2cCal.ST_DONE →
          D2cCal.state (cal y') = D2cCal.ST_IDLE) as Hrest.
  { intros Hc. apply cal_rests. apply orb_false_intro; by apply bool_decide_eq_false. }
  change (Ltssm.state (ltssm y')) with (Ltssm.next_state (Control.timeouts p) li (ltssm y)).
  unfold Ltssm.next_state. rewrite Hs. unfold Ltssm.mb_out, MbInit.outs. cbn [MbInit.exit_to_mbtrain MbInit.exit_to_trainerror].
  change (MbInit.state (Ltssm.u_mbinit (ltssm y))) with (mbs y). rewrite Ht'.
  destruct (bool_decide_reflect (mbs y = MbInit.ST_DONE)) as [Hd|Hd].
  { rewrite Hhold by by left. rewrite Hd in *. split; [by right; left|]. apply Hrest; [done|by left]. }
  destruct (bool_decide_reflect (mbs y = MbInit.ST_ERROR)) as [He|He].
  { rewrite Hhold by by right. rewrite He in *. split; [by right; right|by left]. }
  split; [by left|]. destruct Hadv as [-> | ->]; [done|].
  destruct (mbs y) eqn:Hy; try done; cbn [MbInit.advance]; case_match eqn:Hnext; try done;
    try (apply Hrest; [done|solve [by left|exact Ha]]); [|by left; apply Hrest].
  right. unfold cal, Control.cal_done, D2cCal.outs in *. cbn. unfold D2cCal.step, D2cCal.next_state. cbn.
  destruct (D2cCal.state (Control.u_d2c_cal (ctl y))) eqn:Hc; try done.
  assert (Control.start_cal (ctl y) = true) as ->; [|done]. unfold Control.start_cal, Ltssm.mb_out, MbInit.outs. cbn.
  change (bool_decide (mbs y = MbInit.ST_CAL) || MbTrain.en_datatraincenter1 (Ltssm.trn_out (ltssm y)) = true). by rewrite Hy.
Qed.

(** In DATATRAINCENTER1 the sweep stays without an eye, and its end is an error. *)
Lemma centring : Ltssm.state (ltssm y) = Ltssm.ST_MBTRAIN → trs y = MbTrain.ST_DATATRAINCENTER1 →
  eyeless (cal y) → (D2cCal.state (cal y) ≠ D2cCal.ST_IDLE → out_lanes y = training_beat false) →
  eyeless (cal y') ∧ out_lanes y' = training_beat false ∧ (Control.cal_done (ctl y) = true → Control.cal_error (ctl y) = true).
Proof.
  intros Hs Ht He Hl. split_and!.
  - apply eyeless_step; [done| |done]. intros Hi. by apply identities_err; [..|apply Hl].
  - unfold out_lanes. cbn [mband step]. rewrite Hpt, training_lanes; [|done|].
    + f_equal. cbn. unfold int_select_valtrain, Ltssm.trn_out, MbTrain.outs. cbn.
      change (MbTrain.state (Ltssm.u_mbtrain (ltssm y))) with (trs y). by rewrite Ht.
    + cbn. unfold Ltssm.tx_training_en. by rewrite Hs.
  - unfold Control.cal_done, Control.cal_error, D2cCal.outs, eyeless, cal in *.
    destruct (D2cCal.state (Control.u_d2c_cal (ctl y))); try done. intros _. cbn. by rewrite He.
Qed.

Lemma stuck_mbtrain : Ltssm.state (ltssm y) = Ltssm.ST_MBTRAIN → stuck y → stuck y'.
Proof.
  intros Hs. unfold stuck. rewrite Hs. intros [Hm Hc].
  assert (mbs y' = MbInit.ST_IDLE) as Hm' by (apply mb_off; [by rewrite Hs|done]).
  assert (MbTrain.en_mbtrain (Ltssm.mbtrain_in li (ltssm y)) = true) as Hen by by apply bool_decide_eq_true.
  assert (MbTrain.package_type (Ltssm.mbtrain_in li (ltssm y)) = false) as Hpk by exact Hpt.
  assert (trs y' = MbTrain.next_state (Ltssm.MBTRAIN_TIMEOUT (Control.timeouts p)) (Ltssm.mbtrain_in li (ltssm y))
    (Ltssm.u_mbtrain (ltssm y))) as Ht' by done.
  unfold MbTrain.next_state in Ht'. change (MbTrain.state (Ltssm.u_mbtrain (ltssm y))) with (trs y) in Ht'.
  change (Ltssm.state (ltssm y')) with (Ltssm.next_state (Control.timeouts p) li (ltssm y)).
  unfold Ltssm.next_state. rewrite Hs. unfold Ltssm.trn_out, MbTrain.outs. cbn [MbTrain.exit_to_linkinit MbTrain.exit_to_trainerror].
  change (MbTrain.state (Ltssm.u_mbtrain (ltssm y))) with (trs y).
  rewrite bool_decide_eq_false_2 by by intros E; rewrite E in Hc. rewrite Hm'.
  destruct (bool_decide_reflect (trs y = MbTrain.ST_ERROR)) as [He|He].
  { rewrite He in Ht'. cbn [MbTrain.working MbTrain.advance] in Ht'. rewrite andb_false_r, Hen in Ht'. rewrite Ht'.
    split; [by left|by right]. }
  split; [by left|]. destruct (decide (trs y = MbTrain.ST_DATATRAINCENTER1)) as [Hd|Hd].
  - rewrite Ht', Hd in *. destruct Hc as [Hc1 Hc2]. destruct (centring Hs Hd Hc1 Hc2) as (Hn & H1 & H2).
    destruct (Control.cal_done (ctl y)) eqn:Hdone.
    + change (MbTrain.substate_error (Ltssm.mbtrain_in li (ltssm y))) with (Control.cal_error (ctl y)).
      by rewrite H2, orb_true_r.
    + case_match; [done|]. cbn [MbTrain.advance].
      change (MbTrain.datatraincenter1_done (Ltssm.mbtrain_in li (ltssm y))) with (Control.cal_done (ctl y)).
      rewrite Hdone. split; [exact Hn|intros _; exact H1].
  - assert (D2cCal.state (cal y') = D2cCal.ST_IDLE) as Hi.
    { apply cal_rests; [by apply start_idle|left]. by destruct (trs y). }
    assert (D2cCal.state (cal y) = D2cCal.ST_IDLE) as Hi0 by by destruct (trs y).
    rewrite Ht'. case_match; [done|]. unfold not_centred, eyeless. rewrite Hi.
    destruct (trs y); try done; cbn [MbTrain.advance]; rewrite ?Hpk, ?Hen; by repeat case_match.
Qed.

Lemma stuck_step : stuck y → stuck y'.
Proof.
  intros Hy. destruct (Ltssm.state (ltssm y)) eqn:Hs; try (by unfold stuck in Hy; rewrite Hs in Hy);
    [| |by apply stuck_mbinit|by apply stuck_mbtrain|];
    (unfold stuck in Hy; rewrite Hs in Hy; destruct Hy as [Hm Ht];
     assert (mbs y' = MbInit.ST_IDLE) as Hm' by (apply mb_off; [by rewrite Hs|done]);
     assert (trs y' = MbTrain.ST_IDLE) as Ht' by (apply trn_off; [by rewrite Hs|done]);
     unfold stuck; rewrite Hm', Ht';
     change (Ltssm.state (ltssm y')) with (Ltssm.next_state (Control.timeouts p) li (ltssm y));
     unfold Ltssm.next_state; rewrite Hs; repeat (match goal with |- context [if ?b then _ else _] => destruct b end);
     (split; [by left|first [done|by left]])).
Qed.
End Cycle.

Lemma stuck_down y : stuck y → up y = false.
Proof. intros H. apply bool_decide_eq_false. intros E. unfold stuck in H. by rewrite E in H. Qed.

(** A wired pair in step. *)
Definition wired (s : pair) : Prop := ∃ y m, s = mkPair y y m m ∧ in_step y m ∧ stuck y.

Lemma wired_step c s : training_pins c = None → wired s → wired (pair_step p c s).
Proof.
  intros Hc (y & m & -> & Hy & Hs). pose proof Hy as [H Hst _ _ _]. rewrite in_step_pair by done. cbn zeta.
  eexists _, _. split; [done|]. assert (stuck (step p (die_in c None y m y) y)) as Hs' by by apply stuck_step.
  split; [|done]. destruct (in_step_step p Hpt c y m) as [?|Hf]; [by intros ? E; rewrite Hc in E|done|done|].
  pose proof (active_up _ (fl_active_a _ _ _ Hf)) as E. cbn [die_a] in E. by rewrite stuck_down in E.
Qed.

Lemma wired_reset : wired (reset (link p)).
Proof. eexists _, _. split; [done|]. split; [by apply in_step_reset|]. split; by left. Qed.

Lemma wired_run ins : Forall (λ c, training_pins c = None) ins → wired (run (link p) (reset (link p)) ins).
Proof. intros Hi. apply (run_invariant (link p) wired (λ c, training_pins c = None)); [|done|apply wired_reset]. intros c s. apply wired_step. Qed.

(** ** Training ends in an error *)

Context (Hp : bounded (Control.timeouts p)).

(** Stable power and clocks, and adapters that ask for ACTIVE. *)
Definition requesting (c : cycle) : Prop :=
  let i := common c in
  lp_state_req i = 1 ∧ power_stable i = true ∧ sb_clk_stable i = true ∧ mb_clk_stable i = true ∧ mb_clk_slow i = true ∧
  soc_reset_n i = true.

Lemma pair_trained ins : ∀ s n,
  Forall requesting ins → orderly (Control.timeouts p) Hp (ltssm (die_a s)) → training (ltssm (die_a s)) = true →
  budget (Control.timeouts p) Hp (ltssm (die_a s)) ≤ n → n ≤ Z.of_nat (length ins) →
  ∃ k, Z.of_nat k ≤ n ∧ trained (ltssm (die_a (run (link p) s (take k ins)))) = true.
Proof.
  induction ins as [|c ins IH]; intros s n Hi Ho Hs Hb Hn;
    pose proof (budget_pos (Control.timeouts p) Hp (ltssm (die_a s)) Ho Hs); [cbn in Hn; lia|].
  apply Forall_cons in Hi as [Hi Hins].
  pose proof (requested_ready p (control_in (in_a c s) (die_a s)) (ctl (die_a s)) Hi Hs) as Hr.
  destruct (budget_step (Control.timeouts p) Hp (ltssm_in p (in_a c s) (die_a s)) (ltssm (die_a s)) Hr Ho Hs) as [Hd|[Hs' Hb']].
  - exists 1%nat. split; [lia|]. exact Hd.
  - destruct (IH (pair_step p c s) (n - 1)) as (k & Hk & Ht);
      [done|by apply (orderly_step _ Hp (ltssm_in p (in_a c s) (die_a s)))|done|etrans; [exact Hb'|lia]|cbn in Hn; lia|].
    exists (Datatypes.S k). split; [lia|]. exact Ht.
Qed.

Definition bound : Z := Ltssm.RESET_TIMER_CYCLES (Control.timeouts p) + 3 + training_time (Control.timeouts p).

End Wired.

Definition demo_wired : cycle := mkCycle PairTraining.demo_inputs None None None.

Lemma demo_phy_bounded : bounded (Control.timeouts PairTraining.demo_phy).
Proof. split; cbn; lia. Qed.

End PairWired.
